(* ===== verification/_CoqProject ===== *)
-Q . S2P
Prelude.v
RustString.v
Float64.v
Kube.v
Crd.v
StateStore.v
MemoryStore.v
PostgresStore.v
StoreTheorems.v
InceptorEffects.v
Effects.v
Strategy.v
Promotion.v
Status.v
World.v
External.v
Names.v
NamesTheorems.v
SipHash.v
Lease.v
LeaseTheorems.v
Deployments.v
Auth.v
Plugins.v
PluginsTheorems.v
Sdk.v
SdkNames.v
SdkTheorems.v
JsonDecode.v
HttpPlugin.v
QueuePlugins.v
QueueManagers.v
RabbitMq.v
RabbitWorkers.v
RabbitLifecycle.v
RabbitManager.v
Nats.v
NatsWorkers.v
NatsLifecycle.v
NatsManager.v
ServiceBus.v
ServiceBusClient.v
ServiceBusWorkers.v
ServiceBusLifecycle.v
ServiceBusManager.v
CosmosStore.v
PostgresSchema.v
SharedCells.v
Resources.v
PluginLifecycle.v
Phases.v
Controller.v
Footprint.v
Outcomes.v
ControllerTheorems.v
LeaseExclusion.v
ResourcesTheorems.v
PhasesTheorems.v
PassTheorems.v
HttpApi.v
Tracker.v
HttpTheorems.v
TrackerTheorems.v
HttpPluginTheorems.v
QueueTheorems.v
NatsTheorems.v
NatsServer.v
NatsManagerTheorems.v
RabbitTheorems.v
RabbitManagerTheorems.v
ServiceBusTheorems.v
ServiceBusTokens.v
ServiceBusScope.v
ServiceBusDrain.v
ServiceBusServer.v
ServiceBusManagerTheorems.v
CosmosTheorems.v
CosmosServer.v
CosmosRefinement.v
Startup.v
