(* ===== verification/Prelude.v ===== *)
(** * FluidBG operator: a verification library

    The FluidBG operator runs blue-green rollouts on Kubernetes.  A
    [BlueGreenDeployment] names a family of deployments; when its specification
    changes the operator deploys a candidate beside the current green deployment,
    starts the plugins of its inception points, collects test cases, decides from
    their verdicts to promote or to roll back, drains the plugins and cleans up.
    A plugin is an inceptor, which sits in the traffic of a deployment, and for
    message brokers a manager, which creates and deletes the queues the inceptors
    use.  This library models the Rust sources of the operator ([operator/src]), the
    plugin SDK ([sdk/rust/src]), the HTTP plugin ([plugins/http/src]), the
    RabbitMQ plugin ([plugins/rabbitmq/src]), the NATS plugin
    ([plugins/nats/src]) and the Azure Service Bus plugin
    ([plugins/azure_servicebus/src]); all are directories of [src/].

    ** The parts of the program and where they are modelled

    - The resources and wire types ([operator/src/crd], [sdk/rust/src/models.rs]):
      [Crd]; the Kubernetes objects they are made of: [Kube].
    - The test-case store ([operator/src/state_store]): [StateStore] has the record,
      the trait as the class [StateStore] of its twelve operations in state-passing form,
      the contract (modules [Spec] and [Contract], a relation where the contract leaves
      open what a registration that is repeated does to a deadline) and the class [StoreRefines] by which an
      implementation meets it; [MemoryStore.Memory] is [memory.rs],
      [PostgresStore.Pg] is [postgres.rs] with each SQL statement as a function on
      a table; [CosmosStore.Cosmos] is [cosmos.rs], whose operations are programs of
      REST calls, with the tokens of [azure_identity.rs] in its Module [AzureIdentity];
      [PostgresSchema.Schema] is the connection pool of [postgres.rs] and the
      migration of its schema, run against a database that may be at any step of it.
    - Promotion strategies and the evaluator ([operator/src/strategy],
      [operator/src/evaluator.rs]): [Strategy]; the decision and the validation of
      [operator/src/controller/promotion.rs]: [Promotion].
    - Status updates and the phase transition check
      ([operator/src/controller/status.rs]): [Status].
    - Reconcile leases ([operator/src/controller/lease.rs]): [Lease].
    - Names the operator generates (in [lease.rs], [deployments.rs],
      [resources.rs], [plugins/reconciler.rs] and [controller.rs]): [Names].
    - Deployments, labels and assignments ([operator/src/controller/deployments.rs]):
      [Deployments].
    - Tokens of plugins ([sdk/rust/src/auth.rs]): [Auth].
    - Plugin validation, templates and inceptor manifests
      ([operator/src/validation.rs], [operator/src/plugins]): [Plugins].
    - Generated resources, manifests, cleanup
      ([operator/src/controller/resources.rs]): [Resources].
    - Calls to inceptors and managers
      ([operator/src/controller/plugin_lifecycle.rs]): [PluginLifecycle].
    - The phases ([operator/src/controller/phases]): [Phases].
    - The reconcile pass, locks, finalizers, the snapshot, orphan cleanup
      ([operator/src/controller.rs]): [Controller].
    - The HTTP API ([operator/src/http_api.rs]): [HttpApi]; the tracker of pending
      cases ([operator/src/inception.rs]): [Tracker].
    - The plugin SDK ([config.rs], [fields.rs], [http.rs], [roles.rs], [routing.rs],
      [runtime.rs], [notify.rs] of [sdk/rust/src]): [Sdk], with the hash of
      [routing.rs] in [SipHash] and the derived names of [resources.rs] in
      [SdkNames]; the serde decoders of configurations: [JsonDecode].
    - The HTTP plugin: [HttpPlugin].
    - The RabbitMQ plugin: [RabbitMq] ([config.rs], [amqp.rs], [filtering.rs],
      [assignments.rs]), [RabbitWorkers] ([input.rs], [combiner.rs]),
      [RabbitLifecycle] ([management.rs], [lifecycle.rs], [writer.rs]) and
      [RabbitManager] ([manager.rs]).
    - The NATS plugin, over JetStream and over plain subjects: [Nats] ([config.rs],
      [nats.rs], [filtering.rs], [assignments.rs]), [NatsWorkers] ([input.rs],
      [combiner.rs]), [NatsLifecycle] ([lifecycle.rs], [writer.rs]) and
      [NatsManager] ([manager.rs]).
    - The Azure Service Bus plugin: [ServiceBus] ([config.rs], [filtering.rs],
      [assignments.rs]), [ServiceBusClient] ([servicebus.rs]: signatures and tokens,
      queues over the namespace's interface and over Resource Manager, messages),
      [ServiceBusWorkers] ([input.rs], [combiner.rs]), [ServiceBusLifecycle]
      ([lifecycle.rs], [writer.rs]) and [ServiceBusManager] ([manager.rs]).
    - The programs themselves, from their configuration to their listeners
      ([operator/src/main.rs], [operator/src/builtin_plugins.rs], the [main.rs] of each
      plugin, [sdk/rust/src/server.rs]): [Startup].
    - What the sources of the queue plugins say word for word more than once:
      [QueuePlugins] of all three, [QueueManagers] of the managers of RabbitMQ and
      Service Bus.

    ** How code corresponds to definitions

    A function of the source is a definition of the same name.  Pure code is a
    function; code that can fail returns a [result]; asynchronous code is a
    program of [Effects]: a tree whose nodes are the requests the code makes (to
    the API server, a plugin, the store, the clock, the environment, the locks)
    and whose continuations take any answer.  [exec p tr r] says that [p] may make
    the requests of the trace [tr], be answered as [tr] says, and return [r].  A
    program is a finite tree, so every pass returns for every sequence of answers.
    The state of the operator itself is what lives across requests: the lock set
    (requests [ALock] and [AUnlock]), the lease it holds, and the store.  The
    [select!] of a pass under a lease polls the pass and the renewal task in an order
    it draws each time ([ASelect]); it can drop the pass where a request makes it wait
    (every request over the network that succeeded, others when the runtime says so,
    [APended]), at a look that finds the lease lost ([APollLost]).  Everything else the code reads back from the API server.  A
    plugin keeps atomic cells (its mode, its traffic percentage, its count of
    requests in work, its readiness mask, its caches of tokens), which its tasks read and write by requests
    ([InceptorEffects]); [SharedCells] interleaves tasks over them, request by
    request.  A loop of a plugin that does not end by itself is looked at for a
    number of turns ([Sdk.loop]): [None] says that it has not ended by then.

    Mutation of a local value is a [let]; a builder of a Kubernetes object is the
    record with its members.  Integers are [Z] with wrap-around at their width
    ([+i64], [+i32]); rates are binary64 numbers ([Float64]); strings are byte
    sequences ([RustString]); maps are [gmap], listed in key order where the
    source iterates a [BTreeMap]; times are milliseconds.

    ** Parameters

    Code outside the repository is a parameter: SHA-256 ([Sha256], whose law is
    the length of a digest), JSON, YAML and base64 ([Codecs]; [TokenLaws] are
    their round trips), the iteration order of a [HashMap]
    ([MemoryStore.Memory.HashOrder]) and of an unordered query
    ([PostgresStore.Pg.ScanOrder]), regular expressions ([Sdk.Regexes]), the JSON
    of message bodies ([Sdk.JsonText]; [ServiceBusTokens.SerdeJson] is its round trip
    for objects of texts), the base64 of signatures ([ServiceBusClient.StandardBase64]),
    that of Cosmos with the time formats of chrono ([CosmosStore.CosmosCodecs];
    [CosmosTheorems.Rfc3339] is their round trip),
    URLs ([QueuePlugins.Urls]), AMQP tables ([RabbitWorkers.AmqpTables]), connecting to a
    database and executing a statement in it ([PostgresSchema]), the text of a
    configuration file ([Startup.YamlText]), the manifests the operator's image contains
    ([Startup.PluginManifests]) and the router of the HTTP library ([Startup.Axum], with
    its law [AxumLaws]: a router has the endpoints of its routes and, elsewhere, its
    fallback).  Some theorems are about what the code does in
    company: [LeaseExclusion.LeaseApi] is an API server with one lease, with
    optimistic concurrency as its laws, [RabbitTheorems.Broker] a message broker
    whose queues are lists with the settings they were declared with, which drops what is
    published to a missing queue and closes the channel on a request it refuses, and [NatsTheorems.JetServer] a JetStream server whose
    streams are lists and whose consumers know what they have still to hand out and
    what is unacknowledged ([NatsServer] has one in memory),
    [CosmosTheorems.Container] a container of documents with versions, whose queries may
    be stale ([CosmosServer] has one in memory), [CosmosRefinement.Database] a container
    that answers one client consistently (one in memory is in the same file), and
    [ServiceBusDrain.BusServer] a Service Bus whose queues are lists and whose locked
    messages are set aside ([ServiceBusServer] has one in memory).  [External] and the theorem files give concrete
    instances for the witnesses, and [World] a concrete cluster; no theorem assumes
    them.

    ** What the theorems show

    - [ControllerTheorems]: a pass moves the phase only along the edges of the
      phase machine, whatever it is answered.
    - [PhasesTheorems]: promotion deletes the previous green only once the
      candidate is green and ready; observation acts on its decision and only on
      it; cleanup waits for drains and pending cases; no plugin can hold a drain
      beyond its time; and what a pass that succeeds has done.
    - [PassTheorems]: the in-process lock is held for exactly the pass; orphan
      cleanup spares every deployment that exists.
    - [LeaseTheorems], [ControllerTheorems], [Status]: a lease is taken only when
      free and work under it stops when it is lost, after at most two more requests; status writes are guarded by
      the transition check, which is characterised.
    - [LeaseExclusion]: the terms two operators hold a lease
      for do not overlap, however their requests interleave and fail.
    - [StoreTheorems]: the in-memory and the SQL store refine the contract over every sequence of
      operations and agree with each other; verdicts are final; counters add up;
      the rows of the SQL store stay well typed.  [PostgresSchema]: a migration brings
      a database that an earlier start left half migrated to the whole schema.
    - [CosmosTheorems]: in any company a decision the Cosmos store acknowledged stays
      until a clean-up asks to delete its document;
      its documents are read back as they were written.  [CosmosRefinement]: of one
      operator alone, on a consistent container whose answers are of one page, the Cosmos
      store refines the contract too, except that it ignores a repeated registration.
    - [Strategy], [Promotion]: when each strategy promotes, advances, rolls back;
      how data and custom verification combine; which validated specifications can be
      decided and which cannot.
    - [HttpTheorems], [TrackerTheorems], [Auth]: which requests may register
      a case or decide it, what the tracker reports, what a token proves.
    - [PluginsTheorems], [ResourcesTheorems], [NamesTheorems]: secrets stay in the
      secret, labels separate candidate from green, the names of inceptors, test
      instances and secrets are valid labels and do not collide.

    - [SdkTheorems]: the inceptor reads the roles the operator wrote; a payload has
      one threshold from which it goes to blue; delivery is retried and gives up as
      it says; temporary queues have valid names that do not collide.
    - [HttpPluginTheorems]: a drain report is final over all interleavings; the
      proxy calls only whom it should; the streaming path is the buffering path.
    - [RabbitTheorems]: a message is acknowledged only after it was published
      wherever it has to go; a move and a drain end and lose nothing.
    - [RabbitManagerTheorems]: a cleanup deletes an inception point's queues, all of
      them and nothing else; a sync whose inventory has the same configuration and roles
      spares what a preparation declared.
    - [NatsTheorems]: a message is acknowledged only after it is stored wherever it
      has to go and its test case is settled; a move takes a batch and loses
      nothing; a drain ends, and is reported only when every temporary subject's consumer says
      that nothing is left.
    - [NatsManagerTheorems]: streams have valid names; a cleanup deletes an
      inception point's streams, all of them; the garbage collection spares what a
      preparation created.
    - [ServiceBusTheorems]: a message is completed only after it was accepted
      wherever it has to go.  [ServiceBusDrain]: a drain ends and loses nothing.
      [ServiceBusTokens]: the tokens a manager hands out fit the requests of its
      inceptor, and [ServiceBusScope]: these are for the queues of the inceptor
      alone, but for the writes of one without the writer role; two queues never share an
      address.
    - [ServiceBusManagerTheorems]: a cleanup deletes an inception point's queues, all
      of them and nothing else; a sync spares what a preparation created.
    - [Startup]: which listener of the HTTP plugin serves which routes, and that with an
      unusable certificate none serves the control plane; what the
      installation of the built-in plugins changes in the cluster; the operator serves
      only over a store whose schema is in place.
    - [QueueTheorems] has what these share: requests that
      are safe over every execution, runs against a server ([runs]), rewritten
      configurations and the names in them.

    [Footprint] (which requests a program can make, with the tactic [footprint]
    and the hint database of the same name) and [Outcomes] (what it has done when
    it succeeds) are the two program logics; both are rules for
    [Effects.always], the weakest precondition over all executions.

    ** Bounds

    Loops of the source with a fixed number of attempts keep that number
    ([Effects.attempts]: 60 for readiness and deletion waits, 10 for plugin calls,
    32 for candidate names).  [Plugins.replace_all] takes the length of its text as
    fuel; every step consumes a character, so it is enough.  [Lease.renew_until_stopped]
    takes the number of turns of its timer, of which the guarded pass makes no use.
    The [n] of a plugin's loop bounds its turns; [RabbitTheorems.rabbit_move_completes]
    shows that one more than the messages of the queue is enough for a move,
    [ServiceBusDrain.bus_drain_completes] the same for a drain of Service Bus, and the
    safety theorems hold for every [n].  A drain of the NATS plugin moves at most
    [NatsWorkers.DRAIN_BATCH] messages of a subject, as the source says; the [n] of
    [Nats.wait_for_core_ready] counts the notifications the wait looks at.

    ** What is not modelled

    Logging; the retry and back-off inside the Kubernetes and HTTP clients and the
    enforcement of their timeouts (a timeout is an error answer); panics of the time
    library other than the one of [Duration::seconds] in the registration handler;
    [crd_gen.rs], which prints the schemas a derive macro generates; the loops of the
    kube-rs runtime and of tokio around the modelled passes; sockets (a port is taken
    to be free) and what the HTTP library does with a connection; the end-to-end tests
    ([e2e]).  A handler of a plugin is taken to run to its end (a client
    that hangs up may drop it, with the guard it holds); the sequence form of a
    struct in a configuration is not decoded; the
    confirmations of a broker are those the client library reports.

    ** What could be added

    The merge of [candidatePatch] against JSON merge patch; environment assignments
    against a reference semantics. *)

From Stdlib Require Export ZArith Lia Ascii Strings.String Bool.
From stdpp Require Export base gmap strings list option sorting pretty.
From stdpp Require Export fin_maps.

Declare Scope fbg_scope.
Delimit Scope fbg_scope with fbg.
Open Scope string_scope.
Open Scope list_scope.
Open Scope Z_scope.

(** ** Fallible results: Rust's [Result<A, E>] *)

Inductive result (E A : Type) : Type :=
| Ok (a : A)
| Err (e : E).
Arguments Ok {E A} a.
Arguments Err {E A} e.

#[export] Instance result_ret {E} : MRet (result E) := fun A a => Ok a.
#[export] Instance result_bind {E} : MBind (result E) := fun A B f r =>
  match r with Ok a => f a | Err e => Err e end.
#[export] Instance result_fmap {E} : FMap (result E) := fun A B f r =>
  match r with Ok a => Ok (f a) | Err e => Err e end.

Definition map_err {E F A} (f : E -> F) (r : result E A) : result F A :=
  match r with Ok a => Ok a | Err e => Err (f e) end.

Definition ok_or {E A} (e : E) (o : option A) : result E A :=
  match o with Some a => Ok a | None => Err e end.

Definition is_ok {E A} (r : result E A) : bool :=
  match r with Ok _ => true | Err _ => false end.

(** [Option::unwrap_or] and [Option::is_some]. *)
Definition unwrap_or {A} (d : A) (o : option A) : A := default d o.
Definition is_some {A} (o : option A) : bool := match o with Some _ => true | None => false end.
Definition is_none {A} (o : option A) : bool := negb (is_some o).

Lemma result_bind_ok {E A B} (r : result E A) (f : A -> result E B) b :
  (r ≫= f) = Ok b <-> exists a, r = Ok a /\ f a = Ok b.
Proof. destruct r; cbn; naive_solver. Qed.

Lemma result_bind_err {E A B} (r : result E A) (f : A -> result E B) e :
  (r ≫= f) = Err e <-> r = Err e \/ exists a, r = Ok a /\ f a = Err e.
Proof. destruct r; cbn; naive_solver. Qed.

(** ** Machine integers

    A [w]-bit signed integer is the [Z] in [[-2^(w-1), 2^(w-1))]; arithmetic in
    release builds wraps (the workspace's release profile leaves
    [overflow-checks] at its default, off). *)

Definition wrap_signed (w z : Z) : Z := (z + 2 ^ (w - 1)) mod 2 ^ w - 2 ^ (w - 1).
Definition in_signed (w z : Z) : Prop := - 2 ^ (w - 1) <= z < 2 ^ (w - 1).

Definition wrap_i32 (z : Z) : Z := wrap_signed 32 z.
Definition wrap_i64 (z : Z) : Z := wrap_signed 64 z.
Definition wrap_u64 (z : Z) : Z := z mod 2 ^ 64.
Definition wrap_u8 (z : Z) : Z := z mod 2 ^ 8.

Definition i32_max : Z := 2 ^ 31 - 1.
Definition i64_max : Z := 2 ^ 63 - 1.

Notation "a +i64 b" := (wrap_i64 (a + b)) (at level 50, left associativity) : fbg_scope.
Notation "a +i32 b" := (wrap_i32 (a + b)) (at level 50, left associativity) : fbg_scope.

Lemma wrap_signed_id w z : 0 < w -> in_signed w z -> wrap_signed w z = z.
Proof.
  intros Hw [Hl Hh]. unfold wrap_signed.
  assert (2 ^ w = 2 * 2 ^ (w - 1)) as E by (rewrite <- Z.pow_succ_r by lia; f_equal; lia).
  rewrite Z.mod_small by lia. lia.
Qed.

Lemma wrap_signed_range w z : 0 < w -> in_signed w (wrap_signed w z).
Proof.
  intros Hw. unfold in_signed, wrap_signed.
  assert (2 ^ w = 2 * 2 ^ (w - 1)) as E by (rewrite <- Z.pow_succ_r by lia; f_equal; lia).
  pose proof (Z.mod_pos_bound (z + 2 ^ (w - 1)) (2 ^ w)). lia.
Qed.

Lemma wrap_i64_id z : in_signed 64 z -> wrap_i64 z = z.
Proof. intros; apply wrap_signed_id; [lia | done]. Qed.

Lemma wrap_i32_id z : in_signed 32 z -> wrap_i32 z = z.
Proof. intros; apply wrap_signed_id; [lia | done]. Qed.

Lemma in_signed_64 z : in_signed 64 z <-> - 9223372036854775808 <= z < 9223372036854775808.
Proof. reflexivity. Qed.

Lemma in_signed_32 z : in_signed 32 z <-> - 2147483648 <= z < 2147483648.
Proof. reflexivity. Qed.

#[global] Arguments String.append !_ _ / : simpl nomatch.
#[global] Arguments String.length !_ / : simpl nomatch.

(** ** [BTreeMap] order *)

(** The entries of a map in key order. *)
Definition entry_le {A} (p q : string * A) : Prop := Is_true (String.leb p.1 q.1).
#[export] Instance entry_le_dec {A} (p q : string * A) : Decision (entry_le p q).
Proof. unfold entry_le. apply _. Defined.
Definition sorted_entries {A} (m : gmap string A) : list (string * A) :=
  merge_sort entry_le (map_to_list m).
