(* ===== verification/RustString.v ===== *)
(** * Rust strings

    A Rust [String] or [&str] is a valid UTF-8 byte sequence; it is modelled by
    a [string] whose [ascii]s are its bytes.  [str::len] is the number of bytes.
    The functions below are the ones of [core::str] and [char] the operator and
    the plugin SDK use: splitting, trimming, prefixes, the ASCII classes, and
    the iteration over the characters of a string. *)

From S2P Require Import Prelude.

(** ** ASCII classes *)

Definition code (c : ascii) : N := N_of_ascii c.
Definition in_range (lo hi : N) (c : ascii) : bool := (N.leb lo (code c) && N.leb (code c) hi)%bool.

Definition is_ascii_digit (c : ascii) : bool := in_range 48 57 c.
Definition is_ascii_lowercase (c : ascii) : bool := in_range 97 122 c.
Definition is_ascii_uppercase (c : ascii) : bool := in_range 65 90 c.
Definition is_ascii_alphanumeric (c : ascii) : bool :=
  (is_ascii_digit c || is_ascii_lowercase c || is_ascii_uppercase c)%bool.
Definition to_ascii_lowercase (c : ascii) : ascii :=
  if is_ascii_uppercase c then ascii_of_N (code c + 32) else c.

(** The characters of a Kubernetes DNS label: lower-case letters, digits, dash. *)
Definition dns_char (c : ascii) : bool :=
  (is_ascii_digit c || is_ascii_lowercase c || Ascii.eqb c "-")%bool.

Lemma lowercase_alnum_dns c :
  is_ascii_alphanumeric c = true -> dns_char (to_ascii_lowercase c) = true.
Proof. destruct c as [[] [] [] [] [] [] [] []]; vm_compute; congruence. Qed.

(** ** Bytes *)

Notation bytes := list_ascii_of_string.
Notation of_bytes := string_of_list_ascii.

Lemma of_bytes_bytes s : of_bytes (bytes s) = s.
Proof. apply string_of_list_ascii_of_string. Qed.
Lemma bytes_of_bytes l : bytes (of_bytes l) = l.
Proof. apply list_ascii_of_string_of_list_ascii. Qed.
Lemma bytes_app s t : bytes (s +:+ t) = bytes s ++ bytes t.
Proof. induction s as [|c s IH]; [done|]. cbn. f_equal. exact IH. Qed.
Lemma length_bytes s : length (bytes s) = String.length s.
Proof. induction s; cbn; congruence. Qed.
Lemma length_of_bytes l : String.length (of_bytes l) = length l.
Proof. induction l; cbn; congruence. Qed.
Lemma bytes_inj s t : bytes s = bytes t -> s = t.
Proof. intros H. rewrite <- (of_bytes_bytes s), H. apply of_bytes_bytes. Qed.
Lemma length_sapp (s t : string) :
  String.length (s +:+ t) = (String.length s + String.length t)%nat.
Proof. rewrite <- !length_bytes, bytes_app, length_app. done. Qed.
Lemma sapp_nil_r (s : string) : s +:+ "" = s.
Proof. induction s as [|c s IH]; [done|]. cbn. f_equal. exact IH. Qed.
Lemma sapp_assoc (s t u : string) : (s +:+ t) +:+ u = s +:+ (t +:+ u).
Proof. induction s as [|c s IH]; [done|]. cbn. f_equal. exact IH. Qed.
Lemma sapp_inv_l (s t u : string) : s +:+ t = s +:+ u -> t = u.
Proof. induction s as [|c s IH]; cbn; [done|]. intros [=]. auto. Qed.

(** Every byte of [s] satisfies [p]. *)
Definition all_bytes (p : ascii -> bool) (s : string) : bool := forallb p (bytes s).

Lemma all_bytes_app p s t : all_bytes p (s +:+ t) = (all_bytes p s && all_bytes p t)%bool.
Proof. unfold all_bytes. rewrite bytes_app. apply forallb_app. Qed.
Lemma all_bytes_of_bytes p l : all_bytes p (of_bytes l) = forallb p l.
Proof. unfold all_bytes. rewrite bytes_of_bytes. done. Qed.

(** [str::is_empty], [str::contains] for a single-byte character. *)
Definition is_empty (s : string) : bool := String.eqb s "".
Definition contains (c : ascii) (s : string) : bool := existsb (Ascii.eqb c) (bytes s).

Lemma is_empty_true s : is_empty s = true <-> s = "".
Proof. apply String.eqb_eq. Qed.

(** ** Splitting at a single-byte separator *)

(** [str::split_once]. *)
Fixpoint split_once (c : ascii) (s : string) : option (string * string) :=
  match s with
  | EmptyString => None
  | String x s' =>
      if Ascii.eqb x c then Some ("", s')
      else match split_once c s' with
           | Some (l, r) => Some (String x l, r)
           | None => None
           end
  end.

Lemma split_once_app c s t :
  contains c s = false -> split_once c (s +:+ String c t) = Some (s, t).
Proof.
  induction s as [|x s IH]; cbn; [by rewrite Ascii.eqb_refl|].
  intros [Hx Hs]%orb_false_elim. rewrite Ascii.eqb_sym, Hx.
  fold (append s (String c t)). by rewrite IH.
Qed.

Lemma split_once_Some c s l r :
  split_once c s = Some (l, r) -> s = l +:+ String c r /\ contains c l = false.
Proof.
  revert l r. induction s as [|x s IH]; intros l r; cbn; [done|].
  destruct (Ascii.eqb_spec x c) as [->|Hx]; [intros [= <- <-]; done|].
  destruct (split_once c s) as [[l' r']|] eqn:E; [|done]. intros [= <- <-].
  destruct (IH l' r' eq_refl) as [-> Hl]. split; [done|].
  cbn. apply orb_false_iff. split; [|done]. apply Ascii.eqb_neq. congruence.
Qed.

Lemma split_once_None c s : split_once c s = None <-> contains c s = false.
Proof.
  induction s as [|x s IH]; [done|]. unfold contains in *. cbn.
  rewrite orb_false_iff, Ascii.eqb_sym, <- IH.
  destruct (Ascii.eqb_spec c x); [naive_solver|].
  destruct (split_once c s) as [[??]|]; naive_solver.
Qed.

(** Two strings joined by a separator the left parts do not contain determine
    both parts. *)
Lemma sep_app_inj c (a1 b1 a2 b2 : string) :
  contains c a1 = false -> contains c a2 = false ->
  a1 +:+ String c b1 = a2 +:+ String c b2 -> a1 = a2 /\ b1 = b2.
Proof.
  intros H1 H2 E. pose proof (split_once_app c a1 b1 H1) as S1.
  rewrite E, (split_once_app c a2 b2 H2) in S1. by simplify_eq.
Qed.

(** [str::split]: the pieces between the separators; one piece when there is none. *)
Fixpoint split (c : ascii) (s : string) : list string :=
  match s with
  | EmptyString => [""]
  | String x s' =>
      if Ascii.eqb x c then "" :: split c s'
      else match split c s' with
           | p :: ps => String x p :: ps
           | [] => [String x ""]
           end
  end.

Lemma split_nonempty c s : split c s <> [].
Proof.
  destruct s; cbn; [done|]. destruct (Ascii.eqb _ _); [done|]. by destruct (split c s).
Qed.

Lemma split_none c s : contains c s = false -> split c s = [s].
Proof.
  induction s as [|x s IH]; [done|]. cbn. intros [Hx Hs]%orb_false_elim.
  rewrite Ascii.eqb_sym, Hx, IH; done.
Qed.

Lemma split_app c s t :
  contains c s = false -> split c (s +:+ String c t) = s :: split c t.
Proof.
  induction s as [|x s IH]; cbn; [by rewrite Ascii.eqb_refl|].
  intros [Hx Hs]%orb_false_elim. rewrite Ascii.eqb_sym, Hx.
  fold (append s (String c t)). by rewrite IH.
Qed.

(** ** Prefixes *)

(** [str::strip_prefix]. *)
Fixpoint strip_prefix (p s : string) : option string :=
  match p, s with
  | EmptyString, _ => Some s
  | String x p', String y s' => if Ascii.eqb x y then strip_prefix p' s' else None
  | String _ _, EmptyString => None
  end.
Definition starts_with (p s : string) : bool := is_some (strip_prefix p s).
Definition ends_with (suffix s : string) : bool := starts_with (of_bytes (rev (bytes suffix))) (of_bytes (rev (bytes s))).
Definition newline : string := String "010" "".

Lemma strip_prefix_app p s : strip_prefix p (p +:+ s) = Some s.
Proof. induction p as [|x p IH]; [by destruct s|]. cbn. by rewrite Ascii.eqb_refl. Qed.

Lemma strip_prefix_Some p s t : strip_prefix p s = Some t <-> s = p +:+ t.
Proof.
  split; [|intros ->; apply strip_prefix_app].
  revert s. induction p as [|x p IH]; intros s; cbn; [by intros [= ->]|].
  destruct s as [|y s]; [done|]. destruct (Ascii.eqb_spec x y) as [->|]; [|done].
  intros ->%IH. done.
Qed.

(** ** Trimming a single-byte character *)

Fixpoint drop_while {A} (p : A -> bool) (l : list A) : list A :=
  match l with x :: l' => if p x then drop_while p l' else l | [] => [] end.

Definition trim_start_matches (c : ascii) (s : string) : string :=
  of_bytes (drop_while (Ascii.eqb c) (bytes s)).
Definition trim_end_matches (c : ascii) (s : string) : string :=
  of_bytes (rev (drop_while (Ascii.eqb c) (rev (bytes s)))).
Definition trim_matches (c : ascii) (s : string) : string :=
  trim_end_matches c (trim_start_matches c s).

Lemma drop_while_suffix {A} (p : A -> bool) l : exists l', l = l' ++ drop_while p l.
Proof.
  induction l as [|x l [l' IH]]; [by exists []|]. cbn. destruct (p x); [|by exists []].
  exists (x :: l'). cbn. by f_equal.
Qed.

Lemma forallb_drop_while {A} (q p : A -> bool) l :
  forallb q l = true -> forallb q (drop_while p l) = true.
Proof.
  intros H. destruct (drop_while_suffix p l) as [l' E]. rewrite E, forallb_app in H.
  by apply andb_true_iff in H as [_ ?].
Qed.

Lemma forallb_rev {A} (q : A -> bool) l : forallb q (rev l) = forallb q l.
Proof.
  induction l as [|x l IH]; [done|]. cbn. rewrite forallb_app, IH. cbn.
  rewrite andb_true_r. apply andb_comm.
Qed.

Lemma all_bytes_trim q c s : all_bytes q s = true -> all_bytes q (trim_matches c s) = true.
Proof.
  intros H. unfold trim_matches, trim_end_matches, trim_start_matches.
  rewrite !all_bytes_of_bytes, bytes_of_bytes, forallb_rev.
  by apply forallb_drop_while; rewrite forallb_rev; apply forallb_drop_while.
Qed.

Lemma length_drop_while {A} (p : A -> bool) l : (length (drop_while p l) <= length l)%nat.
Proof. destruct (drop_while_suffix p l) as [l' E]. rewrite E at 2. rewrite length_app. lia. Qed.

Lemma length_trim c s : (String.length (trim_matches c s) <= String.length s)%nat.
Proof.
  unfold trim_matches, trim_end_matches, trim_start_matches.
  rewrite !length_of_bytes, bytes_of_bytes, length_rev.
  etransitivity; [apply length_drop_while|]. rewrite length_rev.
  etransitivity; [apply length_drop_while|]. by rewrite length_bytes.
Qed.

(** ** Characters

    [str::chars] yields one item per Unicode scalar value, a leading byte with
    the continuation bytes [10xxxxxx] that follow it. *)

Definition uchar := list ascii.
Definition is_continuation (c : ascii) : bool := in_range 128 191 c.

Fixpoint chars_of (l : list ascii) : list uchar :=
  match l with
  | [] => []
  | b :: l' =>
      match chars_of l' with
      | (c :: w) :: rest => if is_continuation c then (b :: c :: w) :: rest
                            else [b] :: (c :: w) :: rest
      | cs => [b] :: cs
      end
  end.
Definition chars (s : string) : list uchar := chars_of (bytes s).
Definition of_chars (cs : list uchar) : string := of_bytes (concat cs).

Lemma concat_chars_of l : concat (chars_of l) = l.
Proof.
  induction l as [|b l IH]; [done|]. cbn.
  destruct (chars_of l) as [|[|c w] rest]; cbn in *; [by f_equal..|].
  destruct (is_continuation c); cbn; by f_equal.
Qed.

Lemma of_chars_chars s : of_chars (chars s) = s.
Proof. unfold of_chars, chars. rewrite concat_chars_of. apply of_bytes_bytes. Qed.

Lemma length_chars_of l : (length (chars_of l) <= length l)%nat.
Proof.
  induction l as [|b l IH]; [done|]. cbn.
  destruct (chars_of l) as [|[|c w] rest]; cbn in *; [lia..|].
  destruct (is_continuation c); cbn; lia.
Qed.

(** The ASCII classes of [char] on a whole character. *)
Definition uchar_ascii (p : ascii -> bool) (c : uchar) : bool :=
  match c with [b] => (N.ltb (code b) 128 && p b)%bool | _ => false end.
Definition uchar_is (c : ascii) (u : uchar) : bool := uchar_ascii (Ascii.eqb c) u.
Definition uchar_lower (u : uchar) : uchar :=
  match u with [b] => [to_ascii_lowercase b] | _ => u end.

(** [format!("{byte:02x}")] and [char::from_digit(n, 16)]. *)
Definition hex_digit (n : N) : ascii :=
  if N.ltb n 10 then ascii_of_N (48 + n) else ascii_of_N (87 + n).
Definition hex_byte (b : ascii) : string :=
  String (hex_digit (code b / 16)) (String (hex_digit (code b mod 16)) "").
Definition hex_string (l : list ascii) : string := String.concat "" (map hex_byte l).

Lemma hex_byte_dns b : all_bytes dns_char (hex_byte b) = true.
Proof. destruct b as [[] [] [] [] [] [] [] []]; reflexivity. Qed.

Lemma concat_cons_nil (x : string) l :
  String.concat "" (x :: l) = x +:+ String.concat "" l.
Proof. destruct l; cbn; [by rewrite sapp_nil_r|done]. Qed.

Lemma hex_string_length l : String.length (hex_string l) = (2 * length l)%nat.
Proof.
  unfold hex_string. induction l as [|b l IH]; [done|].
  cbn [map]. rewrite concat_cons_nil, length_sapp, IH. cbn. lia.
Qed.

Lemma hex_string_dns l : all_bytes dns_char (hex_string l) = true.
Proof.
  unfold hex_string. induction l as [|b l IH]; [done|].
  cbn [map]. by rewrite concat_cons_nil, all_bytes_app, hex_byte_dns, IH.
Qed.

(** Decimal rendering of an integer ([Display] for the integer types). *)
Definition show_Z (z : Z) : string := pretty z.

#[export] Hint Rewrite length_sapp length_of_bytes length_bytes hex_string_length
  all_bytes_app all_bytes_of_bytes hex_string_dns : rust_string.

(** Examples of the conventions. *)
Example split_once_ex : split_once "/" "apps/orders/x" = Some ("apps", "orders/x").
Proof. reflexivity. Qed.
Example split_ex : split "." "a.b." = ["a"; "b"; ""].
Proof. reflexivity. Qed.
Example trim_ex : trim_matches "-" "--a-b-" = "a-b".
Proof. reflexivity. Qed.
