(* ===== verification/Float64.v ===== *)
(** * IEEE-754 binary64

    Success rates are [f64]s: quotients of two [i64] counters compared with a
    configured threshold.  The operations are the ones of the Standard Library's
    executable specification of IEEE-754 arithmetic ([SpecFloat]), at precision
    53 and exponent bound 1024, so that every rounding of the program is a
    rounding of the model. *)

From S2P Require Import Prelude.
From Stdlib Require Import SpecFloat.

Definition f64 : Type := spec_float.
Definition prec : Z := 53.
Definition emax : Z := 1024.

(** [z as f64]: round to nearest, ties to even. *)
Definition f64_of_i64 (z : Z) : f64 := binary_normalize prec emax z 0 false.
(** [x / y]. *)
Definition f64_div (x y : f64) : f64 := SFdiv prec emax x y.
(** [x < y] and [x >= y]: both false when an operand is NaN. *)
Definition f64_lt (x y : f64) : bool := SFltb x y.
Definition f64_ge (x y : f64) : bool := SFleb y x.
(** The literals [0.0] and [1.0], and the literal [n/d] (correctly rounded). *)
Definition f64_zero : f64 := S754_zero false.
Definition f64_one : f64 := S754_finite false 4503599627370496 (-52).
Definition f64_ratio (n d : Z) : f64 := f64_div (f64_of_i64 n) (f64_of_i64 d).

Definition is_nan (x : f64) : bool := match x with S754_nan => true | _ => false end.

(** ** Comparisons *)

Lemma pos_compare_cont_antisym p q :
  Pos.compare_cont Eq q p = CompOpp (Pos.compare_cont Eq p q).
Proof. change (Pos.compare q p = CompOpp (Pos.compare p q)). apply Pos.compare_antisym. Qed.

Definition mantissa_compare (m1 : positive) (e1 : Z) (m2 : positive) (e2 : Z) : comparison :=
  match Z.compare e1 e2 with Lt => Lt | Gt => Gt | Eq => Pos.compare_cont Eq m1 m2 end.

Lemma mantissa_compare_antisym m1 e1 m2 e2 :
  mantissa_compare m2 e2 m1 e1 = CompOpp (mantissa_compare m1 e1 m2 e2).
Proof.
  unfold mantissa_compare. rewrite (Z.compare_antisym e1 e2), (pos_compare_cont_antisym m1 m2).
  destruct (Z.compare e1 e2); reflexivity.
Qed.

Lemma SFcompare_finite s1 m1 e1 s2 m2 e2 :
  SFcompare (S754_finite s1 m1 e1) (S754_finite s2 m2 e2) =
  Some (match s1, s2 with
        | true, false => Lt
        | false, true => Gt
        | false, false => mantissa_compare m1 e1 m2 e2
        | true, true => CompOpp (mantissa_compare m1 e1 m2 e2)
        end).
Proof. unfold mantissa_compare. destruct s1, s2; cbn; try destruct (Z.compare e1 e2); reflexivity. Qed.

Lemma SFcompare_antisym x y :
  SFcompare y x = option_map CompOpp (SFcompare x y).
Proof.
  destruct x as [[]|[]| |s1 m1 e1], y as [[]|[]| |s2 m2 e2];
    try (destruct s1); try (destruct s2); try reflexivity;
    rewrite !SFcompare_finite, (mantissa_compare_antisym m1 e1 m2 e2); reflexivity.
Qed.

Lemma SFcompare_nan x y : SFcompare x y = None <-> is_nan x = true \/ is_nan y = true.
Proof.
  destruct x as [[]|[]| |s1 m1 e1], y as [[]|[]| |s2 m2 e2];
    try (destruct s1); try (destruct s2); cbn; split; (intros [|] || intros ?); try done; auto.
Qed.

(** Away from NaN, [>=] is the negation of [<]; with a NaN both are false. *)
Lemma f64_ge_not_lt x y :
  is_nan x = false -> is_nan y = false -> f64_ge x y = negb (f64_lt x y).
Proof.
  intros Hx Hy. unfold f64_ge, f64_lt, SFleb, SFltb. rewrite (SFcompare_antisym x y).
  destruct (SFcompare x y) as [[]|] eqn:E; try done.
  apply SFcompare_nan in E as [E|E]; congruence.
Qed.

Lemma f64_lt_not_ge x y : f64_lt x y = true -> f64_ge x y = false.
Proof.
  unfold f64_ge, f64_lt, SFleb, SFltb. rewrite (SFcompare_antisym x y).
  by destruct (SFcompare x y) as [[]|].
Qed.

Lemma f64_ge_refl x : is_nan x = false -> f64_ge x x = true.
Proof.
  unfold f64_ge, SFleb. destruct x as [[]|[]| |s m e]; try done. intros _.
  rewrite SFcompare_finite. unfold mantissa_compare. rewrite Z.compare_refl.
  change (Pos.compare_cont Eq m m) with (Pos.compare m m). rewrite Pos.compare_refl.
  by destruct s.
Qed.

(** ** A quotient of equal counters is exactly [1.0] *)

Lemma digits2_pos_spec p :
  2 ^ (Zpos (digits2_pos p) - 1) <= Zpos p < 2 ^ Zpos (digits2_pos p).
Proof.
  induction p as [p IH|p IH|]; cbn [digits2_pos]; [..|done];
    rewrite Pos2Z.inj_succ, <- Z.add_1_r; set (d := Zpos (digits2_pos p)) in *;
    assert (1 <= d) by (unfold d; lia);
    replace (2 ^ (d + 1)) with (2 * 2 ^ d) by (rewrite Z.pow_add_r by lia; lia);
    replace (2 ^ (d + 1 - 1)) with (2 * 2 ^ (d - 1))
      by (rewrite <- Z.pow_succ_r by lia; f_equal; lia); lia.
Qed.

Lemma digits2_pos_unique p d :
  0 <= d -> 2 ^ d <= Zpos p < 2 ^ (d + 1) -> Zpos (digits2_pos p) = d + 1.
Proof.
  intros Hd [Hl Hh]. pose proof (digits2_pos_spec p) as [Hl' Hh'].
  set (d' := Zpos (digits2_pos p)) in *. assert (1 <= d') by (unfold d'; lia).
  destruct (Z_lt_le_dec d' (d + 1)).
  - pose proof (Z.pow_le_mono_r 2 d' d). lia.
  - destruct (Z_lt_le_dec (d + 1) d'); [|lia].
    pose proof (Z.pow_le_mono_r 2 (d + 1) (d' - 1)). lia.
Qed.

Lemma iter_xO n p : Zpos (Pos.iter xO p n) = Zpos p * 2 ^ Zpos n.
Proof.
  induction n as [|n IH] using Pos.peano_ind; [cbn; lia|].
  rewrite Pos.iter_succ, Pos2Z.inj_xO, IH, Pos2Z.inj_succ, Z.pow_succ_r by lia. lia.
Qed.

(** A counter below [2^53] is represented exactly, with a full mantissa. *)
Lemma f64_of_i64_exact p :
  Zpos p < 2 ^ 53 ->
  exists m e, f64_of_i64 (Zpos p) = S754_finite false m e /\
    Zpos (digits2_pos m) = 53 /\ Zpos m = Zpos p * 2 ^ (- e) /\
    e = Zpos (digits2_pos p) - 53.
Proof.
  intros Hp. pose proof (digits2_pos_spec p) as Hd.
  remember (Zpos (digits2_pos p)) as d eqn:Ed.
  assert (1 <= d <= 53).
  { split; [lia|]. destruct (Z_le_gt_dec d 53); [done|].
    pose proof (Z.pow_le_mono_r 2 53 (d - 1)). lia. }
  set (m := match - (53 - d) with Zneg k => Pos.iter xO p k | _ => p end).
  assert (Hm : Zpos m = Zpos p * 2 ^ (53 - d)).
  { unfold m. destruct (Z.eq_dec d 53) as [E53|]; [rewrite E53; change (53 - 53) with 0;
      by rewrite Z.pow_0_r, Z.mul_1_r|].
    destruct (53 - d) as [|k|k] eqn:Ek; [lia| |lia].
    change (- Z.pos k) with (Z.neg k). apply iter_xO. }
  assert (Hdm : Zpos (digits2_pos m) = 53).
  { apply (digits2_pos_unique m 52); [lia|]. rewrite Hm.
    replace (2 ^ 52) with (2 ^ (d - 1) * 2 ^ (53 - d)) by (rewrite <- Z.pow_add_r by lia; f_equal; lia).
    replace (2 ^ (52 + 1)) with (2 ^ d * 2 ^ (53 - d)) by (rewrite <- Z.pow_add_r by lia; f_equal; lia).
    pose proof (Z.pow_pos_nonneg 2 (53 - d)). nia. }
  exists m, (d - 53). split; [|repeat split; [done| rewrite Hm; f_equal; f_equal; lia]].
  unfold f64_of_i64, binary_normalize, binary_round.
  assert (shl_align p 0 (fexp prec emax (Zpos (digits2_pos p) + 0)) = (m, d - 53)) as ->.
  { rewrite <- Ed. unfold fexp, emin, prec, emax, shl_align, m.
    replace (Z.max (d + 0 - 53) (3 - 1024 - 53)) with (d - 53) by lia.
    replace (- (53 - d)) with (d - 53 - 0) by lia.
    destruct (d - 53 - 0) eqn:E; try done; try (f_equal; lia); lia. }
  unfold binary_round_aux, shr_fexp. cbn [Zdigits2]. rewrite Hdm.
  unfold fexp, emin, prec, emax.
  replace (Z.max (53 + (d - 53) - 53) (3 - 1024 - 53) - (d - 53)) with 0 by lia.
  cbn. rewrite Hdm.
  replace (Z.max (53 + (d - 53) - 53) (3 - 1024 - 53) - (d - 53)) with 0 by lia. cbn.
  destruct (Z.leb_spec (d - 53) (1024 - 53)); [reflexivity|lia].
Qed.

Lemma f64_of_i64_not_nan z : 0 <= z < 2 ^ 53 -> is_nan (f64_of_i64 z) = false.
Proof.
  intros [Hz Hh]. destruct z as [|p|p]; [done| |lia].
  by destruct (f64_of_i64_exact p Hh) as (m & e & -> & _).
Qed.

Lemma f64_div_self z : 0 < z < 2 ^ 53 -> f64_div (f64_of_i64 z) (f64_of_i64 z) = f64_one.
Proof.
  intros [Hz Hh]. destruct z as [|p|p]; [lia| |lia].
  destruct (f64_of_i64_exact p Hh) as (m & e & -> & Hd & _).
  unfold f64_div, SFdiv, SFdiv_core_binary. cbn [Zdigits2]. rewrite Hd.
  replace (Z.min (fexp prec emax (53 + e - (53 + e))) (e - e)) with (- 53)
    by (unfold fexp, emin, prec, emax; lia).
  replace (e - e - -53) with 53 by lia. rewrite Z.shiftl_mul_pow2 by lia.
  pose proof (Z.div_eucl_eq (Zpos m * 2 ^ 53) (Zpos m)) as Hdiv.
  pose proof (Z.mod_mul (2 ^ 53) (Zpos m)) as Hmod. pose proof (Z.div_mul (2 ^ 53) (Zpos m)) as Hq.
  unfold Z.modulo, Z.div in *. rewrite (Z.mul_comm (Zpos m)) in *.
  destruct (Z.div_eucl (2 ^ 53 * Zpos m) (Zpos m)) as [q r].
  rewrite Hq, Hmod by lia. unfold new_location, new_location_even, new_location_odd.
  cbn [Z.eqb]. by destruct (Z.even (Zpos m)).
Qed.

Lemma f64_div_zero z : f64_div (f64_of_i64 0) (f64_of_i64 z) = f64_zero \/ z <= 0 \/ 2 ^ 53 <= z.
Proof.
  destruct (Z_lt_le_dec 0 z); [|auto]. destruct (Z_lt_le_dec z (2 ^ 53)); [|auto].
  left. destruct z as [|p|p]; [lia| |lia].
  by destruct (f64_of_i64_exact p) as (m & e & -> & _).
Qed.

Example f64_098 : f64_ratio 98 100 = S754_finite false 8827055269646172 (-53).
Proof. vm_compute. reflexivity. Qed.
Example f64_rate_below : f64_lt (f64_ratio 97 99) (f64_ratio 98 100) = true.
Proof. vm_compute. reflexivity. Qed.
