(* ===== verification/Kube.v ===== *)
(** * Kubernetes objects

    The objects of [k8s_openapi] and of [serde_json] that the operator reads and
    writes, with the fields it touches.  The remaining fields of an object are
    carried unchanged in an opaque [json] payload.  A [BTreeMap<String, String>]
    is a [gmap string string].  No behaviour of the API server is defined here. *)

From S2P Require Import Prelude RustString.

(** ** [serde_json::Value]: a number is kept in its textual form *)

Inductive json :=
| JNull
| JBool (b : bool)
| JNum (repr : string)
| JStr (s : string)
| JArr (items : list json)
| JObj (fields : list (string * json)).

Notation labels := (gmap string string).

Record OwnerReference := {
  owner_api_version : string; owner_kind : string; owner_name : string;
  owner_uid : string; owner_block_deletion : option bool; owner_controller : option bool }.

Record ObjectMeta := {
  meta_name : option string;
  meta_namespace : option string;
  meta_uid : option string;
  meta_labels : option labels;
  meta_annotations : option labels;
  meta_generation : option Z;
  meta_resource_version : option string;
  meta_finalizers : option (list string);
  meta_deletion_timestamp : option string;
  meta_owner_references : option (list OwnerReference);
  meta_rest : json }.

Definition default_meta : ObjectMeta :=
  {| meta_name := None; meta_namespace := None; meta_uid := None; meta_labels := None; meta_annotations := None;
     meta_generation := None; meta_resource_version := None; meta_finalizers := None;
     meta_deletion_timestamp := None; meta_owner_references := None; meta_rest := JNull |}.

Definition named_meta (name : string) (namespace : option string) (ls : option labels) : ObjectMeta :=
  {| meta_name := Some name; meta_namespace := namespace; meta_uid := None; meta_labels := ls; meta_annotations := None;
     meta_generation := None; meta_resource_version := None; meta_finalizers := None;
     meta_deletion_timestamp := None; meta_owner_references := None; meta_rest := JNull |}.

Definition with_labels (ls : option labels) (m : ObjectMeta) : ObjectMeta :=
  {| meta_name := meta_name m; meta_namespace := meta_namespace m; meta_uid := meta_uid m;
     meta_labels := ls; meta_annotations := meta_annotations m; meta_generation := meta_generation m;
     meta_resource_version := meta_resource_version m; meta_finalizers := meta_finalizers m;
     meta_deletion_timestamp := meta_deletion_timestamp m;
     meta_owner_references := meta_owner_references m; meta_rest := meta_rest m |}.

Definition with_resource_version (rv : option string) (m : ObjectMeta) : ObjectMeta :=
  {| meta_name := meta_name m; meta_namespace := meta_namespace m; meta_uid := meta_uid m;
     meta_labels := meta_labels m; meta_annotations := meta_annotations m; meta_generation := meta_generation m;
     meta_resource_version := rv; meta_finalizers := meta_finalizers m;
     meta_deletion_timestamp := meta_deletion_timestamp m;
     meta_owner_references := meta_owner_references m; meta_rest := meta_rest m |}.

Definition with_finalizers (fs : option (list string)) (m : ObjectMeta) : ObjectMeta :=
  {| meta_name := meta_name m; meta_namespace := meta_namespace m; meta_uid := meta_uid m;
     meta_labels := meta_labels m; meta_annotations := meta_annotations m; meta_generation := meta_generation m;
     meta_resource_version := meta_resource_version m; meta_finalizers := fs;
     meta_deletion_timestamp := meta_deletion_timestamp m;
     meta_owner_references := meta_owner_references m; meta_rest := meta_rest m |}.

(** [labels.get_or_insert_with(Default::default)] followed by an update. *)
Definition update_labels (f : labels -> labels) (m : ObjectMeta) : ObjectMeta :=
  with_labels (Some (f (default ∅ (meta_labels m)))) m.

(** The labels of an object, [kube::ResourceExt::labels]. *)
Definition labels_of (m : ObjectMeta) : labels := default ∅ (meta_labels m).

(** ** Pods and deployments *)

Record SecretKeySelector := { skr_name : string; skr_key : string; skr_optional : option bool }.
Record EnvVar := {
  env_name : string; env_value : option string; env_secret : option SecretKeySelector }.
Record VolumeMount := {
  vm_name : string; vm_mount_path : string; vm_read_only : option bool; vm_rest : json }.
Record Volume := { vol_name : string; vol_config_map : option string; vol_rest : json }.
Record ContainerPort := { cport_name : option string; cport_container_port : Z; cport_rest : json }.
Record Container := {
  ctr_name : string; ctr_image : option string; ctr_env : option (list EnvVar);
  ctr_ports : option (list ContainerPort); ctr_volume_mounts : option (list VolumeMount);
  ctr_rest : json }.
Record PodSpec := {
  pod_containers : list Container; pod_volumes : option (list Volume);
  pod_termination_grace_period_seconds : option Z; pod_service_account_name : option string;
  pod_rest : json }.
Record PodTemplateSpec := { tpl_metadata : option ObjectMeta; tpl_spec : option PodSpec }.
Record LabelSelector := { sel_match_labels : option labels; sel_rest : json }.
Record DeploymentSpec := {
  ds_replicas : option Z; ds_selector : LabelSelector; ds_template : PodTemplateSpec;
  ds_rest : json }.
Record DeploymentStatus := {
  dst_observed_generation : option Z; dst_updated_replicas : option Z;
  dst_available_replicas : option Z }.
Record Deployment := {
  dep_metadata : ObjectMeta; dep_spec : option DeploymentSpec;
  dep_status : option DeploymentStatus }.

(** ** Services and the other kinds *)

Record ServicePort := {
  sp_name : option string; sp_port : Z; sp_target_port : option Z; sp_rest : json }.
Record ServiceSpec := {
  svc_selector : option labels; svc_ports : option (list ServicePort); svc_rest : json }.
Record Service := { svc_metadata : ObjectMeta; svc_spec : option ServiceSpec }.
Record ConfigMap := { cm_metadata : ObjectMeta; cm_data : option (gmap string string) }.
Record Secret := { sec_metadata : ObjectMeta; sec_data : option (gmap string string) }.
Record Pod := { pod_metadata : ObjectMeta }.
Record Namespace := { ns_metadata : ObjectMeta }.
Record EndpointSubset := { ep_addresses : option (list string); ep_ports : option (list Z) }.
Record Endpoints := { ep_subsets : option (list EndpointSubset) }.

(** Of the definition of a kind, the conditions in its status. *)
Record CustomResourceDefinitionCondition := { crc_type : string; crc_status : string }.
Record CustomResourceDefinitionStatus := {
  crs_conditions : option (list CustomResourceDefinitionCondition) }.
Record CustomResourceDefinition := {
  crd_metadata : ObjectMeta; crd_status : option CustomResourceDefinitionStatus }.

(** Times are milliseconds since the epoch. *)
Record LeaseSpec := {
  ls_acquire_time : option Z; ls_holder_identity : option string;
  ls_duration_seconds : option Z; ls_transitions : option Z; ls_renew_time : option Z }.
Record Lease := { lease_metadata : ObjectMeta; lease_spec_of : option LeaseSpec }.

(** ** Errors of the [kube] client: an API status with its code, or anything else *)

Inductive kube_error :=
| KubeApi (code : Z) (message : string)
| KubeOther (message : string).

Definition is_not_found (e : kube_error) : bool :=
  match e with KubeApi c _ => Z.eqb c 404 | KubeOther _ => false end.
Definition is_conflict (e : kube_error) : bool :=
  match e with KubeApi c _ => Z.eqb c 409 | KubeOther _ => false end.
Definition show_kube_error (e : kube_error) : string :=
  match e with KubeApi _ m => "ApiError: " +:+ m | KubeOther m => m end.
