(* ===== verification/Crd.v ===== *)
(** * Custom resources

    The data of the two custom resources: [BlueGreenDeployment]
    ([operator/src/crd/blue_green.rs]) and [InceptionPlugin]
    ([operator/src/crd/inception_plugin.rs]), and the wire types the operator and
    the plugins exchange ([sdk/rust/src/models.rs]). *)

From S2P Require Import Prelude RustString Float64 Kube.

(** ** Plugin roles, routes and assignments *)

Inductive PluginRole := Duplicator | Splitter | Combiner | Observer | Mock | Writer | Consumer.
#[export] Instance PluginRole_eq_dec : EqDecision PluginRole.
Proof. solve_decision. Defined.

Inductive TrafficRoute := RouteBlue | RouteGreen | RouteBoth | RouteUnknown.
#[export] Instance TrafficRoute_eq_dec : EqDecision TrafficRoute.
Proof. solve_decision. Defined.

Inductive AssignmentTarget := TargetGreen | TargetBlue | TargetTest.
#[export] Instance AssignmentTarget_eq_dec : EqDecision AssignmentTarget.
Proof. solve_decision. Defined.

Inductive AssignmentKind := KindEnv.

Record PropertyAssignment := {
  pa_target : AssignmentTarget;
  pa_kind : AssignmentKind;
  pa_name : string;
  pa_value : string;
  pa_container_name : option string }.

Record InceptorEnvVar := { iev_name : string; iev_value : string }.

Record PluginLifecycleResponse := {
  plr_assignments : list PropertyAssignment;
  plr_inceptor_env : list InceptorEnvVar;
  plr_config : option json }.

Record PluginDrainStatusResponse := { pds_drained : bool; pds_message : option string }.

(** The answer of a verifier ([operator/src/inception.rs]). *)
Record TestResultResponse := { trr_passed : option bool; trr_error_message : option string }.

Record TrafficShiftRequest := { tsr_traffic_percent : Z }.

Record ActiveInception := {
  ai_namespace : string;
  ai_blue_green_ref : string;
  ai_blue_green_uid : option string;
  ai_inception_point : string;
  ai_plugin : string;
  ai_roles : list string;
  ai_config : json }.

Record PluginManagerLifecycleRequest := {
  pml_namespace : string;
  pml_blue_green_ref : string;
  pml_blue_green_uid : option string;
  pml_inception_point : string;
  pml_plugin : string;
  pml_roles : list string;
  pml_config : json;
  pml_active_inceptions : list ActiveInception }.

Record PluginManagerSyncRequest := {
  pms_plugin : string;
  pms_active_inceptions : list ActiveInception }.

(** [triggered_at] in milliseconds since the epoch. *)
Record RegisterTestCaseRequest := {
  rtc_test_id : string;
  rtc_blue_green_ref : string;
  rtc_inception_point : string;
  rtc_triggered_at : option Z;
  rtc_timeout_seconds : option Z;
  rtc_verify_url : option string }.

Record FilterCondition := {
  fc_field : string;
  fc_equals : option string;
  fc_matches : option string;
  fc_json_path : option string }.

Record TestIdSelector := {
  tis_field : option string;
  tis_json_path : option string;
  tis_path_segment : option Z;
  tis_value : option string }.

(** The claims of a plugin token and the header of a JWT ([sdk/rust/src/auth.rs]). *)
Record PluginAuthClaims := {
  cl_iss : string;
  cl_aud : string;
  cl_namespace : string;
  cl_blue_green_ref : string;
  cl_blue_green_uid : option string;
  cl_inception_point : string;
  cl_plugin : string }.
#[export] Instance PluginAuthClaims_eq_dec : EqDecision PluginAuthClaims.
Proof. solve_decision. Defined.

Record JwtHeader := { jwt_alg : string; jwt_typ : string }.

(** ** The specification of a blue-green deployment *)

Record DeploymentRef := { dr_name : string; dr_namespace : option string }.
#[export] Instance DeploymentRef_eq_dec : EqDecision DeploymentRef.
Proof. solve_decision. Defined.

Record ManagedDeploymentSpec := {
  mds_namespace : option string;
  mds_spec : DeploymentSpec }.

Record CandidateDeploymentPatch := {
  cdp_replicas : option Z;
  cdp_strategy : option json;
  cdp_min_ready_seconds : option Z;
  cdp_revision_history_limit : option Z;
  cdp_paused : option bool;
  cdp_progress_deadline_seconds : option Z;
  cdp_template : option PodTemplateSpec }.

Record DeploymentSelector := {
  dsel_namespace : option string;
  dsel_match_labels : labels }.

Record InceptionPointDrainSpec := { ipds_max_wait_seconds : option Z }.

Record InceptionPoint := {
  ip_name : string;
  ip_plugin_ref : string;
  ip_roles : list PluginRole;
  ip_config : json;
  ip_drain : option InceptionPointDrainSpec }.

Record DataVerificationSpec := {
  dv_verify_path : string;
  dv_timeout_seconds : option Z }.

Record CustomVerificationSpec := {
  cv_start_path : string;
  cv_verify_path : string;
  cv_timeout_seconds : option Z;
  cv_retries : option Z }.

Record TestSpec := {
  test_name : string;
  test_deployment : DeploymentSpec;
  test_service : ServiceSpec;
  test_data_verification : option DataVerificationSpec;
  test_custom_verification : option CustomVerificationSpec }.

Record DataPromotionSpec := {
  dp_min_test_cases : option Z;
  dp_success_rate : option f64;
  dp_timeout_seconds : option Z }.

Record CustomPromotionSpec := {
  cp_timeout_seconds : option Z;
  cp_retries : option Z }.

Record ProgressiveStep := {
  ps_traffic_percent : Z;
  ps_observe_cases : Z;
  ps_success_rate : f64 }.

Record ProgressiveSpec := {
  prog_steps : list ProgressiveStep;
  prog_rollback_on_step_failure : bool;
  prog_step_timeout_minutes : option Z }.

Inductive StrategyType := HardSwitch | Progressive.

Record PromotionStrategySpec := {
  strat_type : StrategyType;
  strat_progressive : option ProgressiveSpec }.

Record PromotionSpec := {
  promo_data : option DataPromotionSpec;
  promo_custom : option CustomPromotionSpec;
  promo_strategy : PromotionStrategySpec }.

Inductive ActiveRolloutUpdatePolicy := Defer | ForceReplace.

Record UpdatePolicy := { up_active_rollout : option ActiveRolloutUpdatePolicy }.

(** ** Its status *)

Inductive BGDPhase :=
| Pending | Observing | Promoting | Draining | Completed | RolledBack | Invalid.
#[export] Instance BGDPhase_eq_dec : EqDecision BGDPhase.
Proof. solve_decision. Defined.

Inductive InceptionPointDrainPhase := DrainPending | DrainSuccessful | DrainTimedOutMaybeSuccessful.
#[export] Instance DrainPhase_eq_dec : EqDecision InceptionPointDrainPhase.
Proof. solve_decision. Defined.

Record InceptionPointDrainStatus := {
  ids_name : string;
  ids_phase : InceptionPointDrainPhase;
  ids_message : option string;
  ids_completed_at : option Z }.

Inductive ConditionStatus := CondTrue | CondFalse | CondUnknown.
#[export] Instance ConditionStatus_eq_dec : EqDecision ConditionStatus.
Proof. solve_decision. Defined.

Record BlueGreenDeploymentCondition := {
  cond_type : string;
  cond_status : ConditionStatus;
  cond_reason : string;
  cond_message : string;
  cond_observed_generation : Z;
  cond_last_transition_time : Z }.

(** Timestamps of the status are kept as the instant they denote, in
    milliseconds; [st_drain_started_at] is [None] when absent or unparsable. *)
Record BlueGreenDeploymentStatus := {
  st_phase : option BGDPhase;
  st_generated_deployment_name : option string;
  st_observed_generation : option Z;
  st_rollout_generation : option Z;
  st_test_cases_observed : option Z;
  st_test_cases_passed : option Z;
  st_test_cases_failed : option Z;
  st_test_cases_pending : option Z;
  st_test_cases_timed_out : option Z;
  st_current_success_rate : option f64;
  st_last_failure_message : option string;
  st_current_traffic_percent : option Z;
  st_current_step : option Z;
  st_started_at : option Z;
  st_last_case_at : option Z;
  st_drain_started_at : option Z;
  st_inception_point_drains : list InceptionPointDrainStatus;
  st_conditions : list BlueGreenDeploymentCondition }.

Definition default_status : BlueGreenDeploymentStatus :=
  {| st_phase := None; st_generated_deployment_name := None; st_observed_generation := None;
     st_rollout_generation := None; st_test_cases_observed := None;
     st_test_cases_passed := None; st_test_cases_failed := None;
     st_test_cases_pending := None; st_test_cases_timed_out := None;
     st_current_success_rate := None; st_last_failure_message := None;
     st_current_traffic_percent := None; st_current_step := None; st_started_at := None;
     st_last_case_at := None; st_drain_started_at := None;
     st_inception_point_drains := []; st_conditions := [] |}.

Record BlueGreenDeploymentSpec := {
  bgs_selector : DeploymentSelector;
  bgs_deployment : ManagedDeploymentSpec;
  bgs_candidate_patch : option CandidateDeploymentPatch;
  bgs_inception_points : list InceptionPoint;
  bgs_test : option TestSpec;
  bgs_promotion : option PromotionSpec;
  bgs_update_policy : option UpdatePolicy }.

Record BlueGreenDeployment := {
  bgd_metadata : ObjectMeta;
  bgd_spec : BlueGreenDeploymentSpec;
  bgd_status : option BlueGreenDeploymentStatus }.

Definition bgd_phase (b : BlueGreenDeployment) : option BGDPhase := bgd_status b ≫= st_phase.

(** ** Inception plugins *)

Record PluginPort := { pp_name : string; pp_container_port : Z }.
Record PluginVolumeMount := {
  pvm_name : string; pvm_mount_path : string; pvm_read_only : option bool }.

Record ControlPlaneTls := {
  tls_enabled : bool;
  tls_port : option Z;
  tls_ca_cert_path : option string;
  tls_insecure_skip_verify : bool }.

Record PluginInceptor := {
  inc_env : list EnvVar;
  inc_volumes : list Volume;
  inc_ports : list PluginPort;
  inc_volume_mounts : list PluginVolumeMount;
  inc_pod_labels : labels;
  inc_pod_annotations : labels;
  inc_service_account_name : option string;
  inc_control_plane_tls : option ControlPlaneTls }.

Record EnvInjection := {
  ei_name_from_config : string;
  ei_value_template : string;
  ei_restore_value_template : option string }.

Record ContainerInjection := { ci_env : list EnvInjection }.

Record Injects := {
  inj_green_container : option ContainerInjection;
  inj_blue_container : option ContainerInjection;
  inj_test_container : option ContainerInjection }.

Record PluginFeatures := { pf_supports_progressive_shifting : bool }.

Record MutuallyExclusiveRoleGroup := {
  merg_roles : list PluginRole;
  merg_reason : option string }.

Record PluginRoleConstraints := { prc_mutually_exclusive : list MutuallyExclusiveRoleGroup }.

Record PluginLifecycle := {
  pl_prepare_path : option string;
  pl_activate_path : option string;
  pl_drain_path : option string;
  pl_drain_status_path : option string;
  pl_cleanup_path : option string;
  pl_traffic_shift_path : option string }.

Record PluginManager := {
  pm_service_name : string;
  pm_namespace : option string;
  pm_port : option Z;
  pm_prepare_path : option string;
  pm_cleanup_path : option string;
  pm_sync_path : option string;
  pm_control_plane_tls : option ControlPlaneTls }.

Inductive Topology := Standalone.

Record InceptionPluginSpec := {
  ips_description : string;
  ips_image : string;
  ips_supported_roles : list PluginRole;
  ips_role_constraints : option PluginRoleConstraints;
  ips_topology : Topology;
  ips_field_namespaces : list string;
  ips_config_schema : json;
  ips_config_template : option string;
  ips_inceptor : PluginInceptor;
  ips_lifecycle : option PluginLifecycle;
  ips_manager : option PluginManager;
  ips_injects : option Injects;
  ips_features : option PluginFeatures }.

Record InceptionPlugin := {
  plug_metadata : ObjectMeta;
  plug_spec : InceptionPluginSpec }.
