(* ===== verification/StateStore.v ===== *)
(** * The test-case store: data, contract and interface

    [operator/src/state_store/mod.rs]: the test-case record, the counters, and
    the [StateStore] trait.  The trait is a type class of state-passing
    operations.  Its contract is the module [Spec]: a finite map from
    (blue-green reference, test id) to records with one function per operation.
    The module [Contract] has the answers and the next contents it allows.
    [StoreRefines] states that an implementation meets that contract through an
    abstraction function; the in-memory and the SQL store are its instances.

    A case that was registered more than once has a deadline in each implementation, and they differ:
    the contract knows the latest of its registrations, and leaves open what happens to the case between
    the deadline of its record and that one.

    Times and durations are milliseconds. *)

From S2P Require Import Prelude RustString.

(** ** Records *)

Inductive StoreError :=
| NotFound (what : string)
| Postgres (what : string)
| Conflict (what : string)
| Other (what : string).

Definition show_store_error (e : StoreError) : string :=
  match e with
  | NotFound s => "not found: " +:+ s
  | Postgres s => "postgres error: " +:+ s
  | Conflict s => "concurrent modification: " +:+ s
  | Other s => s
  end.

Inductive TestStatus := Triggered | CaseObserving | Passed | Failed | TimedOut.
#[export] Instance TestStatus_eq_dec : EqDecision TestStatus.
Proof. solve_decision. Defined.

Inductive VerificationMode := Data | Custom.
#[export] Instance VerificationMode_eq_dec : EqDecision VerificationMode.
Proof. solve_decision. Defined.

Record TestCaseRecord := {
  test_id : string;
  blue_green_ref : string;
  triggered_at : Z;
  source_inception_point : string;
  timeout : Z;
  status : TestStatus;
  verdict : option bool;
  verification_mode : VerificationMode;
  verify_url : string;
  verifier_auth_token : string;
  retries_remaining : Z;
  failure_message : option string }.
#[export] Instance TestCaseRecord_eq_dec : EqDecision TestCaseRecord.
Proof. solve_decision. Defined.

Definition expires_at (r : TestCaseRecord) : Z := triggered_at r + timeout r.

Definition is_pending (r : TestCaseRecord) : bool :=
  match status r with Triggered | CaseObserving => true | _ => false end.

Definition is_finalized (r : TestCaseRecord) : bool :=
  match status r with Passed | Failed | TimedOut => true | _ => false end.

Lemma pending_xor_finalized r : is_pending r = negb (is_finalized r).
Proof. by destruct r as [? ? ? ? ? [] ? ? ? ? ? ?]. Qed.

(** Field updates, for the places where the source assigns through [&mut]. *)
Definition set_registration (trig : Z) (ip : string) (tmo : Z) (url tok : string)
    (r : TestCaseRecord) : TestCaseRecord :=
  {| test_id := test_id r; blue_green_ref := blue_green_ref r; triggered_at := trig;
     source_inception_point := ip; timeout := tmo; status := status r; verdict := verdict r;
     verification_mode := verification_mode r; verify_url := url; verifier_auth_token := tok;
     retries_remaining := retries_remaining r; failure_message := failure_message r |}.

Definition set_outcome (st : TestStatus) (v : option bool) (m : option string)
    (r : TestCaseRecord) : TestCaseRecord :=
  {| test_id := test_id r; blue_green_ref := blue_green_ref r; triggered_at := triggered_at r;
     source_inception_point := source_inception_point r; timeout := timeout r; status := st;
     verdict := v; verification_mode := verification_mode r; verify_url := verify_url r;
     verifier_auth_token := verifier_auth_token r;
     retries_remaining := retries_remaining r; failure_message := m |}.

Definition set_retries (n : Z) (r : TestCaseRecord) : TestCaseRecord :=
  {| test_id := test_id r; blue_green_ref := blue_green_ref r; triggered_at := triggered_at r;
     source_inception_point := source_inception_point r; timeout := timeout r;
     status := status r; verdict := verdict r; verification_mode := verification_mode r;
     verify_url := verify_url r; verifier_auth_token := verifier_auth_token r;
     retries_remaining := n; failure_message := failure_message r |}.

(** ** Counters *)

Record Counts := { passed : Z; failed : Z; timed_out : Z; pending : Z }.
#[export] Instance Counts_eq_dec : EqDecision Counts.
Proof. solve_decision. Defined.
Definition default_counts : Counts := {| passed := 0; failed := 0; timed_out := 0; pending := 0 |}.

(** The number of records of a list with a given property. *)
Definition count_if (p : TestCaseRecord -> bool) (l : list TestCaseRecord) : Z :=
  Z.of_nat (length (List.filter p l)).

Lemma count_if_cons p r l : count_if p (r :: l) = (if p r then 1 else 0) + count_if p l.
Proof. unfold count_if. cbn. destruct (p r); cbn [length]; lia. Qed.

Lemma count_if_perm p l l' : l ≡ₚ l' -> count_if p l = count_if p l'.
Proof.
  intros H. unfold count_if. apply (f_equal Z.of_nat).
  induction H; cbn; repeat case_match; cbn; lia.
Qed.

Lemma filter_perm (p : TestCaseRecord -> bool) l l' :
  l ≡ₚ l' -> List.filter p l ≡ₚ List.filter p l'.
Proof.
  induction 1; cbn; repeat case_match; eauto using Permutation; by etrans.
Qed.

Lemma count_if_nonneg p l : 0 <= count_if p l.
Proof. unfold count_if. lia. Qed.

Definition has_status (s : TestStatus) (r : TestCaseRecord) : bool := bool_decide (status r = s).

(** What the four counters of a list of records are. *)
Definition counts_of (l : list TestCaseRecord) : Counts :=
  {| passed := count_if (has_status Passed) l;
     failed := count_if (has_status Failed) l;
     timed_out := count_if (has_status TimedOut) l;
     pending := count_if is_pending l |}.

Lemma counts_of_perm l l' : l ≡ₚ l' -> counts_of l = counts_of l'.
Proof. intros H. unfold counts_of. by rewrite !(count_if_perm _ _ _ H). Qed.

(** Every record is counted exactly once. *)
Lemma counts_of_total l :
  passed (counts_of l) + failed (counts_of l) + timed_out (counts_of l) + pending (counts_of l)
  = Z.of_nat (length l).
Proof.
  unfold counts_of. cbn [passed failed timed_out pending].
  induction l as [|r l IH]; [done|]. rewrite !count_if_cons. cbn [length].
  assert (Hs : forall s, has_status s r = bool_decide (status r = s)) by done.
  assert (Hp : is_pending r = match status r with Triggered | CaseObserving => true | _ => false end)
    by done.
  rewrite !Hs, Hp. destruct (status r); repeat case_bool_decide; try congruence; cbn; lia.
Qed.

(** ** The trait

    [store_cleanup_expired] is given the time. *)

Class StateStore (S : Type) := {
  store_register : TestCaseRecord -> S -> result StoreError unit * S;
  store_get : string -> string -> S -> result StoreError (option TestCaseRecord);
  store_set_verdict : string -> string -> bool -> option string -> S -> result StoreError unit * S;
  store_mark_timed_out : string -> string -> S -> result StoreError unit * S;
  store_decrement_retries : string -> string -> S -> result StoreError (option Z) * S;
  store_list_pending : S -> result StoreError (list TestCaseRecord);
  store_list_blue_green_refs : S -> result StoreError (gset string);
  store_counts : string -> S -> result StoreError Counts;
  store_counts_for_mode : string -> VerificationMode -> S -> result StoreError Counts;
  store_latest_failure_message : string -> S -> result StoreError (option string);
  store_cleanup_blue_green : string -> S -> result StoreError Z * S;
  store_cleanup_expired : Z -> S -> result StoreError Z * S }.

(** ** The contract *)

Notation cases := (gmap (string * string) TestCaseRecord).

Module Spec.

(** A second registration of a pending case only completes it. *)
Definition merge (existing run : TestCaseRecord) : TestCaseRecord :=
  if is_finalized existing then existing
  else set_registration
         (Z.min (triggered_at existing) (triggered_at run))
         (if is_empty (source_inception_point existing) then source_inception_point run
          else source_inception_point existing)
         (Z.max (timeout existing) (timeout run))
         (if is_empty (verify_url existing) then verify_url run else verify_url existing)
         (if is_empty (verifier_auth_token existing) then verifier_auth_token run
          else verifier_auth_token existing)
         existing.

Definition key (r : TestCaseRecord) : string * string := (blue_green_ref r, test_id r).

Definition register (run : TestCaseRecord) (m : cases) : cases :=
  <[key run := match m !! key run with
               | Some e => merge e run
               | None => run
               end]> m.

Definition outcome (passed : bool) (msg : option string) : TestCaseRecord -> TestCaseRecord :=
  set_outcome (if passed then Passed else Failed) (Some passed) msg.

Definition expire (r : TestCaseRecord) : TestCaseRecord :=
  set_outcome TimedOut None (failure_message r) r.

(** Apply [f] to a pending case, reject anything else. *)
Definition finalize (f : TestCaseRecord -> TestCaseRecord) (bg id : string) (m : cases)
    : result StoreError unit * cases :=
  match m !! (bg, id) with
  | Some r => if is_pending r then (Ok tt, <[(bg, id) := f r]> m) else (Err (NotFound id), m)
  | None => (Err (NotFound id), m)
  end.

Definition set_verdict (bg id : string) (passed : bool) (msg : option string) :=
  finalize (outcome passed msg) bg id.
Definition mark_timed_out (bg id : string) := finalize expire bg id.

(** The state after a retry was consumed, and the retries left if one was. *)
Definition decrement_retries (bg id : string) (m : cases) : option Z * cases :=
  match m !! (bg, id) with
  | Some r =>
      if (is_pending r && Z.ltb 0 (retries_remaining r))%bool
      then (Some (retries_remaining r - 1), <[(bg, id) := set_retries (retries_remaining r - 1) r]> m)
      else (None, m)
  | None => (None, m)
  end.

Definition records (m : cases) : list TestCaseRecord := (map_to_list m).*2.
Definition of_ref (bg : string) (r : TestCaseRecord) : bool := String.eqb (blue_green_ref r) bg.
Definition of_mode (bg : string) (md : VerificationMode) (r : TestCaseRecord) : bool :=
  (of_ref bg r && bool_decide (verification_mode r = md))%bool.

Definition list_pending (m : cases) : list TestCaseRecord := List.filter is_pending (records m).
Definition counts (bg : string) (m : cases) : Counts :=
  counts_of (List.filter (of_ref bg) (records m)).
Definition counts_for_mode (bg : string) (md : VerificationMode) (m : cases) : Counts :=
  counts_of (List.filter (of_mode bg md) (records m)).

Definition list_blue_green_refs (m : cases) : gset string := list_to_set (blue_green_ref <$> records m).

Definition cleanup_blue_green (bg : string) (m : cases) : cases :=
  filter (fun kr => kr.1.1 <> bg) m.

(** A key always holds a record of that key. *)
Definition keyed (m : cases) : Prop := map_Forall (fun k r => key r = k) m.

End Spec.

(** ** Operations as data, and runs *)

Inductive op :=
| OpRegister (r : TestCaseRecord)
| OpGet (bg id : string)
| OpSetVerdict (bg id : string) (p : bool) (m : option string)
| OpMarkTimedOut (bg id : string)
| OpDecrement (bg id : string)
| OpListPending
| OpListRefs
| OpCounts (bg : string)
| OpCountsForMode (bg : string) (md : VerificationMode)
| OpLatestFailure (bg : string)
| OpCleanup (bg : string)
| OpCleanupExpired (now : Z).

Inductive answer :=
| AnsUnit (r : result StoreError unit)
| AnsCase (r : result StoreError (option TestCaseRecord))
| AnsRetries (r : result StoreError (option Z))
| AnsList (r : result StoreError (list TestCaseRecord))
| AnsRefs (r : result StoreError (gset string))
| AnsCounts (r : result StoreError Counts)
| AnsMessage (r : result StoreError (option string))
| AnsRemoved (r : result StoreError Z).

Definition apply_op {S : Type} `{!StateStore S} (o : op) (s : S) : answer * S :=
  match o with
  | OpRegister r => let '(a, s') := store_register r s in (AnsUnit a, s')
  | OpGet bg id => (AnsCase (store_get bg id s), s)
  | OpSetVerdict bg id p m => let '(a, s') := store_set_verdict bg id p m s in (AnsUnit a, s')
  | OpMarkTimedOut bg id => let '(a, s') := store_mark_timed_out bg id s in (AnsUnit a, s')
  | OpDecrement bg id => let '(a, s') := store_decrement_retries bg id s in (AnsRetries a, s')
  | OpListPending => (AnsList (store_list_pending s), s)
  | OpListRefs => (AnsRefs (store_list_blue_green_refs s), s)
  | OpCounts bg => (AnsCounts (store_counts bg s), s)
  | OpCountsForMode bg md => (AnsCounts (store_counts_for_mode bg md s), s)
  | OpLatestFailure bg => (AnsMessage (store_latest_failure_message bg s), s)
  | OpCleanup bg => let '(a, s') := store_cleanup_blue_green bg s in (AnsRemoved a, s')
  | OpCleanupExpired now => let '(a, s') := store_cleanup_expired now s in (AnsRemoved a, s')
  end.

Fixpoint run_ops {S : Type} `{!StateStore S} (os : list op) (s : S) : list answer * S :=
  match os with
  | [] => ([], s)
  | o :: os' => let '(a, s') := apply_op o s in
                let '(l, s'') := run_ops os' s' in (a :: l, s'')
  end.

Notation deadlines := (gmap (string * string) Z).

Module Contract.

(** The state after an operation that does not depend on the time. *)
Definition next (o : op) (m : cases) : cases :=
  match o with
  | OpRegister r => Spec.register r m
  | OpSetVerdict bg id p msg => (Spec.set_verdict bg id p msg m).2
  | OpMarkTimedOut bg id => (Spec.mark_timed_out bg id m).2
  | OpDecrement bg id => (Spec.decrement_retries bg id m).2
  | OpCleanup bg => Spec.cleanup_blue_green bg m
  | _ => m
  end.

(** The failure messages recorded for a reference. *)
Definition messages (bg : string) (m : cases) : list string :=
  omap failure_message (List.filter (Spec.of_ref bg) (Spec.records m)).

(** The number of cases that went. *)
Definition removed (m m' : cases) : answer := AnsRemoved (Ok (Z.of_nat (size m) - Z.of_nat (size m'))).

(** The answers an implementation may give to an operation that does not depend on the time.  The
    contract leaves open the order of a listing, which message is the latest, and whether consuming a
    retry of an unknown case is an error. *)
Definition allowed (o : op) (m : cases) (a : answer) : Prop :=
  match o with
  | OpRegister _ => a = AnsUnit (Ok tt)
  | OpGet bg id => a = AnsCase (Ok (m !! (bg, id)))
  | OpSetVerdict bg id p msg => a = AnsUnit (Spec.set_verdict bg id p msg m).1
  | OpMarkTimedOut bg id => a = AnsUnit (Spec.mark_timed_out bg id m).1
  | OpDecrement bg id =>
      match m !! (bg, id) with
      | Some _ => a = AnsRetries (Ok (Spec.decrement_retries bg id m).1)
      | None => a = AnsRetries (Ok None) \/ a = AnsRetries (Err (NotFound id))
      end
  | OpListPending => exists l, a = AnsList (Ok l) /\ l ≡ₚ Spec.list_pending m
  | OpListRefs => a = AnsRefs (Ok (Spec.list_blue_green_refs m))
  | OpCounts bg => a = AnsCounts (Ok (Spec.counts bg m))
  | OpCountsForMode bg md => a = AnsCounts (Ok (Spec.counts_for_mode bg md m))
  | OpLatestFailure bg =>
      exists r, a = AnsMessage (Ok r) /\
        match r with Some s => s ∈ messages bg m | None => messages bg m = [] end
  | OpCleanup bg => a = removed m (Spec.cleanup_blue_green bg m)
  | OpCleanupExpired _ => False
  end.

(** The latest deadline a case was registered with while it was pending. *)
Definition next_deadlines (o : op) (m : cases) (d : deadlines) : deadlines :=
  match o with
  | OpRegister r =>
      match m !! Spec.key r with
      | None => <[Spec.key r := expires_at r]> d
      | Some e =>
          if is_finalized e then d
          else match d !! Spec.key r with
               | Some t => <[Spec.key r := Z.max t (expires_at r)]> d
               | None => d
               end
      end
  | _ => d
  end.

(** What is left of the cases at the time [now]: those that go are pending and past the deadline of
    their record; every pending case past the latest deadline it was registered with goes. *)
Definition expired (now : Z) (m : cases) (d : deadlines) (m' : cases) : Prop :=
  m' ⊆ m /\ forall k r, m !! k = Some r ->
    (m' !! k = None -> is_pending r = true /\ expires_at r < now)
    /\ (is_pending r = true -> (forall t, d !! k = Some t -> t < now) -> m' !! k = None).

(** Every case has a deadline, and the one of its record is not later. *)
Definition covered (m : cases) (d : deadlines) : Prop :=
  forall k r, m !! k = Some r -> exists t, d !! k = Some t /\ expires_at r <= t.

Lemma covered_insert m d k r t : covered m d -> d !! k = Some t -> expires_at r <= t -> covered (<[k := r]> m) d.
Proof. intros Hm Hd Hr k' r' [[<- <-]|[_ Hk]]%lookup_insert_Some; [eauto|by apply Hm]. Qed.

Lemma covered_finalize f bg id m d :
  (forall r, expires_at (f r) = expires_at r) -> covered m d -> covered (Spec.finalize f bg id m).2 d.
Proof.
  intros Hf Hm. unfold Spec.finalize. destruct (m !! (bg, id)) as [r|] eqn:E; [|done].
  destruct (is_pending r); [|done]. destruct (Hm _ _ E) as (t & Ht & Hl).
  eapply covered_insert; [done..|]. by rewrite Hf.
Qed.

Lemma covered_subset m m' d : m' ⊆ m -> covered m d -> covered m' d.
Proof. intros Hs Hm k r Hk. apply Hm. by eapply lookup_weaken. Qed.

Lemma covered_next o m d : covered m d -> covered (next o m) (next_deadlines o m d).
Proof.
  intros Hm. destruct o; cbn -[Z.max]; try done.
  - unfold Spec.register. destruct (m !! Spec.key r) as [e|] eqn:E.
    + destruct (Hm _ _ E) as (t & Ht & Hl). unfold Spec.merge. destruct (is_finalized e).
      { by eapply covered_insert. }
      rewrite Ht. intros k r' [[<- <-]|[Hne Hk]]%lookup_insert_Some.
      * eexists. split; [apply lookup_insert_eq|]. unfold expires_at in *. cbn. lia.
      * rewrite lookup_insert_ne by done. by apply Hm.
    + intros k r' [[<- <-]|[Hne Hk]]%lookup_insert_Some.
      * eexists. split; [apply lookup_insert_eq|lia].
      * rewrite lookup_insert_ne by done. by apply Hm.
  - by apply covered_finalize.
  - by apply covered_finalize.
  - unfold Spec.decrement_retries. destruct (m !! (bg, id)) as [r|] eqn:E; [|done].
    destruct (_ && _)%bool; [|done]. destruct (Hm _ _ E) as (t & Ht & Hl). by eapply covered_insert.
  - eapply covered_subset; [|done]. apply map_filter_subseteq.
Qed.

(** One operation, its answer and the state after it. *)
Definition step (o : op) (m : cases) (d : deadlines) (a : answer) (m' : cases) : Prop :=
  match o with
  | OpCleanupExpired now => expired now m d m' /\ a = removed m m'
  | _ => m' = next o m /\ allowed o m a
  end.

(** The answers of a run the contract allows, and the state it ends in. *)
Fixpoint runs (os : list op) (m : cases) (d : deadlines) (l : list answer) (m' : cases) : Prop :=
  match os, l with
  | [], [] => m' = m
  | o :: os, a :: l => exists m1, step o m d a m1 /\ runs os m1 (next_deadlines o m d) l m'
  | _, _ => False
  end.

(** The operations whose effect the contract determines. *)
Definition timeless (o : op) : bool := match o with OpCleanupExpired _ => false | _ => true end.
Fixpoint final (os : list op) (m : cases) : cases :=
  match os with [] => m | o :: os' => final os' (next o m) end.

Lemma step_timeless o m d a m' : timeless o = true -> step o m d a m' -> m' = next o m /\ allowed o m a.
Proof. by destruct o. Qed.
Lemma runs_timeless os m d l m' : forallb timeless os = true -> runs os m d l m' -> m' = final os m.
Proof.
  revert m d l. induction os as [|o os IH]; intros m d [|a l]; cbn; try done.
  intros [Ho Hos]%andb_true_iff (m1 & [-> _]%step_timeless & Hr); [|done]. by eapply IH.
Qed.

End Contract.

(** The references and records an operation carries. *)
Definition op_ok (ref_ok : string -> Prop) (record_ok : TestCaseRecord -> Prop) (o : op) : Prop :=
  match o with
  | OpRegister r => ref_ok (blue_green_ref r) /\ record_ok r
  | OpGet bg _ | OpSetVerdict bg _ _ _ | OpMarkTimedOut bg _ | OpDecrement bg _ => ref_ok bg
  | _ => True
  end.

(** An implementation meets the contract: one law, a forward simulation.  [covers] relates a state to
    the deadlines its cases were registered with. *)
Class StoreRefines (S : Type) `{!StateStore S} (inv : S -> Prop) (abs : S -> cases)
    (covers : S -> deadlines -> Prop) (ref_ok : string -> Prop) (record_ok : TestCaseRecord -> Prop) : Prop :=
  refines_step : forall o s d, inv s -> covers s d -> op_ok ref_ok record_ok o ->
    inv (apply_op o s).2 /\ covers (apply_op o s).2 (Contract.next_deadlines o (abs s) d)
    /\ Contract.step o (abs s) d (apply_op o s).1 (abs (apply_op o s).2).

Section Simulation.
Context {S : Type} `{HS : !StateStore S} (inv : S -> Prop) (abs : S -> cases)
  (covers : S -> deadlines -> Prop) (ref_ok : string -> Prop) (record_ok : TestCaseRecord -> Prop).
Context `{HR : !StoreRefines S inv abs covers ref_ok record_ok}.

Lemma run_ops_simulates os s d :
  inv s -> covers s d -> Forall (op_ok ref_ok record_ok) os ->
  inv (run_ops os s).2 /\ Contract.runs os (abs s) d (run_ops os s).1 (abs (run_ops os s).2).
Proof.
  revert s d. induction os as [|o os IH]; intros s d Hs Hd Ho; [done|].
  apply Forall_cons in Ho as [Ho Hos]. cbn [run_ops].
  destruct (refines_step o s d Hs Hd Ho) as (Hi & Hc & Hst).
  destruct (apply_op o s) as [a s'] eqn:E. cbn [fst snd] in *.
  destruct (IH s' _ Hi Hc Hos) as (Hi' & Hr).
  destruct (run_ops os s') as [l s'']. cbn in *. split; [done|]. by exists (abs s').
Qed.
End Simulation.

(** The operations whose answer the contract determines. *)
Definition determined (m : cases) (o : op) : bool :=
  match o with
  | OpListPending | OpLatestFailure _ | OpCleanupExpired _ => false
  | OpDecrement bg id => bool_decide (is_Some (m !! (bg, id)))
  | _ => true
  end.

Lemma allowed_determined o m a a' :
  determined m o = true -> Contract.allowed o m a -> Contract.allowed o m a' -> a = a'.
Proof.
  destruct o; cbn; intros Hd H1 H2; try done; try congruence.
  apply bool_decide_eq_true_1 in Hd as [r Hr]. rewrite Hr in H1, H2. congruence.
Qed.
