(* ===== verification/MemoryStore.v ===== *)
(** * The in-memory store

    [operator/src/state_store/memory.rs]: a [HashMap] from
    ["<blue-green ref>\u{1f}<test id>"] to records, behind a lock that makes
    every operation atomic.  The iteration order of a [HashMap] is unspecified:
    it is a parameter ([HashOrder]), constrained only to list every value once. *)

From S2P Require Import Prelude RustString StateStore.

Module Memory.

Class HashOrder := {
  values : gmap string TestCaseRecord -> list TestCaseRecord;
  values_perm : forall m, values m ≡ₚ (map_to_list m).*2 }.

(** The order of the keys' encoding, as one admissible order. *)
#[global] Instance canonical_order : HashOrder | 100.
Proof. refine {| values m := (map_to_list m).*2 |}. done. Defined.

Record MemoryStore `{HashOrder} := mk_store { data : gmap string TestCaseRecord }.
Arguments mk_store {_} data.

Definition new `{HashOrder} : MemoryStore := mk_store ∅.

(** U+001F, the separator of [record_key]. *)
Definition unit_separator : ascii := "031".
Definition record_key (bg id : string) : string := bg +:+ String unit_separator id.

Section Operations.
Context `{order : HashOrder}.

(** The body of the [Some(existing)] arm for a pending case. *)
Definition merge_pending (existing run : TestCaseRecord) : TestCaseRecord :=
  set_registration
    (if Z.ltb (triggered_at run) (triggered_at existing) then triggered_at run
     else triggered_at existing)
    (if is_empty (source_inception_point existing) then source_inception_point run
     else source_inception_point existing)
    (if Z.ltb (timeout existing) (timeout run) then timeout run else timeout existing)
    (if (is_empty (verify_url existing) && negb (is_empty (verify_url run)))%bool
     then verify_url run else verify_url existing)
    (if (is_empty (verifier_auth_token existing) && negb (is_empty (verifier_auth_token run)))%bool
     then verifier_auth_token run else verifier_auth_token existing)
    existing.

Definition register (run : TestCaseRecord) (s : MemoryStore) : result StoreError unit * MemoryStore :=
  let key := record_key (blue_green_ref run) (test_id run) in
  match data s !! key with
  | Some existing =>
      if is_finalized existing then (Ok tt, s)
      else (Ok tt, mk_store (<[key := merge_pending existing run]> (data s)))
  | None => (Ok tt, mk_store (<[key := run]> (data s)))
  end.

Definition get (bg id : string) (s : MemoryStore) : result StoreError (option TestCaseRecord) :=
  Ok (data s !! record_key bg id).

Definition set_verdict (bg id : string) (passed : bool) (msg : option string) (s : MemoryStore)
    : result StoreError unit * MemoryStore :=
  match data s !! record_key bg id with
  | Some run =>
      if negb (is_pending run) then (Err (NotFound id), s)
      else (Ok tt, mk_store (<[record_key bg id :=
              set_outcome (if passed then Passed else Failed) (Some passed) msg run]> (data s)))
  | None => (Err (NotFound id), s)
  end.

Definition mark_timed_out (bg id : string) (s : MemoryStore)
    : result StoreError unit * MemoryStore :=
  match data s !! record_key bg id with
  | Some run =>
      if negb (is_pending run) then (Err (NotFound id), s)
      else (Ok tt, mk_store (<[record_key bg id :=
              set_outcome TimedOut None (failure_message run) run]> (data s)))
  | None => (Err (NotFound id), s)
  end.

Definition decrement_retries (bg id : string) (s : MemoryStore)
    : result StoreError (option Z) * MemoryStore :=
  match data s !! record_key bg id with
  | Some run =>
      if negb (is_pending run) then (Ok None, s)
      else if Z.ltb 0 (retries_remaining run) then
        (Ok (Some (retries_remaining run - 1)),
         mk_store (<[record_key bg id := set_retries (retries_remaining run - 1) run]> (data s)))
      else (Ok None, s)
  | None => (Err (NotFound id), s)
  end.

Definition list_pending (s : MemoryStore) : result StoreError (list TestCaseRecord) :=
  Ok (List.filter is_pending (values (data s))).

Definition list_blue_green_refs (s : MemoryStore) : result StoreError (gset string) :=
  Ok (list_to_set (blue_green_ref <$> values (data s))).

(** [counts_for_runs]: one counter is incremented per record. *)
Definition count_run (c : Counts) (r : TestCaseRecord) : Counts :=
  match status r with
  | Passed => {| passed := passed c + 1; failed := failed c; timed_out := timed_out c; pending := pending c |}
  | Failed => {| passed := passed c; failed := failed c + 1; timed_out := timed_out c; pending := pending c |}
  | TimedOut => {| passed := passed c; failed := failed c; timed_out := timed_out c + 1; pending := pending c |}
  | Triggered | CaseObserving =>
      {| passed := passed c; failed := failed c; timed_out := timed_out c; pending := pending c + 1 |}
  end.
Definition counts_for_runs (runs : list TestCaseRecord) : Counts :=
  fold_left count_run runs default_counts.

Definition counts (bg : string) (s : MemoryStore) : result StoreError Counts :=
  Ok (counts_for_runs (List.filter (fun r => String.eqb (blue_green_ref r) bg) (values (data s)))).

Definition counts_for_mode (bg : string) (md : VerificationMode) (s : MemoryStore)
    : result StoreError Counts :=
  Ok (counts_for_runs (List.filter
        (fun r => String.eqb (blue_green_ref r) bg && bool_decide (verification_mode r = md))%bool
        (values (data s)))).

Definition latest_failure_message (bg : string) (s : MemoryStore)
    : result StoreError (option string) :=
  Ok (last (omap failure_message
        (List.filter (fun r => String.eqb (blue_green_ref r) bg) (values (data s))))).

Definition cleanup_blue_green (bg : string) (s : MemoryStore) : result StoreError Z * MemoryStore :=
  let kept := filter (fun kr : string * TestCaseRecord => blue_green_ref kr.2 <> bg) (data s) in
  (Ok (Z.of_nat (size (data s)) - Z.of_nat (size kept)), mk_store kept).

Definition cleanup_expired (now : Z) (s : MemoryStore) : result StoreError Z * MemoryStore :=
  let kept := filter (fun kr : string * TestCaseRecord =>
                ~ (is_pending kr.2 = true /\ expires_at kr.2 < now)) (data s) in
  (Ok (Z.of_nat (size (data s)) - Z.of_nat (size kept)), mk_store kept).

#[global] Instance memory_store : StateStore MemoryStore := {
  store_register := register;
  store_get := get;
  store_set_verdict := set_verdict;
  store_mark_timed_out := mark_timed_out;
  store_decrement_retries := decrement_retries;
  store_list_pending := list_pending;
  store_list_blue_green_refs := list_blue_green_refs;
  store_counts := counts;
  store_counts_for_mode := counts_for_mode;
  store_latest_failure_message := latest_failure_message;
  store_cleanup_blue_green := cleanup_blue_green;
  store_cleanup_expired := cleanup_expired }.
End Operations.

(** ** The abstraction: splitting a key at the first separator *)

Section Refinement.
Context `{order : HashOrder}.

(** Keys that no [record_key] produces are sent outside the image of the others. *)
Definition decode (k : string) : string * string :=
  match split_once unit_separator k with
  | Some p => p
  | None => (String unit_separator "", k)
  end.

#[global] Instance decode_inj : Inj (=) (=) decode.
Proof.
  intros k1 k2. unfold decode.
  destruct (split_once unit_separator k1) as [[l1 r1]|] eqn:E1,
           (split_once unit_separator k2) as [[l2 r2]|] eqn:E2; intros [=]; subst; try done.
  - apply split_once_Some in E1 as [-> _], E2 as [-> _]. done.
  - apply split_once_Some in E1 as [_ E1]. done.
  - apply split_once_Some in E2 as [_ E2]. done.
Qed.

Definition abs (s : MemoryStore) : cases := kmap decode (data s).

(** A reference the key format keeps apart: it does not contain the separator. *)
Definition ref_ok (bg : string) : Prop := contains unit_separator bg = false.
Definition any_record (_ : TestCaseRecord) : Prop := True.

Definition inv (s : MemoryStore) : Prop :=
  map_Forall (fun k r => k = record_key (blue_green_ref r) (test_id r) /\
                         ref_ok (blue_green_ref r)) (data s).

Lemma decode_key bg id : ref_ok bg -> decode (record_key bg id) = (bg, id).
Proof. intros H. unfold decode, record_key. by rewrite split_once_app. Qed.

Lemma mem_abs_lookup s bg id : ref_ok bg -> abs s !! (bg, id) = data s !! record_key bg id.
Proof. intros H. unfold abs. rewrite <- (decode_key bg id H). apply (lookup_kmap _). Qed.

Lemma mem_abs_insert m bg id r :
  ref_ok bg -> abs (mk_store (<[record_key bg id := r]> m)) = <[(bg, id) := r]> (abs (mk_store m)).
Proof. intros H. unfold abs. cbn. rewrite (kmap_insert _), decode_key; done. Qed.

Lemma mem_records_abs s : Spec.records (abs s) ≡ₚ values (data s).
Proof.
  rewrite values_perm. unfold Spec.records, abs, kmap.
  rewrite map_to_list_to_map; [by rewrite <- list_fmap_compose|].
  rewrite <- list_fmap_compose.
  replace (fst ∘ prod_map decode id) with (decode ∘ @fst string TestCaseRecord) by done.
  rewrite list_fmap_compose. apply (NoDup_fmap_2 _), NoDup_fst_map_to_list.
Qed.

Lemma values_elem (m : gmap string TestCaseRecord) r : r ∈ values m <-> exists k, m !! k = Some r.
Proof.
  rewrite values_perm, list_elem_of_fmap. split.
  - intros ([k r'] & -> & H%elem_of_map_to_list). by exists k.
  - intros [k H]. exists (k, r). by rewrite elem_of_map_to_list.
Qed.

Lemma count_run_fold runs c :
  fold_left count_run runs c =
  {| passed := passed c + count_if (has_status Passed) runs;
     failed := failed c + count_if (has_status Failed) runs;
     timed_out := timed_out c + count_if (has_status TimedOut) runs;
     pending := pending c + count_if is_pending runs |}.
Proof.
  revert c. induction runs as [|r runs IH]; intros c.
  - destruct c. cbn. unfold count_if. cbn. f_equal; lia.
  - cbn [fold_left]. rewrite IH, !count_if_cons. unfold count_run.
    assert (forall x, has_status x r = bool_decide (status r = x)) as Hs by done.
    assert (is_pending r = match status r with Triggered | CaseObserving => true | _ => false end)
      as Hp by done.
    rewrite !Hs, Hp. destruct (status r); repeat case_bool_decide; try congruence;
      cbn; f_equal; lia.
Qed.

Lemma counts_for_runs_spec runs : counts_for_runs runs = counts_of runs.
Proof. unfold counts_for_runs. rewrite count_run_fold. unfold counts_of. cbn. f_equal; lia. Qed.

Lemma merge_pending_spec existing run :
  is_finalized existing = false -> merge_pending existing run = Spec.merge existing run.
Proof.
  intros H. unfold merge_pending, Spec.merge. rewrite H. f_equal.
  - destruct (Z.ltb_spec (triggered_at run) (triggered_at existing)); lia.
  - destruct (Z.ltb_spec (timeout existing) (timeout run)); lia.
  - destruct (is_empty (verify_url existing)) eqn:E1; [|done].
    apply is_empty_true in E1. destruct (is_empty (verify_url run)) eqn:E2; [|done].
    apply is_empty_true in E2. cbn. congruence.
  - destruct (is_empty (verifier_auth_token existing)) eqn:E1; [|done].
    apply is_empty_true in E1. destruct (is_empty (verifier_auth_token run)) eqn:E2; [|done].
    apply is_empty_true in E2. cbn. congruence.
Qed.

Lemma filter_values (p : TestCaseRecord -> bool) s :
  List.filter p (values (data s)) ≡ₚ List.filter p (Spec.records (abs s)).
Proof. apply filter_perm. by rewrite mem_records_abs. Qed.

Lemma counts_values (p : TestCaseRecord -> bool) s :
  counts_for_runs (List.filter p (values (data s)))
  = counts_of (List.filter p (Spec.records (abs s))).
Proof. rewrite counts_for_runs_spec. apply counts_of_perm, filter_values. Qed.

Lemma mem_inv_insert m bg id r :
  inv (mk_store m) -> ref_ok bg -> blue_green_ref r = bg -> test_id r = id ->
  inv (mk_store (<[record_key bg id := r]> m)).
Proof.
  intros Hm Hb <- <-. unfold inv in *. cbn in *. by apply map_Forall_insert_2.
Qed.

Lemma inv_key s bg id r :
  inv s -> ref_ok bg -> data s !! record_key bg id = Some r ->
  blue_green_ref r = bg /\ test_id r = id.
Proof.
  intros Hs Hb Hr. destruct (Hs _ _ Hr) as [Hk Ho].
  pose proof (decode_key _ id Hb) as H1. pose proof (decode_key _ (test_id r) Ho) as H2.
  rewrite Hk, H2 in H1. by injection H1.
Qed.

Lemma size_abs s : size (abs s) = size (data s).
Proof.
  unfold abs. rewrite <- !length_map_to_list.
  by rewrite (map_to_list_kmap _), length_fmap.
Qed.

(** Cleaning up by the reference of the record is cleaning up by the key. *)
Lemma abs_cleanup s bg :
  inv s ->
  abs (mk_store (filter (fun kr : string * TestCaseRecord => blue_green_ref kr.2 <> bg) (data s)))
  = Spec.cleanup_blue_green bg (abs s).
Proof.
  intros Hs. unfold abs, Spec.cleanup_blue_green. cbn.
  apply map_eq. intros [b i].
  apply option_eq. intros r. rewrite map_lookup_filter_Some, !(lookup_kmap_Some _). cbn.
  split.
  - intros (k & Ek & [Hk Hne]%map_lookup_filter_Some). split; [by exists k|].
    destruct (Hs _ _ Hk) as [-> Ho]. rewrite decode_key in Ek by done. cbn in *. congruence.
  - intros [(k & Ek & Hk) Hne]. exists k. split; [done|].
    apply map_lookup_filter_Some. split; [done|].
    destruct (Hs _ _ Hk) as [-> Ho]. rewrite decode_key in Ek by done. cbn in *. congruence.
Qed.

Lemma registration_fields a b c d e r :
  blue_green_ref (set_registration a b c d e r) = blue_green_ref r /\
  test_id (set_registration a b c d e r) = test_id r.
Proof. done. Qed.

Lemma mem_register_spec run s :
  inv s -> ref_ok (blue_green_ref run) ->
  (register run s).1 = Ok tt /\ inv (register run s).2 /\
  abs (register run s).2 = Spec.register run (abs s).
Proof.
  intros Hs Hr. unfold register, Spec.register, Spec.key. rewrite mem_abs_lookup by done.
  destruct s as [m]. cbn in *.
  destruct (m !! record_key (blue_green_ref run) (test_id run)) as [e|] eqn:E; cbn.
  - destruct (inv_key (mk_store m) _ _ _ Hs Hr E) as [Hb Hi].
    destruct (is_finalized e) eqn:F; cbn.
    + split_and!; [done|done|]. unfold Spec.merge. rewrite F.
      symmetry. apply insert_id. by rewrite mem_abs_lookup.
    + split_and!; [done|by apply mem_inv_insert|].
      by rewrite mem_abs_insert, merge_pending_spec.
  - split_and!; [done|by apply mem_inv_insert|]. by apply mem_abs_insert.
Qed.

(** The two finalizing operations are one function of the contract. *)
Lemma finalize_spec f bg id s :
  inv s -> ref_ok bg ->
  (forall r, blue_green_ref (f r) = blue_green_ref r /\ test_id (f r) = test_id r) ->
  let out := match data s !! record_key bg id with
             | Some run =>
                 if negb (is_pending run) then (Err (NotFound id), s)
                 else (Ok tt, mk_store (<[record_key bg id := f run]> (data s)))
             | None => (Err (NotFound id), s)
             end in
  inv out.2 /\ abs out.2 = (Spec.finalize f bg id (abs s)).2 /\
  out.1 = (Spec.finalize f bg id (abs s)).1.
Proof.
  intros Hs Hb Hf. unfold Spec.finalize. rewrite mem_abs_lookup by done.
  destruct s as [m]. cbn in *.
  destruct (m !! record_key bg id) as [r|] eqn:E; cbn; [|done].
  destruct (is_pending r); cbn; [|done].
  destruct (inv_key (mk_store m) _ _ _ Hs Hb E), (Hf r).
  split_and!; [by apply mem_inv_insert; [|  |congruence|congruence]| |done]. by apply mem_abs_insert.
Qed.

Lemma mem_set_verdict_spec bg id p msg s :
  inv s -> ref_ok bg ->
  inv (set_verdict bg id p msg s).2 /\
  abs (set_verdict bg id p msg s).2 = (Spec.set_verdict bg id p msg (abs s)).2 /\
  (set_verdict bg id p msg s).1 = (Spec.set_verdict bg id p msg (abs s)).1.
Proof. intros Hs Hb. by apply (finalize_spec (Spec.outcome p msg)). Qed.

Lemma mem_mark_timed_out_spec bg id s :
  inv s -> ref_ok bg ->
  inv (mark_timed_out bg id s).2 /\
  abs (mark_timed_out bg id s).2 = (Spec.mark_timed_out bg id (abs s)).2 /\
  (mark_timed_out bg id s).1 = (Spec.mark_timed_out bg id (abs s)).1.
Proof. intros Hs Hb. by apply (finalize_spec Spec.expire). Qed.

Lemma mem_decrement_spec bg id s :
  inv s -> ref_ok bg ->
  inv (decrement_retries bg id s).2 /\
  abs (decrement_retries bg id s).2 = (Spec.decrement_retries bg id (abs s)).2 /\
  Contract.allowed (OpDecrement bg id) (abs s) (AnsRetries (decrement_retries bg id s).1).
Proof.
  intros Hs Hb. unfold decrement_retries, Spec.decrement_retries, Contract.allowed.
  unfold Spec.decrement_retries. rewrite mem_abs_lookup by done.
  destruct s as [m]. cbn in *.
  destruct (m !! record_key bg id) as [r|] eqn:E; cbn; [|auto].
  destruct (is_pending r); cbn; [|done].
  destruct (Z.ltb 0 (retries_remaining r)); cbn; [|done].
  destruct (inv_key (mk_store m) _ _ _ Hs Hb E).
  split_and!; [by apply mem_inv_insert|by apply mem_abs_insert|done].
Qed.

Lemma messages_values bg s :
  omap failure_message (List.filter (fun r => String.eqb (blue_green_ref r) bg) (values (data s)))
  ≡ₚ Contract.messages bg (abs s).
Proof. unfold Contract.messages. by rewrite filter_values. Qed.

Lemma mem_cleanup_spec bg s :
  inv s ->
  inv (cleanup_blue_green bg s).2 /\
  abs (cleanup_blue_green bg s).2 = Spec.cleanup_blue_green bg (abs s) /\
  (cleanup_blue_green bg s).1
  = Ok (Z.of_nat (size (abs s)) - Z.of_nat (size (Spec.cleanup_blue_green bg (abs s)))).
Proof.
  intros Hs. unfold cleanup_blue_green. cbn [fst snd].
  pose proof (abs_cleanup s bg Hs) as E. rewrite <- E, !size_abs. split_and!; [|done|done].
  intros k r [Hk _]%map_lookup_filter_Some. by apply Hs.
Qed.

(** The deadline of a record is the deadline the store goes by. *)
Lemma mem_expired_spec now s d :
  inv s -> Contract.covered (abs s) d ->
  inv (cleanup_expired now s).2 /\ Contract.expired now (abs s) d (abs (cleanup_expired now s).2) /\
  (cleanup_expired now s).1 = Ok (Z.of_nat (size (abs s)) - Z.of_nat (size (abs (cleanup_expired now s).2))).
Proof.
  intros Hs Hd. unfold cleanup_expired. cbn [fst snd]. set (kept := filter _ (data s)).
  assert (Hk : forall k r, abs (mk_store kept) !! k = Some r <->
                 abs s !! k = Some r /\ ~ (is_pending r = true /\ expires_at r < now)).
  { intros k r. unfold abs, kept. cbn. rewrite !(lookup_kmap_Some _). setoid_rewrite map_lookup_filter_Some.
    cbn. naive_solver. }
  split_and!.
  - intros k r [Hr _]%map_lookup_filter_Some. by apply Hs.
  - split; [apply map_subseteq_spec; intros k r Hr; by apply Hk in Hr as [Hr _]|].
    intros k r Hr. split.
    + intros Hn. destruct (decide (is_pending r = true /\ expires_at r < now)) as [?|Hne]; [done|].
      pose proof (proj2 (Hk k r) (conj Hr Hne)). congruence.
    + intros Hp Ht. destruct (abs (mk_store kept) !! k) as [r'|] eqn:E; [|done].
      apply Hk in E as [E Hne]. assert (r' = r) as -> by congruence.
      destruct (Hd _ _ Hr) as (t & Hdt & Hl). specialize (Ht t Hdt). exfalso. apply Hne. split; [done|lia].
  - by rewrite !size_abs.
Qed.

#[global] Instance memory_refines :
  StoreRefines MemoryStore inv abs (fun s => Contract.covered (abs s)) ref_ok any_record.
Proof.
  intros o s d Hs Hd Ho.
  enough (inv (apply_op o s).2 /\ Contract.step o (abs s) d (apply_op o s).1 (abs (apply_op o s).2)) as [Hi Hst].
  { split_and!; [done| |done]. destruct (Contract.timeless o) eqn:Et.
    - apply Contract.step_timeless in Hst as [-> _]; [|done]. by apply Contract.covered_next.
    - destruct o; try done. destruct Hst as [[Hsub _] _]. by eapply Contract.covered_subset. }
  destruct o; cbn in Ho; cbn [apply_op store_register store_get
    store_set_verdict store_mark_timed_out store_decrement_retries store_list_pending store_list_blue_green_refs
    store_counts store_counts_for_mode store_latest_failure_message store_cleanup_blue_green
    store_cleanup_expired memory_store Contract.step Contract.next].
  - destruct Ho as [Ho _]. destruct (mem_register_spec r s Hs Ho) as (E1 & Hi & Ha).
    destruct (register r s); cbn in *. by subst.
  - cbn. unfold get. by rewrite mem_abs_lookup.
  - destruct (mem_set_verdict_spec bg id p m s Hs Ho) as (Hi & Ha & E).
    destruct (set_verdict bg id p m s). cbn in *. by subst.
  - destruct (mem_mark_timed_out_spec bg id s Hs Ho) as (Hi & Ha & E).
    destruct (mark_timed_out bg id s). cbn in *. by subst.
  - destruct (mem_decrement_spec bg id s Hs Ho) as (Hi & Ha & Hc).
    destruct (decrement_retries bg id s). cbn in *. done.
  - cbn. split_and!; try done. eexists. split; [done|]. apply filter_values.
  - cbn. split_and!; try done. unfold list_blue_green_refs, Spec.list_blue_green_refs. do 2 f_equal.
    apply set_eq. intros b. rewrite !elem_of_list_to_set. by rewrite mem_records_abs.
  - cbn. split_and!; try done. unfold counts. by rewrite counts_values.
  - cbn. split_and!; try done. unfold counts_for_mode. by rewrite counts_values.
  - cbn [fst snd Contract.allowed]. split_and!; try done. eexists. split; [done|].
    pose proof (messages_values bg s) as Hp.
    destruct (last _) as [x|] eqn:E.
    + rewrite <- Hp. by apply last_Some_elem_of.
    + apply last_None in E. rewrite E in Hp. by apply Permutation_nil_l in Hp.
  - destruct (mem_cleanup_spec bg s Hs) as (Hi & Ha & E).
    destruct (cleanup_blue_green bg s). cbn in *. by subst.
  - destruct (mem_expired_spec now s d Hs Hd) as (Hi & He & E).
    destruct (cleanup_expired now s). cbn in *. unfold Contract.removed. by subst.
Qed.

Lemma inv_new : inv new.
Proof. apply map_Forall_empty. Qed.

Lemma abs_new : abs new = ∅.
Proof. apply (kmap_empty _). Qed.

Lemma covers_new : Contract.covered (abs new) ∅.
Proof. rewrite abs_new. apply map_Forall_empty. Qed.
End Refinement.
End Memory.
