(* ===== verification/PostgresStore.v ===== *)
(** * The SQL store

    [operator/src/state_store/postgres.rs].  The table is a finite map from its
    primary key [(blue_green_ref, test_id)] to rows of columns; every SQL
    statement of the source is a function on it.  A status and a verification
    mode are stored as text, a timeout as a 32-bit number of seconds, so reading
    back is a decoding.  The order in which rows come back without [ORDER BY] is
    a parameter.  A statement that fails ([unavailable]) changes nothing.  Texts
    are assumed free of NUL bytes, which the column type rejects. *)

From S2P Require Import Prelude RustString StateStore.

Module Pg.

Record Row := {
  c_test_id : string;
  c_blue_green_ref : string;
  c_triggered_at : Z;
  c_trigger_inception_point : string;
  c_timeout_seconds : Z;
  c_status : string;
  c_verdict : option bool;
  c_verification_mode : string;
  c_verify_url : string;
  c_verifier_auth_token : string;
  c_retries_remaining : Z;
  c_failure_message : option string;
  c_expires_at : Z }.

Notation table := (gmap (string * string) Row).

Class ScanOrder := {
  scan : table -> list Row;
  scan_perm : forall t, scan t ≡ₚ (map_to_list t).*2 }.
#[global] Instance canonical_scan : ScanOrder | 100.
Proof. refine {| scan t := (map_to_list t).*2 |}. done. Defined.

Record PostgresStore `{ScanOrder} := mk_pg { rows : table; unavailable : option string }.
Arguments mk_pg {_} rows unavailable.

(** ** Encodings *)

Definition status_str (s : TestStatus) : string :=
  match s with
  | Triggered => "Triggered" | CaseObserving => "Observing" | Passed => "Passed"
  | Failed => "Failed" | TimedOut => "TimedOut"
  end.
Definition parse_status (s : string) : TestStatus :=
  if String.eqb s "Triggered" then Triggered else
  if String.eqb s "Observing" then CaseObserving else
  if String.eqb s "Passed" then Passed else
  if String.eqb s "Failed" then Failed else
  if String.eqb s "TimedOut" then TimedOut else Triggered.
Definition mode_str (m : VerificationMode) : string :=
  match m with Data => "Data" | Custom => "Custom" end.
Definition parse_mode (s : string) : VerificationMode :=
  if String.eqb s "Custom" then Custom else Data.

(** [Duration::num_seconds() as i32]. *)
Definition timeout_column (millis : Z) : Z := wrap_i32 (Z.quot millis 1000).

Definition row_to_test (r : Row) : TestCaseRecord :=
  {| test_id := c_test_id r; blue_green_ref := c_blue_green_ref r;
     triggered_at := c_triggered_at r; source_inception_point := c_trigger_inception_point r;
     timeout := c_timeout_seconds r * 1000; status := parse_status (c_status r);
     verdict := c_verdict r; verification_mode := parse_mode (c_verification_mode r);
     verify_url := c_verify_url r; verifier_auth_token := c_verifier_auth_token r;
     retries_remaining := c_retries_remaining r; failure_message := c_failure_message r |}.

(** The [VALUES] of the insert. *)
Definition bind_row (run : TestCaseRecord) : Row :=
  {| c_test_id := test_id run; c_blue_green_ref := blue_green_ref run;
     c_triggered_at := triggered_at run;
     c_trigger_inception_point := source_inception_point run;
     c_timeout_seconds := timeout_column (timeout run); c_status := status_str (status run);
     c_verdict := verdict run; c_verification_mode := mode_str (verification_mode run);
     c_verify_url := verify_url run; c_verifier_auth_token := verifier_auth_token run;
     c_retries_remaining := retries_remaining run; c_failure_message := failure_message run;
     c_expires_at := expires_at run |}.

(** [status IN ('Triggered', 'Observing')]. *)
Definition status_open (r : Row) : bool :=
  (String.eqb (c_status r) "Triggered" || String.eqb (c_status r) "Observing")%bool.

(** [CASE WHEN old = '' THEN excluded ELSE old END]. *)
Definition case_empty (old excluded : string) : string :=
  if String.eqb old "" then excluded else old.

(** The [DO UPDATE SET] of the insert. *)
Definition on_conflict (old excluded : Row) : Row :=
  {| c_test_id := c_test_id old; c_blue_green_ref := c_blue_green_ref old;
     c_triggered_at := Z.min (c_triggered_at old) (c_triggered_at excluded);
     c_trigger_inception_point :=
       case_empty (c_trigger_inception_point old) (c_trigger_inception_point excluded);
     c_timeout_seconds := Z.max (c_timeout_seconds old) (c_timeout_seconds excluded);
     c_status := c_status old; c_verdict := c_verdict old;
     c_verification_mode := c_verification_mode old;
     c_verify_url := case_empty (c_verify_url old) (c_verify_url excluded);
     c_verifier_auth_token := case_empty (c_verifier_auth_token old) (c_verifier_auth_token excluded);
     c_retries_remaining := c_retries_remaining old; c_failure_message := c_failure_message old;
     c_expires_at := Z.max (c_expires_at old) (c_expires_at excluded) |}.

(** [SET status = .., verdict = .., failure_message = ..]. *)
Definition set_status_row (st : string) (v : option bool) (m : option string) (r : Row) : Row :=
  {| c_test_id := c_test_id r; c_blue_green_ref := c_blue_green_ref r;
     c_triggered_at := c_triggered_at r; c_trigger_inception_point := c_trigger_inception_point r;
     c_timeout_seconds := c_timeout_seconds r; c_status := st; c_verdict := v;
     c_verification_mode := c_verification_mode r; c_verify_url := c_verify_url r;
     c_verifier_auth_token := c_verifier_auth_token r;
     c_retries_remaining := c_retries_remaining r; c_failure_message := m;
     c_expires_at := c_expires_at r |}.

(** [SET retries_remaining = ..]. *)
Definition set_retries_row (n : Z) (r : Row) : Row :=
  {| c_test_id := c_test_id r; c_blue_green_ref := c_blue_green_ref r;
     c_triggered_at := c_triggered_at r; c_trigger_inception_point := c_trigger_inception_point r;
     c_timeout_seconds := c_timeout_seconds r; c_status := c_status r; c_verdict := c_verdict r;
     c_verification_mode := c_verification_mode r; c_verify_url := c_verify_url r;
     c_verifier_auth_token := c_verifier_auth_token r; c_retries_remaining := n;
     c_failure_message := c_failure_message r; c_expires_at := c_expires_at r |}.

(** ** Operations *)

Section Operations.
Context `{order : ScanOrder}.

(** [query.execute(&pool).await.map_err(StoreError::Postgres)?]. *)
Definition execute {A} (s : PostgresStore) (body : table -> A * table)
    : result StoreError A * PostgresStore :=
  match unavailable s with
  | Some e => (Err (Postgres e), s)
  | None => let '(a, t) := body (rows s) in (Ok a, mk_pg t None)
  end.
Definition query {A} (s : PostgresStore) (body : table -> A) : result StoreError A :=
  match unavailable s with Some e => Err (Postgres e) | None => Ok (body (rows s)) end.

(** [UPDATE .. SET .. WHERE blue_green_ref = $ AND test_id = $ AND <cond>]: the
    number of rows affected and the table. *)
Definition update_row (bg id : string) (cond : Row -> bool) (set : Row -> Row) (t : table)
    : Z * table :=
  match t !! (bg, id) with
  | Some r => if cond r then (1, <[(bg, id) := set r]> t) else (0, t)
  | None => (0, t)
  end.

Definition register (run : TestCaseRecord) (s : PostgresStore)
    : result StoreError unit * PostgresStore :=
  execute s (fun t =>
    let k := (blue_green_ref run, test_id run) in
    match t !! k with
    | Some old => (tt, if status_open old then <[k := on_conflict old (bind_row run)]> t else t)
    | None => (tt, <[k := bind_row run]> t)
    end).

Definition get (bg id : string) (s : PostgresStore) : result StoreError (option TestCaseRecord) :=
  query s (fun t => row_to_test <$> t !! (bg, id)).

(** [if result.rows_affected() == 0 { return Err(NotFound(test_id)) }]. *)
Definition require_affected (id : string) (out : result StoreError Z * PostgresStore)
    : result StoreError unit * PostgresStore :=
  (match out.1 with
   | Ok n => if Z.eqb n 0 then Err (NotFound id) else Ok tt
   | Err e => Err e
   end, out.2).

Definition set_verdict (bg id : string) (passed : bool) (msg : option string) (s : PostgresStore)
    : result StoreError unit * PostgresStore :=
  require_affected id (execute s (update_row bg id status_open
    (set_status_row (if passed then "Passed" else "Failed") (Some passed) msg))).

Definition mark_timed_out (bg id : string) (s : PostgresStore)
    : result StoreError unit * PostgresStore :=
  require_affected id (execute s (update_row bg id status_open
    (fun r => set_status_row "TimedOut" None (c_failure_message r) r))).

Definition decrement_retries (bg id : string) (s : PostgresStore)
    : result StoreError (option Z) * PostgresStore :=
  execute s (fun t =>
    let '(n, t') := update_row bg id (fun r => status_open r && Z.ltb 0 (c_retries_remaining r))%bool
                      (fun r => set_retries_row (c_retries_remaining r - 1) r) t in
    (if Z.eqb n 0 then None else c_retries_remaining <$> t' !! (bg, id), t')).

Definition list_pending (s : PostgresStore) : result StoreError (list TestCaseRecord) :=
  query s (fun t => row_to_test <$> List.filter status_open (scan t)).

Definition list_blue_green_refs (s : PostgresStore) : result StoreError (gset string) :=
  query s (fun t => list_to_set (c_blue_green_ref <$> scan t)).

(** [COUNT( * ) FILTER (WHERE ..)] over the rows a predicate selects. *)
Definition counts_query (predicate : Row -> bool) (s : PostgresStore) : result StoreError Counts :=
  query s (fun t =>
    let selected := List.filter predicate (scan t) in
    let count p := Z.of_nat (length (List.filter p selected)) in
    {| passed := count (fun r => String.eqb (c_status r) "Passed");
       failed := count (fun r => String.eqb (c_status r) "Failed");
       timed_out := count (fun r => String.eqb (c_status r) "TimedOut");
       pending := count status_open |}).

Definition counts (bg : string) : PostgresStore -> result StoreError Counts :=
  counts_query (fun r => String.eqb (c_blue_green_ref r) bg).

Definition counts_for_mode (bg : string) (md : VerificationMode)
    : PostgresStore -> result StoreError Counts :=
  counts_query (fun r => String.eqb (c_blue_green_ref r) bg
                         && String.eqb (c_verification_mode r) (mode_str md))%bool.

(** [ORDER BY triggered_at DESC LIMIT 1]: a row with the greatest time. *)
Fixpoint latest (l : list Row) : option Row :=
  match l with
  | [] => None
  | r :: l' => match latest l' with
               | Some r' => Some (if Z.leb (c_triggered_at r') (c_triggered_at r) then r else r')
               | None => Some r
               end
  end.

Definition latest_failure_message (bg : string) (s : PostgresStore)
    : result StoreError (option string) :=
  query s (fun t => latest (List.filter
    (fun r => String.eqb (c_blue_green_ref r) bg && is_some (c_failure_message r))%bool (scan t))
    ≫= c_failure_message).

Definition delete_where (cond : Row -> bool) (t : table) : Z * table :=
  let kept := filter (fun kr : (string * string) * Row => cond kr.2 = false) t in
  (Z.of_nat (size t) - Z.of_nat (size kept), kept).

Definition cleanup_blue_green (bg : string) (s : PostgresStore)
    : result StoreError Z * PostgresStore :=
  execute s (delete_where (fun r => String.eqb (c_blue_green_ref r) bg)).

(** [now] is the database's clock. *)
Definition cleanup_expired (now : Z) (s : PostgresStore) : result StoreError Z * PostgresStore :=
  execute s (delete_where (fun r => Z.ltb (c_expires_at r) now && status_open r)%bool).

#[global] Instance postgres_store : StateStore PostgresStore := {
  store_register := register;
  store_get := get;
  store_set_verdict := set_verdict;
  store_mark_timed_out := mark_timed_out;
  store_decrement_retries := decrement_retries;
  store_list_pending := list_pending;
  store_list_blue_green_refs := list_blue_green_refs;
  store_counts := counts;
  store_counts_for_mode := counts_for_mode;
  store_latest_failure_message := latest_failure_message;
  store_cleanup_blue_green := cleanup_blue_green;
  store_cleanup_expired := cleanup_expired }.
End Operations.

(** ** The refinement: rows decode to the records of the contract *)

(** The records the columns can hold: a whole number of seconds that fits. *)
Definition storable (r : TestCaseRecord) : Prop :=
  exists k, timeout r = k * 1000 /\ in_signed 32 k.
Definition any_ref (_ : string) : Prop := True.

(** The text columns of a row hold encodings, and it sits at its primary key. *)
Definition wf_row (k : string * string) (r : Row) : Prop :=
  (c_blue_green_ref r, c_test_id r) = k /\
  c_status r = status_str (parse_status (c_status r)) /\
  c_verification_mode r = mode_str (parse_mode (c_verification_mode r)).

Lemma parse_status_str s : parse_status (status_str s) = s.
Proof. by destruct s. Qed.
Lemma parse_mode_str m : parse_mode (mode_str m) = m.
Proof. by destruct m. Qed.

Lemma timeout_column_storable r : storable r -> timeout_column (timeout r) * 1000 = timeout r.
Proof.
  intros (k & -> & Hk). unfold timeout_column.
  rewrite Z.quot_mul by lia. by rewrite wrap_i32_id.
Qed.

Lemma status_eqb_spec s s' : String.eqb (status_str s) (status_str s') = bool_decide (s = s').
Proof. by destruct s, s'. Qed.
Lemma mode_eqb_spec m m' : String.eqb (mode_str m) (mode_str m') = bool_decide (m = m').
Proof. by destruct m, m'. Qed.

Lemma status_open_spec k r : wf_row k r -> status_open r = is_pending (row_to_test r).
Proof.
  intros (_ & Hs & _). unfold status_open, is_pending. cbn. rewrite Hs, parse_status_str.
  by destruct (parse_status (c_status r)).
Qed.

Lemma wf_bind_row r : wf_row (blue_green_ref r, test_id r) (bind_row r).
Proof. unfold wf_row. cbn. by rewrite parse_status_str, parse_mode_str. Qed.

Lemma row_to_test_bind r : storable r -> row_to_test (bind_row r) = r.
Proof.
  intros Hr. destruct r. unfold row_to_test, bind_row. cbn -[Z.mul].
  pose proof (timeout_column_storable _ Hr) as Ht. cbn -[Z.mul] in Ht.
  by rewrite parse_status_str, parse_mode_str, Ht.
Qed.

Lemma row_to_test_set_status st v m r :
  row_to_test (set_status_row (status_str st) v m r) = set_outcome st v m (row_to_test r).
Proof. unfold row_to_test, set_outcome. cbn. by rewrite parse_status_str. Qed.

Lemma on_conflict_spec k old run :
  wf_row k old -> storable run -> status_open old = true ->
  row_to_test (on_conflict old (bind_row run)) = Spec.merge (row_to_test old) run.
Proof.
  intros Hw Hr Ho. rewrite (status_open_spec k) in Ho by done.
  unfold Spec.merge. rewrite pending_xor_finalized in Ho. apply negb_true_iff in Ho. rewrite Ho.
  unfold row_to_test, set_registration, on_conflict. cbn -[Z.mul]. f_equal.
  pose proof (timeout_column_storable _ Hr). lia.
Qed.

Lemma merge_finalized old run : is_pending old = false -> Spec.merge old run = old.
Proof.
  intros H. unfold Spec.merge. rewrite pending_xor_finalized in H.
  apply negb_false_iff in H. by rewrite H.
Qed.

Section Refinement.
Context `{order : ScanOrder}.

Definition abs (s : PostgresStore) : cases := row_to_test <$> rows s.
Definition inv (s : PostgresStore) : Prop := unavailable s = None /\ map_Forall wf_row (rows s).

#[local] Arguments abs : simpl never.

Lemma pg_abs_lookup s k : abs s !! k = row_to_test <$> rows s !! k.
Proof. apply lookup_fmap. Qed.

Lemma pg_abs_insert t k r :
  abs (mk_pg (<[k := r]> t) None) = <[k := row_to_test r]> (abs (mk_pg t None)).
Proof. apply fmap_insert. Qed.

Lemma pg_inv_insert t k r : inv (mk_pg t None) -> wf_row k r -> inv (mk_pg (<[k := r]> t) None).
Proof. intros [_ H] Hr. split; [done|]. by apply map_Forall_insert_2. Qed.

Lemma pg_records_abs s : Spec.records (abs s) ≡ₚ row_to_test <$> scan (rows s).
Proof.
  unfold Spec.records, abs. rewrite scan_perm, map_to_list_fmap, <- !list_fmap_compose. done.
Qed.

Lemma scan_wf t r : map_Forall wf_row t -> r ∈ scan t -> exists k, wf_row k r.
Proof.
  intros Ht. rewrite scan_perm, list_elem_of_fmap.
  intros ([k r'] & -> & H%elem_of_map_to_list). exists k. by apply (Ht _ _ H).
Qed.

(** A selection of rows decodes to the selection of the records. *)
Lemma filter_rows (p : Row -> bool) (q : TestCaseRecord -> bool) s :
  inv s -> (forall k r, wf_row k r -> p r = q (row_to_test r)) ->
  row_to_test <$> List.filter p (scan (rows s)) ≡ₚ List.filter q (Spec.records (abs s)).
Proof.
  intros [_ Hw] Hpq. rewrite (filter_perm q _ _ (pg_records_abs s)).
  assert (Hl : forall r, r ∈ scan (rows s) -> exists k, wf_row k r) by (intros; by eapply scan_wf).
  induction (scan (rows s)) as [|r l IH]; [done|]. cbn.
  destruct (Hl r) as [k Hk]; [set_solver|]. rewrite (Hpq k r Hk).
  assert (row_to_test <$> List.filter p l ≡ₚ List.filter q (row_to_test <$> l))
    by (apply IH; set_solver).
  destruct (q (row_to_test r)); cbn; by rewrite ?H.
Qed.

Lemma length_filter_rows (p : Row -> bool) (q : TestCaseRecord -> bool) l :
  (forall r, r ∈ l -> p r = q (row_to_test r)) ->
  Z.of_nat (length (List.filter p l)) = count_if q (row_to_test <$> l).
Proof.
  intros H. induction l as [|r l IH]; [done|]. cbn. rewrite count_if_cons, H by set_solver.
  destruct (q (row_to_test r)); cbn [length]; rewrite <- IH by set_solver; lia.
Qed.

Lemma counts_query_spec (p : Row -> bool) (q : TestCaseRecord -> bool) s :
  inv s -> (forall k r, wf_row k r -> p r = q (row_to_test r)) ->
  counts_query p s = Ok (counts_of (List.filter q (Spec.records (abs s)))).
Proof.
  intros Hs Hpq. pose proof Hs as [Hu Hw]. unfold counts_query, query. rewrite Hu. cbn zeta.
  rewrite <- (counts_of_perm _ _ (filter_rows p q s Hs Hpq)). unfold counts_of.
  assert (Hl : forall r, r ∈ List.filter p (scan (rows s)) -> exists k, wf_row k r).
  { intros r [Hr _]%list_elem_of_In%filter_In. apply (scan_wf (rows s)); [done|].
    by apply list_elem_of_In. }
  assert (Hst : forall st r, r ∈ List.filter p (scan (rows s)) ->
            String.eqb (c_status r) (status_str st) = has_status st (row_to_test r)).
  { intros st r Hr. destruct (Hl r Hr) as (k & _ & E & _). unfold has_status. cbn.
    rewrite E at 1. apply status_eqb_spec. }
  f_equal. f_equal; apply length_filter_rows.
  - apply (Hst Passed).
  - apply (Hst Failed).
  - apply (Hst TimedOut).
  - intros r Hr. destruct (Hl r Hr) as [k Hk]. by apply (status_open_spec k).
Qed.

Lemma latest_in l r : latest l = Some r -> r ∈ l.
Proof.
  revert r. induction l as [|x l IH]; intros r; cbn; [done|].
  destruct (latest l) as [y|]; [|intros [= <-]; set_solver].
  case_match; intros [= <-]; [set_solver|]. right. by apply IH.
Qed.

Lemma latest_None l : latest l = None -> l = [].
Proof. destruct l as [|x l]; cbn; [done|]. by destruct (latest l). Qed.

(** The conditional [UPDATE] is the finalization of the contract. *)
Lemma update_spec (set : Row -> Row) (f : TestCaseRecord -> TestCaseRecord) bg id s :
  inv s -> (forall r, row_to_test (set r) = f (row_to_test r)) ->
  (forall k r, wf_row k r -> wf_row k (set r)) ->
  let out := require_affected id (execute s (update_row bg id status_open set)) in
  inv out.2 /\ abs out.2 = (Spec.finalize f bg id (abs s)).2 /\
  out.1 = (Spec.finalize f bg id (abs s)).1.
Proof.
  intros [Hu Hw] Hf Hset. unfold Spec.finalize. rewrite pg_abs_lookup.
  destruct s as [t u]. cbn in Hu, Hw |- *. subst u. unfold execute, update_row. cbn.
  destruct (t !! (bg, id)) as [r|] eqn:E; cbn; [|done].
  pose proof (Hw _ _ E) as Hr. rewrite (status_open_spec _ _ Hr).
  destruct (is_pending (row_to_test r)); cbn; [|done].
  split_and!; [|by rewrite pg_abs_insert, Hf|done].
  apply pg_inv_insert; [done|]. by apply Hset.
Qed.

Lemma wf_set_status k st v m r : wf_row k r -> wf_row k (set_status_row (status_str st) v m r).
Proof. intros (H & _ & Hm). split_and!; [done| |done]. cbn. by rewrite parse_status_str. Qed.

Lemma pg_set_verdict_spec bg id p msg s :
  inv s ->
  inv (set_verdict bg id p msg s).2 /\
  abs (set_verdict bg id p msg s).2 = (Spec.set_verdict bg id p msg (abs s)).2 /\
  (set_verdict bg id p msg s).1 = (Spec.set_verdict bg id p msg (abs s)).1.
Proof.
  intros Hs. unfold set_verdict.
  replace (if p then "Passed" else "Failed") with (status_str (if p then Passed else Failed))
    by (by destruct p).
  apply (update_spec _ (Spec.outcome p msg)); [done| |].
  - intros r. apply row_to_test_set_status.
  - intros k r. apply wf_set_status.
Qed.

Lemma pg_mark_timed_out_spec bg id s :
  inv s ->
  inv (mark_timed_out bg id s).2 /\
  abs (mark_timed_out bg id s).2 = (Spec.mark_timed_out bg id (abs s)).2 /\
  (mark_timed_out bg id s).1 = (Spec.mark_timed_out bg id (abs s)).1.
Proof.
  intros Hs. apply (update_spec _ Spec.expire); [done| |].
  - intros r. apply (row_to_test_set_status TimedOut).
  - intros k r. apply (wf_set_status k TimedOut).
Qed.

Lemma pg_register_spec run s :
  inv s -> storable run ->
  inv (register run s).2 /\ abs (register run s).2 = Spec.register run (abs s) /\
  (register run s).1 = Ok tt.
Proof.
  intros [Hu Hw] Hr. unfold Spec.register, Spec.key. rewrite pg_abs_lookup.
  destruct s as [t u]. cbn in Hu, Hw |- *. subst u. unfold register, execute. cbn.
  destruct (t !! (blue_green_ref run, test_id run)) as [old|] eqn:E; cbn.
  - pose proof (Hw _ _ E) as Ho. destruct (status_open old) eqn:Eo.
    + split_and!; [|by rewrite pg_abs_insert, (on_conflict_spec _ _ _ Ho)|done].
      apply pg_inv_insert; [done|]. by destruct Ho as (? & ? & ?).
    + split_and!; [done| |done]. rewrite (status_open_spec _ _ Ho) in Eo.
      rewrite merge_finalized by done. symmetry. apply insert_id. by rewrite pg_abs_lookup; cbn; rewrite E.
  - split_and!; [|by rewrite pg_abs_insert, row_to_test_bind|done].
    apply pg_inv_insert; [done|]. apply wf_bind_row.
Qed.

Lemma pg_decrement_spec bg id s :
  inv s ->
  inv (decrement_retries bg id s).2 /\
  abs (decrement_retries bg id s).2 = (Spec.decrement_retries bg id (abs s)).2 /\
  (decrement_retries bg id s).1 = Ok (Spec.decrement_retries bg id (abs s)).1.
Proof.
  intros [Hu Hw]. unfold Spec.decrement_retries. rewrite pg_abs_lookup.
  destruct s as [t u]. cbn in Hu, Hw |- *. subst u. unfold decrement_retries, execute, update_row. cbn.
  destruct (t !! (bg, id)) as [r|] eqn:E; cbn; [|done].
  pose proof (Hw _ _ E) as Hr. rewrite (status_open_spec _ _ Hr).
  destruct (is_pending (row_to_test r) && Z.ltb 0 (c_retries_remaining r))%bool; cbn; [|done].
  rewrite lookup_insert_eq, pg_abs_insert. split_and!; [|done|done].
  apply pg_inv_insert; [done|]. by destruct Hr as (? & ? & ?).
Qed.

Lemma pg_cleanup_spec bg s :
  inv s ->
  inv (cleanup_blue_green bg s).2 /\
  abs (cleanup_blue_green bg s).2 = Spec.cleanup_blue_green bg (abs s) /\
  (cleanup_blue_green bg s).1
  = Ok (Z.of_nat (size (abs s)) - Z.of_nat (size (Spec.cleanup_blue_green bg (abs s)))).
Proof.
  intros [Hu Hw]. destruct s as [t u]. cbn in Hu, Hw. subst u.
  assert (abs (cleanup_blue_green bg (mk_pg t None)).2
          = Spec.cleanup_blue_green bg (abs (mk_pg t None))) as E.
  { unfold cleanup_blue_green, execute, delete_where, abs, Spec.cleanup_blue_green. cbn.
    rewrite map_filter_fmap. f_equal. apply map_filter_ext. cbn. intros [b i] r Hr.
    destruct (Hw _ _ Hr) as ([= <- _] & _). cbn. by rewrite String.eqb_neq. }
  split_and!; [|done|].
  - split; [done|]. cbn. intros k r [Hk _]%map_lookup_filter_Some. by apply Hw.
  - rewrite <- E. unfold abs. rewrite !map_size_fmap. done.
Qed.

Lemma latest_spec bg s :
  inv s -> exists r, latest_failure_message bg s = Ok r /\
    match r with Some m => m ∈ Contract.messages bg (abs s) | None => Contract.messages bg (abs s) = [] end.
Proof.
  intros Hs. pose proof Hs as [Hu Hw]. unfold latest_failure_message, query. rewrite Hu.
  eexists. split; [done|].
  set (p := fun r => (String.eqb (c_blue_green_ref r) bg && is_some (c_failure_message r))%bool).
  set (q := fun r => (Spec.of_ref bg r && is_some (failure_message r))%bool).
  assert (Hm : Contract.messages bg (abs s)
               = omap failure_message (List.filter q (Spec.records (abs s)))).
  { unfold Contract.messages, q. induction (Spec.records (abs s)) as [|r l IH]; [done|]. cbn.
    destruct (Spec.of_ref bg r); cbn; [|done].
    destruct (failure_message r) eqn:E; cbn; rewrite ?E; by rewrite IH. }
  pose proof (filter_rows p q s Hs (fun _ _ _ => eq_refl)) as Hp. rewrite Hm.
  assert (Hperm : omap failure_message (row_to_test <$> List.filter p (scan (rows s)))
                  ≡ₚ omap failure_message (List.filter q (Spec.records (abs s)))) by (by rewrite Hp).
  destruct (latest (List.filter p (scan (rows s)))) as [r|] eqn:E; cbn.
  - apply latest_in in E.
    assert (p r = true) as Hpr by (apply list_elem_of_In, filter_In in E; tauto).
    apply andb_true_iff in Hpr as [_ Hsome].
    destruct (c_failure_message r) as [m|] eqn:Em; [|done].
    rewrite <- Hperm. apply list_elem_of_omap. exists (row_to_test r). split; [|done].
    by apply list_elem_of_fmap_2.
  - apply latest_None in E. rewrite E in Hperm. by apply Permutation_nil_l in Hperm.
Qed.

(** The deadline column holds the latest deadline the case was registered with. *)
Definition covers (s : PostgresStore) (d : deadlines) : Prop :=
  (forall k r, rows s !! k = Some r -> d !! k = Some (c_expires_at r)) /\ Contract.covered (abs s) d.

Lemma deadline_kept (o : op) (s : PostgresStore) (d : deadlines) :
  inv s -> (forall r, o <> OpRegister r) -> (forall k r, rows s !! k = Some r -> d !! k = Some (c_expires_at r)) ->
  forall k r, rows (apply_op o s).2 !! k = Some r -> d !! k = Some (c_expires_at r).
Proof.
  intros [Hu _] Ho Hd k r. destruct s as [t u]. cbn in Hu, Hd. subst u.
  assert (Hup : forall bg id cond set, (forall x, c_expires_at (set x) = c_expires_at x) ->
            forall k r, (update_row bg id cond set t).2 !! k = Some r -> d !! k = Some (c_expires_at r)).
  { intros bg id cond set Hset k' r'. unfold update_row. destruct (t !! (bg, id)) as [x|] eqn:E; [|apply Hd].
    destruct (cond x); [|apply Hd]. cbn [snd]. intros [[<- <-]|[_ Hk]]%lookup_insert_Some; [|by apply Hd].
    rewrite Hset. by apply Hd. }
  destruct o; cbn -[update_row delete_where]; try (by apply Hd); try (by destruct (Ho r0)).
  - unfold set_verdict, execute. cbn [unavailable rows]. destruct (update_row _ _ _ _ _) as [n t'] eqn:E. cbn.
    replace t' with (update_row bg id status_open
      (set_status_row (if p then "Passed" else "Failed") (Some p) m) t).2 by by rewrite E. by apply Hup.
  - unfold mark_timed_out, execute. cbn [unavailable rows]. destruct (update_row _ _ _ _ _) as [n t'] eqn:E. cbn.
    replace t' with (update_row bg id status_open
      (fun r => set_status_row "TimedOut" None (c_failure_message r) r) t).2 by by rewrite E. by apply Hup.
  - unfold decrement_retries, execute. cbn [unavailable rows].
    match goal with |- context [update_row bg id ?c ?f t] =>
      pose proof (Hup bg id c f (fun _ => eq_refl)) as Hx; destruct (update_row bg id c f t) as [n t'] end.
    cbn in *. apply Hx.
  - unfold delete_where. cbn. intros [Hk _]%map_lookup_filter_Some. by apply Hd.
  - unfold delete_where. cbn. intros [Hk _]%map_lookup_filter_Some. by apply Hd.
Qed.

Lemma deadline_registered (run : TestCaseRecord) (s : PostgresStore) (d : deadlines) :
  inv s -> (forall k r, rows s !! k = Some r -> d !! k = Some (c_expires_at r)) ->
  forall k r, rows (register run s).2 !! k = Some r ->
    Contract.next_deadlines (OpRegister run) (abs s) d !! k = Some (c_expires_at r).
Proof.
  intros [Hu Hw] Hd k r. cbn -[Z.max]. rewrite pg_abs_lookup.
  destruct s as [t u]. cbn in Hu, Hw, Hd |- *. subst u. unfold register, execute, Spec.key. cbn -[Z.max].
  destruct (t !! (blue_green_ref run, test_id run)) as [old|] eqn:E; cbn -[Z.max].
  - rewrite (status_open_spec _ _ (Hw _ _ E)), pending_xor_finalized.
    destruct (is_finalized (row_to_test old)); cbn -[Z.max]; [apply Hd|]. rewrite (Hd _ _ E).
    intros [[<- <-]|[Hne Hk]]%lookup_insert_Some; [apply lookup_insert_eq|].
    rewrite lookup_insert_ne by done. by apply Hd.
  - intros [[<- <-]|[Hne Hk]]%lookup_insert_Some; [apply lookup_insert_eq|].
    rewrite lookup_insert_ne by done. by apply Hd.
Qed.

Lemma pg_expired_spec now s d :
  inv s -> covers s d ->
  inv (cleanup_expired now s).2 /\ Contract.expired now (abs s) d (abs (cleanup_expired now s).2) /\
  (cleanup_expired now s).1 = Ok (Z.of_nat (size (abs s)) - Z.of_nat (size (abs (cleanup_expired now s).2))).
Proof.
  intros [Hu Hw] [Hd Hc]. destruct s as [t u]. cbn in Hu, Hw, Hd. subst u.
  unfold cleanup_expired, execute, delete_where. cbn. set (kept := filter _ t).
  assert (Hk : forall k r, t !! k = Some r -> abs (mk_pg kept None) !! k = None <->
                 c_expires_at r < now /\ is_pending (row_to_test r) = true).
  { intros k r Hr. rewrite pg_abs_lookup. cbn. rewrite fmap_None. unfold kept.
    rewrite map_lookup_filter_None.
    rewrite <- (status_open_spec k r) by (by apply Hw). rewrite <- Z.ltb_lt, <- andb_true_iff. split.
    - intros [Hn|Hn]; [congruence|]. by apply not_false_is_true, Hn.
    - intros Hb. right. intros x Hx. assert (x = r) as -> by congruence. cbn. congruence. }
  split_and!.
  - split; [done|]. cbn. intros k r [Hr _]%map_lookup_filter_Some. by apply Hw.
  - split; [unfold abs; apply map_fmap_mono, map_filter_subseteq|].
    intros k r Hr. pose proof (Hc _ _ Hr) as (x & Hx & Hl). rewrite pg_abs_lookup in Hr. cbn in Hr.
    apply fmap_Some in Hr as (row & Hrow & ->). rewrite (Hd _ _ Hrow) in Hx. injection Hx as <-.
    rewrite (Hk _ _ Hrow). split.
    + intros [Hlt Hp]. split; [done|lia].
    + intros Hp Ht. split; [|done]. apply Ht. by apply Hd.
  - unfold abs. cbn. by rewrite !map_size_fmap.
Qed.

Lemma pg_refs_spec s : inv s -> list_blue_green_refs s = Ok (Spec.list_blue_green_refs (abs s)).
Proof.
  intros [Hu _]. unfold list_blue_green_refs, query, Spec.list_blue_green_refs. rewrite Hu. f_equal.
  apply set_eq. intros b. rewrite !elem_of_list_to_set, pg_records_abs, <- list_fmap_compose. done.
Qed.

#[global] Instance postgres_refines : StoreRefines PostgresStore inv abs covers any_ref storable.
Proof.
  intros o s d Hs Hd Ho. pose proof Hs as [Hu _].
  enough (inv (apply_op o s).2 /\ Contract.step o (abs s) d (apply_op o s).1 (abs (apply_op o s).2)) as [Hi Hst].
  { split_and!; [done| |done]. destruct Hd as [Hd Hc]. split.
    - destruct o; try (by apply deadline_kept). pose proof (deadline_registered r s d Hs Hd) as Hx.
      cbn [apply_op store_register postgres_store]. by destruct (register r s).
    - destruct (Contract.timeless o) eqn:Et.
      + apply Contract.step_timeless in Hst as [-> _]; [|done]. by apply Contract.covered_next.
      + destruct o; try done. destruct Hst as [[Hsub _] _]. by eapply Contract.covered_subset. }
  destruct o; cbn in Ho; cbn [apply_op store_register store_get
    store_set_verdict store_mark_timed_out store_decrement_retries store_list_pending store_list_blue_green_refs
    store_counts store_counts_for_mode store_latest_failure_message store_cleanup_blue_green
    store_cleanup_expired postgres_store Contract.step Contract.next].
  - destruct (pg_register_spec r s Hs) as (Hi & Ha & E); [tauto|].
    destruct (register r s). cbn in *. by subst.
  - cbn. unfold get, query. by rewrite Hu, pg_abs_lookup.
  - destruct (pg_set_verdict_spec bg id p m s Hs) as (Hi & Ha & E).
    destruct (set_verdict bg id p m s). cbn in *. by subst.
  - destruct (pg_mark_timed_out_spec bg id s Hs) as (Hi & Ha & E).
    destruct (mark_timed_out bg id s). cbn in *. by subst.
  - destruct (pg_decrement_spec bg id s Hs) as (Hi & Ha & E).
    destruct (decrement_retries bg id s). cbn in *. subst. split_and!; [done|done|].
    unfold Spec.decrement_retries. destruct (abs s !! (bg, id)); auto.
  - cbn. split_and!; [done|done|]. unfold list_pending, query. rewrite Hu.
    eexists. split; [done|]. apply (filter_rows _ _ s Hs). intros; by eapply status_open_spec.
  - cbn. split_and!; [done|done|]. f_equal. by apply pg_refs_spec.
  - cbn. split_and!; [done|done|]. f_equal. by apply counts_query_spec.
  - cbn. split_and!; [done|done|]. f_equal. apply counts_query_spec; [done|].
    intros k r (_ & _ & E). unfold Spec.of_mode, Spec.of_ref. cbn. f_equal.
    rewrite E at 1. apply mode_eqb_spec.
  - cbn [fst snd Contract.allowed]. split_and!; [done|done|].
    destruct (latest_spec bg s Hs) as (r & E & Hr). exists r. by rewrite E.
  - destruct (pg_cleanup_spec bg s Hs) as (Hi & Ha & E).
    destruct (cleanup_blue_green bg s). cbn in *. by subst.
  - destruct (pg_expired_spec now s d Hs Hd) as (Hi & He & E).
    destruct (cleanup_expired now s). cbn in *. unfold Contract.removed. by subst.
Qed.

Lemma inv_empty : inv (mk_pg ∅ None).
Proof. split; [done|apply map_Forall_empty]. Qed.
Lemma abs_empty : abs (mk_pg ∅ None) = ∅.
Proof. apply fmap_empty. Qed.
Lemma covers_empty : covers (mk_pg ∅ None) ∅.
Proof. split; [apply map_Forall_empty|]. rewrite abs_empty. apply map_Forall_empty. Qed.

(** A statement that fails leaves the store as it was. *)
Lemma unavailable_no_change o s e :
  unavailable s = Some e -> (apply_op o s).2 = s.
Proof.
  intros H. destruct s as [t u]. cbn in H. subst u. by destruct o.
Qed.
End Refinement.
End Pg.
