(* ===== verification/StoreTheorems.v ===== *)
(** * What the stores guarantee

    Theorems about [operator/src/state_store]: the in-memory and the SQL store simulate the contract
    of [StateStore.Contract] over any sequence of operations, so without a clean-up
    of expired cases they cannot be told apart by an answer the contract determines,
    and with one they can ([stores_expire_differently]); and the guarantees the
    rollout logic relies on, proved once for every implementation of the contract. *)

From S2P Require Import Prelude RustString StateStore MemoryStore PostgresStore.

(** ** Guarantees of the contract itself *)

Definition cleans (bg : string) (o : op) : bool :=
  match o with OpCleanup bg' => String.eqb bg' bg | _ => false end.

Lemma finalize_keeps f bg id m k r :
  m !! k = Some r -> is_pending r = false -> (Spec.finalize f bg id m).2 !! k = Some r.
Proof.
  intros Hk Hr. unfold Spec.finalize. destruct (m !! (bg, id)) as [r'|] eqn:E; [|done].
  destruct (is_pending r') eqn:Ep; [|done]. cbn.
  rewrite lookup_insert_ne; [done|]. intros <-. congruence.
Qed.

Lemma decrement_keeps bg id m k r :
  m !! k = Some r -> is_pending r = false -> (Spec.decrement_retries bg id m).2 !! k = Some r.
Proof.
  intros Hk Hr. unfold Spec.decrement_retries. destruct (m !! (bg, id)) as [r'|] eqn:E; [|done].
  destruct (is_pending r' && Z.ltb 0 (retries_remaining r'))%bool eqn:Ep; [|done]. cbn.
  apply andb_true_iff in Ep as [Ep _]. rewrite lookup_insert_ne; [done|]. intros <-. congruence.
Qed.

Lemma finalized_not_pending r : is_finalized r = true <-> is_pending r = false.
Proof. rewrite pending_xor_finalized. by destruct (is_finalized r). Qed.

Lemma next_keeps_finalized o m k r :
  m !! k = Some r -> is_finalized r = true -> cleans k.1 o = false ->
  Contract.next o m !! k = Some r.
Proof.
  intros Hk Hr Hc. pose proof (proj1 (finalized_not_pending r) Hr) as Hp.
  destruct o; cbn; try done; [|by apply finalize_keeps|by apply finalize_keeps
                              |by apply decrement_keeps|].
  - unfold Spec.register. destruct (decide (Spec.key r0 = k)) as [E|Hne]; [rewrite E|].
    + rewrite Hk. change (blue_green_ref r0, test_id r0) with (Spec.key r0). rewrite E, lookup_insert_eq. unfold Spec.merge. by rewrite Hr.
    + change (blue_green_ref r0, test_id r0) with (Spec.key r0). by rewrite lookup_insert_ne.
  - cbn in Hc. apply String.eqb_neq in Hc. apply map_lookup_filter_Some. naive_solver.
Qed.

(** The clean-up of expired cases takes pending ones only. *)
Lemma step_keeps_finalized o m d a m' k r :
  Contract.step o m d a m' -> m !! k = Some r -> is_finalized r = true -> cleans k.1 o = false -> m' !! k = Some r.
Proof.
  intros Hst Hk Hr Hc. destruct (Contract.timeless o) eqn:Et.
  - apply Contract.step_timeless in Hst as [-> _]; [|done]. by apply next_keeps_finalized.
  - destruct o; try done. destruct Hst as [[Hsub He] _]. destruct (He k r Hk) as [Hgone _].
    destruct (m' !! k) as [r'|] eqn:E.
    + pose proof (lookup_weaken _ _ _ _ E Hsub). congruence.
    + destruct (Hgone eq_refl) as [Hp _]. apply finalized_not_pending in Hr. congruence.
Qed.

Lemma runs_keep_finalized os m d l m' k r :
  Contract.runs os m d l m' -> m !! k = Some r -> is_finalized r = true ->
  forallb (fun o => negb (cleans k.1 o)) os = true -> m' !! k = Some r.
Proof.
  revert m d l. induction os as [|o os IH]; intros m d [|a l]; cbn; try done; [by intros -> ?|].
  intros (m1 & Hst & Hrun) Hk Hr [Hc%negb_true_iff Hcs]%andb_true_iff.
  eapply IH; [done| |done|done]. by eapply step_keeps_finalized.
Qed.

(** ** Keys of the contract's map *)

Lemma keyed_insert m k r : Spec.keyed m -> Spec.key r = k -> Spec.keyed (<[k := r]> m).
Proof. intros Hm Hk. by apply map_Forall_insert_2. Qed.

Lemma key_merge e run : Spec.key (Spec.merge e run) = Spec.key e.
Proof. unfold Spec.merge. by destruct (is_finalized e). Qed.

Lemma keyed_next o m : Spec.keyed m -> Spec.keyed (Contract.next o m).
Proof.
  intros Hm. destruct o; cbn; try done.
  - apply keyed_insert; [done|]. destruct (m !! Spec.key r) as [e|] eqn:E; [|done].
    rewrite key_merge. by apply (Hm _ _ E).
  - unfold Spec.set_verdict, Spec.finalize. destruct (m !! (bg, id)) as [r|] eqn:E; [|done].
    destruct (is_pending r); [|done]. apply keyed_insert; [done|]. by apply (Hm _ _ E).
  - unfold Spec.mark_timed_out, Spec.finalize. destruct (m !! (bg, id)) as [r|] eqn:E; [|done].
    destruct (is_pending r); [|done]. apply keyed_insert; [done|]. by apply (Hm _ _ E).
  - unfold Spec.decrement_retries. destruct (m !! (bg, id)) as [r|] eqn:E; [|done].
    destruct (_ && _)%bool; [|done]. apply keyed_insert; [done|]. by apply (Hm _ _ E).
  - intros k r [Hk _]%map_lookup_filter_Some. by apply Hm.
Qed.

Lemma keyed_runs os m d l m' : Contract.runs os m d l m' -> Spec.keyed m -> Spec.keyed m'.
Proof.
  revert m d l. induction os as [|o os IH]; intros m d [|a l]; cbn; try done; [by intros ->|].
  intros (m1 & Hst & Hrun) Hm. eapply IH; [done|]. destruct (Contract.timeless o) eqn:Et.
  - apply Contract.step_timeless in Hst as [-> _]; [|done]. by apply keyed_next.
  - destruct o; try done. destruct Hst as [[Hsub _] _]. intros k r Hk. apply Hm. by eapply lookup_weaken.
Qed.

(** ** Runs of two implementations compared *)

(** The answers the contract determines agree, along a run from contents [m]. *)
Fixpoint agree (os : list op) (m : cases) (l1 l2 : list answer) : Prop :=
  match os, l1, l2 with
  | [], [], [] => True
  | o :: os', a1 :: l1', a2 :: l2' =>
      (determined m o = true -> a1 = a2) /\ agree os' (Contract.next o m) l1' l2'
  | _, _, _ => False
  end.

Lemma runs_agree os m d l1 m1 l2 m2 :
  forallb Contract.timeless os = true ->
  Contract.runs os m d l1 m1 -> Contract.runs os m d l2 m2 -> agree os m l1 l2.
Proof.
  revert m d l1 l2. induction os as [|o os IH]; intros m d [|a1 l1] [|a2 l2]; cbn; try done.
  intros [Ho Hos]%andb_true_iff (n1 & [-> H1]%Contract.step_timeless & R1) (n2 & [-> H2]%Contract.step_timeless & R2);
    [|done|done].
  split; [|by eapply IH]. intros Hd. by eapply allowed_determined.
Qed.

(** ** Concrete cases for the witnesses *)

Definition sample_case (bg id : string) (t : Z) (msg : option string) : TestCaseRecord :=
  {| test_id := id; blue_green_ref := bg; triggered_at := t; source_inception_point := "ip";
     timeout := 60000; status := Triggered; verdict := None; verification_mode := Data;
     verify_url := "http://verify"; verifier_auth_token := "token"; retries_remaining := 1;
     failure_message := msg |}.

Definition sample_run : list op :=
  [OpRegister (sample_case "ns/bg/uid" "a" 10 None);
   OpRegister (sample_case "ns/bg/uid" "b" 20 None);
   OpSetVerdict "ns/bg/uid" "a" true None;
   OpSetVerdict "ns/bg/uid" "a" false None;
   OpDecrement "ns/bg/uid" "b"; OpMarkTimedOut "ns/bg/uid" "b";
   OpCounts "ns/bg/uid"; OpGet "ns/bg/uid" "a"].

(** A case whose second registration moves its deadline, and a clean-up after each. *)
Definition expiring_run : list op :=
  sample_run ++
  [OpRegister (sample_case "ns/bg/other" "c" 1000 None); OpRegister (sample_case "ns/bg/other" "c" 500 None);
   OpListRefs; OpCleanupExpired 60400; OpListPending; OpCleanupExpired 70000; OpListRefs].

(** ** Properties *)

(** C12. The in-memory store simulates the contract: over any sequence of the twelve operations that
    registers and names only references without the key separator U+001F, started empty, the
    answers and the final contents are those of a run of the contract. *)
Theorem memory_store_simulates `{Memory.HashOrder} (os : list op)
    (Hos : Forall (op_ok Memory.ref_ok Memory.any_record) os) :
  Contract.runs os ∅ ∅ (run_ops os Memory.new).1 (Memory.abs (run_ops os Memory.new).2).
Proof.
  destruct (run_ops_simulates Memory.inv Memory.abs _ Memory.ref_ok Memory.any_record os Memory.new ∅
              Memory.inv_new Memory.covers_new Hos) as (_ & Hr). by rewrite Memory.abs_new in Hr.
Qed.

Lemma memory_store_simulates_witness :
  Contract.runs expiring_run ∅ ∅ (run_ops expiring_run Memory.new).1 (Memory.abs (run_ops expiring_run Memory.new).2)
  /\ last (run_ops expiring_run Memory.new).1 = Some (AnsRefs (Ok {["ns/bg/uid"]})).
Proof.
  split; [apply (memory_store_simulates expiring_run); repeat constructor|vm_compute; reflexivity].
Defined.

(** C13. The SQL store simulates the same contract, from an empty table and with the database
    available, for records whose timeout is a whole number of seconds that fits the column. *)
Theorem postgres_store_simulates `{Pg.ScanOrder} (os : list op)
    (Hos : Forall (op_ok Pg.any_ref Pg.storable) os) :
  Contract.runs os ∅ ∅ (run_ops os (Pg.mk_pg ∅ None)).1 (Pg.abs (run_ops os (Pg.mk_pg ∅ None)).2).
Proof.
  destruct (run_ops_simulates Pg.inv Pg.abs Pg.covers Pg.any_ref Pg.storable os (Pg.mk_pg ∅ None) ∅
              Pg.inv_empty Pg.covers_empty Hos) as (_ & Hr). by rewrite Pg.abs_empty in Hr.
Qed.

Lemma sample_run_storable : Forall (op_ok Pg.any_ref Pg.storable) sample_run.
Proof.
  repeat constructor; exists 60; split; [reflexivity|unfold in_signed; lia|reflexivity|unfold in_signed; lia].
Qed.

Lemma expiring_run_storable : Forall (op_ok Pg.any_ref Pg.storable) expiring_run.
Proof.
  apply Forall_app. split; [apply sample_run_storable|].
  repeat constructor; exists 60; split; [reflexivity|unfold in_signed; lia|reflexivity|unfold in_signed; lia].
Qed.

Lemma postgres_store_simulates_witness :
  Contract.runs expiring_run ∅ ∅ (run_ops expiring_run (Pg.mk_pg ∅ None)).1
    (Pg.abs (run_ops expiring_run (Pg.mk_pg ∅ None)).2) /\
  (run_ops expiring_run (Pg.mk_pg ∅ None)).1 !! 7%nat
  = Some (AnsCase (Ok (Some (set_outcome Passed (Some true) None (sample_case "ns/bg/uid" "a" 10 None))))) /\
  last (run_ops expiring_run (Pg.mk_pg ∅ None)).1 = Some (AnsRefs (Ok {["ns/bg/uid"]})).
Proof.
  split; [exact (postgres_store_simulates expiring_run expiring_run_storable) | split; vm_compute; reflexivity].
Defined.

(** The two stores are interchangeable but for the clean-up of expired cases: run on the same
    operations from empty, they give the same answer to every operation whose answer the contract
    determines. *)
Theorem stores_agree `{Memory.HashOrder, Pg.ScanOrder} (os : list op)
    (Ht : forallb Contract.timeless os = true)
    (Hm : Forall (op_ok Memory.ref_ok Memory.any_record) os)
    (Hp : Forall (op_ok Pg.any_ref Pg.storable) os) :
  agree os ∅ (run_ops os Memory.new).1 (run_ops os (Pg.mk_pg ∅ None)).1.
Proof.
  eapply runs_agree; [done| |].
  - destruct (run_ops_simulates Memory.inv Memory.abs _ Memory.ref_ok Memory.any_record os Memory.new ∅
                Memory.inv_new Memory.covers_new Hm) as (_ & Hr). by rewrite Memory.abs_new in Hr.
  - destruct (run_ops_simulates Pg.inv Pg.abs Pg.covers Pg.any_ref Pg.storable os (Pg.mk_pg ∅ None) ∅
                Pg.inv_empty Pg.covers_empty Hp) as (_ & Hr). by rewrite Pg.abs_empty in Hr.
Qed.

Lemma stores_agree_witness :
  agree sample_run ∅ (run_ops sample_run Memory.new).1 (run_ops sample_run (Pg.mk_pg ∅ None)).1.
Proof. apply (stores_agree sample_run); [reflexivity|repeat constructor | apply sample_run_storable]. Defined.

(** Where they differ: a case registered again while it is pending has the earlier of its times and
    the longer of its timeouts in both, and the in-memory store goes by their sum; the SQL store keeps
    the later of the two deadlines and may let the case live longer. *)
Theorem stores_expire_differently :
  let again := [OpRegister (sample_case "bg" "c" 1000 None); OpRegister (sample_case "bg" "c" 500 None);
                OpCleanupExpired 60800] in
  last (run_ops again Memory.new).1 = Some (AnsRemoved (Ok 1)) /\
  last (run_ops again (Pg.mk_pg ∅ None)).1 = Some (AnsRemoved (Ok 0)).
Proof. split; vm_compute; reflexivity. Qed.

(** A verdict is final: in any implementation of the contract, a case that is finalized keeps
    its record (status, verdict and message) under every sequence of operations that does not
    clean up its deployment. *)
Theorem finalized_case_stable {S : Type} `{!StateStore S} (inv : S -> Prop) (abs : S -> cases)
    (covers : S -> deadlines -> Prop) (ref_ok : string -> Prop) (record_ok : TestCaseRecord -> Prop)
    `{!StoreRefines S inv abs covers ref_ok record_ok} (os : list op) (s : S) (d : deadlines) (bg id : string)
    (r : TestCaseRecord)
    (Hs : inv s) (Hd : covers s d) (Hos : Forall (op_ok ref_ok record_ok) os)
    (Hk : abs s !! (bg, id) = Some r) (Hf : is_finalized r = true)
    (Hc : forallb (fun o => negb (cleans bg o)) os = true) :
  abs (run_ops os s).2 !! (bg, id) = Some r.
Proof.
  destruct (run_ops_simulates inv abs covers ref_ok record_ok os s d Hs Hd Hos) as (_ & Hr).
  by eapply runs_keep_finalized.
Qed.

Lemma finalized_case_stable_witness :
  let s := Memory.mk_store {[ Memory.record_key "bg" "a" := Spec.outcome true None (sample_case "bg" "a" 10 None) ]} in
  Memory.abs (run_ops [OpCleanupExpired 100000] s).2 !! ("bg", "a")
  = Some (Spec.outcome true None (sample_case "bg" "a" 10 None)).
Proof.
  apply (finalized_case_stable Memory.inv Memory.abs (fun s => Contract.covered (Memory.abs s)) Memory.ref_ok
           Memory.any_record [OpCleanupExpired 100000] _ {[ ("bg", "a") := 60010 ]} "bg" "a").
  - intros k r Hk. cbn in Hk. apply lookup_singleton_Some in Hk as [<- <-]. split; reflexivity.
  - intros k r Hk. apply (lookup_kmap_Some Memory.decode) in Hk as (x & -> & Hx). cbn in Hx. apply lookup_singleton_Some in Hx as [<- <-].
    exists 60010. split; [reflexivity|]. unfold expires_at. cbn. lia.
  - repeat constructor.
  - vm_compute. reflexivity.
  - reflexivity.
  - reflexivity.
Defined.

(** The counters account for every case exactly once: in any implementation of the contract,
    the four counters of a deployment add up to the number of cases registered for it. *)
Theorem counts_partition {S : Type} `{!StateStore S} (inv : S -> Prop) (abs : S -> cases)
    (covers : S -> deadlines -> Prop) (ref_ok : string -> Prop) (record_ok : TestCaseRecord -> Prop)
    `{!StoreRefines S inv abs covers ref_ok record_ok} (s : S) (d : deadlines) (bg : string)
    (Hs : inv s) (Hd : covers s d) :
  exists c, store_counts bg s = Ok c /\
    passed c + failed c + timed_out c + pending c
    = Z.of_nat (length (List.filter (Spec.of_ref bg) (Spec.records (abs s)))).
Proof.
  destruct (refines_step (OpCounts bg) s d Hs Hd I) as (_ & _ & _ & [= H]). rewrite H.
  eexists. split; [done|]. apply counts_of_total.
Qed.

Lemma counts_partition_witness :
  exists c, store_counts "bg" Memory.new = Ok c /\
    passed c + failed c + timed_out c + pending c
    = Z.of_nat (length (List.filter (Spec.of_ref "bg") (Spec.records (Memory.abs Memory.new)))).
Proof.
  apply (counts_partition Memory.inv Memory.abs _ Memory.ref_ok Memory.any_record _ ∅ _ Memory.inv_new Memory.covers_new).
Defined.

(** ** The rows of the SQL store are well typed *)

(** A verdict is there exactly when a verifier gave one. *)
Definition verdict_fits (st : TestStatus) (v : option bool) : Prop :=
  v = match st with Passed => Some true | Failed => Some false | _ => None end.
Definition case_typed (r : TestCaseRecord) : Prop :=
  verdict_fits (status r) (verdict r) /\ in_signed 32 (retries_remaining r).

(** Keys, encodings, widths of the integer columns, and the verdict of the status. *)
Definition row_typed (k : string * string) (r : Pg.Row) : Prop :=
  Pg.wf_row k r /\ in_signed 32 (Pg.c_timeout_seconds r) /\ case_typed (Pg.row_to_test r).

Lemma bind_row_typed r : case_typed r -> row_typed (blue_green_ref r, test_id r) (Pg.bind_row r).
Proof.
  intros [Hv Hr]. split_and!; [apply Pg.wf_bind_row|by apply wrap_signed_range|].
  unfold case_typed, Pg.row_to_test, Pg.bind_row. cbn. by rewrite Pg.parse_status_str.
Qed.
Lemma on_conflict_typed k old new k' : row_typed k old -> row_typed k' new -> row_typed k (Pg.on_conflict old new).
Proof.
  intros (Hw & Ht & Hc) (_ & Ht' & _). split_and!; [exact Hw| |exact Hc].
  revert Ht Ht'. rewrite !in_signed_32. cbn. lia.
Qed.
Lemma set_status_typed k r st v m :
  row_typed k r -> verdict_fits st v -> row_typed k (Pg.set_status_row (Pg.status_str st) v m r).
Proof.
  intros (Hw & Ht & _ & Hr) Hv. split_and!; [by apply Pg.wf_set_status|exact Ht|split; [|exact Hr]].
  cbn. by rewrite Pg.parse_status_str.
Qed.
Lemma set_retries_typed k r : row_typed k r -> 0 < Pg.c_retries_remaining r ->
  row_typed k (Pg.set_retries_row (Pg.c_retries_remaining r - 1) r).
Proof.
  intros (Hw & Ht & Hv & Hr) Hpos. split_and!; [exact Hw|exact Ht|split; [exact Hv|]].
  revert Hr. rewrite !in_signed_32. cbn. lia.
Qed.

Section Typed.
Context `{Pg.ScanOrder}.

Lemma update_row_typed bg id cond set t :
  map_Forall row_typed t -> (forall k r, row_typed k r -> cond r = true -> row_typed k (set r)) ->
  map_Forall row_typed (Pg.update_row bg id cond set t).2.
Proof.
  intros Ht Hset. unfold Pg.update_row. destruct (t !! (bg, id)) as [r|] eqn:E; [|done].
  destruct (cond r) eqn:Ec; [|done]. apply map_Forall_insert_2; [|done]. apply Hset; [by apply Ht|done].
Qed.

Lemma execute_typed {A} (s : Pg.PostgresStore) (body : Pg.table -> A * Pg.table) :
  map_Forall row_typed (Pg.rows s) -> (forall t, map_Forall row_typed t -> map_Forall row_typed (body t).2) ->
  map_Forall row_typed (Pg.rows (Pg.execute s body).2).
Proof.
  intros Hs Hb. unfold Pg.execute. destruct (Pg.unavailable s); [done|].
  specialize (Hb (Pg.rows s) Hs). by destruct (body (Pg.rows s)).
Qed.

Lemma apply_op_typed o (s : Pg.PostgresStore) :
  op_ok Pg.any_ref case_typed o -> map_Forall row_typed (Pg.rows s) ->
  map_Forall row_typed (Pg.rows (apply_op o s).2).
Proof.
  intros Ho Hs. destruct o; cbn -[Pg.register Pg.set_verdict Pg.mark_timed_out Pg.decrement_retries
    Pg.cleanup_blue_green Pg.cleanup_expired]; try done.
  - destruct Ho as [_ Hr]. destruct (Pg.register r s) as [a s'] eqn:E. cbn.
    replace s' with (Pg.register r s).2 by by rewrite E. apply execute_typed; [done|]. intros t Ht.
    pose proof (bind_row_typed r Hr) as Hb. cbv zeta.
    destruct (t !! (blue_green_ref r, test_id r)) as [old|] eqn:El; [destruct (Pg.status_open old)|].
    + apply map_Forall_insert_2; [|done]. eapply on_conflict_typed; [by apply Ht|exact Hb].
    + done.
    + by apply map_Forall_insert_2.
  - destruct (Pg.set_verdict bg id p m s) as [a s'] eqn:E. cbn.
    replace s' with (Pg.set_verdict bg id p m s).2 by by rewrite E. apply execute_typed; [done|]. intros t Ht.
    apply update_row_typed; [done|]. intros k r Hr _.
    destruct p; [by apply (set_status_typed k r Passed)|by apply (set_status_typed k r Failed)].
  - destruct (Pg.mark_timed_out bg id s) as [a s'] eqn:E. cbn.
    replace s' with (Pg.mark_timed_out bg id s).2 by by rewrite E. apply execute_typed; [done|]. intros t Ht.
    apply update_row_typed; [done|]. intros k r Hr _. by apply (set_status_typed k r TimedOut).
  - destruct (Pg.decrement_retries bg id s) as [a s'] eqn:E. cbn.
    replace s' with (Pg.decrement_retries bg id s).2 by by rewrite E. apply execute_typed; [done|]. intros t Ht.
    match goal with |- context [Pg.update_row bg id ?c ?f t] =>
      pose proof (update_row_typed bg id c f t Ht) as Hu; destruct (Pg.update_row bg id c f t) as [n t'] end.
    cbn in Hu |- *. apply Hu. intros k r Hr [_ Hc%Z.ltb_lt]%andb_true_iff. by apply set_retries_typed.
  - destruct (Pg.cleanup_blue_green bg s) as [a s'] eqn:E. cbn.
    replace s' with (Pg.cleanup_blue_green bg s).2 by by rewrite E. apply execute_typed; [done|]. intros t Ht.
    unfold Pg.delete_where. cbn. intros k r Hk. apply map_lookup_filter_Some in Hk as [Hk _]. by apply Ht.
  - destruct (Pg.cleanup_expired now s) as [a s'] eqn:E. cbn.
    replace s' with (Pg.cleanup_expired now s).2 by by rewrite E. apply execute_typed; [done|]. intros t Ht.
    unfold Pg.delete_where. cbn. intros k r Hk. apply map_lookup_filter_Some in Hk as [Hk _]. by apply Ht.
Qed.
End Typed.

(** C14. The rows of the SQL store stay well typed through any sequence of operations that registers typed
    records (the verdict the status calls for, retries of 32 bits), the database failing or not: each
    sits at its primary key, its text columns hold names of the enumerations, its counters fit their
    columns, and it has a verdict exactly in the statuses that carry one. *)
Theorem postgres_rows_typed `{Pg.ScanOrder} (os : list op) (u : option string)
    (Hos : Forall (op_ok Pg.any_ref case_typed) os) :
  map_Forall row_typed (Pg.rows (run_ops os (Pg.mk_pg ∅ u)).2).
Proof.
  enough (forall s, map_Forall row_typed (Pg.rows s) -> map_Forall row_typed (Pg.rows (run_ops os s).2)) as Hrun
    by (apply Hrun; apply map_Forall_empty).
  induction Hos as [|o os Ho Hos IH]; intros s Hs; [done|]. cbn [run_ops].
  pose proof (apply_op_typed o s Ho Hs) as Ha. destruct (apply_op o s) as [a s1]. specialize (IH s1 Ha).
  by destruct (run_ops os s1) as [l s2].
Qed.

Lemma postgres_rows_typed_witness :
  map_Forall row_typed (Pg.rows (run_ops sample_run (Pg.mk_pg ∅ None)).2)
  /\ size (Pg.rows (run_ops sample_run (Pg.mk_pg ∅ None)).2) <> 0%nat.
Proof.
  split; [|vm_compute; discriminate]. apply (postgres_rows_typed sample_run None).
  repeat constructor; unfold in_signed; cbn; lia.
Defined.

(** ** The latest failure message *)

Lemma latest_max l r : Pg.latest l = Some r ->
  forall r', r' ∈ l -> Pg.c_triggered_at r' <= Pg.c_triggered_at r.
Proof.
  revert r. induction l as [|x l IH]; intros r; cbn; [done|].
  destruct (Pg.latest l) as [y|] eqn:E.
  - pose proof (IH y eq_refl) as Hy.
    destruct (Z.leb_spec (Pg.c_triggered_at y) (Pg.c_triggered_at x)); intros [= <-] r' Hr';
      apply elem_of_cons in Hr' as [->|Hr']; try lia; specialize (Hy r' Hr'); lia.
  - apply Pg.latest_None in E. subst. intros [= <-] r' Hr'.
    apply elem_of_cons in Hr' as [->|Hr']; [lia|]. by apply not_elem_of_nil in Hr'.
Qed.

(** The failure message the SQL store reports is that of the most recently triggered case with
    a message. *)
Theorem postgres_latest_is_newest `{Pg.ScanOrder} (s : Pg.PostgresStore) (bg m : string)
    (Hm : Pg.latest_failure_message bg s = Ok (Some m)) :
  exists r, Pg.c_failure_message r = Some m /\ r ∈ Pg.scan (Pg.rows s) /\
    Pg.c_blue_green_ref r = bg /\
    forall r', r' ∈ Pg.scan (Pg.rows s) -> Pg.c_blue_green_ref r' = bg ->
      is_Some (Pg.c_failure_message r') -> Pg.c_triggered_at r' <= Pg.c_triggered_at r.
Proof.
  unfold Pg.latest_failure_message, Pg.query in Hm. destruct (Pg.unavailable s); [done|].
  injection Hm as Hm. destruct (Pg.latest _) as [r|] eqn:E; [|done]. cbn in Hm.
  exists r. pose proof (Pg.latest_in _ _ E) as Hin.
  apply list_elem_of_In, filter_In in Hin as [Hin Hsel].
  apply andb_true_iff in Hsel as [Hb _]. apply String.eqb_eq in Hb.
  split_and!; [done|by apply list_elem_of_In|done|].
  intros r' Hr' Hb' [m' Hm']. apply (latest_max _ _ E).
  apply list_elem_of_In, filter_In. split; [by apply list_elem_of_In|].
  rewrite Hb', Hm', String.eqb_refl. done.
Qed.

Definition two_failures : list op :=
  [OpRegister (sample_case "bg" "a" 10 None); OpSetVerdict "bg" "a" false (Some "old");
   OpRegister (sample_case "bg" "b" 20 None); OpSetVerdict "bg" "b" false (Some "new")].

Lemma postgres_latest_is_newest_witness :
  let s := (run_ops two_failures (Pg.mk_pg ∅ None)).2 in
  exists r, Pg.c_failure_message r = Some "new" /\ r ∈ Pg.scan (Pg.rows s) /\
    Pg.c_blue_green_ref r = "bg" /\
    forall r', r' ∈ Pg.scan (Pg.rows s) -> Pg.c_blue_green_ref r' = "bg" ->
      is_Some (Pg.c_failure_message r') -> Pg.c_triggered_at r' <= Pg.c_triggered_at r.
Proof.
  intros s. apply (postgres_latest_is_newest s "bg" "new"). vm_compute. reflexivity.
Defined.

(** An order of the hash map that lists its entries backwards. *)
Definition reverse_order : Memory.HashOrder.
Proof.
  refine {| Memory.values m := rev (map_to_list m).*2 |}. intros m. symmetry. apply Permutation_rev.
Defined.

(** The message the in-memory store reports depends on the iteration order of its hash map and
    not on time: on the same two failures, one admissible order reports the newer message and
    another the older one. *)
Theorem memory_latest_is_arbitrary :
  Memory.latest_failure_message (order := Memory.canonical_order) "bg"
    (run_ops two_failures Memory.new).2 <>
  Memory.latest_failure_message (order := reverse_order) "bg" (run_ops two_failures Memory.new).2.
Proof. vm_compute. discriminate. Qed.
