(* ===== verification/InceptorEffects.v ===== *)
(** * Requests of the plugins

    The processes of a plugin, its inceptors and its manager, make requests of their own:
    to a message broker, to upstream services and verifiers over HTTP, and to the state
    their tasks share (atomic cells).  [Effects.action] has them under one constructor.

    A broker client ([lapin], AMQP 0.9.1, or [async_nats]) hands out connections, channels,
    subscriptions and deliveries; they are numbers here.  An error is its text. *)

From S2P Require Import Prelude RustString Float64 Kube Crd.

(** ** AMQP *)

(** [lapin::types::AMQPValue]; a double is kept in its textual form. *)
Inductive AMQPValue :=
| AmqpBoolean (b : bool)
| AmqpLongInt (z : Z)
| AmqpLongUInt (z : Z)
| AmqpLongLongInt (z : Z)
| AmqpDouble (repr : string)
| AmqpShortString (s : string)
| AmqpLongString (s : string)
| AmqpVoid
| AmqpOther (repr : string).
Notation FieldTable := (gmap string AMQPValue).

Record BasicProperties := { bp_headers : option FieldTable; bp_rest : json }.
Definition default_properties : BasicProperties := {| bp_headers := None; bp_rest := JNull |}.

(** A message taken from a queue and not yet acknowledged. *)
Record delivery := {
  dl_channel : Z; dl_tag : Z; dl_data : string; dl_properties : BasicProperties }.

Record queue_options := { qo_durable : bool; qo_exclusive : bool; qo_auto_delete : bool }.

(** ** NATS *)

(** What the plugin sets of a stream's configuration. *)
Inductive StorageType := FileStorage | MemoryStorage.
Inductive RetentionPolicy := Limits | Interest | WorkQueue.
Inductive DiscardPolicy := DiscardOld | DiscardNew.
Inductive PersistenceMode := PersistDefault | PersistAsync.
Record Placement := { plc_cluster : option string; plc_tags : list string }.
Record SubjectTransform := { sbt_source : string; sbt_destination : string }.
Record StreamSettings := {
  sst_storage : StorageType;
  sst_retention : RetentionPolicy;
  sst_discard : DiscardPolicy;
  sst_num_replicas : Z;
  sst_max_messages : Z;
  sst_max_bytes : Z;
  sst_max_age_seconds : Z;
  sst_allow_rollup : bool;
  sst_deny_delete : bool;
  sst_deny_purge : bool;
  sst_placement : option Placement;
  sst_persist_mode : option PersistenceMode;
  sst_subject_transform : option SubjectTransform;
  sst_metadata : list (string * string) }.
(** Without settings it is the client library's default. *)
Record StreamSpec := { ssp_name : string; ssp_subjects : list string; ssp_settings : option StreamSettings }.

Inductive DeliverPolicy := DeliverAll | DeliverNew.

(** A message of a stream handed to a consumer and not yet acknowledged. *)
Record jet_message := { jm_reply : string; jm_payload : string }.

(** Requests of the client; a [publish] to a stream has the stream's confirmation for its
    answer, [NNext] waits for a message of a subscription for some milliseconds. *)
Inductive nats_op :=
| NConnect (url : string) (require_tls : bool) (root_certificates : option string)
| NPublishCore (client : Z) (subject data : string)
| NFlush (client : Z)
| NSubscribe (client : Z) (subject : string) (queue_group : option string)
| NNext (subscriber timeout : Z)
| NStream (client : Z) (s : StreamSpec)
| NDeleteStream (client : Z) (name : string)
| NPublish (client : Z) (subject data : string)
| NConsumer (client : Z) (stream durable : string) (p : DeliverPolicy)
| NFetch (client : Z) (stream durable : string) (timeout : option Z)
| NAck (m : jet_message)
| NInfo (client : Z) (stream durable : string)
| NStreamNames (client : Z).

Inductive core_event := CoreMessage (data : string) | CoreClosed | CoreTimeout.

Definition nats_reply (op : nats_op) : Type :=
  match op with
  | NConnect _ _ _ | NSubscribe _ _ _ => result string Z
  | NPublishCore _ _ _ | NFlush _ | NStream _ _ | NDeleteStream _ _ | NPublish _ _ _ | NConsumer _ _ _ _
  | NAck _ => result string unit
  | NNext _ _ => core_event
  | NFetch _ _ _ _ => result string (option jet_message)
  | NInfo _ _ _ => result string (Z * Z)
  | NStreamNames _ => result string (list string)
  end.

(** ** HTTP *)

Record ObservationNotification := {
  on_test_id : string; on_inception_point : string; on_route : string; on_payload : json }.

Inductive payload :=
| NoPayload
| BytesPayload (data : string)
| StreamedPayload
| JsonPayload (j : json)
| NotificationPayload (n : ObservationNotification)
| RegistrationPayload (r : RegisterTestCaseRequest).

(** [call_client] tells the clients of a process apart. *)
Record http_call := {
  call_client : string;
  call_method : string;
  call_url : string;
  call_headers : list (string * string);
  call_basic_auth : option (string * string);
  call_payload : payload }.

Record call_response := {
  cr_status : Z; cr_headers : list (string * string); cr_body : string; cr_json : result string json }.

(** ** Cached access tokens *)

Record CachedToken := { access_token : string; expires_at : Z }.

(** ** The requests and their answers

    [Ready] is the mask of the workers that are ready, with the notification of its changes:
    [ReadyNotified] says whether one came within the milliseconds.  A client of Azure keeps its access tokens in two
    caches, one for its management API ([arm]); [LockToken] waits for the mutex and reads. *)

Inductive inceptor_op :=
| QConnect (url : string) (ca : option string)
| QChannel (conn : Z)
| QGet (channel : Z) (queue : string)
| QPublish (channel : Z) (queue data : string) (p : BasicProperties)
| QAck (d : delivery)
| QNack (d : delivery)
| QDeclare (channel : Z) (queue : string) (o : queue_options) (arguments : FieldTable)
| QState (channel : Z) (queue : string)
| QDelete (channel : Z) (queue : string)
| INats (op : nats_op)
| ICall (c : http_call)
| LoadMode
| StoreMode (m : Z)
| LoadPercent
| StorePercent (p : Z)
| LoadActive
| AddActive (d : Z)
| LoadReady
| StoreReady (mask : Z)
| OrReady (mask : Z)
| ReadyNotified (timeout : Z)
| NewTokens
| LockToken (tokens : Z) (arm : bool)
| StoreToken (tokens : Z) (arm : bool) (t : CachedToken)
| UnlockToken (tokens : Z) (arm : bool).

Definition inceptor_reply (op : inceptor_op) : Type :=
  match op with
  | QConnect _ _ | QChannel _ => result string Z
  | QGet _ _ => result string (option delivery)
  | QPublish _ _ _ _ | QAck _ | QNack _ | QDeclare _ _ _ _ | QDelete _ _ => result string unit
  | QState _ _ => result string (Z * Z)
  | INats op => nats_reply op
  | ICall _ => result string call_response
  | LoadMode | LoadPercent | LoadActive | LoadReady => Z
  | StoreMode _ | StorePercent _ | AddActive _ | StoreReady _ | OrReady _ => unit
  | ReadyNotified _ => bool
  | NewTokens => Z
  | LockToken _ _ => option CachedToken
  | StoreToken _ _ _ | UnlockToken _ _ => unit
  end.

(** The answers of a client without a server. *)
Definition nats_refusal (op : nats_op) : nats_reply op :=
  match op as o return nats_reply o with
  | NConnect _ _ _ | NSubscribe _ _ _ => Err "unreachable"
  | NPublishCore _ _ _ | NFlush _ | NStream _ _ | NDeleteStream _ _ | NPublish _ _ _ | NConsumer _ _ _ _
  | NAck _ => Err "unreachable"
  | NNext _ _ => CoreTimeout
  | NFetch _ _ _ _ => Err "unreachable"
  | NInfo _ _ _ => Err "unreachable"
  | NStreamNames _ => Err "unreachable"
  end.
