(* ===== verification/Effects.v ===== *)
(** * Effects of the operator

    The asynchronous code of the operator talks to the Kubernetes API, to plugins
    over HTTP, to the test-case store, the clock and the environment.  A piece of
    it is a tree of requests ([prog]): every request is an [action], its
    continuation takes any answer of that action's type, and the answers are
    never constrained here.  [exec] is the relation between a program, the trace
    of its requests with their answers and its result, so a theorem over all
    traces of a program holds whatever the API server, the plugins and the clock
    do, failures included.

    [ReconcileError] is the error type of [operator/src/controller.rs]; the [?]
    of the source is the notation [let? x := p in q]. *)

From S2P Require Import Prelude RustString Float64 Kube Crd StateStore.
From S2P Require Import InceptorEffects.
From Stdlib Require Eqdep.

(** ** Errors *)

Inductive ReconcileError :=
| InvalidSpec (s : string)
| StoreErr (s : string)
| StateStoreErr (s : string)
| LeaseErr (s : string)
| PluginManagerErr (s : string)
| PluginInceptorErr (s : string)
| PluginDrainStatusErr (s : string)
| PluginTrafficShiftErr (s : string)
| AuthErr (s : string)
| ResourceErr (s : string)
| K8sErr (e : kube_error).

Definition show_reconcile_error (e : ReconcileError) : string :=
  match e with
  | InvalidSpec s => "invalid spec: " +:+ s
  | StoreErr s => "controller error: " +:+ s
  | StateStoreErr s => "state store error: " +:+ s
  | LeaseErr s => "lease error: " +:+ s
  | PluginManagerErr s => "plugin manager error: " +:+ s
  | PluginInceptorErr s => "plugin inceptor error: " +:+ s
  | PluginDrainStatusErr s => "plugin drain status error: " +:+ s
  | PluginTrafficShiftErr s => "plugin traffic shift error: " +:+ s
  | AuthErr s => "auth configuration error: " +:+ s
  | ResourceErr s => "resource error: " +:+ s
  | K8sErr e => "k8s error: " +:+ show_kube_error e
  end.

Definition diagnostic_reason (e : ReconcileError) : string :=
  match e with
  | InvalidSpec _ => "InvalidSpec"
  | StoreErr _ => "ControllerError"
  | StateStoreErr _ => "StateStoreError"
  | LeaseErr _ => "LeaseError"
  | PluginManagerErr _ => "PluginManagerError"
  | PluginInceptorErr _ => "PluginInceptorError"
  | PluginDrainStatusErr _ => "PluginDrainStatusError"
  | PluginTrafficShiftErr _ => "PluginTrafficShiftError"
  | AuthErr _ => "AuthError"
  | ResourceErr _ => "ResourceError"
  | K8sErr _ => "KubernetesApiError"
  end.

Definition is_terminal_for_generation (e : ReconcileError) : bool :=
  match e with InvalidSpec _ => true | _ => false end.

(** ** Requests *)

Inductive kind :=
| KDeployment | KService | KConfigMap | KSecret | KPod | KNamespace | KLease | KEndpoints
| KPlugin | KBgd | KCrd.
#[export] Instance kind_eq_dec : EqDecision kind.
Proof. solve_decision. Defined.

Definition obj (k : kind) : Type :=
  match k with
  | KDeployment => Deployment
  | KService => Service
  | KConfigMap => ConfigMap
  | KSecret => Secret
  | KPod => Pod
  | KNamespace => Namespace
  | KLease => Lease
  | KEndpoints => Endpoints
  | KPlugin => InceptionPlugin
  | KBgd => BlueGreenDeployment
  | KCrd => CustomResourceDefinition
  end.

(** [kube::Resource::meta], for the kinds the generic functions are used at. *)
Definition meta_of (k : kind) : obj k -> ObjectMeta :=
  match k with
  | KDeployment => dep_metadata
  | KService => svc_metadata
  | KConfigMap => cm_metadata
  | KSecret => sec_metadata
  | KPod => pod_metadata
  | KNamespace => ns_metadata
  | KLease => lease_metadata
  | KEndpoints => fun _ => default_meta
  | KPlugin => plug_metadata
  | KBgd => bgd_metadata
  | KCrd => crd_metadata
  end.

(** The members of the [status] objects that the merge patches set; [None] is
    JSON [null], which removes the member. *)
Inductive status_field :=
| FPhase (p : BGDPhase)
| FGeneratedName (n : option string)
| FObservedGeneration (g : Z)
| FRolloutGeneration (g : Z)
| FCounts (c : Counts) (observed : Z) (rate : f64) (msg : option string)
| FStep (n : option Z)
| FTrafficPercent (n : option Z)
| FDrainStartedAt (t : option Z)
| FDrains (l : list InceptionPointDrainStatus)
| FConditions (l : list BlueGreenDeploymentCondition).

Inductive http_body :=
| NoBody
| TrafficBody (b : TrafficShiftRequest)
| SyncBody (b : PluginManagerSyncRequest)
| LifecycleBody (b : PluginManagerLifecycleRequest).
Inductive http_method := GET | POST.
Record http_request := {
  hr_method : http_method; hr_url : string; hr_authorization : option string; hr_body : http_body }.
(** A response: its status code and its body, parsed as JSON or not. *)
Record http_response := { resp_status : Z; resp_json : result string json }.

(** [Api::namespaced(ns)] and [Api::all]. *)
Notation scope := (option string).

Inductive action :=
| AGet (k : kind) (ns : scope) (name : string)
| AGetOpt (k : kind) (ns : scope) (name : string)
| AList (k : kind) (ns : scope) (selector : string)
| ACreate (k : kind) (ns : scope) (o : obj k)
| AReplace (k : kind) (ns : scope) (name : string) (o : obj k)
| AApply (k : kind) (ns : scope) (name : string) (o : obj k)
| ADelete (k : kind) (ns : scope) (name : string)
| AGetStatus (ns : string) (name : string)
| AReplaceStatus (ns : string) (name : string) (b : BlueGreenDeployment)
| APatchStatus (ns : string) (name : string) (fields : list status_field)
| APatchFinalizers (ns : string) (name : string) (finalizers : option (list string))
| AStoreRegister (r : TestCaseRecord)
| AStoreGet (bg id : string)
| AStoreSetVerdict (bg id : string) (p : bool) (m : option string)
| AStoreMarkTimedOut (bg id : string)
| AStoreDecrement (bg id : string)
| AStoreListPending
| AStoreRefs
| AStoreCounts (bg : string)
| AStoreCountsForMode (bg : string) (m : VerificationMode)
| AStoreLatestFailure (bg : string)
| AStoreCleanup (bg : string)
| AHttp (insecure : bool) (ca : option string) (r : http_request)
| AReadFile (path : string)
| AParseCert (pem : string)
| ABuildClient
| AEnv (name : string)
| ANow
| ASleep (millis : Z)
| ASelect (lease : string)
| APended (lease : string)
| APollLost (lease : string)
| ALock (key : string)
| AUnlock (key : string)
| AInceptor (op : inceptor_op).

(** What each request is answered with. *)
Definition reply (a : action) : Type :=
  match a with
  | AGet k _ _ => result kube_error (obj k)
  | AGetOpt k _ _ => result kube_error (option (obj k))
  | AList k _ _ => result kube_error (list (obj k))
  | ACreate k _ _ | AReplace k _ _ _ | AApply k _ _ _ => result kube_error (obj k)
  | ADelete _ _ _ => result kube_error unit
  | AGetStatus _ _ | AReplaceStatus _ _ _ | APatchStatus _ _ _ | APatchFinalizers _ _ _ =>
      result kube_error BlueGreenDeployment
  | AStoreRegister _ | AStoreSetVerdict _ _ _ _ | AStoreMarkTimedOut _ _ => result StoreError unit
  | AStoreGet _ _ => result StoreError (option TestCaseRecord)
  | AStoreDecrement _ _ => result StoreError (option Z)
  | AStoreListPending => result StoreError (list TestCaseRecord)
  | AStoreRefs => result StoreError (gset string)
  | AStoreCounts _ | AStoreCountsForMode _ _ => result StoreError Counts
  | AStoreLatestFailure _ => result StoreError (option string)
  | AStoreCleanup _ => result StoreError Z
  | AHttp _ _ _ => result string http_response
  | AReadFile _ => result string string
  | AParseCert _ | ABuildClient => result string unit
  | AEnv _ => option string
  | ANow => Z
  | ASleep _ => unit
  | ASelect _ | APended _ | APollLost _ => bool
  | ALock _ => option bool
  | AUnlock _ => unit
  | AInceptor op => inceptor_reply op
  end.

(** ** Programs *)

Inductive prog (A : Type) : Type :=
| Ret (a : A)
| Vis (act : action) (k : reply act -> prog A).
Arguments Ret {A} a.
Arguments Vis {A} act k.

Fixpoint bind_prog {A B} (p : prog A) (f : A -> prog B) : prog B :=
  match p with
  | Ret a => f a
  | Vis act k => Vis act (fun r => bind_prog (k r) f)
  end.

(** A request on its own. *)
Definition request (act : action) : prog (reply act) := Vis act Ret.

(** The fallible programs. *)
Notation M A := (prog (result ReconcileError A)).
Definition ok {A} (a : A) : M A := Ret (Ok a).
Definition err {A} (e : ReconcileError) : M A := Ret (Err e).
Definition bind_res {A B} (p : M A) (f : A -> M B) : M B :=
  bind_prog p (fun r => match r with Ok a => f a | Err e => Ret (Err e) end).

Notation "'let!' x := p 'in' q" := (bind_prog p (fun x => q))
  (at level 200, x binder, p at level 100, q at level 200, right associativity,
   format "'[v' 'let!'  x  :=  p  'in' '/' q ']'").
Notation "'let?' x := p 'in' q" := (bind_res p (fun x => q))
  (at level 200, x binder, p at level 100, q at level 200, right associativity,
   format "'[v' 'let?'  x  :=  p  'in' '/' q ']'").
Notation "'do!' p ;; q" := (bind_prog p (fun _ => q))
  (at level 200, p at level 99, q at level 200, right associativity).
Notation "'do?' p ;; q" := (bind_res p (fun _ => q))
  (at level 200, p at level 99, q at level 200, right associativity).

(** [.await?] on an API call: a [kube::Error] becomes [ReconcileError::K8s]. *)
Definition k8s {A} (p : prog (result kube_error A)) : M A :=
  bind_prog p (fun r => Ret (map_err K8sErr r)).
(** [.map_err(|e| ReconcileError::StateStore(e.to_string()))?]. *)
Definition in_store {A} (p : prog (result StoreError A)) : M A :=
  bind_prog p (fun r => Ret (map_err (fun e => StateStoreErr (show_store_error e)) r)).
(** A pure fallible computation. *)
Definition lift {A} (r : result ReconcileError A) : M A := Ret r.

(** [for x in xs { body?; }]. *)
Fixpoint for_each {X} (xs : list X) (body : X -> M unit) : M unit :=
  match xs with
  | [] => ok tt
  | x :: xs' => bind_res (body x) (fun _ => for_each xs' body)
  end.

(** [for x in xs] with an accumulator. *)
Fixpoint fold_each {X S} (xs : list X) (s : S) (body : S -> X -> M S) : M S :=
  match xs with
  | [] => ok s
  | x :: xs' => bind_res (body s x) (fun s' => fold_each xs' s' body)
  end.

(** [for attempt in first..=last] that returns from inside the loop: the body
    gives [Some] result to return and [None] to go on.  [n] attempts are left. *)
Fixpoint attempts {A} (n : nat) (attempt : Z) (body : Z -> M (option A)) : M (option A) :=
  match n with
  | O => ok None
  | S n' => bind_res (body attempt) (fun r =>
              match r with
              | Some a => ok (Some a)
              | None => attempts n' (attempt + 1) body
              end)
  end.

(** ** Traces *)

Inductive event := Ev (act : action) (r : reply act).
Notation trace := (list event).

Definition act_of (e : event) : action := match e with Ev act _ => act end.

Lemma cons_inj {A} (x y : A) l l' : x :: l = y :: l' -> x = y /\ l = l'.
Proof. by intros [= -> ->]. Qed.

(** The answer of an event is determined by it. *)
Lemma Ev_inj act (r r' : reply act) : Ev act r = Ev act r' -> r = r'.
Proof. intros [= E]. by apply Eqdep.EqdepTheory.inj_pair2 in E. Qed.

(** [exec p tr a]: answered as in [tr], [p] makes exactly the requests of [tr]
    and returns [a]. *)
Fixpoint exec {A} (p : prog A) (tr : trace) (a : A) : Prop :=
  match p with
  | Ret x => tr = [] /\ a = x
  | Vis act k =>
      match tr with
      | [] => False
      | e :: tr' => exists r, e = Ev act r /\ exec (k r) tr' a
      end
  end.

(** The requests [tr] are the first ones of a run of the program. *)
Fixpoint partial {A} (p : prog A) (tr : trace) {struct tr} : Prop :=
  match tr with
  | [] => True
  | e :: tr => match p with
               | Ret _ => False
               | Vis act k => exists r, e = Ev act r /\ partial (k r) tr
               end
  end.

(** An execution against a handler that answers from a state of its own. *)
Fixpoint run {A W} (h : forall act : action, W -> reply act * W) (p : prog A) (w : W) : A * trace * W :=
  match p with
  | Ret a => (a, [], w)
  | Vis act k =>
      let '(r, w') := h act w in
      let '(a, tr, w'') := run h (k r) w' in (a, Ev act r :: tr, w'')
  end.

Lemma run_exec {A W} (h : forall act : action, W -> reply act * W) (p : prog A) w :
  exec p (run h p w).1.2 (run h p w).1.1.
Proof.
  revert w. induction p as [a|act k IH]; intros w; cbn; [done|].
  destruct (h act w) as [r w']. specialize (IH r w').
  destruct (run h (k r) w') as [[a tr] w'']. cbn in *. by exists r.
Qed.

Lemma exec_bind {A B} (p : prog A) (f : A -> prog B) tr b :
  exec (bind_prog p f) tr b <->
  exists tr1 tr2 a, tr = tr1 ++ tr2 /\ exec p tr1 a /\ exec (f a) tr2 b.
Proof.
  split.
  - revert tr. induction p as [a|act k IH]; cbn; intros tr H.
    + by exists [], tr, a.
    + destruct tr as [|e tr]; [done|]. destruct H as (r & -> & H).
      destruct (IH r tr H) as (tr1 & tr2 & a & -> & H1 & H2).
      exists (Ev act r :: tr1), tr2, a. split_and!; [done|by exists r|done].
  - intros (tr1 & tr2 & a & -> & H1 & H2). revert tr1 H1.
    induction p as [x|act k IH]; cbn; intros tr1 H1.
    + by destruct H1 as [-> ->].
    + destruct tr1 as [|e tr1]; [done|]. destruct H1 as (r & -> & H1). cbn. exists r. auto.
Qed.

Lemma exec_request {A} act (k : reply act -> prog A) tr a :
  exec (bind_prog (request act) k) tr a <-> exists r tr', tr = Ev act r :: tr' /\ exec (k r) tr' a.
Proof.
  unfold request. cbn [bind_prog exec]. destruct tr as [|e tr]; [naive_solver|].
  split; [intros (r & -> & H); eauto|]. intros (r & tr' & [= -> ->] & H). eauto.
Qed.

Lemma exec_Ret {A} (x a : A) tr : exec (Ret x) tr a <-> tr = [] /\ a = x.
Proof. done. Qed.

(** ** Reasoning about all executions

    [always ok pre p Q]: run after the trace [pre], every request of [p] is one
    [ok] allows at that point, and when [p] returns [a] having extended the trace
    to [tr], [Q tr a] holds. *)

Fixpoint always {A} (ok : trace -> event -> Prop) (pre : trace) (p : prog A)
    (Q : trace -> A -> Prop) : Prop :=
  match p with
  | Ret a => Q pre a
  | Vis act k => forall r, ok pre (Ev act r) /\ always ok (pre ++ [Ev act r]) (k r) Q
  end.

Lemma always_bind {A B} ok pre (p : prog A) (f : A -> prog B) Q :
  always ok pre p (fun tr a => always ok tr (f a) Q) -> always ok pre (bind_prog p f) Q.
Proof.
  revert pre. induction p as [a|act k IH]; intros pre; cbn; [done|].
  intros H r. destruct (H r). split; [done|]. by apply IH.
Qed.

Lemma always_weaken {A} (ok ok' : trace -> event -> Prop) pre (p : prog A) (Q Q' : trace -> A -> Prop) :
  (forall tr e, ok tr e -> ok' tr e) -> (forall tr a, Q tr a -> Q' tr a) ->
  always ok pre p Q -> always ok' pre p Q'.
Proof.
  intros H1 H2. revert pre. induction p as [a|act k IH]; intros pre; cbn; [auto|].
  intros H r. destruct (H r). split; [auto|]. by apply IH.
Qed.

Lemma always_sound {A} ok (p : prog A) Q pre tr a :
  always ok pre p Q -> exec p tr a ->
  Q (pre ++ tr) a /\ forall tr1 e tr2, tr = tr1 ++ e :: tr2 -> ok (pre ++ tr1) e.
Proof.
  revert pre tr. induction p as [x|act k IH]; intros pre tr H He; cbn in H, He.
  - destruct He as [-> ->]. rewrite app_nil_r. split; [done|]. intros [|??] ?? [=].
  - destruct tr as [|e tr]; [done|]. destruct He as (r & -> & He).
    destruct (H r) as [Hok Ha]. destruct (IH r _ _ Ha He) as [HQ Htr]. rewrite <- app_assoc in HQ.
    split; [done|]. intros [|e' tr1] e tr2 [= E0 E].
    + subst. by rewrite app_nil_r.
    + subst e'. specialize (Htr _ _ _ E). by rewrite <- app_assoc in Htr.
Qed.

(** [only P p]: whatever is answered, every request of [p] satisfies [P]. *)
Fixpoint only {A} (P : action -> Prop) (p : prog A) : Prop :=
  match p with
  | Ret _ => True
  | Vis act k => P act /\ forall r, only P (k r)
  end.

Lemma only_bind {A B} P (p : prog A) (f : A -> prog B) :
  only P p -> (forall a, only P (f a)) -> only P (bind_prog p f).
Proof. intros Hp Hf. induction p as [a|act k IH]; cbn in *; [done|]. destruct Hp. auto. Qed.

Lemma only_weaken {A} (P P' : action -> Prop) (p : prog A) :
  (forall a, P a -> P' a) -> only P p -> only P' p.
Proof. intros H. induction p; cbn; [done|]. intros []. auto. Qed.

Lemma only_exec {A} P (p : prog A) tr a :
  only P p -> exec p tr a -> forall act r, Ev act r ∈ tr -> P act.
Proof.
  revert tr. induction p as [x|act k IH]; intros tr Hp He act' r' Hin; cbn in *.
  - destruct He as [-> _]. by apply not_elem_of_nil in Hin.
  - destruct tr as [|e tr]; [done|]. destruct He as (r & -> & He), Hp as [HP Hk].
    apply elem_of_cons in Hin as [E|Hin]; [|by eapply IH].
    injection E as -> _. done.
Qed.

(** A part of a program all of whose requests are harmless extends the trace by
    requests that satisfy [P]. *)
Lemma always_only {A} ok P pre (p : prog A) (Q : trace -> A -> Prop) :
  only P p -> (forall tr act r, P act -> ok tr (Ev act r)) ->
  (forall tr' a, (forall act r, Ev act r ∈ tr' -> P act) -> Q (pre ++ tr') a) ->
  always ok pre p Q.
Proof.
  intros Hp Hok. revert pre. induction p as [a|act k IH]; intros pre HQ; cbn.
  - rewrite <- (app_nil_r pre). apply HQ. intros ?? H. by apply not_elem_of_nil in H.
  - destruct Hp as [HP Hk]. intros r. split; [by apply Hok|]. apply IH; [done|].
    intros tr' a Htr. rewrite <- app_assoc. apply HQ. cbn. intros act' r' Hin.
    apply elem_of_cons in Hin as [E|Hin]; [|by eapply Htr]. injection E as -> _. done.
Qed.
