(* ===== verification/Strategy.v ===== *)
(** * Promotion strategies

    [operator/src/strategy/*] and [operator/src/evaluator.rs]: the decision made
    from the counters of a rollout.  Counters are [i64] and add with wrap-around;
    rates are [f64].  The trait [PromotionStrategy] is a record of its one
    operation. *)

From S2P Require Import Prelude RustString Float64 Kube Crd StateStore MemoryStore.
Open Scope fbg_scope.

Inductive PromotionAction :=
| ContinueObserving
| Promote
| Rollback
| AdvanceStep (step traffic_percent : Z).
#[export] Instance PromotionAction_eq_dec : EqDecision PromotionAction.
Proof. solve_decision. Defined.

Record PromotionStrategy := { decide_with : Counts -> option Z -> PromotionAction }.

(** [counts.passed + counts.failed + counts.timed_out] and with the pending. *)
Definition total_of (c : Counts) : Z := passed c +i64 failed c +i64 timed_out c.
Definition best_total_of (c : Counts) : Z := total_of c +i64 pending c.

(** [if total > 0 { passed as f64 / total as f64 } else { 0.0 }]. *)
Definition actual_rate (c : Counts) : f64 :=
  if Z.ltb 0 (total_of c) then f64_div (f64_of_i64 (passed c)) (f64_of_i64 (total_of c)) else f64_zero.

Module HardSwitchStrategy.

Record t := { min_test_cases : Z; success_rate : f64 }.

Definition from_criteria (criteria : DataPromotionSpec) : t :=
  {| min_test_cases := unwrap_or 100 (dp_min_test_cases criteria);
     success_rate := unwrap_or (f64_ratio 98 100) (dp_success_rate criteria) |}.

Definition best_possible_rate (self : t) (c : Counts) : option f64 :=
  let best_total := best_total_of c in
  if (Z.ltb best_total (min_test_cases self) || Z.eqb best_total 0)%bool then None
  else Some (f64_div (f64_of_i64 (passed c +i64 pending c)) (f64_of_i64 best_total)).

Definition decide (self : t) (c : Counts) (_ : option Z) : PromotionAction :=
  let total := total_of c in
  let conclude := if f64_ge (actual_rate c) (success_rate self) then Promote else Rollback in
  if Z.ltb 0 (pending c) then
    match best_possible_rate self c with
    | Some best => if f64_lt best (success_rate self) then Rollback
                   else if Z.ltb total (min_test_cases self) then ContinueObserving else conclude
    | None => if Z.ltb total (min_test_cases self) then ContinueObserving else conclude
    end
  else if Z.ltb total (min_test_cases self) then ContinueObserving
  else conclude.

Definition strategy (self : t) : PromotionStrategy := {| decide_with := decide self |}.
End HardSwitchStrategy.

Module ProgressiveStrategy.

Record t := { steps : list ProgressiveStep; rollback_on_step_failure : bool }.

Definition from_steps (steps : list ProgressiveStep) (rollback_on_step_failure : bool) : t :=
  {| steps := steps; rollback_on_step_failure := rollback_on_step_failure |}.

Definition best_possible_rate (c : Counts) : f64 :=
  let best_total := best_total_of c in
  if Z.eqb best_total 0 then f64_zero
  else f64_div (f64_of_i64 (passed c +i64 pending c)) (f64_of_i64 best_total).

(** [current_step.unwrap_or(0) as usize]: a negative step sign-extends. *)
Definition step_index (current_step : option Z) : Z := wrap_u64 (unwrap_or 0 current_step).

(** The body of [decide] once the step of index [idx] is at hand. *)
Definition decide_step (self : t) (idx : Z) (step : ProgressiveStep) (c : Counts)
    : PromotionAction :=
  let total := total_of c in
  let conclude :=
    if f64_lt (actual_rate c) (ps_success_rate step) then
      if rollback_on_step_failure self then Rollback else ContinueObserving
    else match nth_error (steps self) (Z.to_nat (idx + 1)) with
         | Some next_step => AdvanceStep (wrap_i32 (idx + 1)) (ps_traffic_percent next_step)
         | None => Promote
         end in
  if Z.ltb 0 (pending c) then
    if (rollback_on_step_failure self
        && f64_lt (best_possible_rate c) (ps_success_rate step))%bool then Rollback
    else if Z.ltb total (ps_observe_cases step) then ContinueObserving else conclude
  else if Z.ltb total (ps_observe_cases step) then ContinueObserving
  else conclude.

Definition decide (self : t) (c : Counts) (current_step : option Z) : PromotionAction :=
  let idx := step_index current_step in
  if Z.leb (Z.of_nat (length (steps self))) idx then Promote
  else match nth_error (steps self) (Z.to_nat idx) with
       | Some step => decide_step self idx step c
       | None => Promote
       end.

Definition strategy (self : t) : PromotionStrategy := {| decide_with := decide self |}.
End ProgressiveStrategy.

(** ** [evaluator.rs] *)

Inductive EvaluationResult :=
| InsufficientData
| EvalPassed (success_rate : f64) (total passed : Z)
| EvalFailed (success_rate : f64) (total passed : Z).

Definition evaluate {S} `{!StateStore S} (store : S) (bg_ref : string) (min_test_cases : Z)
    (success_rate : f64) : EvaluationResult :=
  match store_counts bg_ref store with
  | Err _ => InsufficientData
  | Ok c =>
      if Z.ltb (total_of c) min_test_cases then InsufficientData
      else if f64_ge (actual_rate c) success_rate
           then EvalPassed (actual_rate c) (total_of c) (passed c)
           else EvalFailed (actual_rate c) (total_of c) (passed c)
  end.

(** ** Facts shared by the theorems *)

(** Counters as a store reports them: not negative and far from overflow. *)
Definition sane (c : Counts) : Prop :=
  0 <= passed c /\ 0 <= failed c /\ 0 <= timed_out c /\ 0 <= pending c /\
  passed c + failed c + timed_out c + pending c < 2 ^ 53.

Lemma wrap_small z : 0 <= z < 2 ^ 53 -> wrap_i64 z = z.
Proof. intros H. apply wrap_i64_id. unfold in_signed. lia. Qed.

Lemma total_of_sane c : sane c -> total_of c = passed c + failed c + timed_out c.
Proof. intros (? & ? & ? & ? & ?). unfold total_of.
  rewrite (wrap_small (passed c + failed c)) by lia. apply wrap_small. lia. Qed.

Lemma best_total_of_sane c : sane c ->
  best_total_of c = passed c + failed c + timed_out c + pending c.
Proof.
  intros H. unfold best_total_of. rewrite total_of_sane by done.
  destruct H as (? & ? & ? & ? & ?). rewrite wrap_small; lia.
Qed.

Lemma best_passed_sane c : sane c -> wrap_i64 (passed c + pending c) = passed c + pending c.
Proof. intros (? & ? & ? & ? & ?). rewrite wrap_small; lia. Qed.

(** The counters once every pending case has passed. *)
Definition all_pending_pass (c : Counts) : Counts :=
  {| passed := passed c + pending c; failed := failed c; timed_out := timed_out c; pending := 0 |}.

Lemma all_pending_pass_sane c : sane c -> sane (all_pending_pass c).
Proof. intros (? & ? & ? & ? & ?). unfold sane. cbn. lia. Qed.

Lemma actual_rate_all_pass c : sane c -> 0 < passed c + failed c + timed_out c + pending c ->
  actual_rate (all_pending_pass c)
  = f64_div (f64_of_i64 (passed c + pending c))
      (f64_of_i64 (passed c + failed c + timed_out c + pending c)).
Proof.
  intros H Hp. unfold actual_rate. rewrite total_of_sane by (by apply all_pending_pass_sane). cbn.
  destruct (Z.ltb_spec 0 (passed c + pending c + failed c + timed_out c)); [|lia].
  f_equal. f_equal. lia.
Qed.

(** ** Properties *)

Section HardSwitch.
Context (self : HardSwitchStrategy.t) (c : Counts).

(** A hard switch promotes exactly when enough cases are decided, the measured rate reaches
    the threshold, and the threshold is still within reach should every pending case pass. *)
Theorem hard_switch_promote_iff (step : option Z) :
  HardSwitchStrategy.decide self c step = Promote <->
  HardSwitchStrategy.min_test_cases self <= total_of c /\
  f64_ge (actual_rate c) (HardSwitchStrategy.success_rate self) = true /\
  (0 < pending c -> forall best, HardSwitchStrategy.best_possible_rate self c = Some best ->
     f64_lt best (HardSwitchStrategy.success_rate self) = false).
Proof.
  unfold HardSwitchStrategy.decide.
  destruct (Z.ltb_spec 0 (pending c)) as [Hp|Hp];
    destruct (Z.ltb_spec (total_of c) (HardSwitchStrategy.min_test_cases self)) as [Ht|Ht];
    destruct (f64_ge (actual_rate c) (HardSwitchStrategy.success_rate self));
    destruct (HardSwitchStrategy.best_possible_rate self c) as [best|];
    try destruct (f64_lt best (HardSwitchStrategy.success_rate self)) eqn:E;
    split; (intros H; first [discriminate H | destruct H as (H1 & H2 & H3) | idtac]);
    try done; try lia; try (by repeat split; try lia; intros; simplify_eq).
  all: by rewrite (H3 Hp best eq_refl) in E.
Qed.
End HardSwitch.

(** Without pending cases a hard switch with enough decided cases is decided: it promotes or
    rolls back, and it keeps observing only below the required number of cases. *)
Theorem hard_switch_decides (self : HardSwitchStrategy.t) (c : Counts) (step : option Z)
    (Hp : pending c = 0) :
  HardSwitchStrategy.decide self c step = ContinueObserving
  <-> total_of c < HardSwitchStrategy.min_test_cases self.
Proof.
  unfold HardSwitchStrategy.decide. rewrite Hp. cbn [Z.ltb Z.compare].
  destruct (Z.ltb_spec (total_of c) (HardSwitchStrategy.min_test_cases self)) as [H|H]; [done|].
  destruct (f64_ge _ _); split; intros; (discriminate || lia).
Qed.

Definition criteria_98 : HardSwitchStrategy.t :=
  HardSwitchStrategy.from_criteria
    {| dp_min_test_cases := None; dp_success_rate := None; dp_timeout_seconds := None |}.
Definition counts4 (p f t n : Z) : Counts :=
  {| passed := p; failed := f; timed_out := t; pending := n |}.

Lemma hard_switch_decides_witness :
  HardSwitchStrategy.decide criteria_98 (counts4 50 0 0 0) None = ContinueObserving
  /\ HardSwitchStrategy.decide criteria_98 (counts4 98 2 0 0) None = Promote.
Proof.
  split; [|vm_compute; reflexivity].
  apply (hard_switch_decides criteria_98 (counts4 50 0 0 0) None eq_refl). vm_compute. reflexivity.
Defined.

(** C19. An early rollback loses nothing: when a hard switch rolls back while too few cases are
    decided, then it also rolls back should every pending case pass. *)
Theorem hard_switch_early_rollback_sound (self : HardSwitchStrategy.t) (c : Counts)
    (step : option Z) (Hc : sane c)
    (Hearly : total_of c < HardSwitchStrategy.min_test_cases self)
    (Hr : HardSwitchStrategy.decide self c step = Rollback) :
  HardSwitchStrategy.decide self (all_pending_pass c) step = Rollback.
Proof.
  unfold HardSwitchStrategy.decide in *.
  destruct (Z.ltb_spec (total_of c) (HardSwitchStrategy.min_test_cases self)); [|lia].
  destruct (Z.ltb_spec 0 (pending c)) as [Hp|]; [|done].
  destruct (HardSwitchStrategy.best_possible_rate self c) as [best|] eqn:E; [|done].
  destruct (f64_lt best _) eqn:El; [|done]. unfold HardSwitchStrategy.best_possible_rate in E.
  rewrite best_total_of_sane, best_passed_sane in E by done.
  destruct (Z.ltb_spec (passed c + failed c + timed_out c + pending c)
              (HardSwitchStrategy.min_test_cases self)) as [|Hm]; [done|].
  destruct (Z.eqb_spec (passed c + failed c + timed_out c + pending c) 0) as [|Hz]; [done|].
  cbn [orb] in E. injection E as <-.
  pose proof (all_pending_pass_sane c Hc) as Hc'.
  rewrite total_of_sane by done. destruct Hc as (? & ? & ? & ? & ?).
  cbn [pending all_pending_pass passed failed timed_out Z.ltb Z.compare].
  destruct (Z.ltb_spec (passed c + pending c + failed c + timed_out c)
              (HardSwitchStrategy.min_test_cases self)); [lia|].
  rewrite actual_rate_all_pass by (unfold sane; lia). by rewrite (f64_lt_not_ge _ _ El).
Qed.

Lemma hard_switch_early_rollback_sound_witness :
  HardSwitchStrategy.decide criteria_98 (counts4 40 5 0 60) None = Rollback /\
  HardSwitchStrategy.decide criteria_98 (all_pending_pass (counts4 40 5 0 60)) None = Rollback.
Proof.
  split; [vm_compute; reflexivity|].
  apply (hard_switch_early_rollback_sound criteria_98 (counts4 40 5 0 60) None).
  - unfold sane. cbn. lia.
  - vm_compute. reflexivity.
  - vm_compute. reflexivity.
Defined.

(** A progressive rollout moves through its steps one at a time and in order: it advances only
    to the step after the current one, at that step's traffic share, and only once the current
    step has its required cases decided at its required rate. *)
Theorem progressive_advance (self : ProgressiveStrategy.t) (c : Counts) (current : Z)
    (n percent : Z)
    (Hcur : 0 <= current < 2 ^ 31 - 1)
    (Hd : ProgressiveStrategy.decide self c (Some current) = AdvanceStep n percent) :
  n = current + 1 /\
  exists step next,
    nth_error (ProgressiveStrategy.steps self) (Z.to_nat current) = Some step /\
    nth_error (ProgressiveStrategy.steps self) (Z.to_nat n) = Some next /\
    percent = ps_traffic_percent next /\
    ps_observe_cases step <= total_of c /\
    f64_lt (actual_rate c) (ps_success_rate step) = false.
Proof.
  unfold ProgressiveStrategy.decide, ProgressiveStrategy.step_index, wrap_u64 in Hd. cbn in Hd.
  rewrite (Z.mod_small current) in Hd by lia.
  destruct (Z.leb_spec (Z.of_nat (length (ProgressiveStrategy.steps self))) current); [done|].
  destruct (nth_error _ (Z.to_nat current)) as [step|] eqn:Es; [|done].
  unfold ProgressiveStrategy.decide_step in Hd.
  destruct (Z.ltb 0 (pending c)), (ProgressiveStrategy.rollback_on_step_failure self),
    (f64_lt (ProgressiveStrategy.best_possible_rate c) (ps_success_rate step));
    cbn [andb] in Hd; try done;
  destruct (Z.ltb_spec (total_of c) (ps_observe_cases step)); try done;
  destruct (f64_lt (actual_rate c) (ps_success_rate step)) eqn:Er; try done;
  destruct (nth_error _ (Z.to_nat (current + 1))) as [next|] eqn:En; try done;
  injection Hd as <- <-;
  rewrite wrap_i32_id by (unfold in_signed; lia);
  (split; [done|]); exists step, next; repeat split; auto; lia.
Qed.

Definition step_of (percent cases num den : Z) : ProgressiveStep :=
  {| ps_traffic_percent := percent; ps_observe_cases := cases; ps_success_rate := f64_ratio num den |}.
Definition three_steps : ProgressiveStrategy.t :=
  ProgressiveStrategy.from_steps [step_of 5 20 99 100; step_of 25 50 98 100; step_of 100 100 98 100] true.

Lemma progressive_advance_witness :
  exists step next,
    nth_error (ProgressiveStrategy.steps three_steps) 0 = Some step /\
    nth_error (ProgressiveStrategy.steps three_steps) 1 = Some next /\
    25 = ps_traffic_percent next /\ ps_observe_cases step <= total_of (counts4 20 0 0 0) /\
    f64_lt (actual_rate (counts4 20 0 0 0)) (ps_success_rate step) = false.
Proof.
  apply (progressive_advance three_steps (counts4 20 0 0 0) 0 1 25);
    [split; vm_compute; congruence | vm_compute; reflexivity].
Defined.

(** A progressive rollout is promoted only from its last step (or past it): at any earlier
    step the decision is to observe, to roll back or to advance. *)
Theorem progressive_promote_last (self : ProgressiveStrategy.t) (c : Counts) (current : Z)
    (Hcur : 0 <= current)
    (Hlast : current + 1 < Z.of_nat (length (ProgressiveStrategy.steps self)) < 2 ^ 31) :
  ProgressiveStrategy.decide self c (Some current) <> Promote.
Proof.
  unfold ProgressiveStrategy.decide, ProgressiveStrategy.step_index, wrap_u64. cbn.
  rewrite (Z.mod_small current) by lia.
  destruct (Z.leb_spec (Z.of_nat (length (ProgressiveStrategy.steps self))) current); [lia|].
  destruct (nth_error _ (Z.to_nat current)) as [step|] eqn:Es.
  2: { apply nth_error_None in Es. lia. }
  unfold ProgressiveStrategy.decide_step.
  destruct (nth_error _ (Z.to_nat (current + 1))) as [next|] eqn:En.
  2: { apply nth_error_None in En. lia. }
  repeat case_match; congruence.
Qed.

Lemma progressive_promote_last_witness :
  ProgressiveStrategy.decide three_steps (counts4 50 0 0 0) (Some 1) <> Promote /\
  ProgressiveStrategy.decide three_steps (counts4 100 0 0 0) (Some 2) = Promote.
Proof.
  split; [|vm_compute; reflexivity].
  apply (progressive_promote_last three_steps (counts4 50 0 0 0) 1); [lia|split; vm_compute; reflexivity].
Defined.

(** The evaluator agrees with the hard switch on a store without pending cases: it passes a
    deployment exactly when the hard switch with the same criteria promotes it. *)
Theorem evaluate_agrees {S} `{!StateStore S} (store : S) (bg_ref : string)
    (self : HardSwitchStrategy.t) (c : Counts)
    (Hc : store_counts bg_ref store = Ok c) (Hp : pending c = 0) :
  evaluate store bg_ref (HardSwitchStrategy.min_test_cases self)
    (HardSwitchStrategy.success_rate self) =
  match HardSwitchStrategy.decide self c None with
  | Promote => EvalPassed (actual_rate c) (total_of c) (passed c)
  | Rollback => EvalFailed (actual_rate c) (total_of c) (passed c)
  | _ => InsufficientData
  end.
Proof.
  unfold evaluate, HardSwitchStrategy.decide. rewrite Hc, Hp. cbn [Z.ltb Z.compare].
  destruct (Z.ltb (total_of c) (HardSwitchStrategy.min_test_cases self)); [done|].
  by destruct (f64_ge (actual_rate c) (HardSwitchStrategy.success_rate self)).
Qed.

Lemma evaluate_agrees_witness :
  evaluate Memory.new "ns/bg" 100 (f64_ratio 98 100) = InsufficientData.
Proof.
  exact (evaluate_agrees Memory.new "ns/bg" criteria_98 default_counts eq_refl eq_refl).
Defined.
