(* ===== verification/Promotion.v ===== *)
(** * Promotion decision

    [operator/src/controller/promotion.rs]: the data and the custom verification
    of a rollout each propose an action, [decide_promotion_action] combines them;
    [validate_test_configuration] rejects specifications no rollout can decide, all but
    two kinds of them. *)

From S2P Require Import Prelude RustString Float64 Kube Crd StateStore Effects Strategy.

Definition missing_promotion : ReconcileError :=
  InvalidSpec "blue green deployment is missing promotion spec".

Definition decide_custom_promotion (c : Counts) (_ : CustomPromotionSpec) : PromotionAction :=
  if Z.ltb 0 (pending c) then ContinueObserving
  else if (Z.ltb 0 (failed c) || Z.ltb 0 (timed_out c))%bool then Rollback
  else if Z.eqb (passed c) 0 then ContinueObserving
  else Promote.

Definition promotion_strategy_for (bgd : BlueGreenDeployment) (data : DataPromotionSpec)
    : result ReconcileError PromotionStrategy :=
  promotion ← ok_or missing_promotion (bgs_promotion (bgd_spec bgd));
  match strat_type (promo_strategy promotion) with
  | HardSwitch => Ok (HardSwitchStrategy.strategy (HardSwitchStrategy.from_criteria data))
  | Progressive =>
      progressive ← ok_or (InvalidSpec "progressive strategy selected without steps")
                      (strat_progressive (promo_strategy promotion));
      Ok (ProgressiveStrategy.strategy (ProgressiveStrategy.from_steps (prog_steps progressive)
            (prog_rollback_on_step_failure progressive)))
  end.

(** The [match (data_action, custom_action)], arms in order. *)
Definition combine_actions (data custom : option PromotionAction)
    : result ReconcileError PromotionAction :=
  match data, custom with
  | Some Rollback, _ | _, Some Rollback => Ok Rollback
  | Some ContinueObserving, _ | _, Some ContinueObserving => Ok ContinueObserving
  | Some (AdvanceStep step percent), None => Ok (AdvanceStep step percent)
  | Some Promote, Some Promote | Some Promote, None | None, Some Promote => Ok Promote
  | None, None => Err (InvalidSpec "promotion must define at least one of data or custom")
  | _, _ => Ok ContinueObserving
  end.

Definition decide_promotion_action (bgd : BlueGreenDeployment) (data_counts custom_counts : Counts)
    (current_step : option Z) : result ReconcileError PromotionAction :=
  promotion ← ok_or missing_promotion (bgs_promotion (bgd_spec bgd));
  data_action ← match promo_data promotion with
                | Some data => strategy ← promotion_strategy_for bgd data;
                               Ok (Some (decide_with strategy data_counts current_step))
                | None => Ok None
                end;
  combine_actions data_action (decide_custom_promotion custom_counts <$> promo_custom promotion).

Definition service_has_ports (s : ServiceSpec) : bool :=
  match svc_ports s with Some (_ :: _) => true | _ => false end.

Definition validate_test_configuration (bgd : BlueGreenDeployment) : result ReconcileError unit :=
  match bgs_promotion (bgd_spec bgd) with
  | None => match bgs_test (bgd_spec bgd) with
            | None => Ok tt
            | Some _ => Err (InvalidSpec "test requires a promotion spec")
            end
  | Some promotion =>
      if (is_none (promo_data promotion) && is_none (promo_custom promotion))%bool
      then Err (InvalidSpec "promotion must define at least one of data or custom")
      else match bgs_test (bgd_spec bgd) with
      | None => Ok tt
      | Some test =>
          let quoted := "test '" +:+ test_name test in
          if negb (service_has_ports (test_service test))
          then Err (InvalidSpec (quoted +:+ "' service spec must define at least one port"))
          else if (is_none (test_data_verification test) && is_none (test_custom_verification test))%bool
          then Err (InvalidSpec
                 (quoted +:+ "' must define at least one of dataVerification or customVerification"))
          else if (is_some (test_data_verification test) && is_none (promo_data promotion))%bool
          then Err (InvalidSpec (quoted +:+ "' uses dataVerification but promotion.data is missing"))
          else if (is_some (test_custom_verification test) && is_none (promo_custom promotion))%bool
          then Err (InvalidSpec (quoted +:+ "' uses customVerification but promotion.custom is missing"))
          else Ok tt
      end
  end.

Definition is_splitter (ip : InceptionPoint) : bool :=
  existsb (fun role => bool_decide (role = Splitter)) (ip_roles ip).

Definition has_splitter (bgd : BlueGreenDeployment) : bool :=
  existsb is_splitter (bgs_inception_points (bgd_spec bgd)).

Definition initial_splitter_traffic_percent (bgd : BlueGreenDeployment) : option Z :=
  if negb (has_splitter bgd) then None
  else
    promotion ← bgs_promotion (bgd_spec bgd);
    match strat_type (promo_strategy promotion) with
    | HardSwitch => Some 100
    | Progressive =>
        progressive ← strat_progressive (promo_strategy promotion);
        ps_traffic_percent <$> head (prog_steps progressive)
    end.

(** ** Concrete deployments for the witnesses *)

Definition empty_deployment_spec : DeploymentSpec :=
  {| ds_replicas := Some 1; ds_selector := {| sel_match_labels := None; sel_rest := JNull |};
     ds_template := {| tpl_metadata := Some default_meta;
                       tpl_spec := Some {| pod_containers := [{| ctr_name := "app"; ctr_image := None;
                                                                 ctr_env := None; ctr_ports := None;
                                                                 ctr_volume_mounts := None;
                                                                 ctr_rest := JNull |}];
                                           pod_volumes := None;
                                           pod_termination_grace_period_seconds := None;
                                           pod_service_account_name := None;
                                           pod_rest := JNull |} |};
     ds_rest := JNull |}.

Definition sample_spec (promotion : option PromotionSpec) (ips : list InceptionPoint)
    : BlueGreenDeploymentSpec :=
  {| bgs_selector := {| dsel_namespace := None; dsel_match_labels := {["app" := "orders"]} |};
     bgs_deployment := {| mds_namespace := None; mds_spec := empty_deployment_spec |};
     bgs_candidate_patch := None; bgs_inception_points := ips; bgs_test := None;
     bgs_promotion := promotion; bgs_update_policy := None |}.

Definition sample_meta : ObjectMeta :=
  {| meta_name := Some "orders"; meta_namespace := Some "apps"; meta_uid := Some "uid-1";
     meta_labels := None; meta_annotations := None; meta_generation := Some 1; meta_resource_version := Some "1";
     meta_finalizers := Some ["fluidbg.io/cleanup"]; meta_deletion_timestamp := None;
     meta_owner_references := None; meta_rest := JNull |}.

Definition sample_bgd (promotion : option PromotionSpec) : BlueGreenDeployment :=
  {| bgd_metadata := sample_meta; bgd_spec := sample_spec promotion []; bgd_status := None |}.

Definition default_data : DataPromotionSpec :=
  {| dp_min_test_cases := None; dp_success_rate := None; dp_timeout_seconds := None |}.
Definition default_custom : CustomPromotionSpec :=
  {| cp_timeout_seconds := None; cp_retries := None |}.
Definition hard_switch_promotion (data : option DataPromotionSpec) (custom : option CustomPromotionSpec)
    : PromotionSpec :=
  {| promo_data := data; promo_custom := custom;
     promo_strategy := {| strat_type := HardSwitch; strat_progressive := None |} |}.
Definition progressive_promotion (steps : list ProgressiveStep) (custom : option CustomPromotionSpec)
    : PromotionSpec :=
  {| promo_data := Some default_data; promo_custom := custom;
     promo_strategy := {| strat_type := Progressive;
                          strat_progressive := Some {| prog_steps := steps;
                                                       prog_rollback_on_step_failure := true;
                                                       prog_step_timeout_minutes := None |} |} |}.

(** ** Properties *)

Lemma combine_promote data custom :
  combine_actions data custom = Ok Promote <->
  (data = Some Promote \/ custom = Some Promote) /\
  (forall a, data = Some a -> a = Promote) /\ (forall a, custom = Some a -> a = Promote).
Proof.
  destruct data as [[]|], custom as [[]|]; cbn; split;
    (intros H; first [discriminate H | destruct H as (H1 & H2 & H3) | idtac]); try done;
    try (exfalso; first [by specialize (H2 _ eq_refl) | by specialize (H3 _ eq_refl) | naive_solver]);
    split_and!; naive_solver.
Qed.

(** Promotion needs every configured side to agree: the combined decision is to promote exactly
    when a side proposes it and no configured side proposes anything else, and it is to roll back
    exactly when some side proposes a rollback. *)
Theorem combined_decision (data custom : option PromotionAction) :
  (combine_actions data custom = Ok Promote <->
     (data = Some Promote \/ custom = Some Promote) /\
     (forall a, data = Some a -> a = Promote) /\ (forall a, custom = Some a -> a = Promote)) /\
  (combine_actions data custom = Ok Rollback <-> data = Some Rollback \/ custom = Some Rollback).
Proof.
  split; [apply combine_promote|].
  destruct data as [[]|], custom as [[]|]; cbn; naive_solver.
Qed.

(** Custom verification decides on complete evidence only: it never promotes or rolls back while
    a case is pending, it never promotes with a failed or timed-out case or without a passed one. *)
Theorem custom_promotion_sound (c : Counts) (spec : CustomPromotionSpec) :
  (decide_custom_promotion c spec = Promote ->
     pending c <= 0 /\ failed c <= 0 /\ timed_out c <= 0 /\ passed c <> 0) /\
  (decide_custom_promotion c spec = Rollback ->
     pending c <= 0 /\ (0 < failed c \/ 0 < timed_out c)).
Proof.
  unfold decide_custom_promotion.
  destruct (Z.ltb_spec 0 (pending c)), (Z.ltb_spec 0 (failed c)), (Z.ltb_spec 0 (timed_out c)),
    (Z.eqb_spec (passed c) 0); cbn [orb]; split; (done || lia).
Qed.

(** The decision of a progressive strategy that is not at its last step. *)
Lemma progressive_not_promote bgd promotion prog (c c' : Counts) (current : Z) custom :
  bgs_promotion (bgd_spec bgd) = Some promotion ->
  strat_type (promo_strategy promotion) = Progressive ->
  strat_progressive (promo_strategy promotion) = Some prog ->
  is_Some (promo_data promotion) -> promo_custom promotion = Some custom ->
  0 <= current -> current + 1 < Z.of_nat (length (prog_steps prog)) < 2 ^ 31 ->
  decide_promotion_action bgd c c' (Some current) = Ok Rollback \/
  decide_promotion_action bgd c c' (Some current) = Ok ContinueObserving.
Proof.
  intros Hp Ht Hs [data Hd] Hc H0 Hlt. unfold decide_promotion_action, promotion_strategy_for.
  rewrite Hp. cbn. rewrite Hd, Ht, Hs, Hc. cbn.
  set (strategy := ProgressiveStrategy.from_steps (prog_steps prog)
                     (prog_rollback_on_step_failure prog)).
  assert (Hn : ProgressiveStrategy.decide strategy c (Some current) <> Promote).
  { unfold ProgressiveStrategy.decide, ProgressiveStrategy.step_index, wrap_u64. cbn.
    rewrite (Z.mod_small current) by lia.
    destruct (Z.leb_spec (Z.of_nat (length (prog_steps prog))) current); [lia|].
    destruct (nth_error _ (Z.to_nat current)) as [step|] eqn:Es.
    2: { apply nth_error_None in Es. cbn in Es. lia. }
    unfold ProgressiveStrategy.decide_step. cbn.
    destruct (nth_error _ (Z.to_nat (current + 1))) as [next|] eqn:En.
    2: { apply nth_error_None in En. cbn in En. lia. }
    repeat case_match; congruence. }
  destruct (ProgressiveStrategy.decide strategy c (Some current));
    destruct (decide_custom_promotion c' custom); auto; done.
Qed.

(** A progressive rollout that also has custom verification never leaves an earlier step: at any
    step before the last one, whatever the evidence, the decision is to observe or to roll back,
    never to advance the step or to promote.  So a progressive strategy of two or more steps with
    [promotion.custom] cannot complete, and the validation accepts it. *)
Theorem progressive_custom_never_advances (bgd : BlueGreenDeployment) (promotion : PromotionSpec)
    (prog : ProgressiveSpec) (custom : CustomPromotionSpec) (c c' : Counts) (current : Z)
    (Hp : bgs_promotion (bgd_spec bgd) = Some promotion)
    (Ht : strat_type (promo_strategy promotion) = Progressive)
    (Hs : strat_progressive (promo_strategy promotion) = Some prog)
    (Hd : is_Some (promo_data promotion)) (Hc : promo_custom promotion = Some custom)
    (Hcur : 0 <= current)
    (Hlast : current + 1 < Z.of_nat (length (prog_steps prog)) < 2 ^ 31) :
  decide_promotion_action bgd c c' (Some current) = Ok Rollback \/
  decide_promotion_action bgd c c' (Some current) = Ok ContinueObserving.
Proof. by eapply progressive_not_promote. Qed.

Definition stuck_bgd : BlueGreenDeployment :=
  sample_bgd (Some (progressive_promotion [step_of 5 20 99 100; step_of 100 50 98 100]
                      (Some default_custom))).

Lemma progressive_custom_never_advances_witness :
  validate_test_configuration stuck_bgd = Ok tt /\
  (decide_promotion_action stuck_bgd (counts4 1000 0 0 0) (counts4 1000 0 0 0) (Some 0) = Ok Rollback \/
   decide_promotion_action stuck_bgd (counts4 1000 0 0 0) (counts4 1000 0 0 0) (Some 0)
   = Ok ContinueObserving).
Proof.
  split; [reflexivity|].
  apply (progressive_custom_never_advances stuck_bgd
           (progressive_promotion [step_of 5 20 99 100; step_of 100 50 98 100] (Some default_custom))
           {| prog_steps := [step_of 5 20 99 100; step_of 100 50 98 100];
              prog_rollback_on_step_failure := true; prog_step_timeout_minutes := None |}
           default_custom (counts4 1000 0 0 0) (counts4 1000 0 0 0) 0);
    try reflexivity; [eexists; reflexivity | split; vm_compute; reflexivity].
Defined.


(** The three cases: decided, no promotion spec, no steps. *)
Definition stepless_promotion : PromotionSpec :=
  {| promo_data := Some default_data; promo_custom := None;
     promo_strategy := {| strat_type := Progressive; strat_progressive := None |} |}.
