(* ===== verification/Status.v ===== *)
(** * Status updates

    [operator/src/controller/status.rs].  Phase updates read the latest status,
    check that the transition is current, and replace the whole status; the other
    updates are merge patches of single members.  A failed write is logged and
    dropped, so none of these programs fails. *)

From S2P Require Import Prelude RustString Float64 Kube Crd StateStore Effects.
Open Scope fbg_scope.

(** ** Phases *)

Definition phase_rank (p : BGDPhase) : Z :=
  match p with
  | Pending => 0
  | Observing => 1
  | Promoting => 2
  | Draining => 3
  | Completed | RolledBack | Invalid => 4
  end.

Definition phase_is_terminal (p : BGDPhase) : bool :=
  match p with Completed | RolledBack | Invalid => true | _ => false end.

Definition phase_transition_is_current (latest_phase : option BGDPhase) (latest_generation : Z)
    (requested_phase : BGDPhase) (requested_generation : Z) : bool :=
  if Z.ltb requested_generation latest_generation then false
  else if Z.ltb latest_generation requested_generation then true
  else match latest_phase with
       | None => true
       | Some latest =>
           if bool_decide (latest = requested_phase) then true
           else if phase_is_terminal latest then false
           else Z.leb (phase_rank latest) (phase_rank requested_phase)
       end.

Definition observed_generation_of (b : BlueGreenDeployment) : Z :=
  unwrap_or 0 (bgd_status b ≫= st_observed_generation).

Definition phase_update_is_current (latest : BlueGreenDeployment) (requested_phase : BGDPhase)
    (requested_generation : Z) : bool :=
  phase_transition_is_current (bgd_status latest ≫= st_phase) (observed_generation_of latest)
    requested_phase requested_generation.

(** [status.rollout_generation.or(metadata.generation).unwrap_or_default()]. *)
Definition current_rollout_generation (b : BlueGreenDeployment) : Z :=
  match bgd_status b ≫= st_rollout_generation with
  | Some g => g
  | None => unwrap_or 0 (meta_generation (bgd_metadata b))
  end.

(** ** Conditions *)

Definition condition (ty : string) (st : ConditionStatus) (reason message : string)
    (observed_generation now : Z) : BlueGreenDeploymentCondition :=
  {| cond_type := ty; cond_status := st; cond_reason := reason; cond_message := message;
     cond_observed_generation := observed_generation; cond_last_transition_time := now |}.

Definition phase_condition (p : BGDPhase)
    : ConditionStatus * ConditionStatus * ConditionStatus * string * string :=
  match p with
  | Pending => (CondFalse, CondTrue, CondFalse, "Pending", "Rollout is queued or initializing.")
  | Observing => (CondFalse, CondTrue, CondFalse, "Observing", "Rollout is collecting test evidence.")
  | Promoting => (CondFalse, CondTrue, CondFalse, "Promoting",
                  "Rollout met promotion criteria and is switching traffic.")
  | Draining => (CondFalse, CondTrue, CondFalse, "Draining",
                 "Rollout is draining temporary resources before completion.")
  | Completed => (CondTrue, CondFalse, CondFalse, "Completed", "Rollout completed successfully.")
  | RolledBack => (CondFalse, CondFalse, CondTrue, "RolledBack",
                   "Rollout failed promotion criteria or timed out and was rolled back.")
  | Invalid => (CondFalse, CondFalse, CondTrue, "InvalidSpec", "Rollout specification is invalid.")
  end.

Definition conditions_for_phase (p : BGDPhase) (observed_generation now : Z)
    : list BlueGreenDeploymentCondition :=
  let '(ready, progressing, degraded, reason, message) := phase_condition p in
  let mk ty st := condition ty st reason message observed_generation now in
  [mk "Ready" ready; mk "Progressing" progressing; mk "Degraded" degraded]
  ++ if bool_decide (p = Completed) then [mk "ReconcileFailed" CondFalse] else [].

(** [conditions.retain(|c| c.type != ty)]. *)
Definition drop_condition (ty : string) (l : list BlueGreenDeploymentCondition) :=
  List.filter (fun c => negb (String.eqb (cond_type c) ty)) l.

(** ** The status of an object *)

Definition with_status (st : BlueGreenDeploymentStatus) (b : BlueGreenDeployment) : BlueGreenDeployment :=
  {| bgd_metadata := bgd_metadata b; bgd_spec := bgd_spec b; bgd_status := Some st |}.

Definition status_or_default (b : BlueGreenDeployment) : BlueGreenDeploymentStatus :=
  unwrap_or default_status (bgd_status b).

Definition set_conditions (l : list BlueGreenDeploymentCondition) (s : BlueGreenDeploymentStatus) :=
  {| st_phase := st_phase s; st_generated_deployment_name := st_generated_deployment_name s;
     st_observed_generation := st_observed_generation s;
     st_rollout_generation := st_rollout_generation s;
     st_test_cases_observed := st_test_cases_observed s;
     st_test_cases_passed := st_test_cases_passed s; st_test_cases_failed := st_test_cases_failed s;
     st_test_cases_pending := st_test_cases_pending s;
     st_test_cases_timed_out := st_test_cases_timed_out s;
     st_current_success_rate := st_current_success_rate s;
     st_last_failure_message := st_last_failure_message s;
     st_current_traffic_percent := st_current_traffic_percent s;
     st_current_step := st_current_step s; st_started_at := st_started_at s;
     st_last_case_at := st_last_case_at s; st_drain_started_at := st_drain_started_at s;
     st_inception_point_drains := st_inception_point_drains s; st_conditions := l |}.

Definition set_phase (p : BGDPhase) (g : Z) (s : BlueGreenDeploymentStatus) :=
  {| st_phase := Some p; st_generated_deployment_name := st_generated_deployment_name s;
     st_observed_generation := Some g;
     st_rollout_generation := st_rollout_generation s;
     st_test_cases_observed := st_test_cases_observed s;
     st_test_cases_passed := st_test_cases_passed s; st_test_cases_failed := st_test_cases_failed s;
     st_test_cases_pending := st_test_cases_pending s;
     st_test_cases_timed_out := st_test_cases_timed_out s;
     st_current_success_rate := st_current_success_rate s;
     st_last_failure_message := st_last_failure_message s;
     st_current_traffic_percent := st_current_traffic_percent s;
     st_current_step := st_current_step s; st_started_at := st_started_at s;
     st_last_case_at := st_last_case_at s; st_drain_started_at := st_drain_started_at s;
     st_inception_point_drains := st_inception_point_drains s; st_conditions := st_conditions s |}.

(** ** The updates *)

(** [let name = match &bgd.metadata.name { Some(n) => .., None => return }]. *)
Definition if_named (b : BlueGreenDeployment) (body : string -> prog unit) : prog unit :=
  match meta_name (bgd_metadata b) with Some n => body n | None => Ret tt end.

Definition patch_status (ns name : string) (fields : list status_field) : prog unit :=
  do! request (APatchStatus ns name fields) ;; Ret tt.

Definition update_status_phase (bgd : BlueGreenDeployment) (ns : string) (p : BGDPhase) : prog unit :=
  if_named bgd (fun name =>
    let observed_generation := current_rollout_generation bgd in
    let! r := request (AGetStatus ns name) in
    match r with
    | Err _ => Ret tt
    | Ok latest =>
        if negb (phase_update_is_current latest p observed_generation) then Ret tt
        else
          let! now := request ANow in
          let status := set_conditions (conditions_for_phase p observed_generation now)
                          (set_phase p observed_generation (status_or_default latest)) in
          do! request (AReplaceStatus ns name (with_status status latest)) ;; Ret tt
    end).

Definition ensure_rollout_generation (bgd : BlueGreenDeployment) (ns : string) : prog unit :=
  if is_some (bgd_status bgd ≫= st_rollout_generation) then Ret tt
  else if_named bgd (fun name =>
    patch_status ns name [FRolloutGeneration (unwrap_or 0 (meta_generation (bgd_metadata bgd)))]).

Definition reset_status_for_new_rollout (bgd : BlueGreenDeployment) (ns : string) : prog unit :=
  if_named bgd (fun name =>
    let observed_generation := unwrap_or 0 (meta_generation (bgd_metadata bgd)) in
    let! now := request ANow in
    patch_status ns name
      [FPhase Pending; FGeneratedName None; FStep None; FTrafficPercent None; FDrainStartedAt None;
       FDrains []; FRolloutGeneration observed_generation; FObservedGeneration observed_generation;
       FConditions (conditions_for_phase Pending observed_generation now)]).

Definition update_status_update_deferred (bgd : BlueGreenDeployment) (ns : string) : prog unit :=
  if_named bgd (fun name =>
    let! r := request (AGetStatus ns name) in
    match r with
    | Err _ => Ret tt
    | Ok latest =>
        let generation := unwrap_or 0 (meta_generation (bgd_metadata bgd)) in
        let rollout_generation := unwrap_or 0 (bgd_status bgd ≫= st_rollout_generation) in
        let! now := request ANow in
        let status := status_or_default latest in
        let message := "Spec generation " +:+ show_Z generation +:+
          " is deferred until rollout generation " +:+ show_Z rollout_generation +:+
          " reaches a terminal phase." in
        let status := set_conditions
          (drop_condition "UpdateDeferred" (st_conditions status)
           ++ [condition "UpdateDeferred" CondTrue "ActiveRollout" message generation now]) status in
        do! request (AReplaceStatus ns name (with_status status latest)) ;; Ret tt
    end).

Definition update_status_reconcile_failure (bgd : BlueGreenDeployment) (ns reason message : string)
    : prog unit :=
  if_named bgd (fun name =>
    let! r := request (AGetStatus ns name) in
    match r with
    | Err _ => Ret tt
    | Ok latest =>
        let observed_generation := current_rollout_generation bgd in
        let! now := request ANow in
        let status := status_or_default latest in
        let add ty l := drop_condition ty l
          ++ [condition ty CondTrue reason message observed_generation now] in
        let status := set_conditions (add "Degraded" (add "ReconcileFailed" (st_conditions status))) status in
        do! request (AReplaceStatus ns name (with_status status latest)) ;; Ret tt
    end).

Definition update_status_invalid (bgd : BlueGreenDeployment) (ns reason message : string) : prog unit :=
  if_named bgd (fun name =>
    let observed_generation := current_rollout_generation bgd in
    let! now := request ANow in
    let mk ty st := condition ty st reason message observed_generation now in
    patch_status ns name
      [FPhase Invalid; FObservedGeneration observed_generation;
       FConditions [mk "Ready" CondFalse; mk "Progressing" CondFalse; mk "Degraded" CondTrue;
                    mk "ReconcileFailed" CondTrue]]).

Definition update_drain_started_at (bgd : BlueGreenDeployment) (ns : string) : prog unit :=
  if_named bgd (fun name =>
    let! now := request ANow in patch_status ns name [FDrainStartedAt (Some now)]).

Definition update_inception_point_drain_statuses (bgd : BlueGreenDeployment) (ns : string)
    (statuses : list InceptionPointDrainStatus) : prog unit :=
  if_named bgd (fun name => patch_status ns name [FDrains statuses]).

Definition update_status_generated_deployment_name (bgd : BlueGreenDeployment) (ns : string)
    (generated : string) : prog unit :=
  if_named bgd (fun name => patch_status ns name [FGeneratedName (Some generated)]).

Definition update_status_counts (bgd : BlueGreenDeployment) (ns : string) (c : Counts) (rate : f64)
    (last_failure_message : option string) : prog unit :=
  if_named bgd (fun name =>
    patch_status ns name
      [FCounts c (passed c +i64 failed c +i64 timed_out c) rate last_failure_message]).

Definition update_status_progress (bgd : BlueGreenDeployment) (ns : string) (step percent : Z)
    : prog unit :=
  if_named bgd (fun name => patch_status ns name [FStep (Some step); FTrafficPercent (Some percent)]).

(** ** Writes as data

    The phase (and generation) a request sets in the status, if it sets one. *)

Definition field_phase (fields : list status_field) : option BGDPhase :=
  head (omap (fun f => match f with FPhase p => Some p | _ => None end) fields).

Definition written_phase (act : action) : option BGDPhase :=
  match act with
  | AReplaceStatus _ _ b => bgd_phase b
  | APatchStatus _ _ fields => field_phase fields
  | _ => None
  end.

(** A request other than a write that could set a phase. *)
Definition no_phase_write (act : action) : Prop :=
  match act with
  | AReplaceStatus _ _ _ => False
  | APatchStatus _ _ fields => field_phase fields = None
  | _ => True
  end.
#[export] Instance no_phase_write_dec act : Decision (no_phase_write act).
Proof. destruct act; cbn; apply _. Defined.

(** ** Properties *)

Lemma rank_terminal p : phase_is_terminal p = true <-> phase_rank p = 4.
Proof. by destruct p. Qed.

(** The lexicographic order of a status: generation, then phase rank. *)
Definition status_le (g1 : Z) (p1 : option BGDPhase) (g2 : Z) (p2 : BGDPhase) : Prop :=
  g1 < g2 \/ (g1 = g2 /\ match p1 with Some p => phase_rank p <= phase_rank p2 | None => True end).

Lemma transition_le latest g p g' :
  phase_transition_is_current latest g p g' = true -> status_le g latest g' p.
Proof.
  unfold phase_transition_is_current, status_le.
  destruct (Z.ltb_spec g' g); [done|]. destruct (Z.ltb_spec g g'); [by left|]. intros H1.
  right. split; [lia|]. destruct latest as [l|]; [|done].
  case_bool_decide as E; [by subst|]. destruct (phase_is_terminal l); [done|]. lia.
Qed.

(** The transition check admits exactly the updates that do not move a rollout backwards
    and do not leave a terminal phase: the observed generation does not drop, within a generation
    the rank of the phase (Pending, Observing, Promoting, Draining, terminal) does not drop, and a
    terminal phase is kept within its generation. *)
Theorem transition_admitted_iff (latest : option BGDPhase) (g : Z) (p : BGDPhase) (g' : Z) :
  phase_transition_is_current latest g p g' = true <->
  status_le g latest g' p
  /\ (g = g' -> forall l, latest = Some l -> phase_is_terminal l = true -> p = l).
Proof.
  split.
  - intros H. split; [by apply transition_le|]. intros <- l -> Ht. unfold phase_transition_is_current in H.
    rewrite Z.ltb_irrefl, Ht in H. by case_bool_decide.
  - unfold phase_transition_is_current, status_le. intros [Hle Ht].
    destruct (Z.ltb_spec g' g); [lia|]. destruct (Z.ltb_spec g g'); [done|].
    destruct latest as [l|]; [|done]. case_bool_decide as E; [done|].
    destruct (phase_is_terminal l) eqn:El; [|apply Z.leb_le; destruct Hle as [?|[? ?]]; [lia|done]].
    destruct E. symmetry. apply Ht; [lia|done..].
Qed.

(** A terminal phase of a generation is final: the check admits no other phase at the same or an
    earlier generation. *)
Theorem terminal_is_final (latest p : BGDPhase) (g g' : Z)
    (Ht : phase_is_terminal latest = true) (Hg : g' <= g) (Hne : p <> latest) :
  phase_transition_is_current (Some latest) g p g' = false.
Proof.
  unfold phase_transition_is_current.
  destruct (Z.ltb_spec g' g); [done|]. destruct (Z.ltb_spec g g'); [lia|].
  case_bool_decide; [congruence|]. by rewrite Ht.
Qed.

Lemma terminal_is_final_witness : phase_transition_is_current (Some RolledBack) 2 Completed 2 = false.
Proof. apply (terminal_is_final RolledBack Completed 2 2); [reflexivity | lia | discriminate]. Defined.

(** What [update_status_phase] writes: only the requested phase at the rollout's
    generation, on top of the status it has just read, and only when current. *)
Definition phase_write_ok (bgd : BlueGreenDeployment) (ns : string) (p : BGDPhase) (tr : trace)
    (e : event) : Prop :=
  match e with
  | Ev (AReplaceStatus ns' name b) _ =>
      exists latest, Ev (AGetStatus ns name) (Ok latest) ∈ tr /\
        ns' = ns /\ meta_name (bgd_metadata bgd) = Some name /\
        phase_update_is_current latest p (current_rollout_generation bgd) = true /\
        bgd_metadata b = bgd_metadata latest /\ bgd_spec b = bgd_spec latest /\
        bgd_phase b = Some p /\ observed_generation_of b = current_rollout_generation bgd
  | Ev act _ => no_phase_write act
  end.

Lemma update_status_phase_writes bgd ns p pre :
  always (phase_write_ok bgd ns p) pre (update_status_phase bgd ns p) (fun _ _ => True).
Proof.
  unfold update_status_phase, if_named. destruct (meta_name (bgd_metadata bgd)) as [name|] eqn:En;
    [|done]. cbn.
  intros [latest|e]; split; try done. cbn.
  destruct (phase_update_is_current latest p (current_rollout_generation bgd)) eqn:Ec; cbn; [|done].
  intros now. split; [done|]. intros r. split; [|done].
  exists latest. split_and!; try done.
  rewrite !elem_of_app, !list_elem_of_singleton. auto.
Qed.
