(* ===== verification/World.v ===== *)
(** * A concrete cluster

    One admissible environment for the programs of [Effects]: an API server that
    keeps objects by namespace and name, answers 404 for missing ones, selects by
    labels, bumps a resource version on every write and refuses a status
    replacement whose resource version is stale; plugins that answer every call
    with a fixed response; and an in-memory test-case store.  It is used to run
    the programs on concrete inputs; no theorem about the operator assumes it. *)

From S2P Require Import Prelude RustString Float64 Kube Crd StateStore MemoryStore InceptorEffects.
From S2P Require Import Effects Status.

Record world := {
  w_deployments : gmap (string * string) Deployment;
  w_services : gmap (string * string) Service;
  w_config_maps : gmap (string * string) ConfigMap;
  w_secrets : gmap (string * string) Secret;
  w_leases : gmap (string * string) Lease;
  w_bgds : gmap (string * string) BlueGreenDeployment;
  w_plugins : gmap string InceptionPlugin;
  w_endpoints : gmap (string * string) Endpoints;
  w_store : Memory.MemoryStore;
  w_clock : Z;
  w_version : Z;
  w_http : result string http_response;
  w_locks : gset string }.

Definition empty_world : world :=
  {| w_deployments := ∅; w_services := ∅; w_config_maps := ∅; w_secrets := ∅; w_leases := ∅;
     w_bgds := ∅; w_plugins := ∅; w_endpoints := ∅; w_store := Memory.new; w_clock := 0;
     w_version := 1; w_http := Err "connection refused"; w_locks := ∅ |}.

(** ** Updates of the record *)

Definition set_deployments m (w : world) : world :=
  {| w_deployments := m; w_services := w_services w; w_config_maps := w_config_maps w;
     w_secrets := w_secrets w; w_leases := w_leases w; w_bgds := w_bgds w; w_plugins := w_plugins w;
     w_endpoints := w_endpoints w; w_store := w_store w; w_clock := w_clock w;
     w_version := w_version w + 1; w_http := w_http w; w_locks := w_locks w |}.
Definition set_services m (w : world) : world :=
  {| w_deployments := w_deployments w; w_services := m; w_config_maps := w_config_maps w;
     w_secrets := w_secrets w; w_leases := w_leases w; w_bgds := w_bgds w; w_plugins := w_plugins w;
     w_endpoints := w_endpoints w; w_store := w_store w; w_clock := w_clock w;
     w_version := w_version w + 1; w_http := w_http w; w_locks := w_locks w |}.
Definition set_config_maps m (w : world) : world :=
  {| w_deployments := w_deployments w; w_services := w_services w; w_config_maps := m;
     w_secrets := w_secrets w; w_leases := w_leases w; w_bgds := w_bgds w; w_plugins := w_plugins w;
     w_endpoints := w_endpoints w; w_store := w_store w; w_clock := w_clock w;
     w_version := w_version w + 1; w_http := w_http w; w_locks := w_locks w |}.
Definition set_secrets m (w : world) : world :=
  {| w_deployments := w_deployments w; w_services := w_services w; w_config_maps := w_config_maps w;
     w_secrets := m; w_leases := w_leases w; w_bgds := w_bgds w; w_plugins := w_plugins w;
     w_endpoints := w_endpoints w; w_store := w_store w; w_clock := w_clock w;
     w_version := w_version w + 1; w_http := w_http w; w_locks := w_locks w |}.
Definition set_leases m (w : world) : world :=
  {| w_deployments := w_deployments w; w_services := w_services w; w_config_maps := w_config_maps w;
     w_secrets := w_secrets w; w_leases := m; w_bgds := w_bgds w; w_plugins := w_plugins w;
     w_endpoints := w_endpoints w; w_store := w_store w; w_clock := w_clock w;
     w_version := w_version w + 1; w_http := w_http w; w_locks := w_locks w |}.
Definition set_bgds m (w : world) : world :=
  {| w_deployments := w_deployments w; w_services := w_services w; w_config_maps := w_config_maps w;
     w_secrets := w_secrets w; w_leases := w_leases w; w_bgds := m; w_plugins := w_plugins w;
     w_endpoints := w_endpoints w; w_store := w_store w; w_clock := w_clock w;
     w_version := w_version w + 1; w_http := w_http w; w_locks := w_locks w |}.
Definition set_store s (w : world) : world :=
  {| w_deployments := w_deployments w; w_services := w_services w; w_config_maps := w_config_maps w;
     w_secrets := w_secrets w; w_leases := w_leases w; w_bgds := w_bgds w; w_plugins := w_plugins w;
     w_endpoints := w_endpoints w; w_store := s; w_clock := w_clock w;
     w_version := w_version w; w_http := w_http w; w_locks := w_locks w |}.
Definition set_clock t (w : world) : world :=
  {| w_deployments := w_deployments w; w_services := w_services w; w_config_maps := w_config_maps w;
     w_secrets := w_secrets w; w_leases := w_leases w; w_bgds := w_bgds w; w_plugins := w_plugins w;
     w_endpoints := w_endpoints w; w_store := w_store w; w_clock := t;
     w_version := w_version w; w_http := w_http w; w_locks := w_locks w |}.
Definition set_locks l (w : world) : world :=
  {| w_deployments := w_deployments w; w_services := w_services w; w_config_maps := w_config_maps w;
     w_secrets := w_secrets w; w_leases := w_leases w; w_bgds := w_bgds w; w_plugins := w_plugins w;
     w_endpoints := w_endpoints w; w_store := w_store w; w_clock := w_clock w;
     w_version := w_version w; w_http := w_http w; w_locks := l |}.

(** ** Label selectors: [k=v] and [k], separated by commas *)

Definition term_matches (ls : labels) (term : string) : bool :=
  match split_once "=" term with
  | Some (k, v) => bool_decide (ls !! k = Some v)
  | None => is_some (ls !! term)
  end.
Definition selector_matches (selector : string) (m : ObjectMeta) : bool :=
  (is_empty selector || forallb (term_matches (labels_of m)) (split "," selector))%bool.

Definition listed {A} (meta : A -> ObjectMeta) (ns : scope) (selector : string)
    (m : gmap (string * string) A) : list A :=
  omap (fun kv : (string * string) * A =>
          if ((match ns with Some n => String.eqb kv.1.1 n | None => true end)
              && selector_matches selector (meta kv.2))%bool then Some kv.2 else None)
       (map_to_list m).

Definition not_found : kube_error := KubeApi 404 "not found".
Definition found {A} (o : option A) : result kube_error A := ok_or not_found o.
Definition key_of (ns : scope) (name : string) : string * string := (default "" ns, name).

(** ** Status patches *)

Definition apply_field (s : BlueGreenDeploymentStatus) (f : status_field) : BlueGreenDeploymentStatus :=
  let upd ph gn og rg cs rate msg tp stp ds dr cd :=
    {| st_phase := ph; st_generated_deployment_name := gn; st_observed_generation := og;
       st_rollout_generation := rg;
       st_test_cases_observed := fst cs;
       st_test_cases_passed := fst (fst (snd cs));
       st_test_cases_failed := snd (fst (snd cs));
       st_test_cases_pending := fst (snd (snd cs));
       st_test_cases_timed_out := snd (snd (snd cs));
       st_current_success_rate := rate; st_last_failure_message := msg;
       st_current_traffic_percent := tp; st_current_step := stp; st_started_at := st_started_at s;
       st_last_case_at := st_last_case_at s; st_drain_started_at := ds;
       st_inception_point_drains := dr; st_conditions := cd |} in
  let cs := (st_test_cases_observed s, ((st_test_cases_passed s, st_test_cases_failed s),
             (st_test_cases_pending s, st_test_cases_timed_out s))) in
  let base ph gn og rg cs' rate msg tp stp ds dr cd := upd ph gn og rg cs' rate msg tp stp ds dr cd in
  match f with
  | FPhase p => base (Some p) (st_generated_deployment_name s) (st_observed_generation s)
      (st_rollout_generation s) cs (st_current_success_rate s) (st_last_failure_message s)
      (st_current_traffic_percent s) (st_current_step s) (st_drain_started_at s)
      (st_inception_point_drains s) (st_conditions s)
  | FGeneratedName n => base (st_phase s) n (st_observed_generation s)
      (st_rollout_generation s) cs (st_current_success_rate s) (st_last_failure_message s)
      (st_current_traffic_percent s) (st_current_step s) (st_drain_started_at s)
      (st_inception_point_drains s) (st_conditions s)
  | FObservedGeneration g => base (st_phase s) (st_generated_deployment_name s) (Some g)
      (st_rollout_generation s) cs (st_current_success_rate s) (st_last_failure_message s)
      (st_current_traffic_percent s) (st_current_step s) (st_drain_started_at s)
      (st_inception_point_drains s) (st_conditions s)
  | FRolloutGeneration g => base (st_phase s) (st_generated_deployment_name s)
      (st_observed_generation s) (Some g) cs (st_current_success_rate s) (st_last_failure_message s)
      (st_current_traffic_percent s) (st_current_step s) (st_drain_started_at s)
      (st_inception_point_drains s) (st_conditions s)
  | FCounts c observed rate msg => base (st_phase s) (st_generated_deployment_name s)
      (st_observed_generation s) (st_rollout_generation s)
      (Some observed, ((Some (passed c), Some (failed c)), (Some (pending c), Some (timed_out c))))
      (Some rate) msg
      (st_current_traffic_percent s) (st_current_step s) (st_drain_started_at s)
      (st_inception_point_drains s) (st_conditions s)
  | FStep n => base (st_phase s) (st_generated_deployment_name s) (st_observed_generation s)
      (st_rollout_generation s) cs (st_current_success_rate s) (st_last_failure_message s)
      (st_current_traffic_percent s) n (st_drain_started_at s)
      (st_inception_point_drains s) (st_conditions s)
  | FTrafficPercent n => base (st_phase s) (st_generated_deployment_name s)
      (st_observed_generation s)
      (st_rollout_generation s) cs (st_current_success_rate s) (st_last_failure_message s)
      n (st_current_step s) (st_drain_started_at s)
      (st_inception_point_drains s) (st_conditions s)
  | FDrainStartedAt t => base (st_phase s) (st_generated_deployment_name s)
      (st_observed_generation s)
      (st_rollout_generation s) cs (st_current_success_rate s) (st_last_failure_message s)
      (st_current_traffic_percent s) (st_current_step s) t
      (st_inception_point_drains s) (st_conditions s)
  | FDrains l => base (st_phase s) (st_generated_deployment_name s) (st_observed_generation s)
      (st_rollout_generation s) cs (st_current_success_rate s) (st_last_failure_message s)
      (st_current_traffic_percent s) (st_current_step s) (st_drain_started_at s)
      l (st_conditions s)
  | FConditions l => base (st_phase s) (st_generated_deployment_name s) (st_observed_generation s)
      (st_rollout_generation s) cs (st_current_success_rate s) (st_last_failure_message s)
      (st_current_traffic_percent s) (st_current_step s) (st_drain_started_at s)
      (st_inception_point_drains s) l
  end.

(** ** The handler *)

Definition touch_meta (w : world) (m : ObjectMeta) : ObjectMeta :=
  with_resource_version (Some (show_Z (w_version w + 1))) m.

Definition put_bgd (ns name : string) (f : BlueGreenDeployment -> BlueGreenDeployment) (w : world)
    : result kube_error BlueGreenDeployment * world :=
  match w_bgds w !! (ns, name) with
  | Some b =>
      let b' := f b in
      let b' := {| bgd_metadata := touch_meta w (bgd_metadata b'); bgd_spec := bgd_spec b';
                   bgd_status := bgd_status b' |} in
      (Ok b', set_bgds (<[(ns, name) := b']> (w_bgds w)) w)
  | None => (Err not_found, w)
  end.

Definition get_obj (k : kind) (ns : scope) (name : string) (w : world) : option (obj k) :=
  match k return option (obj k) with
  | KDeployment => w_deployments w !! key_of ns name
  | KService => w_services w !! key_of ns name
  | KConfigMap => w_config_maps w !! key_of ns name
  | KSecret => w_secrets w !! key_of ns name
  | KLease => w_leases w !! key_of ns name
  | KBgd => w_bgds w !! key_of ns name
  | KPlugin => w_plugins w !! name
  | KEndpoints => w_endpoints w !! key_of ns name
  | KPod | KNamespace | KCrd => None
  end.

Definition list_obj (k : kind) (ns : scope) (selector : string) (w : world) : list (obj k) :=
  match k return list (obj k) with
  | KDeployment => listed dep_metadata ns selector (w_deployments w)
  | KService => listed svc_metadata ns selector (w_services w)
  | KConfigMap => listed cm_metadata ns selector (w_config_maps w)
  | KSecret => listed sec_metadata ns selector (w_secrets w)
  | KBgd => listed bgd_metadata ns selector (w_bgds w)
  | KPlugin => (map_to_list (w_plugins w)).*2
  | KLease | KEndpoints | KPod | KNamespace | KCrd => []
  end.

Definition put_obj (k : kind) (ns : scope) (name : string) : obj k -> world -> world :=
  match k return obj k -> world -> world with
  | KDeployment => fun o w =>
      (* a write of the object leaves its status alone *)
      let status := match w_deployments w !! key_of ns name with
                    | Some old => dep_status old | None => dep_status o end in
      set_deployments (<[key_of ns name := {| dep_metadata := touch_meta w (dep_metadata o);
                          dep_spec := dep_spec o; dep_status := status |}]> (w_deployments w)) w
  | KService => fun o w => set_services (<[key_of ns name := o]> (w_services w)) w
  | KConfigMap => fun o w => set_config_maps (<[key_of ns name := o]> (w_config_maps w)) w
  | KSecret => fun o w => set_secrets (<[key_of ns name := o]> (w_secrets w)) w
  | KLease => fun o w => set_leases (<[key_of ns name := o]> (w_leases w)) w
  | _ => fun _ w => w
  end.

Definition delete_obj (k : kind) (ns : scope) (name : string) (w : world)
    : result kube_error unit * world :=
  match get_obj k ns name w with
  | None => (Err not_found, w)
  | Some _ => (Ok tt, match k with
      | KDeployment => set_deployments (delete (key_of ns name) (w_deployments w)) w
      | KService => set_services (delete (key_of ns name) (w_services w)) w
      | KConfigMap => set_config_maps (delete (key_of ns name) (w_config_maps w)) w
      | KSecret => set_secrets (delete (key_of ns name) (w_secrets w)) w
      | KLease => set_leases (delete (key_of ns name) (w_leases w)) w
      | KBgd => set_bgds (delete (key_of ns name) (w_bgds w)) w
      | _ => w
      end)
  end.

(** The cluster has no broker and no plugin process of its own. *)
Definition inceptor_refusal (op : inceptor_op) : inceptor_reply op :=
  match op with
  | QConnect _ _ | QChannel _ => Err "connection refused"
  | QGet _ _ => Err "connection refused"
  | QPublish _ _ _ _ | QAck _ | QNack _ | QDeclare _ _ _ _ | QDelete _ _ => Err "connection refused"
  | QState _ _ => Err "connection refused"
  | INats op => nats_refusal op
  | ICall _ => Err "connection refused"
  | LoadMode | LoadPercent | LoadActive | LoadReady => 0
  | StoreMode _ | StorePercent _ | AddActive _ | StoreReady _ | OrReady _ => tt
  | ReadyNotified _ => false
  | NewTokens => 0
  | LockToken _ _ => None
  | StoreToken _ _ _ | UnlockToken _ _ => tt
  end.

Definition object_name (k : kind) (o : obj k) : string := default "" (meta_name (meta_of k o)).

Definition serve (act : action) (w : world) : reply act * world :=
  match act return reply act * world with
  | AGet k ns name => (found (get_obj k ns name w), w)
  | AGetOpt k ns name => (Ok (get_obj k ns name w), w)
  | AList k ns selector => (Ok (list_obj k ns selector w), w)
  | ACreate k ns o =>
      match get_obj k ns (object_name k o) w with
      | Some _ => (Err (KubeApi 409 "exists"), w)
      | None => (Ok o, put_obj k ns (object_name k o) o w)
      end
  | AReplace k ns name o =>
      match get_obj k ns name w with
      | Some _ => (Ok o, put_obj k ns name o w)
      | None => (Err not_found, w)
      end
  | AApply k ns name o => (Ok o, put_obj k ns name o w)
  | ADelete k ns name => delete_obj k ns name w
  | AGetStatus ns name => (found (w_bgds w !! (ns, name)), w)
  | AReplaceStatus ns name b =>
      match w_bgds w !! (ns, name) with
      | Some cur =>
          if bool_decide (meta_resource_version (bgd_metadata cur)
                          = meta_resource_version (bgd_metadata b))
          then put_bgd ns name (fun cur =>
                 {| bgd_metadata := bgd_metadata cur; bgd_spec := bgd_spec cur;
                    bgd_status := bgd_status b |}) w
          else (Err (KubeApi 409 "conflict"), w)
      | None => (Err not_found, w)
      end
  | APatchStatus ns name fields =>
      put_bgd ns name (fun cur =>
        with_status (fold_left apply_field fields (status_or_default cur)) cur) w
  | APatchFinalizers ns name fs => put_bgd ns name (fun cur =>
      {| bgd_metadata := with_finalizers fs (bgd_metadata cur); bgd_spec := bgd_spec cur;
         bgd_status := bgd_status cur |}) w
  | AStoreRegister r => let '(a, s) := Memory.register r (w_store w) in (a, set_store s w)
  | AStoreGet bg id => (Memory.get bg id (w_store w), w)
  | AStoreSetVerdict bg id p m =>
      let '(a, s) := Memory.set_verdict bg id p m (w_store w) in (a, set_store s w)
  | AStoreMarkTimedOut bg id =>
      let '(a, s) := Memory.mark_timed_out bg id (w_store w) in (a, set_store s w)
  | AStoreDecrement bg id =>
      let '(a, s) := Memory.decrement_retries bg id (w_store w) in (a, set_store s w)
  | AStoreListPending => (Memory.list_pending (w_store w), w)
  | AStoreRefs => (Memory.list_blue_green_refs (w_store w), w)
  | AStoreCounts bg => (Memory.counts bg (w_store w), w)
  | AStoreCountsForMode bg m => (Memory.counts_for_mode bg m (w_store w), w)
  | AStoreLatestFailure bg => (Memory.latest_failure_message bg (w_store w), w)
  | AStoreCleanup bg => let '(a, s) := Memory.cleanup_blue_green bg (w_store w) in (a, set_store s w)
  | AHttp _ _ _ => (w_http w, w)
  | AReadFile _ => (Err "no such file", w)
  | AParseCert _ => (Ok tt, w)
  | ABuildClient => (Ok tt, w)
  | AEnv _ => (None, w)
  | ANow => (w_clock w, w)
  | ASleep ms => (tt, set_clock (w_clock w + ms) w)
  | ASelect _ => (true, w)
  | APended _ | APollLost _ => (false, w)
  | ALock key => (Some (negb (bool_decide (key ∈ w_locks w))), set_locks ({[key]} ∪ w_locks w) w)
  | AUnlock key => (tt, set_locks (w_locks w ∖ {[key]}) w)
  | AInceptor op => (inceptor_refusal op, w)
  end.

(** A run of a program in the cluster: its result, its trace and the cluster after it. *)
Definition result_in {A} (p : prog A) (w : world) : A := (run serve p w).1.1.
Definition trace_in {A} (p : prog A) (w : world) : trace := (run serve p w).1.2.
Definition after_in {A} (p : prog A) (w : world) : world := (run serve p w).2.

Lemma exec_in {A} (p : prog A) (w : world) : exec p (trace_in p w) (result_in p w).
Proof. apply run_exec. Qed.
