(* ===== verification/External.v ===== *)
(** * Code outside the repository

    The hash function and the (de)serializers the operator calls.  Each is an
    operation of a class, a parameter of every definition that uses it; the laws
    are the documented ones (a SHA-256 digest has 32 bytes; encoding and decoding
    are inverse).  [sample_*] are concrete functions with these laws, on which
    the witnesses run. *)

From S2P Require Import Prelude RustString Float64 Kube Crd.

Class Sha256 := {
  sha256 : list ascii -> list ascii;
  sha256_length : forall m, length (sha256 m) = 32%nat }.

(** A stand-in with 32 bytes of output that depends on all of its input. *)
Definition mix (acc : list ascii) (b : ascii) : list ascii :=
  match acc with
  | x :: rest => rest ++ [ascii_of_N ((N_of_ascii x * 31 + N_of_ascii b + 7) mod 256)]
  | [] => []
  end.
Definition sample_digest (m : list ascii) : list ascii := fold_left mix m (repeat "000"%char 32).

Lemma mix_length acc b : length (mix acc b) = length acc.
Proof. destruct acc; [done|]. cbn. rewrite length_app. cbn. lia. Qed.
Lemma sample_digest_length m : length (sample_digest m) = 32%nat.
Proof.
  unfold sample_digest. change 32%nat with (length (repeat "000"%char 32)) at 2.
  generalize (repeat "000"%char 32). induction m as [|b m IH]; intros acc; [done|].
  cbn [fold_left]. by rewrite IH, mix_length.
Qed.
Definition sample_sha256 : Sha256 := {| sha256 := sample_digest; sha256_length := sample_digest_length |}.

(** The serializers, decoders and validators, and the text [reqwest] gives an
    error status. *)
Class Codecs := {
  base64url_encode : list ascii -> string;
  base64url_decode : string -> result string (list ascii);
  header_to_json : JwtHeader -> result string (list ascii);
  header_of_json : list ascii -> result string JwtHeader;
  claims_to_json : PluginAuthClaims -> result string (list ascii);
  claims_of_json : list ascii -> result string PluginAuthClaims;
  tokens_to_json : gmap string string -> result string string;
  lifecycle_of_json : json -> result string PluginLifecycleResponse;
  drain_status_of_json : json -> result string PluginDrainStatusResponse;
  test_result_of_json : json -> result string TestResultResponse;
  yaml_of_json : json -> result string string;
  spec_to_yaml : BlueGreenDeploymentSpec -> result string string;
  spec_of_yaml : string -> result string BlueGreenDeploymentSpec;
  deployment_spec_to_json : DeploymentSpec -> result string json;
  deployment_spec_of_json : json -> result string DeploymentSpec;
  candidate_patch_to_json : CandidateDeploymentPatch -> result string json;
  schema_compiles : json -> result string unit;
  schema_is_valid : json -> json -> bool;
  schema_error : json -> json -> option string;
  http_status_error : Z -> string -> string }.

(** The documented laws of the encodings of a token. *)
Class TokenLaws `{!Codecs} : Prop := {
  base64url_round_trip : forall l, base64url_decode (base64url_encode l) = Ok l;
  base64url_no_dot : forall l, contains "." (base64url_encode l) = false;
  header_round_trip : forall h, exists j, header_to_json h = Ok j /\ header_of_json j = Ok h;
  claims_round_trip : forall c, exists j, claims_to_json c = Ok j /\ claims_of_json j = Ok c }.

(** ** Concrete codecs: fields in hexadecimal, separated by commas *)

Definition hex_value (c : ascii) : N :=
  if N.ltb (N_of_ascii c) 58 then (N_of_ascii c - 48)%N else (N_of_ascii c - 87)%N.
Fixpoint unhex (l : list ascii) : result string (list ascii) :=
  match l with
  | [] => Ok []
  | h :: l :: rest => r ← unhex rest; Ok (ascii_of_N (hex_value h * 16 + hex_value l) :: r)
  | _ => Err "odd length"
  end.
Definition hex_field (s : string) : string := hex_string (bytes s).
Definition unhex_field (s : string) : result string string := l ← unhex (bytes s); Ok (of_bytes l).

Definition fields_to_json (fs : list string) : list ascii := bytes (String.concat "," (map hex_field fs)).
Fixpoint unhex_fields (fs : list string) : result string (list string) :=
  match fs with
  | [] => Ok []
  | f :: fs' => x ← unhex_field f; xs ← unhex_fields fs'; Ok (x :: xs)
  end.
Definition fields_of_json (l : list ascii) : result string (list string) :=
  unhex_fields (split "," (of_bytes l)).

Lemma unhex_hex_string l : unhex (bytes (hex_string l)) = Ok l.
Proof.
  unfold hex_string. induction l as [|b l IH]; [done|]. cbn [map].
  rewrite concat_cons_nil, bytes_app. cbn -[hex_value hex_digit]. rewrite IH. cbn -[hex_value hex_digit].
  do 2 f_equal. destruct b as [[] [] [] [] [] [] [] []]; reflexivity.
Qed.

Lemma hex_no_char c l : dns_char c = false -> contains c (hex_string l) = false.
Proof.
  intros Hc. pose proof (hex_string_dns l) as H. unfold all_bytes, contains in *.
  destruct (existsb (Ascii.eqb c) (bytes (hex_string l))) eqn:E; [|done].
  apply existsb_exists in E as (x & Hx & Ex%Ascii.eqb_eq). subst x.
  rewrite forallb_forall in H. specialize (H c Hx). congruence.
Qed.

Lemma split_fields fs : fs <> [] -> split "," (String.concat "," (map hex_field fs)) = map hex_field fs.
Proof.
  induction fs as [|f fs IH]; [done|]. intros _. destruct fs as [|g fs].
  - cbn. apply split_none. by apply hex_no_char.
  - cbn [map String.concat]. change (hex_field g :: map hex_field fs) with (map hex_field (g :: fs)).
    change (split "," (hex_field f +:+ String "," (String.concat "," (map hex_field (g :: fs))))
            = hex_field f :: map hex_field (g :: fs)).
    rewrite split_app by (by apply hex_no_char). by rewrite IH.
Qed.

Lemma unhex_fields_map fs : unhex_fields (map hex_field fs) = Ok fs.
Proof.
  induction fs as [|f fs IH]; [done|]. cbn [map unhex_fields]. rewrite IH.
  unfold unhex_field, hex_field. rewrite unhex_hex_string. cbn. by rewrite of_bytes_bytes.
Qed.

Lemma fields_round_trip fs : fs <> [] -> fields_of_json (fields_to_json fs) = Ok fs.
Proof.
  intros H. unfold fields_of_json, fields_to_json. rewrite of_bytes_bytes, split_fields by done.
  apply unhex_fields_map.
Qed.

Definition claims_fields (c : PluginAuthClaims) : list string :=
  [cl_iss c; cl_aud c; cl_namespace c; cl_blue_green_ref c;
   match cl_blue_green_uid c with Some u => "+" +:+ u | None => "-" end;
   cl_inception_point c; cl_plugin c].
Definition claims_of_fields (fs : list string) : result string PluginAuthClaims :=
  match fs with
  | [iss; aud; ns; ref; uid; ip; plugin] =>
      Ok {| cl_iss := iss; cl_aud := aud; cl_namespace := ns; cl_blue_green_ref := ref;
            cl_blue_green_uid := strip_prefix "+" uid; cl_inception_point := ip; cl_plugin := plugin |}
  | _ => Err "missing field"
  end.
Definition header_of_fields (fs : list string) : result string JwtHeader :=
  match fs with [alg; typ] => Ok {| jwt_alg := alg; jwt_typ := typ |} | _ => Err "missing field" end.

(** A spec is encoded as nothing but a marker: the cluster of the witnesses does
    not read specifications back. *)
Definition sample_codecs : Codecs :=
  {| base64url_encode := hex_string;
     base64url_decode := fun s => unhex (bytes s);
     header_to_json := fun h => Ok (fields_to_json [jwt_alg h; jwt_typ h]);
     header_of_json := fun l => fs ← fields_of_json l; header_of_fields fs;
     claims_to_json := fun c => Ok (fields_to_json (claims_fields c));
     claims_of_json := fun l => fs ← fields_of_json l; claims_of_fields fs;
     tokens_to_json := fun m => Ok (String.concat "," (map fst (map_to_list m)));
     lifecycle_of_json := fun _ => Ok {| plr_assignments := []; plr_inceptor_env := []; plr_config := None |};
     drain_status_of_json := fun j =>
       Ok {| pds_drained := match j with JBool b => b | _ => false end; pds_message := None |};
     test_result_of_json := fun j =>
       match j with
       | JBool b => Ok {| trr_passed := Some b; trr_error_message := None |}
       | _ => Err "expected a verdict"
       end;
     yaml_of_json := fun _ => Ok "{}";
     spec_to_yaml := fun _ => Ok "spec";
     spec_of_yaml := fun _ => Err "unsupported";
     deployment_spec_to_json := fun _ => Ok JNull;
     deployment_spec_of_json := fun _ => Err "unsupported";
     candidate_patch_to_json := fun _ => Ok JNull;
     schema_compiles := fun _ => Ok tt;
     schema_is_valid := fun _ _ => true;
     schema_error := fun _ _ => None;
     http_status_error := fun status url => "HTTP status " +:+ show_Z status +:+ " for url " +:+ url |}.

Lemma sample_laws : @TokenLaws sample_codecs.
Proof.
  split.
  - intros l. apply unhex_hex_string.
  - intros l. by apply hex_no_char.
  - intros [alg typ]. eexists. split; [reflexivity|]. cbn -[fields_of_json fields_to_json].
    by rewrite fields_round_trip.
  - intros c. eexists. split; [reflexivity|].
    cbn -[claims_fields fields_of_json fields_to_json]. rewrite fields_round_trip by done.
    destruct c as [? ? ? ? [u|] ? ?]; cbn -[append strip_prefix]; [by rewrite strip_prefix_app|done].
Qed.
