(* ===== verification/Names.v ===== *)
(** * Generated names

    Names of the objects the operator creates: the candidate deployment
    ([controller/deployments.rs]), test instances and verifier secrets
    ([controller/resources.rs]), inception resources ([plugins/reconciler.rs]),
    reconcile leases ([controller/lease.rs]) and the rollout snapshot
    ([controller.rs]).  Kubernetes takes service names and label values of at
    most 63 characters. *)

From S2P Require Import Prelude RustString Float64 Kube Crd Status External.

(** ** Pieces *)

(** [s.chars().take(n).collect()]. *)
Definition take_chars (n : nat) (s : string) : string := of_chars (take n (chars s)).

(** One round of the loops that replace a run of other characters by one dash;
    the output so far is kept reversed. *)
Definition sanitize_step (acc : list ascii * bool) (ch : uchar) : list ascii * bool :=
  let '(out, last_was_dash) := acc in
  match uchar_lower ch with
  | [b] => if (N.ltb (code b) 128 && is_ascii_alphanumeric b)%bool then (b :: out, false)
           else if negb last_was_dash then ("-"%char :: out, true) else acc
  | _ => if negb last_was_dash then ("-"%char :: out, true) else acc
  end.

Definition sanitize_dns_label (value : string) : string :=
  trim_matches "-" (of_bytes (rev (fold_left sanitize_step (chars value) ([], false)).1)).

(** [if s.is_empty() { fallback } else { s }]. *)
Definition or_default (fallback s : string) : string := if is_empty s then fallback else s.

(** [match byte % 36 { v @ 0..=9 => b'0' + v, v => b'a' + (v - 10) }]. *)
Definition base36_char (b : ascii) : ascii :=
  let v := (N_of_ascii b mod 36)%N in
  if N.leb v 9 then ascii_of_N (48 + v) else ascii_of_N (97 + (v - 10)).
(** The first [n] bytes of a digest in that alphabet. *)
Definition base36_suffix (n : nat) (digest : list ascii) : string := of_bytes (map base36_char (take n digest)).

(** [usize::to_le_bytes]. *)
Fixpoint le_bytes (n : nat) (z : Z) : list ascii :=
  match n with
  | O => []
  | S n' => ascii_of_N (Z.to_N (z mod 256)) :: le_bytes n' (z / 256)
  end.

Section Names.
Context `{Sha256}.

(** ** Deployments *)

Definition bgd_name_or (d : string) (b : BlueGreenDeployment) : string :=
  unwrap_or d (meta_name (bgd_metadata b)).
Definition bgd_uid_or (d : string) (b : BlueGreenDeployment) : string :=
  unwrap_or d (meta_uid (bgd_metadata b)).

Definition generated_candidate_name_seed (b : BlueGreenDeployment) : string :=
  bgd_name_or "bgd" b +:+ ":" +:+ bgd_uid_or "" b +:+ ":" +:+ show_Z (current_rollout_generation b).

(** [&base[..max_base_len]] cuts bytes; a cut inside a character panics, which
    the ASCII names of Kubernetes rule out. *)
Definition candidate_name_with_suffix (base suffix : string) : string :=
  let max_base_len := (253 - (String.length suffix + 1))%nat in
  let trimmed_base := if Nat.ltb max_base_len (String.length base)
                      then of_bytes (take max_base_len (bytes base)) else base in
  trimmed_base +:+ "-" +:+ suffix.

Definition deterministic_candidate_suffixes (seed : string) : list string :=
  map (fun attempt => base36_suffix 6 (sha256 (bytes (seed +:+ ":" +:+ show_Z (Z.of_nat attempt)))))
      (seq 0 32).

(** ** Tests *)

Definition test_instance_name (b : BlueGreenDeployment) (logical_name : string) : string :=
  let logical := or_default "test" (sanitize_dns_label logical_name) in
  let digest := sha256 (bytes (bgd_name_or "bgd" b +:+ ":" +:+ bgd_uid_or "" b +:+ ":" +:+ logical_name)) in
  let suffix := base36_suffix 12 digest in
  let prefix := "fluidbg-test-" in
  let max_base_len := (63 - (String.length prefix + String.length suffix + 1))%nat in
  prefix +:+ take_chars max_base_len logical +:+ "-" +:+ suffix.

Definition verifier_auth_secret_name (b : BlueGreenDeployment) : string :=
  let digest := sha256 (bytes (bgd_name_or "bgd" b +:+ ":" +:+ bgd_uid_or "" b +:+ ":verifier-auth")) in
  let suffix := hex_string (take 6 digest) in
  let prefix := "fluidbg-verifier-auth-" in
  let max_name_len := (63 - (String.length prefix + String.length suffix + 1))%nat in
  let safe_name := or_default "bgd" (sanitize_dns_label (bgd_name_or "bgd" b)) in
  prefix +:+ take_chars max_name_len safe_name +:+ "-" +:+ suffix.

(** ** Inception points *)

Definition name_parts (parts : list string) : list ascii :=
  concat (map (fun part => le_bytes 8 (Z.of_nat (String.length part)) ++ bytes part) parts).

(** The first twelve hexadecimal digits of the digest. *)
Definition stable_name_suffix (parts : list string) : string :=
  of_bytes (take 12 (bytes (hex_string (sha256 (name_parts parts))))).

Definition truncate_label (value : string) (max_len : nat) : string := take_chars max_len value.

Definition sanitized_ip (ip : string) : string := or_default "ip" (sanitize_dns_label ip).

Definition inception_instance_base_name (blue_green_ref ip : string) : string :=
  let suffix := stable_name_suffix [blue_green_ref; ip] in
  let max_ip_len := (63 - (String.length "fluidbg--" + String.length suffix))%nat in
  "fluidbg-" +:+ truncate_label (sanitized_ip ip) max_ip_len +:+ "-" +:+ suffix.

Definition inception_service_name (blue_green_ref ip : string) : string :=
  let suffix := stable_name_suffix [blue_green_ref; ip] in
  let max_ip_len := (63 - (String.length "fluidbg---svc" + String.length suffix))%nat in
  "fluidbg-" +:+ truncate_label (sanitized_ip ip) max_ip_len +:+ "-" +:+ suffix +:+ "-svc".

Definition inception_config_map_name (blue_green_ref ip : string) : string :=
  let suffix := stable_name_suffix [blue_green_ref; ip] in
  let prefix := "fluidbg-config-" in
  let max_ip_len := (63 - (String.length prefix + 1 + String.length suffix))%nat in
  prefix +:+ truncate_label (sanitized_ip ip) max_ip_len +:+ "-" +:+ suffix.

Definition inception_auth_secret_name (blue_green_ref ip : string) : string :=
  let suffix := stable_name_suffix [blue_green_ref; ip] in
  let prefix := "fluidbg-auth-" in
  let max_ip_len := (63 - (String.length prefix + 1 + String.length suffix))%nat in
  prefix +:+ truncate_label (sanitized_ip ip) max_ip_len +:+ "-" +:+ suffix.

(** ** Leases *)

Definition short_hash (value : string) : string := hex_string (take 5 (sha256 (bytes value))).

(** The loop of [dns_label_prefix]; the output so far is kept reversed. *)
Fixpoint dns_label_loop (max_len : nat) (chs : list uchar) (out : list ascii) : list ascii :=
  match chs with
  | [] => out
  | ch :: chs' =>
      if Nat.leb max_len (length out) then out
      else
        let mapped := match ch with
                      | [b] => if (N.ltb (code b) 128 && is_ascii_alphanumeric b)%bool
                               then to_ascii_lowercase b else "-"%char
                      | _ => "-"%char
                      end in
        if (Ascii.eqb mapped "-" && match out with c :: _ => Ascii.eqb c "-" | [] => false end)%bool
        then dns_label_loop max_len chs' out
        else dns_label_loop max_len chs' (mapped :: out)
  end.

Definition dns_label_prefix (value : string) (max_len : nat) : string :=
  or_default "bgd" (trim_matches "-" (of_bytes (rev (dns_label_loop max_len (chars value) [])))).

Definition lease_name (prefix name discriminator : string) : string :=
  let suffix := short_hash discriminator in
  let max_name_len := (63 - (String.length prefix + String.length suffix + 2))%nat in
  prefix +:+ "-" +:+ dns_label_prefix name max_name_len +:+ "-" +:+ suffix.

(** ** The rollout snapshot *)

Definition snapshot_char (ch : uchar) : list ascii :=
  match ch with
  | [b] => if (N.ltb (code b) 128 && (is_ascii_alphanumeric b || Ascii.eqb b "-"))%bool
           then [to_ascii_lowercase b] else ["-"%char]
  | _ => ["-"%char]
  end.

Definition rollout_spec_snapshot_name (b : BlueGreenDeployment) (ns : string) : string :=
  let name := bgd_name_or "unknown" b in
  let uid := bgd_uid_or "unknown" b in
  let digest := sha256 (bytes (ns +:+ "/" +:+ name +:+ "/" +:+ uid)) in
  let suffix := hex_string (take 6 digest) in
  let prefix_limit := (253 - (String.length suffix + 1))%nat in
  let safe_name := of_bytes (concat (map snapshot_char (chars name))) in
  let truncated := take_chars prefix_limit (trim_matches "-" safe_name) in
  or_default "fluidbg-rollout" truncated +:+ "-" +:+ suffix.
End Names.
