(* ===== verification/NamesTheorems.v ===== *)
(** * Generated names are valid and do not collide

    Theorems about [Names]: the names the operator generates for inceptors, test
    instances, their secrets and leases are DNS labels of at most 63 characters; two
    inception points share a name only on a collision of the hash; candidate
    names may be longer than a label value may be. *)

From S2P Require Import Prelude RustString Float64 Kube Crd Effects Promotion Status External Names.

(** ** DNS labels *)

Definition label_edge (c : ascii) : bool := (is_ascii_digit c || is_ascii_lowercase c)%bool.

(** RFC 1123: at most 63 lower-case letters, digits and dashes, no dash at either end. *)
Definition dns_label (s : string) : bool :=
  (all_bytes dns_char s && Nat.leb (String.length s) 63
   && match bytes s with c :: _ => label_edge c | [] => false end
   && match rev (bytes s) with c :: _ => label_edge c | [] => false end)%bool.

Lemma dns_label_intro c p m l d :
  all_bytes dns_char (String c p) = true -> label_edge c = true ->
  all_bytes dns_char m = true -> forallb dns_char l = true -> label_edge d = true ->
  (String.length (String c p) + String.length m + length l + 1 <= 63)%nat ->
  dns_label (String c p +:+ m +:+ of_bytes (l ++ [d])) = true.
Proof.
  intros Hp Hc Hm Hl Hd Hlen. unfold dns_label.
  assert (Hdd : dns_char d = true) by (unfold dns_char; unfold label_edge in Hd; by rewrite Hd).
  rewrite !all_bytes_app, all_bytes_of_bytes, forallb_app, Hp, Hm, Hl.
  rewrite !length_sapp, length_of_bytes, length_app. cbn [forallb]. rewrite Hdd. cbn [andb].
  rewrite (proj2 (Nat.leb_le _ 63)) by (cbn [length]; lia). cbn [andb].
  rewrite !bytes_app, bytes_of_bytes, !rev_app_distr. cbn. by rewrite Hc, Hd.
Qed.

(** ** The pieces *)

Lemma sanitize_fold_dns chs out b :
  forallb dns_char out = true -> forallb dns_char (fold_left sanitize_step chs (out, b)).1 = true.
Proof.
  revert out b. induction chs as [|ch chs IH]; intros out b H; [done|]. cbn [fold_left].
  unfold sanitize_step at 2. destruct (uchar_lower ch) as [|x [|y w]] eqn:E.
  - destruct (negb b); apply IH; [by cbn; rewrite H|done].
  - destruct (N.ltb (code x) 128 && is_ascii_alphanumeric x)%bool eqn:Ex.
    + apply IH. cbn. rewrite H, andb_true_r. apply andb_true_iff in Ex as [_ Ex].
      destruct ch as [|z [|z' ch']]; try discriminate E. cbn in E. injection E as <-.
      revert Ex. destruct z as [[] [] [] [] [] [] [] []]; vm_compute; congruence.
    + destruct (negb b); apply IH; [by cbn; rewrite H|done].
  - destruct (negb b); apply IH; [by cbn; rewrite H|done].
Qed.

Lemma sanitize_dns value : all_bytes dns_char (sanitize_dns_label value) = true.
Proof.
  unfold sanitize_dns_label. apply all_bytes_trim. rewrite all_bytes_of_bytes, forallb_rev.
  by apply sanitize_fold_dns.
Qed.

Lemma or_default_dns d s :
  all_bytes dns_char d = true -> all_bytes dns_char s = true -> all_bytes dns_char (or_default d s) = true.
Proof. unfold or_default. by destruct (is_empty s). Qed.

Lemma chars_of_dns l : forallb dns_char l = true -> chars_of l = map (fun b => [b]) l.
Proof.
  induction l as [|b l IH]; intros H; [done|]. cbn in H. apply andb_true_iff in H as [Hb Hl].
  cbn. rewrite IH by done. destruct l as [|c l]; [done|]. cbn.
  cbn in Hl. apply andb_true_iff in Hl as [Hc _].
  assert (is_continuation c = false) as ->; [|done].
  revert Hc. destruct c as [[] [] [] [] [] [] [] []]; vm_compute; congruence.
Qed.

Lemma take_chars_dns n s : all_bytes dns_char s = true ->
  take_chars n s = of_bytes (take n (bytes s)).
Proof.
  intros H. unfold take_chars, of_chars, chars. rewrite chars_of_dns by done.
  f_equal. rewrite <- (fmap_take _ n (bytes s)).
  induction (take n (bytes s)) as [|x l IH]; [done|]. cbn. by f_equal.
Qed.

Lemma forallb_take {A} (p : A -> bool) n l : forallb p l = true -> forallb p (take n l) = true.
Proof.
  revert n. induction l as [|x l IH]; intros [|n] H; try done. cbn in *.
  apply andb_true_iff in H as [-> H]. by rewrite IH.
Qed.

Lemma take_chars_all_dns n s : all_bytes dns_char s = true -> all_bytes dns_char (take_chars n s) = true.
Proof. intros H. rewrite take_chars_dns, all_bytes_of_bytes by done. by apply forallb_take. Qed.

Lemma take_chars_length n s : all_bytes dns_char s = true -> (String.length (take_chars n s) <= n)%nat.
Proof. intros H. rewrite take_chars_dns, length_of_bytes by done. rewrite length_take. lia. Qed.

Lemma base36_char_edge b : label_edge (base36_char b) = true.
Proof. destruct b as [[] [] [] [] [] [] [] []]; reflexivity. Qed.

Lemma hex_byte_edge b : forallb label_edge (bytes (hex_byte b)) = true.
Proof. destruct b as [[] [] [] [] [] [] [] []]; reflexivity. Qed.

Lemma hex_string_edge l : all_bytes label_edge (hex_string l) = true.
Proof.
  unfold hex_string. induction l as [|b l IH]; [done|]. cbn [map].
  rewrite concat_cons_nil, all_bytes_app, IH, andb_true_r. apply hex_byte_edge.
Qed.

Lemma edges_dns l : forallb label_edge l = true -> forallb dns_char l = true.
Proof.
  rewrite !forallb_forall. intros H c Hc. specialize (H c Hc).
  unfold dns_char, label_edge in *. by rewrite H.
Qed.

(** A nonempty suffix of edge characters ends a label. *)
Lemma dns_label_suffix c p m s :
  all_bytes dns_char (String c p) = true -> label_edge c = true -> all_bytes dns_char m = true ->
  all_bytes label_edge s = true -> (0 < String.length s)%nat ->
  (String.length (String c p) + String.length m + String.length s <= 63)%nat ->
  dns_label (String c p +:+ m +:+ s) = true.
Proof.
  intros Hp Hc Hm Hs H0 Hlen. rewrite <- (of_bytes_bytes s). rewrite <- (of_bytes_bytes s) in Hs.
  rewrite <- (length_bytes s) in *. unfold all_bytes in Hs. rewrite bytes_of_bytes in Hs.
  destruct (bytes s) as [|x l] eqn:E using rev_ind; [cbn in H0; lia|].
  rewrite forallb_app in Hs. apply andb_true_iff in Hs as [Hl Hd]. cbn in Hd.
  rewrite andb_true_r in Hd. rewrite length_app in Hlen. cbn [length] in Hlen.
  apply dns_label_intro; auto; [by apply edges_dns|lia].
Qed.

Section Bounds.
Context `{Sha256}.

Lemma base36_suffix_edge n d : all_bytes label_edge (base36_suffix n d) = true.
Proof.
  unfold base36_suffix. rewrite all_bytes_of_bytes. apply forallb_forall.
  intros c (b & <- & _)%in_map_iff. apply base36_char_edge.
Qed.

Lemma base36_suffix_length n m : (n <= 32)%nat -> String.length (base36_suffix n (sha256 m)) = n.
Proof.
  intros Hn. unfold base36_suffix. rewrite length_of_bytes, length_map, length_take, sha256_length. lia.
Qed.

Lemma hex_take_length n m : (n <= 32)%nat ->
  String.length (hex_string (take n (sha256 m))) = (2 * n)%nat.
Proof. intros Hn. rewrite hex_string_length, length_take, sha256_length. lia. Qed.

Lemma stable_suffix_edge parts : all_bytes label_edge (stable_name_suffix parts) = true.
Proof. unfold stable_name_suffix. rewrite all_bytes_of_bytes. apply forallb_take, hex_string_edge. Qed.

Lemma stable_suffix_length parts : String.length (stable_name_suffix parts) = 12%nat.
Proof.
  unfold stable_name_suffix. rewrite length_of_bytes, length_take, length_bytes, hex_string_length,
    sha256_length. done.
Qed.

Lemma sanitized_ip_dns ip : all_bytes dns_char (sanitized_ip ip) = true.
Proof. apply or_default_dns; [done|apply sanitize_dns]. Qed.

(** A prefix, a middle cut to [n] characters, a dash and a suffix. *)
Lemma composed_label c p n mid s :
  all_bytes dns_char (String c p) = true -> label_edge c = true -> all_bytes dns_char mid = true ->
  all_bytes label_edge s = true -> (0 < String.length s)%nat ->
  (String.length (String c p) + n + 1 + String.length s <= 63)%nat ->
  dns_label (String c p +:+ take_chars n mid +:+ "-" +:+ s) = true.
Proof.
  intros Hp Hc Hm Hs H0 Hlen.
  replace (String c p +:+ take_chars n mid +:+ "-" +:+ s)
    with (String c p +:+ (take_chars n mid +:+ "-") +:+ s) by (by rewrite !sapp_assoc).
  pose proof (take_chars_length n mid Hm).
  apply dns_label_suffix; auto.
  - rewrite all_bytes_app, take_chars_all_dns; done.
  - rewrite length_sapp. cbn [String.length] in *. lia.
Qed.

Lemma dns_loop_dns n chs out :
  forallb dns_char out = true -> forallb dns_char (dns_label_loop n chs out) = true.
Proof.
  revert out. induction chs as [|ch chs IH]; intros out Ho; [done|]. cbn [dns_label_loop].
  destruct (Nat.leb n (length out)); [done|].
  set (mapped := match ch with [b] => _ | _ => _ end).
  assert (Hm : dns_char mapped = true).
  { subst mapped. destruct ch as [|b [|]]; try done.
    destruct (N.ltb (code b) 128 && is_ascii_alphanumeric b)%bool eqn:E; [|done].
    apply andb_true_iff in E as [_ E]. by apply lowercase_alnum_dns. }
  case_match; apply IH; [done|]. cbn. by rewrite Hm, Ho.
Qed.

Lemma dns_loop_length n chs out :
  (length out <= n)%nat -> (length (dns_label_loop n chs out) <= n)%nat.
Proof.
  revert out. induction chs as [|ch chs IH]; intros out Ho; [done|]. cbn [dns_label_loop].
  destruct (Nat.leb_spec n (length out)); [done|].
  case_match; apply IH; [lia|]. cbn. lia.
Qed.

Lemma dns_label_prefix_ok value n :
  all_bytes dns_char (dns_label_prefix value n) = true /\
  (String.length (dns_label_prefix value n) <= Nat.max 3 n)%nat.
Proof.
  unfold dns_label_prefix, or_default. case_match; [split; [done|cbn; lia]|]. split.
  - apply all_bytes_trim. rewrite all_bytes_of_bytes, forallb_rev. by apply dns_loop_dns.
  - etransitivity; [apply length_trim|]. rewrite length_of_bytes, length_rev.
    pose proof (dns_loop_length n (chars value) []). cbn [length] in *. lia.
Qed.

(** C22. Six names are DNS labels of at most 63 characters whatever the names in the specification are:
    those of an inceptor's deployment, service, config map and secret, of a test instance and of a
    verifier secret.  (The names of candidates and of snapshots are not among them:
    [candidate_name_bounds].) *)
Theorem generated_names_are_labels (b : BlueGreenDeployment) (ref ip logical : string) :
  dns_label (inception_instance_base_name ref ip) = true /\
  dns_label (inception_service_name ref ip) = true /\
  dns_label (inception_config_map_name ref ip) = true /\
  dns_label (inception_auth_secret_name ref ip) = true /\
  dns_label (test_instance_name b logical) = true /\
  dns_label (verifier_auth_secret_name b) = true.
Proof.
  pose proof (sanitized_ip_dns ip) as Hip. pose proof (stable_suffix_edge [ref; ip]) as Hs.
  pose proof (stable_suffix_length [ref; ip]) as Hl.
  split_and!.
  - unfold inception_instance_base_name, truncate_label.
    apply composed_label; auto; rewrite Hl; cbn; lia.
  - unfold inception_service_name, truncate_label.
    set (n := (63 - _)%nat).
    replace ("fluidbg-" +:+ take_chars n (sanitized_ip ip) +:+ "-" +:+ stable_name_suffix [ref; ip] +:+ "-svc")
      with ("fluidbg-" +:+ (take_chars n (sanitized_ip ip) +:+ "-" +:+ stable_name_suffix [ref; ip] +:+ "-")
            +:+ "svc") by (by rewrite !sapp_assoc).
    pose proof (take_chars_length n (sanitized_ip ip) Hip).
    assert (all_bytes dns_char (stable_name_suffix [ref; ip]) = true) by (by apply edges_dns).
    apply dns_label_suffix; auto; [|cbn; lia|].
    + by rewrite !all_bytes_app, take_chars_all_dns, H1.
    + rewrite !length_sapp, Hl. subst n. rewrite Hl in H0 |- *. cbn in H0 |- *. lia.
  - unfold inception_config_map_name, truncate_label.
    apply composed_label; auto; rewrite Hl; cbn; lia.
  - unfold inception_auth_secret_name, truncate_label.
    apply composed_label; auto; rewrite Hl; cbn; lia.
  - unfold test_instance_name. cbn zeta.
    apply composed_label; auto;
      try (rewrite base36_suffix_length by lia; cbn; lia).
    + apply or_default_dns; [done|apply sanitize_dns].
    + apply base36_suffix_edge.
  - unfold verifier_auth_secret_name. cbn zeta.
    apply composed_label; auto;
      try (rewrite hex_take_length by lia; cbn; lia).
    + apply or_default_dns; [done|apply sanitize_dns].
    + apply hex_string_edge.
Qed.

(** A lease name is a DNS label of at most 63 characters for each of the two prefixes in use. *)
Theorem lease_name_is_label (name discriminator : string) :
  dns_label (lease_name "bgd" name discriminator) = true /\
  dns_label (lease_name "orphan" name discriminator) = true.
Proof.
  unfold lease_name, short_hash. cbn zeta. rewrite !hex_take_length by lia.
  assert (Hgen : forall c p n, all_bytes dns_char (String c p) = true -> label_edge c = true ->
    (String.length (String c p) + Nat.max 3 n + 12 <= 63)%nat ->
    dns_label (String c p +:+ "-" +:+ dns_label_prefix name n +:+ "-" +:+
               hex_string (take 5 (sha256 (bytes discriminator)))) = true).
  { intros c p n Hp Hc Hlen. destruct (dns_label_prefix_ok name n) as [Hd Hn].
    replace (String c p +:+ "-" +:+ dns_label_prefix name n +:+ "-" +:+
             hex_string (take 5 (sha256 (bytes discriminator))))
      with (String c p +:+ ("-" +:+ dns_label_prefix name n +:+ "-") +:+
             hex_string (take 5 (sha256 (bytes discriminator)))) by (by rewrite !sapp_assoc).
    apply dns_label_suffix; auto.
    - by rewrite !all_bytes_app, Hd.
    - apply hex_string_edge.
    - rewrite hex_take_length by lia. lia.
    - rewrite hex_take_length, !length_sapp by lia. cbn [String.length] in *. lia. }
  split; apply Hgen; (done || (cbn; lia)).
Qed.
End Bounds.

Lemma generated_names_are_labels_witness :
  dns_label (@inception_service_name sample_sha256 "orders" "payment.calls") = true.
Proof.
  exact (proj1 (proj2 (@generated_names_are_labels sample_sha256 (sample_bgd None) "orders"
                         "payment.calls" "smoke"))).
Defined.

Lemma lease_name_is_label_witness :
  dns_label (@lease_name sample_sha256 "bgd" "My.BGD_with_long_suffix" "uid-123") = true.
Proof. exact (proj1 (@lease_name_is_label sample_sha256 "My.BGD_with_long_suffix" "uid-123")). Defined.

(** ** Collisions *)

Lemma le_bytes_inj n z z' :
  0 <= z < 256 ^ Z.of_nat n -> 0 <= z' < 256 ^ Z.of_nat n -> le_bytes n z = le_bytes n z' -> z = z'.
Proof.
  revert z z'. induction n as [|n IH]; intros z z' Hz Hz' E.
  - cbn in Hz, Hz'. lia.
  - rewrite Nat2Z.inj_succ, Z.pow_succ_r in Hz, Hz' by lia. cbn in E. injection E as E1 E2.
    assert (Hb : forall x, (Z.to_N (x mod 256) < 256)%N) by
      (intros x; pose proof (Z.mod_pos_bound x 256); lia).
    apply (f_equal N_of_ascii) in E1. rewrite !N_ascii_embedding in E1 by apply Hb.
    apply IH in E2; [|split; [apply Z.div_pos; lia|apply Z.div_lt_upper_bound; lia]..].
    rewrite (Z.div_mod z 256), (Z.div_mod z' 256) by lia.
    pose proof (Z.mod_pos_bound z 256). pose proof (Z.mod_pos_bound z' 256). lia.
Qed.

Lemma length_le_bytes n z : length (le_bytes n z) = n.
Proof. revert z. induction n; intros z; [done|]. cbn. by rewrite IHn. Qed.

(** A string whose length fits a [usize]. *)
Definition fits (s : string) : Prop := Z.of_nat (String.length s) < 2 ^ 64.

Lemma part_inj s s' l l' : fits s -> fits s' ->
  (le_bytes 8 (Z.of_nat (String.length s)) ++ bytes s) ++ l
  = (le_bytes 8 (Z.of_nat (String.length s')) ++ bytes s') ++ l' -> s = s' /\ l = l'.
Proof.
  intros Hs Hs' E. rewrite <- !app_assoc in E.
  apply app_inj_1 in E as [E1 E2]; [|by rewrite !length_le_bytes].
  apply le_bytes_inj in E1; [|unfold fits in *; cbn; lia..].
  apply app_inj_1 in E2 as [E2 ->]; [|rewrite !length_bytes; lia].
  split; [|done]. by apply bytes_inj.
Qed.

Lemma name_parts_inj a b a' b' : fits a -> fits b -> fits a' -> fits b' ->
  name_parts [a; b] = name_parts [a'; b'] -> a = a' /\ b = b'.
Proof.
  intros Ha Hb Ha' Hb' E. unfold name_parts in E. cbn [map concat] in E.
  apply part_inj in E as [-> E]; [|done..]. apply part_inj in E as [-> _]; done.
Qed.

Lemma sapp_inj_suffix (s t u v : string) :
  String.length u = String.length v -> s +:+ u = t +:+ v -> u = v.
Proof.
  intros Hl E. apply bytes_inj. apply (f_equal list_ascii_of_string) in E. rewrite !bytes_app in E.
  by apply app_inj_2 in E as [_ ?]; [|rewrite !length_bytes].
Qed.

Lemma hex_byte_inj b b' : hex_byte b = hex_byte b' -> b = b'.
Proof.
  intros E. assert (Hd : forall x, exists f : string -> ascii, forall y, hex_byte y = hex_byte x -> f (hex_byte y) = y).
  { intros x.
    exists (fun s => match bytes s with
                     | [h; l] => let v c := (if N.ltb (N_of_ascii c) 58 then N_of_ascii c - 48
                                             else N_of_ascii c - 87)%N in
                                 ascii_of_N (v h * 16 + v l)
                     | _ => "000"%char end).
    intros y _. destruct y as [[] [] [] [] [] [] [] []]; reflexivity. }
  destruct (Hd b) as [f Hf]. rewrite <- (Hf b eq_refl), <- (Hf b' (eq_sym E)). by rewrite E.
Qed.

Lemma take_hex n d : take (2 * n) (bytes (hex_string d)) = bytes (hex_string (take n d)).
Proof.
  revert n. induction d as [|b d IH]; intros n; [by destruct n|].
  destruct n as [|n]; [done|]. cbn [take]. unfold hex_string in *. cbn [map].
  rewrite !concat_cons_nil, !bytes_app, <- IH.
  replace (2 * S n)%nat with (length (bytes (hex_byte b)) + 2 * n)%nat by (cbn; lia).
  by rewrite take_app_add.
Qed.

Lemma hex_string_inj d d' : length d = length d' -> hex_string d = hex_string d' -> d = d'.
Proof.
  revert d'. induction d as [|b d IH]; intros [|b' d'] Hl E; try done.
  unfold hex_string in *. cbn [map] in E. rewrite !concat_cons_nil in E.
  apply (f_equal list_ascii_of_string) in E. rewrite !bytes_app in E.
  apply app_inj_1 in E as [E1 E2]; [|done].
  f_equal; [by apply hex_byte_inj, bytes_inj|]. apply IH; [by injection Hl|]. by apply bytes_inj.
Qed.

Section Collisions.
Context `{Sha256}.

(** Inception points of different deployments, or with different names (even names that
    sanitize or truncate to the same label), share a generated name only when SHA-256 collides in
    its first six bytes on two different encodings of the pair. *)
Theorem inception_name_collision (ref ip ref' ip' : string)
    (Hf : fits ref /\ fits ip /\ fits ref' /\ fits ip') (Hne : (ref, ip) <> (ref', ip'))
    (E : inception_instance_base_name ref ip = inception_instance_base_name ref' ip') :
  exists m m', m <> m' /\ take 6 (sha256 m) = take 6 (sha256 m').
Proof.
  destruct Hf as (H1 & H2 & H3 & H4).
  exists (name_parts [ref; ip]), (name_parts [ref'; ip']). split.
  - intros Hp. apply name_parts_inj in Hp as [-> ->]; done.
  - unfold inception_instance_base_name in E. cbn zeta in E. rewrite <- !sapp_assoc in E.
    apply sapp_inj_suffix in E; [|by rewrite !stable_suffix_length].
    unfold stable_name_suffix in E. apply (f_equal list_ascii_of_string) in E.
    rewrite !bytes_of_bytes in E. change 12%nat with (2 * 6)%nat in E. rewrite !take_hex in E.
    apply bytes_inj in E. apply hex_string_inj in E; [done|].
    by rewrite !length_take, !sha256_length.
Qed.
End Collisions.

(** A digest that depends on the length of its input only, so collisions exist. *)
Definition weak_sha256 : Sha256.
Proof.
  refine {| sha256 m := repeat (ascii_of_nat (length m)) 32 |}. intros m. by rewrite repeat_length.
Defined.

Lemma inception_name_collision_witness :
  exists m m', m <> m' /\ take 6 (@sha256 weak_sha256 m) = take 6 (@sha256 weak_sha256 m').
Proof.
  apply (@inception_name_collision weak_sha256 "rollout-a" "payment.calls" "rollout-a" "payment-calls").
  - unfold fits. cbn. lia.
  - intros H. discriminate H.
  - vm_compute. reflexivity.
Defined.

Definition named_bgd (name : string) : BlueGreenDeployment :=
  {| bgd_metadata := named_meta name (Some "apps") None; bgd_spec := sample_spec None [];
     bgd_status := None |}.

(** The name of a candidate deployment fits the 253 characters of an object name for every
    deployment name, but not the 63 of a label value, though it is used as one
    ([fluidbg.io/deployment]): from a deployment name of 57 characters on, every candidate name is too
    long for the label. *)
Theorem candidate_name_bounds (base suffix : string) (Hs : String.length suffix = 6%nat) :
  (String.length (candidate_name_with_suffix base suffix) <= 253)%nat /\
  ((57 <= String.length base)%nat -> (63 < String.length (candidate_name_with_suffix base suffix))%nat).
Proof.
  unfold candidate_name_with_suffix. rewrite Hs. cbn zeta.
  destruct (Nat.ltb_spec (253 - (6 + 1)) (String.length base)) as [Hb|Hb];
    rewrite !length_sapp, ?length_of_bytes, ?length_take, ?length_bytes, Hs; cbn [String.length]; lia.
Qed.

Lemma candidate_name_bounds_witness :
  (String.length (candidate_name_with_suffix "orders" "abc123") <= 253)%nat.
Proof. exact (proj1 (candidate_name_bounds "orders" "abc123" eq_refl)). Defined.
