(* ===== verification/SipHash.v ===== *)
(** * Rust's default hasher

    [std::collections::hash_map::DefaultHasher]: SipHash-1-3 with the keys 0 and 0, on
    64-bit words with wrap-around, and the [Hash] of a byte slice: its length as eight bytes,
    then the bytes. *)

From S2P Require Import Prelude RustString Names.

(** ** 64-bit words *)

Definition add64 (x y : Z) : Z := wrap_u64 (x + y).
Definition rotl64 (x r : Z) : Z := Z.lor (wrap_u64 (Z.shiftl x r)) (Z.shiftr x (64 - r)).

(** A little-endian word. *)
Fixpoint word_of (l : list ascii) : Z :=
  match l with [] => 0 | b :: l' => Z.of_N (N_of_ascii b) + 256 * word_of l' end.

(** ** SipHash-1-3 *)

Record sip := { v0 : Z; v1 : Z; v2 : Z; v3 : Z }.

Definition sip_init : sip :=
  {| v0 := 0x736f6d6570736575; v1 := 0x646f72616e646f6d;
     v2 := 0x6c7967656e657261; v3 := 0x7465646279746573 |}.

Definition sip_round (s : sip) : sip :=
  let a0 := add64 (v0 s) (v1 s) in
  let a1 := Z.lxor (rotl64 (v1 s) 13) a0 in
  let a0 := rotl64 a0 32 in
  let a2 := add64 (v2 s) (v3 s) in
  let a3 := Z.lxor (rotl64 (v3 s) 16) a2 in
  let a0 := add64 a0 a3 in
  let a3 := Z.lxor (rotl64 a3 21) a0 in
  let a2 := add64 a2 a1 in
  let a1 := Z.lxor (rotl64 a1 17) a2 in
  let a2 := rotl64 a2 32 in
  {| v0 := a0; v1 := a1; v2 := a2; v3 := a3 |}.

Definition sip_absorb (s : sip) (m : Z) : sip :=
  let s := sip_round {| v0 := v0 s; v1 := v1 s; v2 := v2 s; v3 := Z.lxor (v3 s) m |} in
  {| v0 := Z.lxor (v0 s) m; v1 := v1 s; v2 := v2 s; v3 := v3 s |}.

(** The whole words of the message, then the rest with the length on top. *)
Fixpoint sip_words (fuel : nat) (s : sip) (len : Z) (l : list ascii) : sip :=
  match fuel with
  | O => s
  | S n =>
      if Nat.ltb (length l) 8
      then sip_absorb s (Z.lor (word_of l) (Z.shiftl (len mod 256) 56))
      else sip_words n (sip_absorb s (word_of (take 8 l))) len (drop 8 l)
  end.

Definition sip_finish (s : sip) : Z :=
  let s := {| v0 := v0 s; v1 := v1 s; v2 := Z.lxor (v2 s) 255; v3 := v3 s |} in
  let s := sip_round (sip_round (sip_round s)) in
  Z.lxor (Z.lxor (v0 s) (v1 s)) (Z.lxor (v2 s) (v3 s)).

Definition siphash13 (l : list ascii) : Z :=
  sip_finish (sip_words (S (length l)) sip_init (Z.of_nat (length l)) l).

(** [payload.hash(&mut hasher); hasher.finish()]. *)
Definition hash_bytes (l : list ascii) : Z := siphash13 (le_bytes 8 (Z.of_nat (length l)) ++ l).

(** The reference values of SipHash-1-3 for these inputs. *)
Example siphash13_abc : siphash13 (bytes "abc") = 13851880170939887858.
Proof. vm_compute. reflexivity. Qed.
Example hash_bytes_abc : hash_bytes (bytes "abc") = 5378393838603134665.
Proof. vm_compute. reflexivity. Qed.

(** ** The hash is a 64-bit word *)

Definition is_u64 (z : Z) : Prop := 0 <= z < 2 ^ 64.

Lemma is_u64_wrap z : is_u64 z <-> wrap_u64 z = z.
Proof.
  unfold is_u64, wrap_u64. split; [apply Z.mod_small|intros <-; by apply Z.mod_pos_bound].
Qed.

Lemma wrap_u64_is_u64 z : is_u64 (wrap_u64 z).
Proof. by apply Z.mod_pos_bound. Qed.

Lemma lxor_u64 x y : is_u64 x -> is_u64 y -> is_u64 (Z.lxor x y).
Proof.
  rewrite !is_u64_wrap. unfold wrap_u64. intros Hx Hy. apply Z.bits_inj'. intros n Hn.
  destruct (Z.ltb_spec n 64); [by rewrite Z.mod_pow2_bits_low|].
  rewrite Z.mod_pow2_bits_high, Z.lxor_spec by lia.
  rewrite <- Hx, <- Hy, !Z.mod_pow2_bits_high by lia. done.
Qed.

Lemma lor_u64 x y : is_u64 x -> is_u64 y -> is_u64 (Z.lor x y).
Proof.
  rewrite !is_u64_wrap. unfold wrap_u64. intros Hx Hy. apply Z.bits_inj'. intros n Hn.
  destruct (Z.ltb_spec n 64); [by rewrite Z.mod_pow2_bits_low|].
  rewrite Z.mod_pow2_bits_high, Z.lor_spec by lia.
  rewrite <- Hx, <- Hy, !Z.mod_pow2_bits_high by lia. done.
Qed.

Lemma rotl_u64 x r : is_u64 x -> 0 <= r <= 64 -> is_u64 (rotl64 x r).
Proof.
  intros Hx Hr. apply lor_u64; [apply wrap_u64_is_u64|]. unfold is_u64 in *.
  rewrite Z.shiftr_div_pow2 by lia. split; [apply Z.div_pos; lia|].
  apply Z.div_lt_upper_bound; nia.
Qed.

Definition sip_ok (s : sip) : Prop := is_u64 (v0 s) /\ is_u64 (v1 s) /\ is_u64 (v2 s) /\ is_u64 (v3 s).

Lemma sip_round_ok s : sip_ok s -> sip_ok (sip_round s).
Proof.
  intros (H0 & H1 & H2 & H3).
  repeat split; cbn; repeat first [apply lxor_u64 | apply rotl_u64; [|lia] | apply wrap_u64_is_u64 | done].
Qed.

Lemma sip_absorb_ok s m : sip_ok s -> is_u64 m -> sip_ok (sip_absorb s m).
Proof.
  intros (H0 & H1 & H2 & H3) Hm. unfold sip_absorb.
  destruct (sip_round_ok {| v0 := v0 s; v1 := v1 s; v2 := v2 s; v3 := Z.lxor (v3 s) m |})
    as (? & ? & ? & ?).
  - unfold sip_ok. cbn. split_and!; try done. by apply lxor_u64.
  - unfold sip_ok. cbn [v0 v1 v2 v3]. split_and!; try done. by apply lxor_u64.
Qed.

Lemma word_of_bound l : 0 <= word_of l < 256 ^ Z.of_nat (length l).
Proof.
  induction l as [|b l IH]; [done|]. cbn [word_of length].
  rewrite Nat2Z.inj_succ, Z.pow_succ_r by lia.
  assert (Z.of_N (N_of_ascii b) < 256) by (by destruct b as [[] [] [] [] [] [] [] []]). lia.
Qed.

Lemma word_of_u64 l : (length l <= 8)%nat -> is_u64 (word_of l).
Proof.
  intros Hl. pose proof (word_of_bound l). unfold is_u64. change (2 ^ 64) with (256 ^ 8).
  assert (256 ^ Z.of_nat (length l) <= 256 ^ 8) by (apply Z.pow_le_mono_r; lia). lia.
Qed.

Lemma sip_words_ok n s len l : sip_ok s -> sip_ok (sip_words n s len l).
Proof.
  revert s l. induction n as [|n IH]; intros s l Hs; [done|]. cbn [sip_words].
  destruct (Nat.ltb_spec (length l) 8).
  - apply sip_absorb_ok; [done|]. apply lor_u64; [apply word_of_u64; lia|].
    rewrite Z.shiftl_mul_pow2 by lia. pose proof (Z.mod_pos_bound len 256 ltac:(lia)). unfold is_u64. lia.
  - apply IH, sip_absorb_ok; [done|]. apply word_of_u64. rewrite length_take. lia.
Qed.

Lemma siphash13_u64 l : is_u64 (siphash13 l).
Proof.
  unfold siphash13, sip_finish.
  assert (sip_ok sip_init) as Hi by (repeat split; cbn; lia).
  destruct (sip_words_ok (S (length l)) _ (Z.of_nat (length l)) l Hi) as (H0 & H1 & H2 & H3).
  set (t := sip_words _ _ _ _) in *.
  destruct (sip_round_ok _ (sip_round_ok _ (sip_round_ok
    {| v0 := v0 t; v1 := v1 t; v2 := Z.lxor (v2 t) 255; v3 := v3 t |}
    (conj H0 (conj H1 (conj (lxor_u64 _ 255 H2 ltac:(split; lia)) H3)))))) as (? & ? & ? & ?).
  cbv zeta. apply lxor_u64; by apply lxor_u64.
Qed.
