(* ===== verification/Lease.v ===== *)
(** * Reconcile leases

    [operator/src/controller/lease.rs]: a reconcile pass runs while the operator
    holds a Kubernetes [Lease].  The renewal task runs beside the pass; once it
    reports the lease lost, the pass is dropped where it waits, as soon as [select!]
    looks at the report, which may be after the pass was polled once more
    ([select_lost]).  Times are milliseconds; [as_secs_f64() >= f64::from(duration)] is the comparison in
    milliseconds. *)

From S2P Require Import Prelude RustString Float64 Kube Crd StateStore Effects External Status.
From S2P Require Import Names.
Open Scope fbg_scope.

(** [duration] and [renew_interval] in seconds. *)
Record LeaseConfig := {
  holder_identity : string; lc_duration : Z; lc_renew_interval : Z }.

(** [i32::try_from(secs).unwrap_or(i32::MAX).max(1)]. *)
Definition duration_seconds (secs : Z) : Z :=
  Z.max (if Z.leb secs i32_max then secs else i32_max) 1.

Definition lease_expired_at (spec : LeaseSpec) (now : Z) : bool :=
  match (match ls_renew_time spec with Some t => Some t | None => ls_acquire_time spec end) with
  | None => true
  | Some renew_time =>
      let duration := unwrap_or 0 (ls_duration_seconds spec) in
      if Z.leb duration 0 then true else Z.leb (duration * 1000) (now - renew_time)
  end.

Definition held_by (lease : Lease) (c : LeaseConfig) : bool :=
  bool_decide ((lease_spec_of lease ≫= ls_holder_identity) = Some (holder_identity c)).

(** [lease_can_be_acquired]: it asks for the time only for another holder's lease. *)
Definition lease_can_be_acquired (lease : Lease) (c : LeaseConfig) : prog bool :=
  match lease_spec_of lease with
  | None => Ret true
  | Some spec =>
      if held_by lease c then Ret true
      else match ls_renew_time spec, ls_acquire_time spec with
           | None, None => Ret true
           | _, _ => if Z.leb (unwrap_or 0 (ls_duration_seconds spec)) 0 then Ret true
                     else let! now := request ANow in Ret (lease_expired_at spec now)
           end
  end.

Definition transition_increment (lease : Lease) (c : LeaseConfig) : Z :=
  if held_by lease c then 0 else 1.

Definition lease_spec (c : LeaseConfig) (transitions : Z) (acquired : bool) (now : Z) : LeaseSpec :=
  {| ls_acquire_time := if acquired then Some now else None;
     ls_holder_identity := Some (holder_identity c);
     ls_duration_seconds := Some (duration_seconds (lc_duration c));
     ls_transitions := Some transitions;
     ls_renew_time := Some now |}.

Definition with_lease_spec (s : LeaseSpec) (l : Lease) : Lease :=
  {| lease_metadata := lease_metadata l; lease_spec_of := Some s |}.

(** [.map(|_| true).or_else(conflict_means_not_acquired)]. *)
Definition conflict_means_not_acquired {A} (r : result kube_error A) : result ReconcileError bool :=
  match r with
  | Ok _ => Ok true
  | Err e => if is_conflict e then Ok false else Err (K8sErr e)
  end.

Definition new_lease (name : string) (owner : option OwnerReference) (s : LeaseSpec) : Lease :=
  {| lease_metadata :=
       {| meta_name := Some name; meta_namespace := None; meta_uid := None; meta_labels := None; meta_annotations := None;
          meta_generation := None; meta_resource_version := None; meta_finalizers := None;
          meta_deletion_timestamp := None;
          meta_owner_references := (fun o => [o]) <$> owner; meta_rest := JNull |};
     lease_spec_of := Some s |}.

Definition try_acquire_lease (ns : string) (name : string) (owner : option OwnerReference)
    (c : LeaseConfig) : M bool :=
  let! r := request (AGet KLease (Some ns) name) in
  match r with
  | Ok lease =>
      let! can := lease_can_be_acquired lease c in
      if negb can then ok false
      else
        let transitions := unwrap_or 0 (lease_spec_of lease ≫= ls_transitions)
                           +i32 transition_increment lease c in
        let! now := request ANow in
        let! w := request (AReplace KLease (Some ns) name
                             (with_lease_spec (lease_spec c transitions true now) lease)) in
        lift (conflict_means_not_acquired w)
  | Err e =>
      if is_not_found e then
        let! now := request ANow in
        let! w := request (ACreate KLease (Some ns) (new_lease name owner (lease_spec c 0 true now))) in
        lift (conflict_means_not_acquired w)
      else err (K8sErr e)
  end.

Definition renew_lease (ns : string) (name : string) (c : LeaseConfig) : M unit :=
  let? lease := k8s (request (AGet KLease (Some ns) name)) in
  if negb (held_by lease c)
  then err (LeaseErr ("lease '" +:+ name +:+ "' is no longer held by this operator"))
  else
    let transitions := unwrap_or 0 (lease_spec_of lease ≫= ls_transitions) in
    let! now := request ANow in
    do? k8s (request (AReplace KLease (Some ns) name
                        (with_lease_spec (lease_spec c transitions false now) lease))) ;;
    ok tt.

(** The renewal task, for [rounds] turns of its timer: [true] when it reports the
    lease lost. *)
Fixpoint renew_until_stopped (rounds : nat) (ns name : string) (c : LeaseConfig) : prog bool :=
  match rounds with
  | O => Ret false
  | S n =>
      do! request (ASleep (lc_renew_interval c * 1000)) ;;
      let! r := renew_lease ns name c in
      match r with Err _ => Ret true | Ok _ => renew_until_stopped n ns name c end
  end.

(** [select! { result = future => .., _ = lost => .. }].  Whenever the task runs, the two branches are
    polled in an order drawn anew ([ASelect]: whether the report of a loss is looked at first).  Polled,
    the work goes on to where it has to wait, and it is dropped there, or before it goes on, when a look
    ([APollLost]) finds that the renewal task has reported the loss; polled first, it may also finish.
    The API server and a plugin never answer within the poll that sends the request; whether another
    request, or one that failed, made the task wait is the runtime's to say ([APended]).  The times the
    task runs while nothing has arrived and nothing is lost are left out. *)
Definition over_network (act : action) : reply act -> bool :=
  match act as a return reply a -> bool with
  | AGet _ _ _ | AGetOpt _ _ _ | AList _ _ _ | ACreate _ _ _ | AReplace _ _ _ _ | AApply _ _ _ _
  | ADelete _ _ _ | AGetStatus _ _ | AReplaceStatus _ _ _ | APatchStatus _ _ _ | APatchFinalizers _ _ _
  | AHttp _ _ _ => fun r => match r with Ok _ => true | Err _ => false end
  | _ => fun _ => false
  end.

(** [None] when dropped. *)
Definition look {A} (lease : string) (q : prog (option A)) : prog (option A) :=
  Vis (APollLost lease) (fun lost : bool => if lost then Ret None else q).
(** The body is told whether this poll has looked already. *)
Definition next_poll {A} (lease : string) (body : bool -> prog (option A)) : prog (option A) :=
  Vis (ASelect lease) (fun lost_first : bool => if lost_first then look lease (body true) else body false).
Definition suspended {A} (lease : string) (looked : bool) (body : bool -> prog (option A)) : prog (option A) :=
  if looked then next_poll lease body else look lease (next_poll lease body).
Fixpoint poll_body {A} (lease : string) (looked : bool) (p : prog A) : prog (option A) :=
  match p with
  | Ret a => Ret (Some a)
  | Vis act k =>
      Vis act (fun r =>
        if over_network act r then suspended lease looked (fun looked => poll_body lease looked (k r))
        else Vis (APended lease) (fun pended : bool =>
               if pended then suspended lease looked (fun looked => poll_body lease looked (k r))
               else poll_body lease looked (k r)))
  end.
Definition select_lost {A} (lease : string) (p : prog A) : prog (option A) :=
  next_poll lease (fun looked => poll_body lease looked p).

Definition run_with_lease {A} (ns name : string) (owner : option OwnerReference) (c : LeaseConfig)
    (future : M A) : M (option A) :=
  let? acquired := try_acquire_lease ns name owner c in
  if negb acquired then ok None
  else
    let! r := select_lost name future in
    match r with
    | Some (Ok a) => ok (Some a)
    | Some (Err e) => err e
    | None => err (LeaseErr ("lost reconcile lease '" +:+ name +:+ "'; aborting in-flight reconcile"))
    end.

Section WithHash.
Context `{Sha256}.

Definition run_with_bgd_lease {A} (bgd : BlueGreenDeployment) (ns : string) (c : LeaseConfig)
    (future : M A) : M (option A) :=
  match meta_uid (bgd_metadata bgd), meta_name (bgd_metadata bgd) with
  | Some uid, Some name =>
      let owner := {| owner_api_version := "fluidbg.io/v1alpha1";
                      owner_kind := "BlueGreenDeployment"; owner_name := name; owner_uid := uid;
                      owner_block_deletion := Some false; owner_controller := Some false |} in
      run_with_lease ns (lease_name "bgd" name uid) (Some owner) c future
  | _, _ => ok None
  end.

Definition run_with_orphan_lease {A} (blue_green_ref : string) (ns : string) (c : LeaseConfig)
    (future : M A) : M (option A) :=
  run_with_lease ns (lease_name "orphan" blue_green_ref blue_green_ref) None c future.
End WithHash.

(** ** The contract of acquisition *)

(** When a lease may be taken, given the clock reading of the acquisition, if it
    made one. *)
Definition free_for (c : LeaseConfig) (checked : option Z) (lease : Lease) : Prop :=
  match lease_spec_of lease with
  | None => True
  | Some spec =>
      ls_holder_identity spec = Some (holder_identity c)
      \/ unwrap_or 0 (ls_duration_seconds spec) <= 0
      \/ match union (ls_renew_time spec) (ls_acquire_time spec) with
         | None => True
         | Some renewed => exists now, checked = Some now
             /\ renewed + unwrap_or 0 (ls_duration_seconds spec) * 1000 <= now
         end
  end.

(** The requests of the check: at most one reading of the clock. *)
Definition clock_read (checked : option Z) : trace :=
  match checked with Some now => [Ev ANow now] | None => [] end.

Lemma can_be_acquired_free lease c tr :
  exec (lease_can_be_acquired lease c) tr true ->
  exists checked, free_for c checked lease /\ tr = clock_read checked.
Proof.
  unfold lease_can_be_acquired, free_for, held_by.
  destruct (lease_spec_of lease) as [spec|]; cbn; [|intros [-> _]; by exists None].
  case_bool_decide as Hh; [intros [-> _]; exists None; cbn in Hh; auto|].
  unfold lease_expired_at.
  destruct (ls_renew_time spec) as [t|] eqn:Er, (ls_acquire_time spec) as [t'|] eqn:Ea;
    try (intros [-> _]; exists None; cbn; auto; fail);
    (destruct (Z.leb_spec (unwrap_or 0 (ls_duration_seconds spec)) 0);
     [intros [-> _]; exists None; auto|]);
    destruct tr as [|e tr]; try done; intros (now & -> & -> & Hn); exists (Some now);
    cbn zeta in Hn; (split; [|done]); right; right; cbn; exists now;
    (split; [done|]); symmetry in Hn; apply Z.leb_le in Hn; lia.
Qed.

(** A successful acquisition is a creation after a 404, or a replacement of the
    lease that was read, resource version included, when it was free. *)
Definition acquired_by (ns name : string) (owner : option OwnerReference) (c : LeaseConfig)
    (tr : trace) : Prop :=
  (exists e now w,
     is_not_found e = true /\
     tr = [Ev (AGet KLease (Some ns) name) (Err e); Ev ANow now;
           Ev (ACreate KLease (Some ns) (new_lease name owner (lease_spec c 0 true now))) (Ok w)]) \/
  (exists lease checked now w,
     free_for c checked lease /\
     tr = Ev (AGet KLease (Some ns) name) (Ok lease) :: clock_read checked ++
          [Ev ANow now;
           Ev (AReplace KLease (Some ns) name
                 (with_lease_spec
                    (lease_spec c (unwrap_or 0 (lease_spec_of lease ≫= ls_transitions)
                                   +i32 transition_increment lease c) true now) lease)) (Ok w)]).

Lemma acquire_true ns name owner c tr :
  exec (try_acquire_lease ns name owner c) tr (Ok true) -> acquired_by ns name owner c tr.
Proof.
  unfold try_acquire_lease. rewrite exec_request. intros (r & tr' & -> & He).
  destruct r as [lease|e].
  - right. apply exec_bind in He as (mid & tr2 & can & -> & H1 & H2).
    destruct can; cbn [negb] in H2; [|by destruct H2].
    destruct (can_be_acquired_free _ _ _ H1) as (checked & Hfree & ->).
    rewrite exec_request in H2. destruct H2 as (now & tr3 & -> & H2).
    rewrite exec_request in H2. destruct H2 as (w & tr4 & -> & -> & Hw).
    destruct w as [w|we]; [by exists lease, checked, now, w|].
    cbn in Hw. by destruct (is_conflict we).
  - left. destruct (is_not_found e) eqn:E; [|by destruct He].
    rewrite exec_request in He. destruct He as (now & tr3 & -> & He).
    rewrite exec_request in He. destruct He as (w & tr4 & -> & -> & Hw).
    destruct w as [w|we]; [by exists e, now, w|].
    cbn in Hw. by destruct (is_conflict we).
Qed.
