(* ===== verification/LeaseTheorems.v ===== *)
(** * What a reconcile lease guarantees

    Theorems about [operator/src/controller/lease.rs], for any answers of the API
    server and any clock. *)

From S2P Require Import Prelude RustString Float64 Kube Crd StateStore Effects External Status.
From S2P Require Import World Names Lease.

(** A lease is acquired only when it is free: an acquisition that succeeds either created the lease
    after the API server reported it missing, or replaced the very object it had read (metadata
    and resource version unchanged, so a concurrent write makes the replacement fail), and that
    object had no holder, was the operator's own, or had expired at the time the clock showed. *)
Theorem lease_acquired_only_when_free (ns name : string) (owner : option OwnerReference)
    (c : LeaseConfig) (tr : trace) (He : exec (try_acquire_lease ns name owner c) tr (Ok true)) :
  acquired_by ns name owner c tr.
Proof. by apply acquire_true. Qed.

Definition other_config : LeaseConfig :=
  {| holder_identity := "operator-a"; lc_duration := 30; lc_renew_interval := 10 |}.
Definition this_config : LeaseConfig :=
  {| holder_identity := "operator-b"; lc_duration := 30; lc_renew_interval := 10 |}.
Definition leased_world (now : Z) : world :=
  set_clock now (after_in (try_acquire_lease "apps" "lease-1" None other_config) empty_world).

Lemma lease_acquired_only_when_free_witness :
  result_in (try_acquire_lease "apps" "lease-1" None this_config) (leased_world 29999) = Ok false /\
  acquired_by "apps" "lease-1" None this_config
    (trace_in (try_acquire_lease "apps" "lease-1" None this_config) (leased_world 30000)).
Proof.
  split; [vm_compute; reflexivity|].
  apply (lease_acquired_only_when_free "apps" "lease-1" None this_config).
  replace (Ok true) with
    (result_in (try_acquire_lease "apps" "lease-1" None this_config) (leased_world 30000))
    by (vm_compute; reflexivity).
  exact (exec_in _ _).
Defined.

(** A live lease is never taken over: while the lease read belongs to another holder, has a positive
    duration and was renewed less than that duration ago on every clock reading, the acquisition
    answers [false] and writes nothing. *)
Theorem live_lease_not_taken (ns name : string) (owner : option OwnerReference) (c : LeaseConfig)
    (lease : Lease) (spec : LeaseSpec) (renewed : Z) (duration : Z) (tr : trace)
    (a : result ReconcileError bool)
    (Hspec : lease_spec_of lease = Some spec)
    (Hholder : ls_holder_identity spec <> Some (holder_identity c))
    (Hrenew : ls_renew_time spec = Some renewed)
    (Hdur : ls_duration_seconds spec = Some duration) (Hpos : 0 < duration)
    (He : exec (try_acquire_lease ns name owner c) (Ev (AGet KLease (Some ns) name) (Ok lease) :: tr) a)
    (Hclock : forall now, Ev ANow now ∈ tr -> now < renewed + duration * 1000) :
  a = Ok false /\ forall act r, Ev act r ∈ tr -> act = ANow.
Proof.
  unfold try_acquire_lease in He. rewrite exec_request in He.
  destruct He as (r & tr' & E & He). pose proof (f_equal tail E) as Et. cbn in Et. subst tr'.
  apply (f_equal head) in E. cbn in E.
  assert (Ok lease = r) as <- by (apply (Ev_inj (AGet KLease (Some ns) name)); congruence).
  apply exec_bind in He as (mid & tr2 & can & -> & H1 & H2).
  unfold lease_can_be_acquired, held_by in H1. rewrite Hspec in H1. cbn [mbind option_bind] in H1.
  rewrite bool_decide_eq_false_2 in H1 by done. rewrite Hrenew, Hdur in H1. cbn [unwrap_or from_option id] in H1.
  destruct (Z.leb_spec duration 0); [lia|]. rewrite exec_request in H1.
  destruct H1 as (now & mid' & -> & -> & ->).
  unfold lease_expired_at in H2. rewrite Hrenew, Hdur in H2. cbn in H2.
  assert (Hn : now < renewed + duration * 1000) by (apply Hclock; set_solver).
  destruct (Z.leb_spec duration 0); [lia|].
  destruct (Z.leb_spec (duration * 1000) (now - renewed)); [lia|].
  destruct H2 as [-> ->]. split; [done|]. intros act r Hin. cbn in Hin.
  apply list_elem_of_singleton in Hin. by injection Hin as -> _.
Qed.

Lemma live_lease_not_taken_witness :
  result_in (try_acquire_lease "apps" "lease-1" None this_config) (leased_world 29999) = Ok false.
Proof.
  assert (Hl : exists tr,
    trace_in (try_acquire_lease "apps" "lease-1" None this_config) (leased_world 29999)
    = Ev (AGet KLease (Some "apps") "lease-1")
        (Ok (new_lease "lease-1" None (lease_spec other_config 0 true 0))) :: tr /\
    forall now, Ev ANow now ∈ tr -> now < 0 + 30 * 1000).
  { eexists. split; [vm_compute; reflexivity|]. intros now Hin.
    apply list_elem_of_singleton in Hin. apply (Ev_inj ANow) in Hin as ->. reflexivity. }
  destruct Hl as (tr & Htr & Hclock).
  pose proof (exec_in (try_acquire_lease "apps" "lease-1" None this_config) (leased_world 29999)) as He.
  rewrite Htr in He.
  exact (proj1 (live_lease_not_taken "apps" "lease-1" None this_config
    (new_lease "lease-1" None (lease_spec other_config 0 true 0))
    (lease_spec other_config 0 true 0) 0 30 tr _ eq_refl ltac:(discriminate) eq_refl eq_refl
    ltac:(reflexivity) He Hclock)).
Defined.

(** ** Running under a lease *)

(** The events of the runtime that polls the work, apart from those of the work. *)
Definition not_poll (act : action) : Prop :=
  match act with ASelect _ | APended _ | APollLost _ => False | _ => True end.
#[export] Instance not_poll_dec act : Decision (not_poll act).
Proof. destruct act; apply _. Defined.
Definition of_work (tr : trace) : trace := filter (fun e => not_poll (act_of e)) tr.

(** A look at the report of a loss, and what it found. *)
Definition look_of (e : event) : option bool :=
  match e with
  | Ev act r => match act as a return reply a -> option bool with APollLost _ => Some | _ => fun _ => None end r
  end.
(** The work had to wait for a request: it had gone out. *)
Definition waits (e : event) : bool :=
  match e with
  | Ev act r => match act as a return reply a -> bool with APended _ => id | a => over_network a end r
  end.
Definition waited (tr : trace) : nat := length (List.filter waits tr).

Lemma work_event act r : not_poll act -> look_of (Ev act r) = None /\ waits (Ev act r) = over_network act r.
Proof. by destruct act. Qed.

(** At most [n] waits before the next look, two from one look to the next; a look that finds the lease
    lost is the end. *)
Fixpoint paced (n : nat) (tr : trace) : Prop :=
  match tr with
  | [] => True
  | e :: tr =>
      match look_of e with
      | Some true => tr = []
      | Some false => paced 2 tr
      | None => if waits e then match n with O => False | S n => paced n tr end else paced n tr
      end
  end.

Lemma paced_mono n m tr : (n <= m)%nat -> paced n tr -> paced m tr.
Proof.
  revert n m. induction tr as [|e tr IH]; intros n m Hn; cbn; [done|].
  destruct (look_of e) as [[]|]; [done..|]. destruct (waits e); [|by apply IH].
  destruct n, m; try done; [lia|]. apply IH. lia.
Qed.
Lemma paced_from n t1 t2 : (n <= 2)%nat -> paced n (t1 ++ t2) -> paced 2 t2.
Proof.
  revert n. induction t1 as [|e t1 IH]; intros n Hn; cbn; [by apply paced_mono|].
  destruct (look_of e) as [[]|]; [by intros [_ ->]%app_eq_nil|by apply IH|].
  destruct (waits e); [|by apply IH]. destruct n; [done|]. apply IH. lia.
Qed.
Lemma paced_waited n tr : paced n tr -> (forall e, e ∈ tr -> look_of e <> Some false) -> (waited tr <= n)%nat.
Proof.
  revert n. induction tr as [|e tr IH]; intros n; [cbn; lia|]. cbn [paced]. intros Hp Hl.
  assert (forall e, e ∈ tr -> look_of e <> Some false) as Hl' by (intros e' He; apply Hl; by right).
  assert (waited (e :: tr) = ((if waits e then 1 else 0) + waited tr)%nat) as ->
    by (unfold waited; cbn; by destruct (waits e)).
  destruct (look_of e) as [[]|] eqn:El.
  - subst tr. destruct e as [[] r]; try discriminate El. cbn. lia.
  - by destruct (Hl e ltac:(left)).
  - destruct (waits e); [|by apply IH]. destruct n; [done|]. specialize (IH n Hp Hl'). lia.
Qed.
Lemma paced_last n t1 e t2 : look_of e = Some true -> paced n (t1 ++ e :: t2) -> t2 = [].
Proof.
  intros He. revert n. induction t1 as [|e1 t1 IH]; intros n; cbn; [by rewrite He|].
  destruct (look_of e1) as [[]|]; [by intros [_ [=]]%app_eq_nil|by apply IH|].
  destruct (waits e1); [|by apply IH]. destruct n; [done|]. by apply IH.
Qed.

(** What a run of the select comes to: the work is done, or it is dropped after some of its requests. *)
Definition selected {A} (lease : string) (p : prog A) (tr : trace) (a : option A) : Prop :=
  match a with
  | Some x => exec p (of_work tr) x /\ forall e, e ∈ tr -> look_of e <> Some true
  | None => partial p (of_work tr) /\ exists t, tr = t ++ [Ev (APollLost lease) true]
  end.

Lemma selected_runtime {A} lease (p : prog A) e tr a :
  ~ not_poll (act_of e) -> look_of e <> Some true -> selected lease p tr a -> selected lease p (e :: tr) a.
Proof.
  intros Hn Hl. assert (of_work (e :: tr) = of_work tr) as Ew by (unfold of_work; by rewrite filter_cons_False).
  destruct a as [x|]; unfold selected; rewrite Ew.
  - intros [Hx Ht]. split; [done|]. by intros e' [->|He]%elem_of_cons; [|apply Ht].
  - intros [Hx [t ->]]. split; [done|]. by exists (e :: t).
Qed.
Lemma selected_work {A} lease act (k : reply act -> prog A) r tr a :
  not_poll act -> selected lease (k r) tr a -> selected lease (Vis act k) (Ev act r :: tr) a.
Proof.
  intros Hn. assert (of_work (Ev act r :: tr) = Ev act r :: of_work tr) as Ew by (unfold of_work; by rewrite filter_cons_True).
  destruct a as [x|]; unfold selected; rewrite Ew.
  - intros [Hx Ht]. split; [by exists r|]. intros e' [->|He]%elem_of_cons; [|by apply Ht].
    by rewrite (proj1 (work_event act r Hn)).
  - intros [Hx [t ->]]. split; [by exists r|]. by exists (Ev act r :: t).
Qed.

Section Select.
Context {A : Type} (lease : string).
Implicit Types (p : prog A) (tr : trace) (a : option A).

(** What is proved of a program that goes on with [p]. *)
Definition goes (n : nat) p (q : prog (option A)) : Prop :=
  forall tr a, exec q tr a -> paced n tr /\ selected lease p tr a.

Lemma look_goes n p q : goes 2 p q -> goes n p (look lease q).
Proof.
  intros Hq [|e tr] a; [done|]. intros (lost & -> & He). destruct lost.
  - destruct He as [-> ->]. split; [done|]. split; [done|]. by exists [].
  - destruct (Hq _ _ He) as [Hp Hs]. split; [exact Hp|]. apply selected_runtime; [by intros []|done|done].
Qed.
Lemma next_poll_goes n p (body : bool -> prog (option A)) : (1 <= n)%nat ->
  goes 2 p (body true) -> goes 1 p (body false) -> goes n p (next_poll lease body).
Proof.
  intros Hn Ht Hf [|e tr] a; [done|]. intros (first & -> & He).
  assert (paced 1 tr /\ selected lease p tr a) as [Hp Hs] by (destruct first; [by apply (look_goes 1 p (body true))|by apply Hf]).
  split; [by apply (paced_mono 1)|]. apply selected_runtime; [by intros []|done|done].
Qed.
Lemma suspended_goes (looked : bool) p (body : bool -> prog (option A)) :
  goes 2 p (body true) -> goes 1 p (body false) ->
  goes (if looked then 1 else 0) p (suspended lease looked body).
Proof.
  intros Ht Hf. destruct looked; cbn; [by apply next_poll_goes|]. apply look_goes, next_poll_goes; [lia|done..].
Qed.

Lemma poll_body_goes p : only not_poll p -> forall looked : bool, goes (if looked then 2 else 1) p (poll_body lease looked p).
Proof.
  induction p as [x|act k IH]; intros Hp looked.
  - intros tr a [-> ->]. split; [done|]. split; [done|]. by intros e ?%not_elem_of_nil.
  - destruct Hp as [Hact Hk]. intros [|e tr] a; [done|]. intros (r & -> & He).
    destruct (work_event act r Hact) as [El Ew]. cbn [paced]. rewrite El, Ew.
    assert (forall tr a, exec (suspended lease looked (fun b => poll_body lease b (k r))) tr a ->
      paced (if looked then 1 else 0) tr /\ selected lease (k r) tr a) as Hsus
      by exact (suspended_goes looked (k r) _ (IH r (Hk r) true) (IH r (Hk r) false)).
    destruct (over_network act r).
    + destruct (Hsus _ _ He) as [Hp Hs]. split; [by destruct looked|by apply selected_work].
    + destruct tr as [|e tr]; [done|]. destruct He as (pended & -> & He).
      assert (paced (if looked then 2 else 1) (Ev (APended lease) pended :: tr) /\ selected lease (k r) tr a) as [Hp Hs].
      { destruct pended; [destruct (Hsus _ _ He) as [Hp Hs]; split; [by destruct looked|done]|].
        exact (IH r (Hk r) looked _ _ He). }
      split; [exact Hp|]. apply selected_work; [done|]. apply selected_runtime; [by intros []|done|done].
Qed.
Lemma select_lost_goes p tr a : only not_poll p -> exec (select_lost lease p) tr a -> paced 2 tr /\ selected lease p tr a.
Proof. intros Hp. apply next_poll_goes; [lia|by apply (poll_body_goes p Hp true)|by apply (poll_body_goes p Hp false)]. Qed.
End Select.

Definition lost_lease (name : string) : ReconcileError :=
  LeaseErr ("lost reconcile lease '" +:+ name +:+ "'; aborting in-flight reconcile").

(** C6. Work under a lease stops when the lease is lost.  The pass first tries to acquire the lease; when
    it does not, it makes no other request and answers [None] or the error.  When it does, either the
    work runs to its end, its requests in their order, and its result is the answer; or it was dropped
    after some of them, the last event being a look that found the lease lost, and the answer is the lease
    error.  From any point at which the renewal task has reported the loss (every later look finds it), at
    most two more requests make the work wait, so no more than two go out to the API server, to plugins or
    to a database, and the first look ends the pass in the lease error. *)
Theorem lease_guards_reconcile {A} (ns name : string) (owner : option OwnerReference)
    (c : LeaseConfig) (future : M A) (tr : trace) (a : result ReconcileError (option A))
    (Hf : only not_poll future)
    (He : exec (run_with_lease ns name owner c future) tr a) :
  exists tr1 tr2 acquired, tr = tr1 ++ tr2 /\
    exec (try_acquire_lease ns name owner c) tr1 acquired /\
    match acquired with
    | Ok true => acquired_by ns name owner c tr1
        /\ ((exists r, exec future (of_work tr2) r /\ a = (x ← r; Ok (Some x)))
            \/ (partial future (of_work tr2) /\ (exists t, tr2 = t ++ [Ev (APollLost name) true])
                /\ a = Err (lost_lease name)))
        /\ forall t1 t2, tr2 = t1 ++ t2 -> (forall e, e ∈ t2 -> look_of e <> Some false) ->
             (waited t2 <= 2)%nat
             /\ forall u1 e u2, t2 = u1 ++ e :: u2 -> look_of e = Some true -> u2 = [] /\ a = Err (lost_lease name)
    | Ok false => tr2 = [] /\ a = Ok None
    | Err e => tr2 = [] /\ a = Err e
    end.
Proof.
  unfold run_with_lease, bind_res in He. apply exec_bind in He as (tr1 & tr2 & acq & -> & H1 & H2).
  exists tr1, tr2, acq. split; [done|]. split; [done|].
  destruct acq as [[|]|e]; cbn [negb] in H2; [|by destruct H2..].
  split; [by apply acquire_true|].
  apply exec_bind in H2 as (u1 & u2 & r & -> & Hs & Hr).
  destruct (select_lost_goes _ _ _ _ Hf Hs) as [Hp Hsel].
  assert (u2 = [] /\ a = match r with Some x => (y ← x; Ok (Some y)) | None => Err (lost_lease name) end) as [-> Ha]
    by (by destruct r as [[?|?]|]; destruct Hr).
  rewrite app_nil_r. split.
  - destruct r as [x|]; destruct Hsel as [Hx Ht]; [left; by exists x|by right].
  - intros t1 t2 -> Hl. pose proof (paced_from 2 t1 t2 ltac:(lia) Hp) as Hp2. split; [by apply paced_waited|].
    intros v1 e v2 -> He. split; [by eapply paced_last|]. destruct r as [x|]; [|done].
    destruct Hsel as [_ Hn]. exfalso. apply (Hn e); [|done]. rewrite !elem_of_app. right. right. left.
Qed.

(** Work of two requests.  The loss is reported while the first one is on its way, and the runtime goes on
    with the work before it looks: the second one goes out. *)
Definition two_requests : M unit :=
  do? k8s (request (AList KDeployment (Some "apps") "")) ;;
  k8s (request (ADelete KDeployment (Some "apps") "orders")).
Definition losing (act : action) (w : world * bool) : reply act * (world * bool) :=
  match act as a return reply a * (world * bool) with
  | ASelect _ => (false, w)
  | APollLost _ => (snd w, (fst w, true))
  | AList KDeployment _ _ => (Ok [], w)
  | ADelete KDeployment _ _ => (Ok tt, w)
  | act => let '(r, w') := serve act (fst w) in (r, (w', snd w))
  end.

Lemma lease_guards_reconcile_witness :
  let name := "lease-1" in
  let p := run_with_lease "apps" name None this_config two_requests in
  let out := run losing p (empty_world, false) in
  out.1.1 = Err (lost_lease name) /\
  drop 3 out.1.2 = [Ev (ASelect name) false; Ev (AList KDeployment (Some "apps") "") (Ok []);
                    Ev (APollLost name) false; Ev (ASelect name) false;
                    Ev (ADelete KDeployment (Some "apps") "orders") (Ok tt); Ev (APollLost name) true] /\
  exists tr1 tr2 acquired, out.1.2 = tr1 ++ tr2 /\
    exec (try_acquire_lease "apps" name None this_config) tr1 acquired /\
    match acquired with
    | Ok true => acquired_by "apps" name None this_config tr1
        /\ ((exists r, exec two_requests (of_work tr2) r /\ out.1.1 = (x ← r; Ok (Some x)))
            \/ (partial two_requests (of_work tr2) /\ (exists t, tr2 = t ++ [Ev (APollLost name) true])
                /\ out.1.1 = Err (lost_lease name)))
        /\ forall t1 t2, tr2 = t1 ++ t2 -> (forall e, e ∈ t2 -> look_of e <> Some false) ->
             (waited t2 <= 2)%nat
             /\ forall u1 e u2, t2 = u1 ++ e :: u2 -> look_of e = Some true -> u2 = [] /\ out.1.1 = Err (lost_lease name)
    | Ok false => tr2 = [] /\ out.1.1 = Ok None
    | Err e => tr2 = [] /\ out.1.1 = Err e
    end.
Proof.
  intros name p out. split; [vm_compute; reflexivity|]. split; [vm_compute; reflexivity|].
  apply (lease_guards_reconcile "apps" name None this_config two_requests).
  - repeat constructor. by intros [].
  - exact (run_exec losing p (empty_world, false)).
Defined.
