(* ===== verification/Deployments.v ===== *)
(** * Deployments

    [operator/src/controller/deployments.rs]: labels of the deployments of a
    family, resolution of the current green deployment, environment assignments
    and the choice of the candidate's name. *)

From S2P Require Import Prelude RustString Float64 Kube Crd StateStore Effects External Status.
From S2P Require Import Names.

Record DeploymentIdentity := { di_namespace : string; di_name : string }.
#[export] Instance DeploymentIdentity_eq_dec : EqDecision DeploymentIdentity.
Proof. solve_decision. Defined.

Record DeploymentPatchKey := {
  dpk_namespace : string; dpk_name : string; dpk_container_name : option string }.
#[export] Instance DeploymentPatchKey_eq_dec : EqDecision DeploymentPatchKey.
Proof. solve_decision. Defined.

Definition string_cmp_then (a b : string) (next : bool) : bool :=
  match String.compare a b with Lt => true | Gt => false | Eq => next end.
Definition identity_leb (a b : DeploymentIdentity) : bool :=
  string_cmp_then (di_namespace a) (di_namespace b) (String.leb (di_name a) (di_name b)).
Definition patch_key_leb (a b : DeploymentPatchKey) : bool :=
  string_cmp_then (dpk_namespace a) (dpk_namespace b)
    (string_cmp_then (dpk_name a) (dpk_name b)
      (match dpk_container_name a, dpk_container_name b with
       | None, _ => true
       | Some _, None => false
       | Some x, Some y => String.leb x y
       end)).

(** [BTreeMap::insert] on a list of entries in key order. *)
Fixpoint bt_insert {K V} `{EqDecision K} (leb : K -> K -> bool) (k : K) (v : V) (l : list (K * V))
    : list (K * V) :=
  match l with
  | [] => [(k, v)]
  | (k', v') :: l' =>
      if decide (k = k') then (k, v) :: l'
      else if leb k k' then (k, v) :: l
      else (k', v') :: bt_insert leb k v l'
  end.
Fixpoint bt_get {K V} `{EqDecision K} (k : K) (l : list (K * V)) : option V :=
  match l with
  | [] => None
  | (k', v) :: l' => if decide (k = k') then Some v else bt_get k l'
  end.

(** ** Names and selectors *)

Definition deployment_namespace (r : DeploymentRef) (default_namespace : string) : string :=
  unwrap_or default_namespace (dr_namespace r).
Definition deployment_namespace_spec (s : ManagedDeploymentSpec) (default_namespace : string) : string :=
  unwrap_or default_namespace (mds_namespace s).

Definition label_selector (ls : labels) : string :=
  String.concat "," (map (fun kv => kv.1 +:+ "=" +:+ kv.2) (sorted_entries ls)).

Definition candidate_ref (b : BlueGreenDeployment) : DeploymentRef :=
  {| dr_name := match bgd_status b ≫= st_generated_deployment_name with
                | Some n => n
                | None => bgd_name_or "bgd" b +:+ "-pending"
                end;
     dr_namespace := mds_namespace (bgs_deployment (bgd_spec b)) |}.

(** ** Labels of a deployment and of its pod template *)

Definition green_label : string := "fluidbg.io/green".
Definition ref_label : string := "fluidbg.io/blue-green-ref".
Definition uid_label : string := "fluidbg.io/blue-green-uid".
Definition deployment_label : string := "fluidbg.io/deployment".

Definition with_dep_metadata (m : ObjectMeta) (d : Deployment) : Deployment :=
  {| dep_metadata := m; dep_spec := dep_spec d; dep_status := dep_status d |}.
Definition with_dep_spec (s : DeploymentSpec) (d : Deployment) : Deployment :=
  {| dep_metadata := dep_metadata d; dep_spec := Some s; dep_status := dep_status d |}.
Definition with_template (t : PodTemplateSpec) (s : DeploymentSpec) : DeploymentSpec :=
  {| ds_replicas := ds_replicas s; ds_selector := ds_selector s; ds_template := t; ds_rest := ds_rest s |}.
Definition with_template_metadata (m : ObjectMeta) (t : PodTemplateSpec) : PodTemplateSpec :=
  {| tpl_metadata := Some m; tpl_spec := tpl_spec t |}.

Definition template_metadata (d : Deployment) : option ObjectMeta :=
  s ← dep_spec d; tpl_metadata (ds_template s).

(** [spec.as_mut().and_then(|s| s.template.metadata.as_mut()).map(labels.get_or_insert..)
    .ok_or_else(..)?] followed by an update of the labels. *)
Definition update_template_labels (f : labels -> labels) (d : Deployment)
    : result ReconcileError Deployment :=
  match dep_spec d with
  | Some s =>
      match tpl_metadata (ds_template s) with
      | Some m => Ok (with_dep_spec (with_template
                        (with_template_metadata (update_labels f m) (ds_template s)) s) d)
      | None => Err (StoreErr "deployment template metadata missing")
      end
  | None => Err (StoreErr "deployment template metadata missing")
  end.

Definition update_own_labels (f : labels -> labels) (d : Deployment) : Deployment :=
  with_dep_metadata (update_labels f (dep_metadata d)) d.

Definition selector_empty_error : ReconcileError :=
  StoreErr "selector.matchLabels must contain at least one label".

Definition apply_family_labels_to_deployment (d : Deployment) (to_apply : labels)
    : result ReconcileError Deployment :=
  if bool_decide (to_apply = ∅) then Err selector_empty_error
  else update_template_labels (fun ls => to_apply ∪ ls) (update_own_labels (fun ls => to_apply ∪ ls) d).

Definition apply_rollout_candidate_labels (d : Deployment) (b : BlueGreenDeployment)
    : result ReconcileError Deployment :=
  let f ls := <[uid_label := bgd_uid_or "" b]> (<[ref_label := bgd_name_or "" b]> ls) in
  update_template_labels f (update_own_labels f d).

(** The deployment's own labels are touched only when present. *)
Definition clear_rollout_candidate_labels (d : Deployment) : result ReconcileError Deployment :=
  let f ls := delete uid_label (delete ref_label ls) in
  let d := match meta_labels (dep_metadata d) with
           | Some ls => with_dep_metadata (with_labels (Some (f ls)) (dep_metadata d)) d
           | None => d
           end in
  update_template_labels f d.

Definition set_green_label (d : Deployment) (is_green : bool) : result ReconcileError Deployment :=
  let value := if is_green then "true" else "false" in
  let f ls := <[green_label := value]> ls in
  update_template_labels f (update_own_labels f d).

(** ** Environment of containers *)

(** [iter_mut().find(|e| e.name == name)] set, or push. *)
Fixpoint upsert_env (env : list EnvVar) (name value : string) : list EnvVar :=
  match env with
  | [] => [{| env_name := name; env_value := Some value; env_secret := None |}]
  | e :: env' =>
      if String.eqb (env_name e) name
      then {| env_name := env_name e; env_value := Some value; env_secret := env_secret e |} :: env'
      else e :: upsert_env env' name value
  end.

Definition targets_container (container_name : option string) (c : Container) : bool :=
  match container_name with Some t => String.eqb (ctr_name c) t | None => true end.

Definition set_container_env (f : list EnvVar -> list EnvVar) (c : Container) : Container :=
  {| ctr_name := ctr_name c; ctr_image := ctr_image c; ctr_env := Some (f (unwrap_or [] (ctr_env c)));
     ctr_ports := ctr_ports c; ctr_volume_mounts := ctr_volume_mounts c; ctr_rest := ctr_rest c |}.

Definition map_containers (f : Container -> Container) (p : PodSpec) : PodSpec :=
  {| pod_containers := map f (pod_containers p); pod_volumes := pod_volumes p;
     pod_termination_grace_period_seconds := pod_termination_grace_period_seconds p;
     pod_service_account_name := pod_service_account_name p; pod_rest := pod_rest p |}.

Definition override_env (container_name : option string) (overrides : list (string * string))
    (p : PodSpec) : PodSpec :=
  map_containers (fun c =>
    if targets_container container_name c
    then set_container_env (fun env =>
           fold_left (fun env nv => upsert_env env nv.1 nv.2) overrides env) c
    else c) p.

Definition patch_targeted_deployment_env (ns name : string) (container_name : option string)
    (overrides : list (string * string)) (ignore_missing : bool) : M unit :=
  let! r := request (AGet KDeployment (Some ns) name) in
  match r with
  | Err e => if (is_not_found e && ignore_missing)%bool then ok tt else err (K8sErr e)
  | Ok d =>
      match dep_spec d with
      | None => err (StoreErr ("deployment '" +:+ name +:+ "' has no spec"))
      | Some spec =>
          match tpl_spec (ds_template spec) with
          | None => err (StoreErr ("deployment '" +:+ name +:+ "' has no pod template spec"))
          | Some pod =>
              let t := {| tpl_metadata := tpl_metadata (ds_template spec);
                          tpl_spec := Some (override_env container_name overrides pod) |} in
              do? k8s (request (AReplace KDeployment (Some ns) name
                                  (with_dep_spec (with_template t spec) d))) ;;
              ok tt
          end
      end
  end.

(** ** Readiness *)

Definition deployment_is_ready (d : Deployment) : bool :=
  match dep_spec d, dep_status d with
  | Some spec, Some status =>
      let desired := Z.max (unwrap_or 1 (ds_replicas spec)) 0 in
      let observed_generation := unwrap_or 0 (dst_observed_generation status) in
      let generation := unwrap_or 0 (meta_generation (dep_metadata d)) in
      let updated := unwrap_or 0 (dst_updated_replicas status) in
      let available := unwrap_or 0 (dst_available_replicas status) in
      (Z.leb generation observed_generation && Z.leb desired updated && Z.leb desired available)%bool
  | _, _ => false
  end.

Definition wait_for_deployment_ready (i : DeploymentIdentity) : M unit :=
  let? r := attempts 60 1 (fun _ =>
    let? current := k8s (request (AGet KDeployment (Some (di_namespace i)) (di_name i))) in
    if deployment_is_ready current then ok (Some tt)
    else do! request (ASleep 2000) ;; ok None) in
  match r with
  | Some _ => ok tt
  | None => err (StoreErr ("deployment '" +:+ di_namespace i +:+ "/" +:+ di_name i
                           +:+ "' did not become ready after rollout"))
  end.

Definition wait_for_deployments_ready (l : list DeploymentIdentity) : M unit :=
  for_each l wait_for_deployment_ready.

(** ** The current green deployment *)

Definition named (what : string) (d : Deployment) : result ReconcileError string :=
  ok_or (StoreErr what) (meta_name (dep_metadata d)).

Definition resolve_current_green (ns : string) (selector : DeploymentSelector) : M DeploymentRef :=
  if bool_decide (dsel_match_labels selector = ∅) then err selector_empty_error
  else
    let green_namespace := unwrap_or ns (dsel_namespace selector) in
    let ls := <[green_label := "true"]> (dsel_match_labels selector) in
    let? deployments := k8s (request (AList KDeployment (Some green_namespace) (label_selector ls))) in
    match deployments with
    | [d] =>
        let? name := lift (named "selected green deployment has no name" d) in
        ok {| dr_name := name; dr_namespace := Some green_namespace |}
    | [] =>
        let? family := k8s (request (AList KDeployment (Some green_namespace)
                                       (label_selector (dsel_match_labels selector)))) in
        match family with
        | [d] =>
            let? name := lift (named "selected deployment for green adoption has no name" d) in
            let? adopted := lift (set_green_label d true) in
            do? k8s (request (AReplace KDeployment (Some green_namespace) name adopted)) ;;
            ok {| dr_name := name; dr_namespace := Some green_namespace |}
        | [] => err (StoreErr ("selector matched no deployments in namespace '"
                               +:+ green_namespace +:+ "'"))
        | _ => err (StoreErr ("selector matched " +:+ show_Z (Z.of_nat (length family))
                 +:+ " deployments in namespace '" +:+ green_namespace
                 +:+ "' but none is marked fluidbg.io/green=true; refusing ambiguous adoption"))
        end
    | _ => err (StoreErr ("selector matched " +:+ show_Z (Z.of_nat (length deployments))
             +:+ " green deployments in namespace '" +:+ green_namespace
             +:+ "'; expected exactly one"))
    end.

(** The match on the result of a deletion: a missing object is deleted. *)
Definition deleted (r : result kube_error unit) : result ReconcileError unit :=
  match r with
  | Ok _ => Ok tt
  | Err e => if is_not_found e then Ok tt else Err (K8sErr e)
  end.

Definition delete_current_green (ns : string) (candidate current_green : DeploymentRef) : M unit :=
  let candidate_namespace := deployment_namespace candidate ns in
  let green_namespace := deployment_namespace current_green ns in
  if (String.eqb (dr_name candidate) (dr_name current_green)
      && String.eqb candidate_namespace green_namespace)%bool
  then ok tt
  else
    let! r := request (ADelete KDeployment (Some green_namespace) (dr_name current_green)) in
    lift (deleted r).

Section WithHash.
Context `{Sha256}.

(** ** Assignments *)

(** Where an assignment goes: the deployment and the container. *)
Definition assignment_target (b : BlueGreenDeployment) (ns : string) (green : option DeploymentRef)
    (a : PropertyAssignment) : option DeploymentIdentity :=
  match pa_target a with
  | TargetGreen =>
      (fun g => {| di_namespace := deployment_namespace g ns; di_name := dr_name g |}) <$> green
  | TargetBlue =>
      Some {| di_namespace := deployment_namespace (candidate_ref b) ns;
              di_name := dr_name (candidate_ref b) |}
  | TargetTest =>
      (fun t => {| di_namespace := ns; di_name := test_instance_name b (test_name t) |})
      <$> bgs_test (bgd_spec b)
  end.

Notation grouped := (list (DeploymentPatchKey * gmap string string)).

Definition group_assignment (b : BlueGreenDeployment) (ns : string) (green : option DeploymentRef)
    (acc : grouped * list (DeploymentIdentity * unit)) (a : PropertyAssignment)
    : grouped * list (DeploymentIdentity * unit) :=
  match assignment_target b ns green a with
  | None => acc
  | Some i =>
      let key := {| dpk_namespace := di_namespace i; dpk_name := di_name i;
                    dpk_container_name := pa_container_name a |} in
      let env := unwrap_or ∅ (bt_get key acc.1) in
      (bt_insert patch_key_leb key (<[pa_name a := pa_value a]> env) acc.1,
       bt_insert identity_leb i tt acc.2)
  end.

Definition apply_assignments (b : BlueGreenDeployment) (ns : string)
    (assignments : list PropertyAssignment) (ignore_missing : bool) : M (list DeploymentIdentity) :=
  let? green :=
    if existsb (fun a => bool_decide (pa_target a = TargetGreen)) assignments
    then let? g := resolve_current_green ns (bgs_selector (bgd_spec b)) in ok (Some g)
    else ok None in
  let '(by_key, touched) := fold_left (group_assignment b ns green) assignments ([], []) in
  do? for_each by_key (fun ke =>
    patch_targeted_deployment_env (dpk_namespace ke.1) (dpk_name ke.1) (dpk_container_name ke.1)
      (sorted_entries ke.2) ignore_missing) ;;
  ok (map fst touched).

(** ** The name of the candidate *)

Fixpoint try_candidate_names (b : BlueGreenDeployment) (ns deploy_namespace : string)
    (suffixes : list string) : M (option string) :=
  match suffixes with
  | [] => err (StoreErr "failed to generate a non-colliding deployment name after 32 attempts")
  | suffix :: suffixes' =>
      let candidate_name := candidate_name_with_suffix (bgd_name_or "bgd" b) suffix in
      let! r := request (AGet KDeployment (Some deploy_namespace) candidate_name) in
      match r with
      | Ok _ => try_candidate_names b ns deploy_namespace suffixes'
      | Err e =>
          if is_not_found e then
            do! update_status_generated_deployment_name b ns candidate_name ;; ok None
          else err (K8sErr e)
      end
  end.

Definition ensure_generated_candidate_name (b : BlueGreenDeployment) (ns : string)
    : M (option string) :=
  match bgd_status b ≫= st_generated_deployment_name with
  | Some existing => ok (Some existing)
  | None =>
      try_candidate_names b ns (deployment_namespace_spec (bgs_deployment (bgd_spec b)) ns)
        (deterministic_candidate_suffixes (generated_candidate_name_seed b))
  end.
End WithHash.
