(* ===== verification/Auth.v ===== *)
(** * Plugin authentication

    [sdk/rust/src/auth.rs]: bearer tokens, HMAC-SHA-256 and the signed claims
    (JWT, HS256) by which the operator and the plugins authenticate each other.
    The hash function and the encodings are parameters. *)

From S2P Require Import Prelude RustString Float64 Kube Crd External.

Definition PLUGIN_AUTH_ISSUER : string := "fluidbg-operator".
Definition PLUGIN_AUTH_AUDIENCE : string := "fluidbg-inception-plugin".

Definition new_claims (ns ref ip plugin : string) : PluginAuthClaims :=
  {| cl_iss := PLUGIN_AUTH_ISSUER; cl_aud := PLUGIN_AUTH_AUDIENCE; cl_namespace := ns;
     cl_blue_green_ref := ref; cl_blue_green_uid := None; cl_inception_point := ip;
     cl_plugin := plugin |}.
Definition new_with_uid (ns ref uid ip plugin : string) : PluginAuthClaims :=
  {| cl_iss := PLUGIN_AUTH_ISSUER; cl_aud := PLUGIN_AUTH_AUDIENCE; cl_namespace := ns;
     cl_blue_green_ref := ref; cl_blue_green_uid := Some uid; cl_inception_point := ip;
     cl_plugin := plugin |}.

(** ** Bearer tokens *)

Definition bearer_value (token : string) : string := "Bearer " +:+ token.
Definition bearer_token (header_value : string) : option string := strip_prefix "Bearer " header_value.

(** The fold [acc | (left ^ right)] over the zipped bytes. *)
Definition xor_byte (a b : ascii) : Z := Z.lxor (Z.of_N (N_of_ascii a)) (Z.of_N (N_of_ascii b)).
Definition constant_time_eq (left right : list ascii) : bool :=
  if negb (Nat.eqb (length left) (length right)) then false
  else Z.eqb (fold_left (fun acc lr => Z.lor acc (xor_byte lr.1 lr.2)) (zip left right) 0) 0.

Definition bearer_matches (header_value expected_token : option string) : bool :=
  match expected_token with
  | None => false
  | Some expected =>
      if is_empty expected then false
      else match header_value with
           | None => false
           | Some header =>
               match bearer_token header with
               | Some actual => constant_time_eq (bytes actual) (bytes expected)
               | None => false
               end
           end
  end.

Definition require_bearer_token (header_value expected_token : option string) : result string unit :=
  if bearer_matches header_value expected_token then Ok tt
  else Err "missing or invalid bearer token".

(** ** HMAC-SHA-256 *)

Definition BLOCK_SIZE : nat := 64.

(** [copy_from_slice] into a zeroed block. *)
Definition zero_padded (n : nat) (l : list ascii) : list ascii := l ++ repeat "000"%char (n - length l).

Definition xor_with (b : Z) (l : list ascii) : list ascii :=
  map (fun c => ascii_of_N (Z.to_N (Z.lxor b (Z.of_N (N_of_ascii c))))) l.

Section Crypto.
Context `{Sha256}.

Definition hmac_sha256 (key message : list ascii) : list ascii :=
  let key_block := zero_padded BLOCK_SIZE
                     (if Nat.ltb BLOCK_SIZE (length key) then sha256 key else key) in
  let inner := sha256 (xor_with 54 key_block ++ message) in
  sha256 (xor_with 92 key_block ++ inner).

Context `{Codecs}.

(** ** Signing and verifying *)

Definition sign_plugin_auth_token (claims : PluginAuthClaims) (signing_key : list ascii)
    : result string string :=
  match signing_key with
  | [] => Err "plugin auth signing key must not be empty"
  | _ =>
      header ← header_to_json {| jwt_alg := "HS256"; jwt_typ := "JWT" |};
      body ← claims_to_json claims;
      let signing_input := base64url_encode header +:+ "." +:+ base64url_encode body in
      Ok (signing_input +:+ "." +:+ base64url_encode (hmac_sha256 signing_key (bytes signing_input)))
  end.

Definition verify_plugin_auth_token (token : string) (signing_key : list ascii)
    : result string PluginAuthClaims :=
  match signing_key with
  | [] => Err "plugin auth signing key must not be empty"
  | _ =>
      match split "." token with
      | [encoded_header; encoded_claims; encoded_signature] =>
          raw_header ← map_err (fun _ => "invalid JWT header") (base64url_decode encoded_header);
          header ← map_err (fun _ => "invalid JWT header") (header_of_json raw_header);
          if (negb (String.eqb (jwt_alg header) "HS256") || negb (String.eqb (jwt_typ header) "JWT"))%bool
          then Err "unsupported JWT header"
          else
            let signing_input := encoded_header +:+ "." +:+ encoded_claims in
            let expected := hmac_sha256 signing_key (bytes signing_input) in
            actual ← map_err (fun _ => "invalid JWT signature encoding")
                       (base64url_decode encoded_signature);
            if negb (constant_time_eq actual expected) then Err "JWT signature mismatch"
            else
              raw_claims ← map_err (fun _ => "invalid JWT claims") (base64url_decode encoded_claims);
              claims ← map_err (fun _ => "invalid JWT claims") (claims_of_json raw_claims);
              if (negb (String.eqb (cl_iss claims) PLUGIN_AUTH_ISSUER)
                  || negb (String.eqb (cl_aud claims) PLUGIN_AUTH_AUDIENCE))%bool
              then Err "JWT issuer or audience mismatch"
              else Ok claims
      | [_] => Err "JWT claims missing"
      | [_; _] => Err "JWT signature missing"
      | _ => Err "JWT contains too many segments"
      end
  end.

Definition verify_manager_bearer_token (header_value : option string) (signing_key : list ascii)
    : result string PluginAuthClaims :=
  header ← ok_or "missing authorization header" header_value;
  token ← ok_or "missing bearer token" (bearer_token header);
  verify_plugin_auth_token token signing_key.
End Crypto.

Definition manager_request_matches_claims (req : PluginManagerLifecycleRequest)
    (claims : PluginAuthClaims) : bool :=
  (String.eqb (pml_namespace req) (cl_namespace claims)
   && String.eqb (pml_blue_green_ref req) (cl_blue_green_ref claims)
   && String.eqb (pml_inception_point req) (cl_inception_point claims)
   && String.eqb (pml_plugin req) (cl_plugin claims)
   && bool_decide (pml_blue_green_uid req = cl_blue_green_uid claims))%bool.

Definition require_manager_request_matches_claims (req : PluginManagerLifecycleRequest)
    (claims : PluginAuthClaims) : result string unit :=
  if manager_request_matches_claims req claims then Ok tt
  else Err "manager lifecycle request does not match token claims".

(** ** Correctness of the comparison *)

Lemma xor_byte_zero a b : xor_byte a b = 0 <-> a = b.
Proof.
  unfold xor_byte. rewrite Z.lxor_eq_0_iff. split; [|by intros ->].
  intros E%N2Z.inj. apply (f_equal ascii_of_N) in E. by rewrite !ascii_N_embedding in E.
Qed.

Lemma fold_lor_zero l acc :
  fold_left (fun acc lr => Z.lor acc (xor_byte lr.1 lr.2)) l acc = 0 <->
  acc = 0 /\ Forall (fun lr => lr.1 = lr.2) l.
Proof.
  revert acc. induction l as [|[a b] l IH]; intros acc; cbn [fold_left]; [naive_solver|].
  rewrite IH, Z.lor_eq_0_iff, xor_byte_zero, Forall_cons. cbn. tauto.
Qed.

Lemma zip_all_eq {A} (l r : list A) :
  length l = length r -> Forall (fun lr => lr.1 = lr.2) (zip l r) <-> l = r.
Proof.
  revert r. induction l as [|x l IH]; intros [|y r] Hl; try done. cbn in *.
  rewrite Forall_cons, IH by congruence. cbn. naive_solver.
Qed.

(** The comparison that does not branch on the bytes decides equality. *)
Lemma constant_time_eq_spec l r : constant_time_eq l r = bool_decide (l = r).
Proof.
  unfold constant_time_eq. destruct (Nat.eqb_spec (length l) (length r)) as [E|E]; cbn [negb].
  - destruct (Z.eqb_spec (fold_left (fun acc lr => Z.lor acc (xor_byte lr.1 lr.2)) (zip l r) 0) 0)
      as [Hz|Hz].
    + apply fold_lor_zero in Hz as [_ Hz]. apply zip_all_eq in Hz; [|done].
      symmetry. by apply bool_decide_eq_true.
    + symmetry. apply bool_decide_eq_false. intros ->. apply Hz. apply fold_lor_zero.
      split; [done|]. by apply zip_all_eq.
  - symmetry. apply bool_decide_eq_false. by intros ->.
Qed.

Lemma bearer_round_trip token : bearer_token (bearer_value token) = Some token.
Proof. apply strip_prefix_app. Qed.

Lemma bearer_matches_spec header expected :
  bearer_matches header expected = true <->
  exists token, expected = Some token /\ token <> "" /\ header = Some (bearer_value token).
Proof.
  unfold bearer_matches. destruct expected as [e|]; [|naive_solver].
  destruct (is_empty e) eqn:E.
  { apply is_empty_true in E. subst. naive_solver. }
  assert (e <> "") by (intros ->; done).
  destruct header as [h|]; [|naive_solver].
  destruct (bearer_token h) as [a|] eqn:Eb.
  - apply strip_prefix_Some in Eb. rewrite constant_time_eq_spec, bool_decide_eq_true.
    split.
    + intros <-%bytes_inj. exists a. split_and!; [done|done|]. by rewrite Eb.
    + intros (t & [= <-] & _ & [= ->]). apply sapp_inv_l in Eb. by subst.
  - split; [done|]. intros (t & [= <-] & _ & [= ->]). by rewrite bearer_round_trip in Eb.
Qed.

(** ** What a plugin token proves *)

(** A bearer check accepts exactly the header [Bearer <token>] of the expected token, and no header
    when no token (or an empty one) is expected. *)
Theorem bearer_check (header expected : option string) :
  bearer_matches header expected = true <->
  exists token, expected = Some token /\ token <> "" /\ header = Some (bearer_value token).
Proof. apply bearer_matches_spec. Qed.

Lemma split3 a b c : contains "." a = false -> contains "." b = false -> contains "." c = false ->
  split "." ((a +:+ "." +:+ b) +:+ "." +:+ c) = [a; b; c].
Proof.
  intros Ha Hb Hc.
  replace ((a +:+ "." +:+ b) +:+ "." +:+ c) with (a +:+ String "." (b +:+ String "." c))
    by (by rewrite sapp_assoc).
  by rewrite split_app, split_app, split_none.
Qed.

Section Tokens.
Context `{Sha256, HC : Codecs, HL : !TokenLaws}.

(** C11. A signed token verifies under the same key to the claims that were signed, for every claims
    of the operator's issuer and audience and every non-empty key. *)
Theorem token_round_trip (claims : PluginAuthClaims) (key : list ascii) (Hk : key <> [])
    (Hi : cl_iss claims = PLUGIN_AUTH_ISSUER) (Ha : cl_aud claims = PLUGIN_AUTH_AUDIENCE) :
  exists token, sign_plugin_auth_token claims key = Ok token /\
    verify_plugin_auth_token token key = Ok claims.
Proof.
  destruct (header_round_trip {| jwt_alg := "HS256"; jwt_typ := "JWT" |}) as (jh & Eh & Dh).
  destruct (claims_round_trip claims) as (jc & Ec & Dc).
  unfold sign_plugin_auth_token. destruct key as [|k key]; [done|]. rewrite Eh. cbn [mbind result_bind].
  rewrite Ec. cbn [mbind result_bind].
  eexists. split; [done|]. unfold verify_plugin_auth_token.
  rewrite split3 by apply base64url_no_dot.
  rewrite !base64url_round_trip. cbn [mbind result_bind map_err]. rewrite Dh.
  cbn [mbind result_bind map_err jwt_alg jwt_typ String.eqb Ascii.eqb Bool.eqb negb orb].
  rewrite constant_time_eq_spec, bool_decide_eq_true_2 by done. cbn [negb].
  rewrite Dc. cbn [mbind result_bind map_err]. by rewrite Hi, Ha, !String.eqb_refl.
Qed.

(** C10. Only the holder of the key can make a token that verifies: an accepted token has three
    segments, its header asks for HS256, its third segment decodes to the HMAC-SHA-256 of the
    first two under the key, and the claims are the decoding of the second, of the operator's
    issuer and audience.  (In particular an unsigned token, or one for another algorithm, is
    rejected.) *)
Theorem verified_token_signed (token : string) (key : list ascii) (claims : PluginAuthClaims)
    (Hv : verify_plugin_auth_token token key = Ok claims) :
  exists h c s raw_h raw_c, split "." token = [h; c; s] /\ key <> [] /\
    base64url_decode s = Ok (hmac_sha256 key (bytes (h +:+ "." +:+ c))) /\
    base64url_decode h = Ok raw_h /\ header_of_json raw_h = Ok {| jwt_alg := "HS256"; jwt_typ := "JWT" |} /\
    base64url_decode c = Ok raw_c /\ claims_of_json raw_c = Ok claims /\
    cl_iss claims = PLUGIN_AUTH_ISSUER /\ cl_aud claims = PLUGIN_AUTH_AUDIENCE.
Proof using H HC.
  unfold verify_plugin_auth_token in Hv. destruct key as [|k key]; [done|].
  destruct (split "." token) as [|h [|c [|s [|]]]]; try done.
  exists h, c, s. destruct (base64url_decode h) as [raw_h|] eqn:Eh; [|done]. cbn in Hv.
  destruct (header_of_json raw_h) as [[alg typ]|] eqn:Dh; [|done]. cbn in Hv.
  destruct (String.eqb_spec alg "HS256") as [->|]; [|done].
  destruct (String.eqb_spec typ "JWT") as [->|]; [|done]. cbn in Hv.
  destruct (base64url_decode s) as [actual|] eqn:Es; [|done]. cbn in Hv.
  rewrite constant_time_eq_spec in Hv. case_bool_decide as Ea; [|done]. cbn in Hv.
  destruct (base64url_decode c) as [raw_c|] eqn:Ec; [|done]. cbn in Hv.
  destruct (claims_of_json raw_c) as [cl|] eqn:Dc; [|done]. cbn in Hv.
  destruct (String.eqb_spec (cl_iss cl) PLUGIN_AUTH_ISSUER) as [Hi|]; [|done].
  destruct (String.eqb_spec (cl_aud cl) PLUGIN_AUTH_AUDIENCE) as [Ha|]; [|done].
  injection Hv as <-. exists raw_h, raw_c. split_and!; try done. by rewrite Ea.
Qed.
End Tokens.

Definition sample_key : list ascii := bytes "signing-key".
Definition sample_claims : PluginAuthClaims :=
  new_with_uid "apps" "orders" "uid-1" "incoming" "rabbitmq".

Lemma token_round_trip_witness :
  exists token, @sign_plugin_auth_token sample_sha256 sample_codecs sample_claims sample_key = Ok token /\
    @verify_plugin_auth_token sample_sha256 sample_codecs token sample_key = Ok sample_claims.
Proof.
  apply (@token_round_trip sample_sha256 sample_codecs sample_laws sample_claims sample_key);
    [discriminate | reflexivity | reflexivity].
Defined.

Definition sample_token : string :=
  match @sign_plugin_auth_token sample_sha256 sample_codecs sample_claims sample_key with
  | Ok t => t | Err _ => "" end.

Lemma verified_token_signed_witness :
  exists h c s raw_h raw_c, split "." sample_token = [h; c; s] /\ sample_key <> [] /\
    @base64url_decode sample_codecs s = Ok (@hmac_sha256 sample_sha256 sample_key (bytes (h +:+ "." +:+ c))) /\
    @base64url_decode sample_codecs h = Ok raw_h /\
    @header_of_json sample_codecs raw_h = Ok {| jwt_alg := "HS256"; jwt_typ := "JWT" |} /\
    @base64url_decode sample_codecs c = Ok raw_c /\
    @claims_of_json sample_codecs raw_c = Ok sample_claims /\
    cl_iss sample_claims = PLUGIN_AUTH_ISSUER /\ cl_aud sample_claims = PLUGIN_AUTH_AUDIENCE.
Proof.
  apply (@verified_token_signed sample_sha256 sample_codecs sample_token sample_key sample_claims).
  vm_compute. reflexivity.
Defined.
