(* ===== verification/Plugins.v ===== *)
(** * Inception plugins: validation, templates and generated objects

    [operator/src/validation.rs], [operator/src/plugins/template.rs],
    [plugins/schema.rs] and [plugins/reconciler.rs]: the checks of an inception
    point against its plugin, the rendering of templates, and the pure function
    [reconcile_inception_point] from a plugin and an inception point to the
    Kubernetes objects that run it.  A [serde_json] object lists its members in
    key order. *)

From S2P Require Import Prelude RustString Float64 Kube Crd Effects External Names.

(** ** Roles *)

Definition role_name (r : PluginRole) : string :=
  match r with
  | Duplicator => "duplicator" | Splitter => "splitter" | Combiner => "combiner"
  | Observer => "observer" | Mock => "mock" | Writer => "writer" | Consumer => "consumer"
  end.
(** The same function under its name in [reconciler.rs]. *)
Definition plugin_role_name (r : PluginRole) : string := role_name r.

Definition role_list (roles : list PluginRole) : string := String.concat ", " (map role_name roles).

Definition has_role_in (roles : list PluginRole) (r : PluginRole) : bool :=
  existsb (fun x => bool_decide (x = r)) roles.

(** The first role that occurs again later. *)
Fixpoint duplicate_role (selected : list PluginRole) : option PluginRole :=
  match selected with
  | [] => None
  | r :: rest => if has_role_in rest r then Some r else duplicate_role rest
  end.

Definition validate_roles (available selected : list PluginRole) : result string unit :=
  match selected with
  | [] => Err "inception point must select at least one role"
  | _ =>
      match duplicate_role selected with
      | Some r => Err ("role '" +:+ role_name r +:+ "' is selected more than once")
      | None =>
          match List.find (fun r => negb (has_role_in available r)) selected with
          | Some r => Err ("role '" +:+ role_name r
              +:+ "' is not supported by the selected plugin; supported roles: " +:+ role_list available)
          | None => Ok tt
          end
      end
  end.

Fixpoint check_groups (selected : list PluginRole) (groups : list MutuallyExclusiveRoleGroup)
    : result string unit :=
  match groups with
  | [] => Ok tt
  | g :: groups' =>
      let active := List.filter (has_role_in selected) (merg_roles g) in
      if Nat.ltb 1 (length active) then
        Err ("unsupported role combination: roles " +:+ role_list active
             +:+ " are mutually exclusive for the selected plugin."
             +:+ match merg_reason g with Some reason => " " +:+ reason | None => "" end)
      else check_groups selected groups'
  end.

Definition validate_role_constraints (selected : list PluginRole)
    (constraints : option PluginRoleConstraints) : result string unit :=
  match constraints with
  | None => Ok tt
  | Some c => check_groups selected (prc_mutually_exclusive c)
  end.

Definition validate_role_selection (available selected : list PluginRole)
    (constraints : option PluginRoleConstraints) : result string unit :=
  _ ← validate_roles available selected;
  validate_role_constraints selected constraints.

(** [{:?}] of a string and of a list of strings, for printable text. *)
Definition debug_char (c : ascii) : string :=
  if Ascii.eqb c "034" then "\" +:+ String "034" ""
  else if Ascii.eqb c "\" then "\\"
  else if Ascii.eqb c "010" then "\n"
  else if Ascii.eqb c "013" then "\r"
  else if Ascii.eqb c "009" then "\t"
  else String c "".
Definition debug_string (s : string) : string :=
  String "034" (String.concat "" (map debug_char (bytes s)) +:+ String "034" "").
Definition debug_strings (l : list string) : string :=
  "[" +:+ String.concat ", " (map debug_string l) +:+ "]".

Definition validate_field_namespace (field : string) (supported : list string) : result string unit :=
  let ns := match split_once "." field with Some (l, _) => l | None => field end in
  if existsb (String.eqb ns) supported then Ok tt
  else Err ("field '" +:+ field +:+ "' uses namespace '" +:+ ns
            +:+ "' which is not in supported namespaces: " +:+ debug_strings supported).

(** ** JSON objects *)

Fixpoint json_lookup (k : string) (fields : list (string * json)) : option json :=
  match fields with
  | [] => None
  | (k', v) :: rest => if String.eqb k' k then Some v else json_lookup k rest
  end.
Definition json_get (k : string) (j : json) : option json :=
  match j with JObj fields => json_lookup k fields | _ => None end.

(** [Map::insert], keeping the members in key order. *)
Fixpoint json_insert (k : string) (v : json) (fields : list (string * json)) : list (string * json) :=
  match fields with
  | [] => [(k, v)]
  | (k', v') :: rest =>
      match String.compare k k' with
      | Eq => (k, v) :: rest
      | Lt => (k, v) :: (k', v') :: rest
      | Gt => (k', v') :: json_insert k v rest
      end
  end.

(** [Map::remove]. *)
Fixpoint json_remove (k : string) (fields : list (string * json)) : list (string * json) :=
  match fields with
  | [] => []
  | (k', v) :: rest => if String.eqb k' k then rest else (k', v) :: json_remove k rest
  end.

(** [v.and_then(|v| v.get(key))]. *)
Definition json_member (k : string) (j : option json) : option json :=
  match j with Some v => json_get k v | None => None end.
Definition opt_then {A B} (x : option A) (f : A -> option B) : option B :=
  match x with Some a => f a | None => None end.

Definition as_str (j : json) : option string := match j with JStr s => Some s | _ => None end.
Definition as_bool (j : json) : option bool := match j with JBool b => Some b | _ => None end.

Fixpoint digits_value (l : list ascii) (acc : Z) : option Z :=
  match l with
  | [] => Some acc
  | c :: l' => if is_ascii_digit c then digits_value l' (acc * 10 + Z.of_N (code c - 48)%N) else None
  end.
Definition parse_digits (l : list ascii) : option Z :=
  match l with [] => None | _ => digits_value l 0 end.
(** [as_i64] of a number given by its text. *)
Definition as_i64 (j : json) : option Z :=
  match j with
  | JNum repr =>
      z ← match bytes repr with
          | c :: rest => if Ascii.eqb c "-" then Z.opp <$> parse_digits rest else parse_digits (c :: rest)
          | [] => None
          end;
      if (Z.leb (- 2 ^ 63) z && Z.ltb z (2 ^ 63))%bool then Some z else None
  | _ => None
  end.

(** ** Templates *)

(** [str::replace] with a non-empty pattern; [fuel] bounds the length of [s]. *)
Fixpoint replace_all (fuel : nat) (pat rep s : string) : string :=
  match fuel with
  | O => s
  | S n =>
      match strip_prefix pat s with
      | Some rest => rep +:+ replace_all n pat rep rest
      | None => match s with
                | EmptyString => EmptyString
                | String c s' => String c (replace_all n pat rep s')
                end
      end
  end.
Definition replace (s pat rep : string) : string := replace_all (S (String.length s)) pat rep s.

Definition placeholder (key : string) : string := "{{" +:+ key +:+ "}}".
Definition replacement (v : json) : option string :=
  match v with
  | JStr s => Some s
  | JNum n => Some n
  | JBool b => Some (if b then "true" else "false")
  | _ => None
  end.

Definition render_config_template (template : string) (config : json) : result string string :=
  match config with
  | JObj fields =>
      Ok (fold_left (fun acc kv => match replacement kv.2 with
                                   | Some r => replace acc (placeholder kv.1) r
                                   | None => acc
                                   end) fields template)
  | _ => Ok template
  end.

(** ** The objects of an inception point *)

Record ReconciledResources := {
  rr_config_maps : list ConfigMap;
  rr_secrets : list Secret;
  rr_deployments : list Deployment;
  rr_services : list Service;
  rr_green_env_injections : list EnvVar;
  rr_blue_env_injections : list EnvVar;
  rr_test_env_injections : list EnvVar }.

Record ContainerEnvInjections := {
  cei_green : list EnvVar; cei_blue : list EnvVar; cei_test : list EnvVar }.

Record ReconcileInceptionContext := {
  ric_namespace : string;
  ric_operator_url : string;
  ric_test_container_url : string;
  ric_test_data_verify_path : option string;
  ric_blue_deployment_name : string;
  ric_blue_green_ref : string;
  ric_blue_green_uid : string;
  ric_auth_token : string;
  ric_manager_inceptor_env : list EnvVar;
  ric_manager_config : option json }.

Definition secured_inception_config (_ : InceptionPlugin) (ip : InceptionPoint)
    (c : ReconcileInceptionContext) : json :=
  unwrap_or (ip_config ip) (ric_manager_config c).

Definition env_value_var (name : string) (value : option string) : EnvVar :=
  {| env_name := name; env_value := value; env_secret := None |}.
Definition secret_env_source (secret_name key : string) : SecretKeySelector :=
  {| skr_name := secret_name; skr_key := key; skr_optional := Some false |}.
Definition env_secret_var (name secret_name key : string) : EnvVar :=
  {| env_name := name; env_value := None; env_secret := Some (secret_env_source secret_name key) |}.

Definition render_env_injection_set (injection : option ContainerInjection) (config : json)
    (restore_values : bool) : list EnvVar :=
  match injection with
  | None => []
  | Some i =>
      map (fun e =>
        let name := match opt_then (json_get (ei_name_from_config e) config) as_str with
                    | Some s => s | None => ei_name_from_config e end in
        let template := if restore_values
                        then unwrap_or (ei_value_template e) (ei_restore_value_template e)
                        else ei_value_template e in
        let value := match render_config_template template config with
                     | Ok v => v | Err _ => template end in
        env_value_var name (Some value)) (ci_env i)
  end.

Definition render_container_env_injections (plugin : InceptionPlugin) (template_context : json)
    (restore_values : bool) : ContainerEnvInjections :=
  match ips_injects (plug_spec plugin) with
  | None => {| cei_green := []; cei_blue := []; cei_test := [] |}
  | Some injects =>
      let render i := render_env_injection_set i template_context restore_values in
      {| cei_green := render (inj_green_container injects);
         cei_blue := render (inj_blue_container injects);
         cei_test := render (inj_test_container injects) |}
  end.

Definition upsert_config_volume (volumes : list Volume) (config_name : string) : list Volume :=
  if existsb (fun v => String.eqb (vol_name v) "plugin-config") volumes then volumes
  else volumes ++ [{| vol_name := "plugin-config"; vol_config_map := Some config_name; vol_rest := JNull |}].

Definition ensure_config_mount (c : Container) : Container :=
  let mounts := unwrap_or [] (ctr_volume_mounts c) in
  let mounts := if existsb (fun m => String.eqb (vm_mount_path m) "/etc/fluidbg") mounts then mounts
                else mounts ++ [{| vm_name := "plugin-config"; vm_mount_path := "/etc/fluidbg";
                                   vm_read_only := Some true; vm_rest := JNull |}] in
  {| ctr_name := ctr_name c; ctr_image := ctr_image c; ctr_env := ctr_env c; ctr_ports := ctr_ports c;
     ctr_volume_mounts := Some mounts; ctr_rest := ctr_rest c |}.

(** [if v.is_empty() { None } else { Some(v) }]. *)
Definition non_empty {A} (l : list A) : option (list A) := match l with [] => None | _ => Some l end.

Section Objects.
Context `{Sha256, HC : Codecs}.

Definition validate_config_against_schema (config schema : json) : result (list string) unit :=
  _ ← map_err (fun e => ["invalid schema: " +:+ e]) (schema_compiles schema);
  if schema_is_valid schema config then Ok tt
  else match schema_error schema config with
       | Some e => Err [e]
       | None => Err ["config validation failed"]
       end.

Definition validate_inception_point (plugin : InceptionPlugin) (ip : InceptionPoint)
    : result string unit :=
  _ ← validate_role_selection (ips_supported_roles (plug_spec plugin)) (ip_roles ip)
        (ips_role_constraints (plug_spec plugin));
  map_err (fun errs => "config validation failed: " +:+ debug_strings errs)
    (validate_config_against_schema (ip_config ip) (ips_config_schema (plug_spec plugin))).

Definition insert_http_plugin_urls (fields : list (string * json)) (ref ip : string)
    : list (string * json) :=
  let service_name := inception_service_name ref ip in
  let inbound := json_member "inbound" (json_lookup "tls" fields) in
  let http_port := unwrap_or 9090 (opt_then (json_lookup "port" fields) as_i64) in
  let https_port := unwrap_or 9443 (opt_then (json_member "port" inbound) as_i64) in
  let inbound_tls_enabled := unwrap_or false (opt_then (json_member "enabled" inbound) as_bool) in
  let default_protocol := if inbound_tls_enabled then "https" else "http" in
  let proxy_protocol := unwrap_or default_protocol (opt_then (json_lookup "proxyProtocol" fields) as_str) in
  let write_protocol := unwrap_or proxy_protocol (opt_then (json_lookup "writeProtocol" fields) as_str) in
  let port_for p := if String.eqb p "https" then https_port else http_port in
  let url p := JStr (p +:+ "://" +:+ service_name +:+ ":" +:+ show_Z (port_for p)) in
  json_insert "writeUrl" (url write_protocol) (json_insert "proxyUrl" (url proxy_protocol) fields).

Definition plugin_template_context (ip : InceptionPoint) (ns ref : string) : json :=
  let base fields :=
    json_insert "pluginServiceName" (JStr (inception_service_name ref (ip_name ip)))
      (json_insert "pluginDeploymentName" (JStr (inception_instance_base_name ref (ip_name ip)))
         (json_insert "namespace" (JStr ns)
            (json_insert "blueGreenRef" (JStr ref)
               (json_insert "inceptionPoint" (JStr (ip_name ip)) fields)))) in
  match ip_config ip with
  | JObj fields => JObj (insert_http_plugin_urls (base fields) ref (ip_name ip))
  | _ => JObj (base [])
  end.

(** The labels of the objects of an inception point. *)
Definition inception_labels (ip : InceptionPoint) (c : ReconcileInceptionContext) : labels :=
  {["fluidbg.io/inception-point" := ip_name ip;
    "fluidbg.io/blue-green-ref" := ric_blue_green_ref c;
    "fluidbg.io/blue-green-uid" := ric_blue_green_uid c]}.

Definition inception_config_data (plugin : InceptionPlugin) (config : json)
    : result string (gmap string string) :=
  let plain := Ok {["config.yaml" := match yaml_of_json config with Ok y => y | Err _ => "" end]} in
  match ips_config_template (plug_spec plugin) with
  | Some template =>
      if negb (is_empty template)
      then rendered ← render_config_template template config; Ok {["config.yaml" := rendered]}
      else plain
  | None => plain
  end.

Definition inceptor_env (plugin : InceptionPlugin) (ip : InceptionPoint)
    (c : ReconcileInceptionContext) (auth_secret_name : string) : list EnvVar :=
  [env_value_var "FLUIDBG_OPERATOR_URL" (Some (ric_operator_url c));
   env_value_var "FLUIDBG_TESTCASE_REGISTRATION_URL"
     (Some (trim_end_matches "/" (ric_operator_url c) +:+ "/testcases"));
   env_value_var "FLUIDBG_TEST_CONTAINER_URL" (Some (ric_test_container_url c));
   env_value_var "FLUIDBG_TESTCASE_VERIFY_PATH_TEMPLATE" (ric_test_data_verify_path c);
   env_value_var "FLUIDBG_INCEPTION_POINT" (Some (ip_name ip));
   env_value_var "FLUIDBG_BLUE_GREEN_REF" (Some (ric_blue_green_ref c));
   env_value_var "FLUIDBG_ACTIVE_ROLES" (Some (String.concat "," (map plugin_role_name (ip_roles ip))));
   env_value_var "FLUIDBG_CONFIG_PATH" (Some "/etc/fluidbg/config.yaml");
   env_secret_var "FLUIDBG_PLUGIN_AUTH_TOKEN" auth_secret_name "plugin-auth-token";
   env_value_var "FLUIDBG_INCEPTOR_INFRA_DISABLED"
     (Some (if is_some (ips_manager (plug_spec plugin)) then "true" else "false"))]
  ++ inc_env (ips_inceptor (plug_spec plugin))
  ++ map (fun e => env_secret_var (env_name e) auth_secret_name (env_name e)) (ric_manager_inceptor_env c).

(** The token and the values the manager returned are kept in the secret only. *)
Definition inception_secret_data (c : ReconcileInceptionContext) : gmap string string :=
  fold_left (fun m e => match env_value e with Some v => <[env_name e := v]> m | None => m end)
    (ric_manager_inceptor_env c) {["plugin-auth-token" := ric_auth_token c]}.

Definition inception_deployment (plugin : InceptionPlugin) (ip : InceptionPoint)
    (c : ReconcileInceptionContext) : Deployment :=
  let inceptor := ips_inceptor (plug_spec plugin) in
  let name := inception_instance_base_name (ric_blue_green_ref c) (ip_name ip) in
  let auth_secret_name := inception_auth_secret_name (ric_blue_green_ref c) (ip_name ip) in
  let config_name := inception_config_map_name (ric_blue_green_ref c) (ip_name ip) in
  let ls := <["app" := name]> (inception_labels ip c) in
  let container :=
    {| ctr_name := name; ctr_image := Some (ips_image (plug_spec plugin));
       ctr_env := Some (inceptor_env plugin ip c auth_secret_name);
       ctr_ports := non_empty (map (fun p => {| cport_name := Some (pp_name p);
                      cport_container_port := pp_container_port p; cport_rest := JNull |})
                      (inc_ports inceptor));
       ctr_volume_mounts := non_empty (map (fun m => {| vm_name := pvm_name m;
                      vm_mount_path := pvm_mount_path m; vm_read_only := pvm_read_only m;
                      vm_rest := JNull |}) (inc_volume_mounts inceptor));
       ctr_rest := JNull |} in
  let pod :=
    {| pod_containers := [ensure_config_mount container];
       pod_volumes := Some (upsert_config_volume (inc_volumes inceptor) config_name);
       pod_termination_grace_period_seconds := Some 1;
       pod_service_account_name := inc_service_account_name inceptor; pod_rest := JNull |} in
  let template_meta :=
    {| meta_name := None; meta_namespace := None; meta_uid := None;
       meta_labels := Some (inc_pod_labels inceptor ∪ ls);
       meta_annotations := if bool_decide (inc_pod_annotations inceptor = ∅) then None
                           else Some (inc_pod_annotations inceptor);
       meta_generation := None; meta_resource_version := None; meta_finalizers := None;
       meta_deletion_timestamp := None; meta_owner_references := None; meta_rest := JNull |} in
  {| dep_metadata := named_meta name (Some (ric_namespace c)) (Some ls);
     dep_spec := Some {| ds_replicas := None;
                         ds_selector := {| sel_match_labels := Some ls; sel_rest := JNull |};
                         ds_template := {| tpl_metadata := Some template_meta; tpl_spec := Some pod |};
                         ds_rest := JNull |};
     dep_status := None |}.

Definition inception_service (plugin : InceptionPlugin) (ip : InceptionPoint)
    (c : ReconcileInceptionContext) : Service :=
  let name := inception_instance_base_name (ric_blue_green_ref c) (ip_name ip) in
  {| svc_metadata := named_meta (inception_service_name (ric_blue_green_ref c) (ip_name ip))
       (Some (ric_namespace c)) (Some (<["app" := name]> (inception_labels ip c)));
     svc_spec := Some {| svc_selector := Some {["app" := name]};
       svc_ports := Some (map (fun p => {| sp_name := Some (pp_name p); sp_port := pp_container_port p;
                                           sp_target_port := Some (pp_container_port p);
                                           sp_rest := JNull |})
                            (inc_ports (ips_inceptor (plug_spec plugin))));
       svc_rest := JNull |} |}.

Definition reconcile_inception_point (plugin : InceptionPlugin) (ip : InceptionPoint)
    (c : ReconcileInceptionContext) : result string ReconciledResources :=
  _ ← validate_inception_point plugin ip;
  config_data ← inception_config_data plugin (secured_inception_config plugin ip c);
  let meta name := named_meta name (Some (ric_namespace c)) (Some (inception_labels ip c)) in
  let injections := render_container_env_injections plugin
                      (plugin_template_context ip (ric_namespace c) (ric_blue_green_ref c)) false in
  Ok {| rr_config_maps := [{| cm_metadata := meta (inception_config_map_name (ric_blue_green_ref c) (ip_name ip));
                              cm_data := Some config_data |}];
        rr_secrets := [{| sec_metadata := meta (inception_auth_secret_name (ric_blue_green_ref c) (ip_name ip));
                          sec_data := Some (inception_secret_data c) |}];
        rr_deployments := [inception_deployment plugin ip c];
        rr_services := [inception_service plugin ip c];
        rr_green_env_injections := cei_green injections;
        rr_blue_env_injections := cei_blue injections;
        rr_test_env_injections := cei_test injections |}.
End Objects.
