(* ===== verification/PluginsTheorems.v ===== *)
(** * Inception points: which role selections are accepted, and what the
    generated objects reveal *)

From S2P Require Import Prelude RustString Float64 Kube Crd Effects External Names Plugins.

(** ** A sample plugin, inception point and context *)

Definition sample_inceptor (pod_labels : labels) : PluginInceptor :=
  {| inc_env := []; inc_volumes := []; inc_ports := [{| pp_name := "http"; pp_container_port := 9090 |}];
     inc_volume_mounts := []; inc_pod_labels := pod_labels; inc_pod_annotations := ∅;
     inc_service_account_name := None; inc_control_plane_tls := None |}.
Definition sample_plugin (pod_labels : labels) : InceptionPlugin :=
  {| plug_metadata := named_meta "http" None None;
     plug_spec := {| ips_description := "HTTP"; ips_image := "http:1";
       ips_supported_roles := [Observer; Mock; Splitter; Combiner];
       ips_role_constraints := Some {| prc_mutually_exclusive :=
         [{| merg_roles := [Splitter; Combiner]; merg_reason := None |}] |};
       ips_topology := Standalone; ips_field_namespaces := ["http"]; ips_config_schema := JNull;
       ips_config_template := Some "port: {{port}}"; ips_inceptor := sample_inceptor pod_labels;
       ips_lifecycle := None; ips_manager := None; ips_injects := None; ips_features := None |} |}.
Definition sample_ip : InceptionPoint :=
  {| ip_name := "calls"; ip_plugin_ref := "http"; ip_roles := [Observer; Splitter];
     ip_config := JObj [("port", JNum "8080")]; ip_drain := None |}.
Definition sample_context (token : string) (env : list EnvVar) : ReconcileInceptionContext :=
  {| ric_namespace := "apps"; ric_operator_url := "http://operator:8090/";
     ric_test_container_url := "http://test:80"; ric_test_data_verify_path := None;
     ric_blue_deployment_name := "orders-b"; ric_blue_green_ref := "orders"; ric_blue_green_uid := "uid-1";
     ric_auth_token := token; ric_manager_inceptor_env := env; ric_manager_config := None |}.

(** ** Role selections *)

Lemma has_role_in_spec roles r : has_role_in roles r = true <-> r ∈ roles.
Proof.
  unfold has_role_in. rewrite existsb_exists, list_elem_of_In. split.
  - intros (x & Hx & E%bool_decide_eq_true). by subst.
  - intros Hr. exists r. by rewrite bool_decide_eq_true.
Qed.
#[export] Hint Rewrite has_role_in_spec : plugins.

Lemma duplicate_role_none selected : duplicate_role selected = None <-> NoDup selected.
Proof.
  induction selected as [|r l IH]; cbn; [split; [constructor|done]|].
  rewrite NoDup_cons. destruct (has_role_in l r) eqn:E.
  - apply has_role_in_spec in E. naive_solver.
  - rewrite IH, <- has_role_in_spec. naive_solver congruence.
Qed.

Lemma unsupported_role_none available selected :
  List.find (fun r => negb (has_role_in available r)) selected = None
  <-> forall r, r ∈ selected -> r ∈ available.
Proof.
  induction selected as [|r l IH]; cbn; [set_solver|].
  destruct (has_role_in available r) eqn:E; cbn.
  - apply has_role_in_spec in E. rewrite IH. set_solver.
  - split; [done|]. intros H. specialize (H r (list_elem_of_here _ _)).
    apply has_role_in_spec in H. congruence.
Qed.

Lemma check_groups_ok selected groups :
  check_groups selected groups = Ok tt
  <-> Forall (fun g => (length (List.filter (has_role_in selected) (merg_roles g)) <= 1)%nat) groups.
Proof.
  induction groups as [|g gs IH]; cbn [check_groups]; [by split|].
  rewrite Forall_cons. destruct (Nat.ltb_spec 1 (length (List.filter (has_role_in selected) (merg_roles g)))).
  - split; [done|]. intros [? _]; lia.
  - rewrite IH. naive_solver.
Qed.

Definition groups_of (constraints : option PluginRoleConstraints) : list MutuallyExclusiveRoleGroup :=
  match constraints with Some c => prc_mutually_exclusive c | None => [] end.

(** A role selection is accepted exactly when it is not empty, selects no
    role twice, selects only roles the plugin supports, and selects at most one
    entry of each mutually exclusive group. *)
Theorem role_selection_accepted available selected constraints :
  validate_role_selection available selected constraints = Ok tt
  <-> selected <> [] /\ NoDup selected /\ (forall r, r ∈ selected -> r ∈ available)
      /\ Forall (fun g => (length (List.filter (has_role_in selected) (merg_roles g)) <= 1)%nat)
           (groups_of constraints).
Proof.
  unfold validate_role_selection. rewrite result_bind_ok.
  rewrite <- check_groups_ok, <- duplicate_role_none, <- unsupported_role_none.
  unfold validate_roles, validate_role_constraints, groups_of.
  destruct selected as [|r l]; [naive_solver|].
  destruct (duplicate_role (r :: l)); [naive_solver|].
  destruct (List.find _ (r :: l)), constraints; naive_solver.
Qed.

(** ** What the generated objects reveal *)

Section Secrets.
Context `{Sha256, HC : Codecs}.

(** Two contexts that differ at most in the auth token and in the values (not
    the names) of the manager's inceptor environment. *)
Definition same_public_context (c1 c2 : ReconcileInceptionContext) : Prop :=
  ric_namespace c1 = ric_namespace c2 /\ ric_operator_url c1 = ric_operator_url c2
  /\ ric_test_container_url c1 = ric_test_container_url c2
  /\ ric_test_data_verify_path c1 = ric_test_data_verify_path c2
  /\ ric_blue_green_ref c1 = ric_blue_green_ref c2 /\ ric_blue_green_uid c1 = ric_blue_green_uid c2
  /\ ric_manager_config c1 = ric_manager_config c2
  /\ map env_name (ric_manager_inceptor_env c1) = map env_name (ric_manager_inceptor_env c2).

Lemma same_public_deployment plugin ip c1 c2 :
  same_public_context c1 c2 -> inception_deployment plugin ip c1 = inception_deployment plugin ip c2.
Proof.
  intros (E1 & E2 & E3 & E4 & E5 & E6 & E7 & E8).
  assert (forall a, map (fun e => env_secret_var (env_name e) a (env_name e)) (ric_manager_inceptor_env c1)
          = map (fun e => env_secret_var (env_name e) a (env_name e)) (ric_manager_inceptor_env c2)) as Henv.
  { intros a. rewrite <- (map_map env_name (fun n => env_secret_var n a n)), E8. by rewrite map_map. }
  unfold inception_deployment, inceptor_env, inception_labels.
  by rewrite E1, E2, E3, E4, E5, E6, Henv.
Qed.

Definition public_part (r : ReconciledResources) :=
  (rr_config_maps r, rr_deployments r, rr_services r,
   rr_green_env_injections r, rr_blue_env_injections r, rr_test_env_injections r).

(** C21. The auth token and the values the plugin manager returned for the
    inceptor never influence anything but the generated secret: the config map,
    the deployment, the service and the environment injections are the same
    whatever these values are. *)
Theorem secrets_do_not_leak plugin ip c1 c2 r1 r2 :
  same_public_context c1 c2 ->
  reconcile_inception_point plugin ip c1 = Ok r1 ->
  reconcile_inception_point plugin ip c2 = Ok r2 ->
  public_part r1 = public_part r2.
Proof.
  intros Hs. unfold reconcile_inception_point.
  rewrite (same_public_deployment plugin ip _ _ Hs).
  unfold inception_service, inception_labels, secured_inception_config.
  destruct Hs as (-> & _ & _ & _ & -> & -> & -> & _).
  intros (? & _ & (d & Hd & [= <-])%result_bind_ok)%result_bind_ok.
  intros (? & _ & (d' & Hd' & [= <-])%result_bind_ok)%result_bind_ok.
  rewrite Hd in Hd'. injection Hd' as <-. reflexivity.
Qed.

Lemma secret_data_kept (l : list EnvVar) (m : gmap string string) k :
  is_Some (m !! k) ->
  is_Some ((fold_left (fun m e => match env_value e with Some v => <[env_name e := v]> m | None => m end) l m) !! k).
Proof.
  revert m. induction l as [|e l IH]; intros m Hm; cbn; [done|]. apply IH.
  destruct (env_value e); [|done]. destruct (decide (env_name e = k)) as [->|].
  - rewrite lookup_insert_eq. eauto.
  - by rewrite lookup_insert_ne.
Qed.

Lemma secret_data_total (l : list EnvVar) (m : gmap string string) e v :
  e ∈ l -> env_value e = Some v ->
  is_Some ((fold_left (fun m e => match env_value e with Some v => <[env_name e := v]> m | None => m end) l m)
             !! env_name e).
Proof.
  revert m. induction l as [|e' l IH]; intros m; cbn; [set_solver|].
  intros [->|Hin]%elem_of_cons Hv; [|by apply IH].
  rewrite Hv. apply secret_data_kept. rewrite lookup_insert_eq. eauto.
Qed.

(** Every secret reference the operator itself adds to the inceptor's
    environment resolves: it names the secret generated in the same pass, and
    the key it asks for is in that secret's data (references are not optional,
    so a missing key would keep the pod from starting).  The manager's
    variables are required to carry a value. *)
Theorem secret_references_resolve plugin ip c e key :
  (forall m, m ∈ ric_manager_inceptor_env c -> env_value m <> None) ->
  e ∈ inceptor_env plugin ip c (inception_auth_secret_name (ric_blue_green_ref c) (ip_name ip)) ->
  e ∉ inc_env (ips_inceptor (plug_spec plugin)) ->
  env_secret e = Some key ->
  skr_name key = inception_auth_secret_name (ric_blue_green_ref c) (ip_name ip)
  /\ is_Some (inception_secret_data c !! skr_key key).
Proof.
  intros Hval Hin Hop Hkey. unfold inceptor_env in Hin. rewrite !elem_of_app in Hin.
  destruct Hin as [Hin|[Hin|Hin]].
  - rewrite !elem_of_cons, elem_of_nil in Hin.
    destruct_or! Hin; subst e; try discriminate Hkey.
    injection Hkey as <-. split; [done|]. apply secret_data_kept. cbn.
    eexists. apply lookup_singleton_eq.
  - done.
  - apply list_elem_of_fmap in Hin as (m & -> & Hm). injection Hkey as <-.
    split; [done|]. cbn [skr_key secret_env_source].
    destruct (env_value m) as [v|] eqn:E; [|by apply Hval in Hm].
    by eapply secret_data_total.
Qed.

(** The pods of an inceptor match the selector of their deployment exactly
    when the plugin's [podLabels] do not redefine one of the four selector
    labels with another value; nothing in the operator enforces this. *)
Theorem inceptor_selector_matches plugin ip c :
  let ls := <["app" := inception_instance_base_name (ric_blue_green_ref c) (ip_name ip)]>
              (inception_labels ip c) in
  let d := inception_deployment plugin ip c in
  (forall spec m l, dep_spec d = Some spec -> tpl_metadata (ds_template spec) = Some m ->
     meta_labels m = Some l ->
     sel_match_labels (ds_selector spec) = Some ls
     /\ (ls ⊆ l <-> map_agree (inc_pod_labels (ips_inceptor (plug_spec plugin))) ls)).
Proof.
  cbv zeta. intros spec m l [= <-] [= <-] [= <-]. split; [done|].
  rewrite map_subseteq_spec, map_agree_spec. split.
  - intros Hsub k x y Hx Hy. specialize (Hsub k y Hy).
    rewrite (lookup_union_Some_l _ _ _ _ Hx) in Hsub. congruence.
  - intros Hag k y Hy. destruct (inc_pod_labels (ips_inceptor (plug_spec plugin)) !! k) as [x|] eqn:Hx.
    + rewrite (lookup_union_Some_l _ _ _ _ Hx). f_equal. eauto.
    + by rewrite lookup_union_r.
Qed.
End Secrets.

Lemma secrets_do_not_leak_witness :
  let run c := @reconcile_inception_point sample_sha256 sample_codecs (sample_plugin ∅) sample_ip c in
  let c1 := sample_context "token-1" [env_value_var "CONN" (Some "amqp://a")] in
  let c2 := sample_context "token-2" [env_value_var "CONN" (Some "amqp://b")] in
  exists r1 r2, run c1 = Ok r1 /\ run c2 = Ok r2 /\ public_part r1 = public_part r2.
Proof.
  intros run c1 c2. eexists _, _. split; [reflexivity|]. split; [reflexivity|].
  apply (@secrets_do_not_leak sample_sha256 sample_codecs (sample_plugin ∅) sample_ip c1 c2);
    [repeat split|reflexivity|reflexivity].
Defined.

Lemma secret_references_resolve_witness :
  let c := sample_context "token-1" [env_value_var "CONN" (Some "amqp://a")] in
  let name := @inception_auth_secret_name sample_sha256 "orders" "calls" in
  is_Some (inception_secret_data c !! "CONN").
Proof.
  intros c name.
  refine (proj2 (@secret_references_resolve sample_sha256 (sample_plugin ∅) sample_ip c
                   (env_secret_var "CONN" name "CONN") (secret_env_source name "CONN") _ _ _ _)).
  - intros m Hm. apply elem_of_cons in Hm as [->|Hm]; [discriminate|]. by apply elem_of_nil in Hm.
  - do 10 apply list_elem_of_further. apply list_elem_of_here.
  - apply not_elem_of_nil.
  - reflexivity.
Defined.

Lemma inceptor_selector_matches_witness :
  let c := sample_context "token-1" [] in
  let ls := <["app" := @inception_instance_base_name sample_sha256 "orders" "calls"]>
              (inception_labels sample_ip c) in
  ~ (ls ⊆ {["app" := "mine"]} ∪ ls).
Proof.
  intros c ls. pose (plugin := sample_plugin {["app" := "mine"]}).
  destruct (@inceptor_selector_matches sample_sha256 plugin sample_ip c _ _ _ eq_refl eq_refl eq_refl)
    as [_ H].
  intros Hsub. apply H in Hsub. rewrite map_agree_spec in Hsub.
  specialize (Hsub "app" "mine" _ eq_refl eq_refl). vm_compute in Hsub. discriminate.
Defined.
