(* ===== verification/Sdk.v ===== *)
(** * The plugin SDK

    The part of [sdk/rust/src] that the plugins share: configuration from the environment
    ([config.rs]), field selection and matching ([fields.rs], [http.rs]), worker roles
    ([roles.rs]), weighted routing ([routing.rs]), delivery of observations and
    registrations ([notify.rs], [runtime.rs]). *)

From S2P Require Import Prelude RustString Float64 Kube Crd StateStore InceptorEffects Effects.
From S2P Require Import External Names SipHash Auth Plugins.

(** ** models.rs: what only the plugins use *)

Record ObserverConfig := {
  ob_test_id : option TestIdSelector;
  ob_match : list FilterCondition;
  ob_notify_path : option string }.

Inductive PayloadSelection := PayloadRequest | PayloadResponse | PayloadBoth.

Record NotificationFilter := {
  nf_match : list FilterCondition;
  nf_notify_path : option string;
  nf_mock_path : option string;
  nf_payload : option PayloadSelection }.

Record TrafficShiftResponse := { tsp_traffic_percent : Z }.

Record HttpWriteRequest := {
  hwr_test_id : option string;
  hwr_payload : json;
  hwr_method : option string;
  hwr_headers : option json;
  hwr_path : option string }.

(** ** Parsing *)

(** [char::is_whitespace]: the ASCII and the other characters of Unicode's White_Space. *)
Definition is_whitespace (u : uchar) : bool :=
  match map code u with
  | [c] => (N.leb 9 c && N.leb c 13 || N.eqb c 32)%bool
  | [194%N; c] => (N.eqb c 133 || N.eqb c 160)%bool
  | [225%N; 154%N; 128%N] => true
  | [226%N; 128%N; c] => (N.leb 128 c && N.leb c 138 || N.eqb c 168 || N.eqb c 169 || N.eqb c 175)%bool
  | [226%N; 129%N; 159%N] => true
  | [227%N; 128%N; 128%N] => true
  | _ => false
  end.
(** [str::trim]. *)
Definition trim (s : string) : string :=
  of_chars (rev (drop_while is_whitespace (rev (drop_while is_whitespace (chars s))))).

Definition PluginRole_parse (value : string) : option PluginRole :=
  let v := trim value in
  if String.eqb v "duplicator" then Some Duplicator
  else if String.eqb v "splitter" then Some Splitter
  else if String.eqb v "combiner" then Some Combiner
  else if String.eqb v "observer" then Some Observer
  else if String.eqb v "mock" then Some Mock
  else if String.eqb v "writer" then Some Writer
  else if String.eqb v "consumer" then Some Consumer
  else None.

(** [str::parse] of an unsigned integer: digits, with an optional sign, below [2^bits]. *)
Definition parse_unsigned (bits : Z) (s : string) : option Z :=
  let digits := match bytes s with c :: rest => if Ascii.eqb c "+" then rest else c :: rest | [] => [] end in
  z ← parse_digits digits; if Z.ltb z (2 ^ bits) then Some z else None.

(** ** Programs that fail with a message

    [anyhow::Result]: of an error with context only the outermost context is kept. *)

Definition bind_err {E A B} (p : prog (result E A)) (f : A -> prog (result E B)) : prog (result E B) :=
  bind_prog p (fun r => match r with Ok a => f a | Err e => Ret (Err e) end).
Notation "'let*' x := p 'in' q" := (bind_err p (fun x => q))
  (at level 200, x binder, p at level 100, q at level 200, right associativity,
   format "'[v' 'let*'  x  :=  p  'in' '/' q ']'").
Notation "'do*' p ;; q" := (bind_err p (fun _ => q))
  (at level 200, p at level 99, q at level 200, right associativity).
Definition with_error {E F A} (e : F) (p : prog (result E A)) : prog (result F A) :=
  let! r := p in Ret (map_err (fun _ => e) r).

(** [for x in xs { body?; }]. *)
Fixpoint each {X E} (xs : list X) (body : X -> prog (result E unit)) : prog (result E unit) :=
  match xs with
  | [] => Ret (Ok tt)
  | x :: xs' => bind_err (body x) (fun _ => each xs' body)
  end.

(** [loop]: a turn goes on with a new state ([inl]) or ends the loop ([inr]).  A run of a
    loop is looked at for [n] turns; [None] when it has not ended by then. *)
Fixpoint loop {S A} (n : nat) (s : S) (turn : S -> prog (S + A)) : prog (option A) :=
  match n with
  | O => Ret None
  | S n' => let! t := turn s in match t with inl s' => loop n' s' turn | inr a => Ret (Some a) end
  end.

(** Sequences of programs some of whose loops have not ended. *)
Definition bind_loop {A B} (p : prog (option A)) (f : A -> prog (option B)) : prog (option B) :=
  bind_prog p (fun r => match r with Some a => f a | None => Ret None end).
Definition bind_loop_err {E A B} (p : prog (option (result E A))) (f : A -> prog (option (result E B)))
    : prog (option (result E B)) :=
  bind_loop p (fun r => match r with Ok a => f a | Err e => Ret (Some (Err e)) end).
Definition whole {A} (p : prog A) : prog (option A) := let! a := p in Ret (Some a).
Fixpoint loop_of_loops {S A} (n : nat) (s : S) (turn : S -> prog (option (S + A))) : prog (option A) :=
  match n with
  | O => Ret None
  | S n' => bind_loop (turn s) (fun t =>
              match t with inl s' => loop_of_loops n' s' turn | inr a => Ret (Some a) end)
  end.
Notation "'let%' x := p 'in' q" := (bind_loop p (fun x => q))
  (at level 200, x binder, p at level 100, q at level 200, right associativity,
   format "'[v' 'let%'  x  :=  p  'in' '/' q ']'").
Notation "'let%*' x := p 'in' q" := (bind_loop_err p (fun x => q))
  (at level 200, x binder, p at level 100, q at level 200, right associativity,
   format "'[v' 'let%*'  x  :=  p  'in' '/' q ']'").
Notation "'do%*' p ;; q" := (bind_loop_err p (fun _ => q))
  (at level 200, p at level 99, q at level 200, right associativity).

(** ** config.rs *)

Definition env (name : string) : prog (option string) := request (AEnv name).

Definition roles_of_text (s : string) : list PluginRole := omap PluginRole_parse (split "," s).
Definition active_roles : prog (list PluginRole) :=
  let! v := env "FLUIDBG_ACTIVE_ROLES" in Ret (roles_of_text (unwrap_or "" v)).

Definition has_role (roles : list PluginRole) (r : PluginRole) : bool := has_role_in roles r.

Definition traffic_percent_of_text (v : option string) : Z :=
  Z.min (unwrap_or 100 (v ≫= parse_unsigned 8)) 100.
Definition traffic_percent_from_env : prog Z :=
  let! v := env "FLUIDBG_TRAFFIC_PERCENT" in Ret (traffic_percent_of_text v).

Definition env_port (name : string) (d : Z) : prog Z :=
  let! v := env name in Ret (unwrap_or d (v ≫= parse_unsigned 16)).

Definition flag_is_set (v : option string) : bool :=
  match v with
  | Some s => existsb (String.eqb s) ["1"; "true"; "TRUE"; "yes"; "YES"]
  | None => false
  end.
Definition env_flag (name : string) : prog bool := let! v := env name in Ret (flag_is_set v).

Definition non_empty (v : option string) : option string :=
  match v with Some s => if is_empty s then None else Some s | None => None end.
Definition optional_env (name : string) : prog (option string) := let! v := env name in Ret (non_empty v).

Record ControlPlaneServerTls := {
  cps_enabled : bool; cps_cert_path : option string; cps_key_path : option string }.

Definition server_tls_from_env : prog ControlPlaneServerTls :=
  let! e := env_flag "FLUIDBG_CONTROL_PLANE_TLS_ENABLED" in
  let! c := optional_env "FLUIDBG_CONTROL_PLANE_TLS_CERT_PATH" in
  let! k := optional_env "FLUIDBG_CONTROL_PLANE_TLS_KEY_PATH" in
  Ret {| cps_enabled := e; cps_cert_path := c; cps_key_path := k |}.

(** ** fields.rs *)

(** [Regex::new] and [Regex::is_match], [None] when the pattern does not compile; [regex::escape]. *)
Class Regexes := { regex_new : string -> option (string -> bool); regex_escape : string -> string }.

(** [serde_json::from_slice]. *)
Class JsonText := { json_of_bytes : string -> option json; json_to_bytes : json -> string }.

Fixpoint json_path_walk (keys : list string) (current : json) : option json :=
  match keys with
  | [] => Some current
  | key :: keys' => json_get key current ≫= json_path_walk keys'
  end.

Definition scalar_text (v : json) : option string :=
  match v with
  | JStr s => Some s
  | JNum n => Some n
  | JBool b => Some (if b then "true" else "false")
  | _ => None
  end.

Definition json_path_keys (path : string) : list string :=
  let stripped := unwrap_or path (strip_prefix "$" path) in
  let stripped := unwrap_or stripped (strip_prefix "." stripped) in
  split "." stripped.

Definition extract_json_path (value : json) (path : string) : option string :=
  json_path_walk (json_path_keys path) value ≫= scalar_text.

Section Matching.
Context `{Regexes}.

Definition condition_matches (value : option string) (c : FilterCondition) : bool :=
  match value with
  | None => false
  | Some value =>
      match fc_equals c with
      | Some expected => String.eqb value expected
      | None =>
          match fc_matches c with
          | Some pattern => match regex_new pattern with Some is_match => is_match value | None => false end
          | None => true
          end
      end
  end.

Definition match_conditions (conditions : list FilterCondition)
    (resolver : FilterCondition -> option string) : bool :=
  match conditions with
  | [] => true
  | _ => forallb (fun c => condition_matches (resolver c) c) conditions
  end.
End Matching.

(** ** http.rs *)

Definition split_path_query (path_and_query : string) : string * string :=
  match split_once "?" path_and_query with Some pq => pq | None => (path_and_query, "") end.

Definition body_field (json_path : option string) (body : json) : option string :=
  match json_path with Some p => extract_json_path body p | None => as_str body end.

(** [for pair in query.split('&')]: the value of the first pair with the key and a [=]. *)
Fixpoint query_value (key : string) (pairs : list string) : option string :=
  match pairs with
  | [] => None
  | p :: pairs' =>
      match split_once "=" p with
      | Some (k, v) => if String.eqb k key then Some v else query_value key pairs'
      | None => query_value key pairs'
      end
  end.

Definition resolve_http_field (c : FilterCondition) (method path : string) (body : json)
    (header_lookup : string -> option string) : option string :=
  let '(path_only, query_str) := split_path_query path in
  if String.eqb (fc_field c) "http.method" then Some method
  else if String.eqb (fc_field c) "http.path" then Some path_only
  else if String.eqb (fc_field c) "http.body" then body_field (fc_json_path c) body
  else match strip_prefix "http.header." (fc_field c) with
       | Some key => header_lookup key
       | None => match strip_prefix "http.query." (fc_field c) with
                 | Some key => query_value key (split "&" query_str)
                 | None => None
                 end
       end.

(** [nth((segment - 1) as usize)] of the non-empty parts; a negative index is beyond any path. *)
Definition path_part (path : string) (segment : Z) : option string :=
  let i := wrap_i32 (segment - 1) in
  if Z.ltb i 0 then None
  else nth_error (List.filter (fun part => negb (is_empty part)) (split "/" path)) (Z.to_nat i).

Definition extract_http_test_id (selector : TestIdSelector) (body : json) (path : string)
    (header_lookup : string -> option string) : option string :=
  let '(path_only, _) := split_path_query path in
  match tis_value selector with
  | Some value => Some value
  | None =>
      match tis_field selector with
      | None => None
      | Some field =>
          if String.eqb field "http.body" then body_field (tis_json_path selector) body
          else if String.eqb field "http.path" then
            match tis_path_segment selector with
            | Some segment => path_part path_only segment
            | None => Some path_only
            end
          else strip_prefix "http.header." field ≫= header_lookup
      end
  end.

(** ** roles.rs *)

Inductive QueueWorkerRole := InputWorker | CombinerWorker.

Definition movement_roles : list PluginRole := [Duplicator; Splitter; Combiner; Consumer].

Definition role_debug (r : PluginRole) : string :=
  match r with
  | Duplicator => "Duplicator" | Splitter => "Splitter" | Combiner => "Combiner" | Observer => "Observer"
  | Mock => "Mock" | Writer => "Writer" | Consumer => "Consumer"
  end.

Definition queue_worker_role (roles : list PluginRole) : result string (option QueueWorkerRole) :=
  let active := List.filter (has_role_in roles) movement_roles in
  if Nat.ltb 1 (length active) then
    Err ("queue movement roles are mutually exclusive; selected roles: ["
         +:+ String.concat ", " (map role_debug active) +:+ "]")
  else Ok match active with
          | Combiner :: _ => Some CombinerWorker
          | _ :: _ => Some InputWorker
          | [] => None
          end.

(** ** routing.rs *)

Definition routes_to_blue (payload : string) (traffic_percent : Z) : bool :=
  if Z.eqb traffic_percent 0 then false
  else if Z.leb 100 traffic_percent then true
  else Z.ltb (hash_bytes (bytes payload) mod 100) traffic_percent.

(** ** Routes *)

Definition route_text (r : TrafficRoute) : string :=
  match r with
  | RouteBlue => "blue" | RouteGreen => "green" | RouteBoth => "both" | RouteUnknown => "unknown"
  end.
Definition should_register_case (r : TrafficRoute) : bool :=
  match r with RouteGreen => false | _ => true end.

(** ** runtime.rs *)

Record PluginInceptorRuntime := {
  rt_client : string;
  rt_roles : list PluginRole;
  rt_testcase_registration_url : string;
  rt_test_container_url : string;
  rt_testcase_verify_path_template : option string;
  rt_inception_point : string;
  rt_blue_green_ref : string;
  rt_auth_token : option string }.

Definition runtime_has_role (rt : PluginInceptorRuntime) (r : PluginRole) : bool := has_role (rt_roles rt) r.

Definition auth_token_from_env : prog (option string) := optional_env "FLUIDBG_PLUGIN_AUTH_TOKEN".

(** The client built from the environment; the default client when that fails. *)
Definition runtime_http_client : prog (result string string) :=
  let! insecure := env_flag "FLUIDBG_OPERATOR_INSECURE_SKIP_VERIFY" in
  let! ca := optional_env "FLUIDBG_OPERATOR_CA_CERT_PATH" in
  let! cert :=
    match ca with
    | None => Ret (Ok tt)
    | Some path =>
        let! pem := request (AReadFile path) in
        match pem with
        | Err e => Ret (Err ("failed to read operator CA certificate " +:+ path +:+ ": " +:+ e))
        | Ok pem =>
            let! parsed := request (AParseCert pem) in
            Ret (map_err (fun e => "failed to parse operator CA certificate " +:+ path +:+ ": " +:+ e) parsed)
        end
    end in
  match cert with
  | Err e => Ret (Err e)
  | Ok _ => let! built := request ABuildClient in
            Ret match built with Ok _ => Ok "runtime" | Err e => Err e end
  end.

Definition runtime_from_env : prog PluginInceptorRuntime :=
  let! client := runtime_http_client in
  let! roles := active_roles in
  let! registration := env "FLUIDBG_TESTCASE_REGISTRATION_URL" in
  let! container := env "FLUIDBG_TEST_CONTAINER_URL" in
  let! template := env "FLUIDBG_TESTCASE_VERIFY_PATH_TEMPLATE" in
  let! ip := env "FLUIDBG_INCEPTION_POINT" in
  let! ref := env "FLUIDBG_BLUE_GREEN_REF" in
  let! token := auth_token_from_env in
  Ret {| rt_client := match client with Ok c => c | Err _ => "default" end;
         rt_roles := roles;
         rt_testcase_registration_url := unwrap_or "http://localhost:8090/testcases" registration;
         rt_test_container_url := unwrap_or "http://localhost:8080" container;
         rt_testcase_verify_path_template := template;
         rt_inception_point := unwrap_or "unknown" ip;
         rt_blue_green_ref := unwrap_or "unknown" ref;
         rt_auth_token := token |}.

(** ** notify.rs *)

Definition DELIVERY_ATTEMPTS : nat := 10.
Definition DELIVERY_RETRY_DELAY : Z := 250.

Definition render_path (template test_id inception_point : string) : string :=
  replace (replace template "{testId}" test_id) "{inceptionPoint}" inception_point.

Definition is_success (status : Z) : bool := (Z.leb 200 status && Z.ltb status 300)%bool.
Definition is_error_status (status : Z) : bool := (Z.leb 400 status && Z.ltb status 600)%bool.
Definition retryable_status (status : Z) : bool :=
  (Z.eqb status 408 || Z.eqb status 429 || (Z.leb 500 status && Z.ltb status 600))%bool.

Definition bearer_header (token : option string) : list (string * string) :=
  match token with Some t => [("authorization", bearer_value t)] | None => [] end.

Definition post (client url : string) (token : option string) (body : payload) : http_call :=
  {| call_client := client; call_method := "POST"; call_url := url;
     call_headers := bearer_header token; call_basic_auth := None; call_payload := body |}.

(** [n] attempts are left; [last] is the last failure. *)
Fixpoint retry_status_request (n : nat) (last : option string) (c : http_call) : prog (result string unit) :=
  match n with
  | O => Ret (Err (unwrap_or "request failed" last))
  | S n' =>
      let again e := do! (match n' with O => Ret tt | S _ => request (ASleep DELIVERY_RETRY_DELAY) end) ;;
                     retry_status_request n' (Some e) c in
      let! sent := request (AInceptor (ICall c)) in
      match (sent : result string call_response) with
      | Ok response =>
          if is_success (cr_status response) then Ret (Ok tt)
          else if negb (retryable_status (cr_status response)) then
            Ret (if is_error_status (cr_status response)
                 then Err ("HTTP status error " +:+ show_Z (cr_status response)) else Ok tt)
          else again ("HTTP status " +:+ show_Z (cr_status response))
      | Err e => again e
      end
  end.

Definition notify_observer (rt : PluginInceptorRuntime) (notify_path test_id : string) (body : json)
    (route : TrafficRoute) : prog (result string unit) :=
  let path := render_path notify_path test_id (rt_inception_point rt) in
  let notification := {| on_test_id := test_id; on_inception_point := rt_inception_point rt;
                         on_route := route_text route; on_payload := body |} in
  let url := trim_end_matches "/" (rt_test_container_url rt) +:+ path in
  retry_status_request DELIVERY_ATTEMPTS None
    (post (rt_client rt) url (rt_auth_token rt) (NotificationPayload notification)).

Definition register_test_case (rt : PluginInceptorRuntime) (test_id : string) : prog (result string unit) :=
  let verify_url := (fun path => trim_end_matches "/" (rt_test_container_url rt)
                                 +:+ render_path path test_id (rt_inception_point rt))
                    <$> rt_testcase_verify_path_template rt in
  let! now := request ANow in
  let r := {| rtc_test_id := test_id; rtc_blue_green_ref := rt_blue_green_ref rt;
              rtc_inception_point := rt_inception_point rt; rtc_triggered_at := Some now;
              rtc_timeout_seconds := Some 120; rtc_verify_url := verify_url |} in
  retry_status_request DELIVERY_ATTEMPTS None
    (post (rt_client rt) (rt_testcase_registration_url rt) (rt_auth_token rt) (RegistrationPayload r)).
