(* ===== verification/SdkNames.v ===== *)
(** * Names the plugins derive

    [sdk/rust/src/resources.rs]: temporary queues of an inception point, their shadow
    queues, and the identities the managers create. *)

From S2P Require Import Prelude RustString Float64 Kube Crd Status External Names.

Definition MAX_DERIVED_QUEUE_NAME_LEN : nat := 63.
Definition STABLE_SUFFIX_LEN : nat := 16.

(** [str::rsplit_once]: at the last occurrence. *)
Fixpoint rsplit_once (c : ascii) (s : string) : option (string * string) :=
  match s with
  | EmptyString => None
  | String x s' =>
      match rsplit_once c s' with
      | Some (l, r) => Some (String x l, r)
      | None => if Ascii.eqb x c then Some ("", s') else None
      end
  end.

Definition is_ascii_hexdigit (c : ascii) : bool :=
  (is_ascii_digit c || in_range 97 102 c || in_range 65 70 c)%bool.

Definition stable_suffix_from_name (name : string) : option (string * string) :=
  match rsplit_once "-" name with
  | Some (prefix, suffix) =>
      if (Nat.eqb (String.length suffix) STABLE_SUFFIX_LEN
          && forallb (uchar_ascii is_ascii_hexdigit) (chars suffix))%bool
      then Some (prefix, suffix) else None
  | None => None
  end.

Definition temp_queue_kind (logical : string) : string :=
  if String.eqb logical "green-input" then "green-in"
  else if String.eqb logical "blue-input" then "blue-in"
  else if String.eqb logical "green-output" then "green-out"
  else if String.eqb logical "blue-output" then "blue-out"
  else "tmp".

(** The ASCII letters and digits, lower-cased. *)
Definition sanitize_identifier (value : string) : string :=
  of_bytes (omap (fun u => match uchar_lower u with
                           | [b] => if is_ascii_alphanumeric b then Some b else None
                           | _ => None
                           end) (chars value)).

Definition sanitize (value : string) : string :=
  let trimmed := sanitize_dns_label value in
  if is_empty trimmed then "queue" else take_chars 38 trimmed.

Definition is_separator (b : ascii) : bool := (Ascii.eqb b "-" || Ascii.eqb b "_" || Ascii.eqb b ".")%bool.

Definition sanitize_shadow_suffix (value : string) : string :=
  of_chars (take 24 (List.filter
    (fun u => (uchar_ascii is_ascii_alphanumeric u || uchar_ascii is_separator u)%bool) (chars value))).

Definition count_chars (s : string) : nat := length (chars s).

(** [trim_end_matches(['-', '_', '.'])]. *)
Definition trim_separators (s : string) : string :=
  of_bytes (rev (drop_while is_separator (rev (bytes s)))).

Definition derived_shadow_queue_name (temp_queue_name shadow_suffix : string) : string :=
  let shadow_suffix := sanitize_shadow_suffix shadow_suffix in
  if forallb (uchar_ascii is_separator) (chars shadow_suffix) then temp_queue_name
  else if Nat.leb (count_chars temp_queue_name + count_chars shadow_suffix) MAX_DERIVED_QUEUE_NAME_LEN
  then temp_queue_name +:+ shadow_suffix
  else match stable_suffix_from_name temp_queue_name with
       | Some (prefix, suffix) =>
           let budget := Nat.max (MAX_DERIVED_QUEUE_NAME_LEN
                                  - (count_chars shadow_suffix + 1 + String.length suffix)) 1 in
           take_chars budget (trim_separators prefix) +:+ shadow_suffix +:+ "-" +:+ suffix
       | None =>
           take_chars (MAX_DERIVED_QUEUE_NAME_LEN - count_chars shadow_suffix) temp_queue_name
           +:+ shadow_suffix
       end.

Section Hashed.
Context `{Sha256}.

(** The first sixteen hexadecimal digits of the digest. *)
Definition stable_suffix (parts : list string) : string :=
  of_bytes (take 16 (bytes (hex_string (sha256 (name_parts parts))))).

Definition temporary_queue_identifier_token (value : string) : option string :=
  let normalized := sanitize_identifier value in
  if is_empty normalized then None
  else
    let suffix := take_chars 4 (stable_suffix [value]) in
    let prefix_len := (10 - String.length suffix)%nat in
    Some (take_chars prefix_len normalized +:+ suffix).

Definition derived_temp_queue_name_with_uid_and_identifier
    (namespace blue_green_ref blue_green_uid inception_point role logical : string)
    (temporary_queue_identifier : option string) : string :=
  let identifier := temporary_queue_identifier ≫= temporary_queue_identifier_token in
  let suffix := stable_suffix [namespace; blue_green_ref; blue_green_uid; inception_point; role; logical;
                               unwrap_or "" identifier] in
  match identifier with
  | Some identifier => "fluidbg-" +:+ temp_queue_kind logical +:+ "-" +:+ identifier +:+ "-" +:+ suffix
  | None => "fluidbg-" +:+ temp_queue_kind logical +:+ "-" +:+ suffix
  end.

Definition derived_temp_queue_name_with_uid
    (namespace blue_green_ref blue_green_uid inception_point role logical : string) : string :=
  derived_temp_queue_name_with_uid_and_identifier namespace blue_green_ref blue_green_uid inception_point
    role logical None.

Definition derived_temp_queue_name (namespace blue_green_ref inception_point role logical : string) : string :=
  derived_temp_queue_name_with_uid namespace blue_green_ref "" inception_point role logical.

Definition derived_scoped_identity_name (prefix namespace blue_green_ref blue_green_uid inception_point : string)
    (max_len : nat) : string :=
  let suffix := stable_suffix [namespace; blue_green_ref; blue_green_uid; inception_point] in
  let safe_prefix := sanitize prefix in
  let budget := Nat.max (max_len - (String.length suffix + 2)) 1 in
  let readable := sanitize (namespace +:+ "-" +:+ blue_green_ref +:+ "-" +:+ inception_point) in
  let readable := take_chars budget readable in
  take_chars max_len (safe_prefix +:+ "-" +:+ readable +:+ "-" +:+ suffix).
End Hashed.
