(* ===== verification/SdkTheorems.v ===== *)
(** * What the plugin SDK guarantees

    Theorems about [Sdk] and [SdkNames]: the roles the operator writes are the roles the
    plugin reads, a payload has one threshold of the traffic percentage, deliveries are
    bounded and report success only after one, and derived queue names do not collide. *)

From S2P Require Import Prelude RustString Float64 Kube Crd StateStore InceptorEffects Effects.
From S2P Require Import External Promotion Status Names NamesTheorems SipHash Auth Plugins Sdk SdkNames.

(** ** Roles *)

Lemma role_name_no_comma r : contains "," (plugin_role_name r) = false.
Proof. by destruct r. Qed.

Lemma split_concat_comma l x :
  Forall (fun s => contains "," s = false) (x :: l) -> split "," (String.concat "," (x :: l)) = x :: l.
Proof.
  revert x. induction l as [|y l IH]; intros x Hl; apply Forall_cons in Hl as [Hx Hl].
  - by apply split_none.
  - change (String.concat "," (x :: y :: l)) with (x +:+ String "," (String.concat "," (y :: l))).
    by rewrite split_app, IH.
Qed.

Lemma parse_role_name r : PluginRole_parse (plugin_role_name r) = Some r.
Proof. by destruct r. Qed.

Lemma roles_of_concat roles : roles_of_text (String.concat "," (map plugin_role_name roles)) = roles.
Proof.
  unfold roles_of_text. destruct roles as [|r roles]; [done|]. cbn [map]. rewrite split_concat_comma.
  - change (plugin_role_name r :: map plugin_role_name roles) with (map plugin_role_name (r :: roles)).
    induction (r :: roles) as [|x l IH]; [done|]. cbn [map omap list_omap].
    by rewrite parse_role_name, IH.
  - apply Forall_forall. intros s Hs.
    change (s ∈ plugin_role_name <$> r :: roles) in Hs. apply list_elem_of_fmap in Hs as (x & -> & _).
    apply role_name_no_comma.
Qed.

Definition env_named (name : string) (l : list EnvVar) : option string :=
  v ← List.find (fun e => String.eqb (env_name e) name) l; env_value v.

(** The roles an inceptor reads from its environment are the roles of the inception point, in their
    order: the operator's [FLUIDBG_ACTIVE_ROLES] is parsed back by the SDK. *)
Theorem active_roles_round_trip (plugin : InceptionPlugin) (ip : InceptionPoint)
    (c : ReconcileInceptionContext) (auth_secret_name : string) :
  roles_of_text (unwrap_or "" (env_named "FLUIDBG_ACTIVE_ROLES" (inceptor_env plugin ip c auth_secret_name)))
  = ip_roles ip.
Proof.
  change (roles_of_text (String.concat "," (map plugin_role_name (ip_roles ip))) = ip_roles ip).
  apply roles_of_concat.
Qed.

(** ** Routing *)

(** Each payload has one threshold: it goes to blue from that percentage on. *)
Lemma routing_threshold payload :
  exists t, 0 <= t < 100 /\ forall percent, routes_to_blue payload percent = Z.ltb t percent.
Proof.
  exists (hash_bytes (bytes payload) mod 100).
  pose proof (Z.mod_pos_bound (hash_bytes (bytes payload)) 100 ltac:(lia)) as Hb.
  split; [exact Hb|]. intros p. unfold routes_to_blue.
  destruct (Z.eqb_spec p 0) as [->|]; [symmetry; apply Z.ltb_ge; lia|].
  destruct (Z.leb_spec 100 p); [symmetry; apply Z.ltb_lt; lia|done].
Qed.

Lemma routes_to_blue_monotone payload p q :
  p <= q -> routes_to_blue payload p = true -> routes_to_blue payload q = true.
Proof. destruct (routing_threshold payload) as (t & _ & Ht). rewrite !Ht, !Z.ltb_lt. lia. Qed.

(** ** Deliveries *)

(** Whether an answer to a delivery is final. *)
Definition final_answer (a : result string call_response) : option bool :=
  match a with
  | Ok r => if is_success (cr_status r) then Some true
            else if retryable_status (cr_status r) then None
            else Some (negb (is_error_status (cr_status r)))
  | Err _ => None
  end.

(** [delivered n l b]: of at most [n] attempts those answered [l] were made, and [b] says
    whether the delivery was reported. *)
Inductive delivered : nat -> list (result string call_response) -> bool -> Prop :=
| delivered_final n a b : final_answer a = Some b -> delivered (S n) [a] b
| delivered_again n a l b : final_answer a = None -> delivered n l b -> delivered (S n) (a :: l) b
| delivered_spent : delivered O [] false.

Lemma delivered_bound n l b : delivered n l b ->
  (length l <= n)%nat /\ (b = true -> exists a l', l = l' ++ [a] /\ final_answer a = Some true).
Proof.
  induction 1 as [n a b Ha|n a l b Ha _ [IHn IH]|]; cbn [length].
  - split; [lia|]. intros ->. by exists a, [].
  - split; [lia|]. intros Hb. destruct (IH Hb) as (a' & l' & -> & ?). by exists a', (a :: l').
  - by split; [lia|].
Qed.

Definition call_reply (op : inceptor_op) : inceptor_reply op -> option (http_call * result string call_response) :=
  match op as o return inceptor_reply o -> option (http_call * result string call_response) with
  | ICall c => fun r => Some (c, r)
  | _ => fun _ => None
  end.
(** The HTTP calls of a trace and their answers. *)
Definition http_calls (tr : trace) : list (http_call * result string call_response) :=
  omap (fun e => match e with
                 | Ev act r =>
                     match act as a return reply a -> option (http_call * result string call_response) with
                     | AInceptor op => call_reply op
                     | _ => fun _ => None
                     end r
                 end) tr.

Lemma retry_outcome n : forall last c tr r,
  exec (retry_status_request n last c) tr r ->
  exists l, http_calls tr = map (pair c) l /\ delivered n l (is_ok r).
Proof.
  induction n as [|n IH]; intros last c tr r.
  { cbn. intros [-> ->]. exists []. split; [done|apply delivered_spent]. }
  cbn [retry_status_request]. intros (a & tr' & -> & He)%exec_request.
  assert (Hagain : forall e, final_answer a = None ->
    exec (do! match n with O => Ret tt | S _ => request (ASleep DELIVERY_RETRY_DELAY) end ;;
          retry_status_request n (Some e) c) tr' r ->
    exists l, http_calls (Ev (AInceptor (ICall c)) a :: tr') = map (pair c) l /\ delivered (S n) l (is_ok r)).
  { clear He. intros e Ha He. apply exec_bind in He as (tr1 & tr2 & u & -> & H1 & H2).
    destruct (IH _ _ _ _ H2) as (l & El & Hl). exists (a :: l). split; [|by apply delivered_again].
    assert (http_calls (tr1 ++ tr2) = http_calls tr2) as E1.
    { destruct n; [by destruct H1 as [-> _]|].
      destruct tr1 as [|e1 [|]]; cbn in H1; [done| |]; destruct H1 as (? & -> & H1); [done|by destruct H1]. }
    change ((c, a) :: http_calls (tr1 ++ tr2) = (c, a) :: map (pair c) l). by rewrite E1, El. }
  destruct a as [response|e]; [|exact (Hagain _ eq_refl He)]. cbn [final_answer] in Hagain.
  destruct (is_success (cr_status response)) eqn:Es; [|destruct (retryable_status (cr_status response)) eqn:Er].
  - destruct He as [-> ->]. exists [Ok response]. split; [done|]. apply delivered_final. cbn. by rewrite Es.
  - exact (Hagain _ eq_refl He).
  - destruct He as [-> ->]. exists [Ok response]. split; [done|]. apply delivered_final. cbn.
    rewrite Es, Er. by destruct (is_error_status _).
Qed.

(** A delivery makes the call and sleeps, nothing else. *)
Lemma retry_only (P : action -> Prop) n last c :
  P (AInceptor (ICall c)) -> P (ASleep DELIVERY_RETRY_DELAY) -> only P (retry_status_request n last c).
Proof.
  intros Hc Hs. revert last. induction n as [|n IH]; intros last; [done|]. cbn [retry_status_request].
  split; [done|].
  assert (forall e, only P (do! match n with O => Ret tt | S _ => request (ASleep DELIVERY_RETRY_DELAY) end ;;
     retry_status_request n (Some e) c)) as Hagain.
  { intros e. apply only_bind; [by destruct n|]. intros _. apply IH. }
  intros [response|e]; [|apply Hagain]. cbn [bind_prog].
  destruct (is_success _); [done|]. destruct (negb _); [done|apply Hagain].
Qed.

(** A test case is registered, or an observation delivered, by at most ten equal requests; the ones
    before the last got no final answer, and success is reported on a success status (or one that is
    no error at all). *)
Lemma register_delivery rt test_id tr r :
  exec (register_test_case rt test_id) tr r ->
  exists l now, delivered DELIVERY_ATTEMPTS l (is_ok r) /\ http_calls tr = map (pair
    (post (rt_client rt) (rt_testcase_registration_url rt) (rt_auth_token rt)
       (RegistrationPayload
          {| rtc_test_id := test_id; rtc_blue_green_ref := rt_blue_green_ref rt;
             rtc_inception_point := rt_inception_point rt; rtc_triggered_at := Some now;
             rtc_timeout_seconds := Some 120;
             rtc_verify_url := (fun path => trim_end_matches "/" (rt_test_container_url rt)
               +:+ render_path path test_id (rt_inception_point rt)) <$> rt_testcase_verify_path_template rt |}))) l.
Proof.
  unfold register_test_case. cbv zeta. intros (now & tr' & -> & He)%exec_request.
  apply retry_outcome in He as (l & El & Hl). exists l, now. by split.
Qed.

(** ** Queue names *)

Lemma name_parts_inj_list ps qs :
  length ps = length qs -> Forall fits ps -> Forall fits qs -> name_parts ps = name_parts qs -> ps = qs.
Proof.
  revert qs. induction ps as [|p ps IH]; intros [|q qs] Hl Hp Hq E; try done.
  apply Forall_cons in Hp as [Hp Hps], Hq as [Hq Hqs]. unfold name_parts in *. cbn [map concat] in E.
  apply part_inj in E as [-> E]; [|done..]. f_equal. apply IH; auto.
Qed.

Section Hashed.
Context `{Sha256}.

Lemma stable_suffix_is_edge parts : all_bytes label_edge (stable_suffix parts) = true.
Proof. unfold stable_suffix. rewrite all_bytes_of_bytes. apply forallb_take, hex_string_edge. Qed.
Lemma length_stable_suffix parts : String.length (stable_suffix parts) = 16%nat.
Proof.
  unfold stable_suffix. by rewrite length_of_bytes, length_take, length_bytes, hex_string_length, sha256_length.
Qed.

Lemma stable_suffix_collision ps qs :
  stable_suffix ps = stable_suffix qs -> take 8 (sha256 (name_parts ps)) = take 8 (sha256 (name_parts qs)).
Proof.
  intros E. unfold stable_suffix in E. apply (f_equal list_ascii_of_string) in E.
  rewrite !bytes_of_bytes in E. change 16%nat with (2 * 8)%nat in E. rewrite !take_hex in E.
  apply bytes_inj in E. apply hex_string_inj in E; [done|]. by rewrite !length_take, !sha256_length.
Qed.

Lemma sanitize_identifier_dns value : all_bytes label_edge (sanitize_identifier value) = true.
Proof.
  unfold sanitize_identifier. rewrite all_bytes_of_bytes.
  induction (chars value) as [|u l IH]; [done|]. cbn [omap list_omap].
  destruct u as [|x [|y w]]; cbn [uchar_lower]; try exact IH.
  destruct (is_ascii_alphanumeric (to_ascii_lowercase x)) eqn:Ex; [|exact IH].
  cbn [forallb]. apply andb_true_iff. split; [|exact IH].
  revert Ex. destruct x as [[] [] [] [] [] [] [] []]; vm_compute; congruence.
Qed.

Lemma edges_all_dns s : all_bytes label_edge s = true -> all_bytes dns_char s = true.
Proof. apply edges_dns. Qed.

Lemma identifier_token_ok value token : temporary_queue_identifier_token value = Some token ->
  all_bytes dns_char token = true /\ (String.length token <= 10)%nat.
Proof.
  unfold temporary_queue_identifier_token. cbv zeta. case_match; [done|]. intros [= <-].
  pose proof (edges_all_dns _ (sanitize_identifier_dns value)) as Hd.
  pose proof (edges_all_dns _ (stable_suffix_is_edge [value])) as Hs.
  assert (String.length (take_chars 4 (stable_suffix [value])) = 4)%nat as Hl.
  { rewrite take_chars_dns, length_of_bytes, length_take, length_bytes, length_stable_suffix by done. done. }
  rewrite Hl, all_bytes_app, !take_chars_all_dns, length_sapp, Hl by done.
  pose proof (take_chars_length (10 - 4) _ Hd). split; [done|lia].
Qed.

Lemma temp_queue_kind_ok logical :
  all_bytes dns_char (temp_queue_kind logical) = true /\ (String.length (temp_queue_kind logical) <= 9)%nat.
Proof. unfold temp_queue_kind. repeat case_match; split; try reflexivity; cbn; lia. Qed.

Lemma temp_queue_name_shape ns ref uid ip role logical ident :
  exists mid, all_bytes dns_char mid = true /\ (String.length mid <= 21)%nat
  /\ derived_temp_queue_name_with_uid_and_identifier ns ref uid ip role logical ident
     = "fluidbg-" +:+ mid +:+ stable_suffix [ns; ref; uid; ip; role; logical;
                          unwrap_or "" (ident ≫= temporary_queue_identifier_token)].
Proof.
  unfold derived_temp_queue_name_with_uid_and_identifier. cbv zeta.
  destruct (temp_queue_kind_ok logical) as [Hk Hl].
  destruct (ident ≫= temporary_queue_identifier_token) as [token|] eqn:Et.
  - destruct ident as [value|]; [|done]. destruct (identifier_token_ok _ _ Et) as [Ht Hlt].
    exists (temp_queue_kind logical +:+ "-" +:+ token +:+ "-").
    rewrite !all_bytes_app, !length_sapp, Hk, Ht. cbn [String.length]. by rewrite !sapp_assoc; split_and!; [|lia|].
  - exists (temp_queue_kind logical +:+ "-").
    rewrite !all_bytes_app, !length_sapp, Hk. cbn [String.length]. by rewrite !sapp_assoc; split_and!; [|lia|].
Qed.

(** The temporary queue of an inception point has a name that is a DNS label, and two queues (of
    different deployments, points, roles, logical queues or identifiers) share a name only when
    SHA-256 collides in its first eight bytes. *)
Theorem temp_queue_names (ns ref uid ip role logical ns' ref' uid' ip' role' logical' : string)
    (ident ident' : option string) :
  dns_label (derived_temp_queue_name_with_uid_and_identifier ns ref uid ip role logical ident) = true /\
  (derived_temp_queue_name_with_uid_and_identifier ns ref uid ip role logical ident
     = derived_temp_queue_name_with_uid_and_identifier ns' ref' uid' ip' role' logical' ident' ->
   Forall fits [ns; ref; uid; ip; role; logical] -> Forall fits [ns'; ref'; uid'; ip'; role'; logical'] ->
   (ns, ref, uid, ip, role, logical) = (ns', ref', uid', ip', role', logical')
   \/ exists m m', m <> m' /\ take 8 (sha256 m) = take 8 (sha256 m')).
Proof.
  destruct (temp_queue_name_shape ns ref uid ip role logical ident) as (mid & Hm & Hl & ->).
  destruct (temp_queue_name_shape ns' ref' uid' ip' role' logical' ident') as (mid' & Hm' & Hl' & ->).
  set (t := unwrap_or "" (ident ≫= _)). set (t' := unwrap_or "" (ident' ≫= _)).
  assert (forall i, fits (unwrap_or "" (i ≫= temporary_queue_identifier_token))) as Ht.
  { intros [v|]; [|done]. cbn [mbind option_bind]. destruct (temporary_queue_identifier_token v) eqn:E; [|done].
    destruct (identifier_token_ok _ _ E) as [_ Hb]. unfold fits. cbn. lia. }
  split.
  - apply dns_label_suffix; auto; [apply stable_suffix_is_edge|rewrite length_stable_suffix; cbn; lia..].
  - intros E Hf Hf'. rewrite <- !sapp_assoc in E.
    apply sapp_inj_suffix in E; [|by rewrite !length_stable_suffix].
    apply stable_suffix_collision in E.
    destruct (decide ([ns; ref; uid; ip; role; logical; t] = [ns'; ref'; uid'; ip'; role'; logical'; t']))
      as [Eq|Hne]; [left; congruence|right].
    eexists _, _. split; [|exact E]. intros Ep. apply Hne.
    apply name_parts_inj_list in Ep; [done|done|..]; [apply (Forall_app_2 _ [_;_;_;_;_;_] [_])|
      apply (Forall_app_2 _ [_;_;_;_;_;_] [_])]; try done; apply Forall_singleton; apply Ht.
Qed.
End Hashed.

(** ** Shadow queues *)

Definition is_ascii (b : ascii) : bool := N.ltb (code b) 128.

Lemma dns_is_ascii b : dns_char b = true -> is_ascii b = true.
Proof. destruct b as [[] [] [] [] [] [] [] []]; vm_compute; congruence. Qed.

Lemma count_chars_ascii s : all_bytes is_ascii s = true -> count_chars s = String.length s.
Proof.
  unfold count_chars, chars, all_bytes. rewrite <- length_bytes. generalize (bytes s) as l. clear s.
  induction l as [|b l IH]; [done|]. cbn [forallb chars_of]. intros [Hb Hl]%andb_true_iff.
  specialize (IH Hl). destruct (chars_of l) as [|[|c w] rest] eqn:El; cbn in IH |- *; [lia..|].
  assert (concat (chars_of l) = l) as Ec by apply concat_chars_of. rewrite El in Ec. subst l.
  cbn in Hl. apply andb_true_iff in Hl as [Hc _].
  assert (is_continuation c = false) as ->; [|cbn in *; lia].
  revert Hc. destruct c as [[] [] [] [] [] [] [] []]; vm_compute; congruence.
Qed.

Lemma count_chars_dns s : all_bytes dns_char s = true -> count_chars s = String.length s.
Proof.
  intros Hs. apply count_chars_ascii. unfold all_bytes in *. rewrite forallb_forall in *.
  intros b Hb. by apply dns_is_ascii, Hs.
Qed.

Lemma ascii_chars p (l : list uchar) :
  Forall (fun u => uchar_ascii p u = true) l ->
  length (concat l) = length l /\ forallb is_ascii (concat l) = true.
Proof.
  induction 1 as [|u l Hu _ [IHl IHa]]; [done|]. cbn. rewrite length_app, forallb_app, IHl, IHa.
  destruct u as [|x [|]]; [done| |done]. cbn in Hu |- *. apply andb_true_iff in Hu as [Hx _].
  by unfold is_ascii; rewrite Hx.
Qed.

Lemma sanitized_suffix_length value :
  (String.length (sanitize_shadow_suffix value) <= 24)%nat
  /\ count_chars (sanitize_shadow_suffix value) = String.length (sanitize_shadow_suffix value).
Proof.
  destruct (ascii_chars (fun b => is_ascii_alphanumeric b || is_separator b)%bool
    (take 24 (List.filter (fun u => (uchar_ascii is_ascii_alphanumeric u || uchar_ascii is_separator u)%bool)
                (chars value)))) as [Hl Ha].
  - apply Forall_take, Forall_forall. intros u Hu%list_elem_of_In%filter_In.
    destruct Hu as [_ Hu]. revert Hu. destruct u as [|x [|]]; [done| |done]. cbn.
    by destruct (N.ltb _ _); cbn.
  - split; [|apply count_chars_ascii]; unfold sanitize_shadow_suffix, of_chars.
    + rewrite length_of_bytes, Hl, length_take. lia.
    + by rewrite all_bytes_of_bytes.
Qed.

Lemma rsplit_once_Some c s l r : rsplit_once c s = Some (l, r) -> s = l +:+ String c r.
Proof.
  revert l r. induction s as [|x s IH]; intros l r; cbn; [done|].
  destruct (rsplit_once c s) as [[l' r']|] eqn:E; [intros [= <- <-]; by rewrite (IH _ _ eq_refl)|].
  destruct (Ascii.eqb_spec x c) as [->|]; [by intros [= <- <-]|done].
Qed.

(** The shadow queue of a temporary queue has at most 63 bytes, whatever the suffix. *)
Lemma shadow_queue_bounds (queue suffix : string) :
  dns_label queue = true -> (String.length (derived_shadow_queue_name queue suffix) <= 63)%nat.
Proof.
  intros Hq. unfold dns_label in Hq. rewrite !andb_true_iff in Hq. destruct Hq as [[[Hd Hl%Nat.leb_le] _] _].
  unfold derived_shadow_queue_name. cbv zeta. rewrite (count_chars_dns queue) by done.
  destruct (sanitized_suffix_length suffix) as [H24 ->]. set (sh := sanitize_shadow_suffix suffix) in *.
  case_match; [done|]. destruct (Nat.leb_spec (String.length queue + String.length sh)
    MAX_DERIVED_QUEUE_NAME_LEN) as [Hfit|_]; [by rewrite length_sapp|].
  destruct (stable_suffix_from_name queue) as [[prefix sfx]|] eqn:Es.
  - unfold stable_suffix_from_name in Es. destruct (rsplit_once "-" queue) as [[p s]|] eqn:Er; [|done].
    destruct (Nat.eqb (String.length s) STABLE_SUFFIX_LEN) eqn:El; [|done]. apply Nat.eqb_eq in El.
    cbn [andb] in Es. case_match; [|done]. injection Es as <- <-. apply rsplit_once_Some in Er as ->.
    rewrite all_bytes_app in Hd. apply andb_true_iff in Hd as [Hp _].
    assert (all_bytes dns_char (trim_separators p) = true) as Ht.
    { unfold trim_separators. rewrite all_bytes_of_bytes, forallb_rev.
      apply forallb_drop_while. by rewrite forallb_rev. }
    rewrite !length_sapp, El. cbn [String.length].
    match goal with |- context [take_chars ?n (trim_separators p)] =>
      pose proof (take_chars_length n _ Ht) end.
    unfold MAX_DERIVED_QUEUE_NAME_LEN, STABLE_SUFFIX_LEN in *. lia.
  - rewrite length_sapp.
    pose proof (take_chars_length (MAX_DERIVED_QUEUE_NAME_LEN - String.length sh) queue Hd).
    unfold MAX_DERIVED_QUEUE_NAME_LEN in *. lia.
Qed.
