(* ===== verification/JsonDecode.v ===== *)
(** * Decoding

    What [serde]'s derived deserializers do with a [serde_json::Value]: an object is read
    member by member (the sequence form of a struct is left out), an [Option] member may be
    missing or null, [#\[serde(default)\]] gives a value to a missing one.  And
    [String::from_utf8_lossy]. *)

From S2P Require Import Prelude RustString Float64 Kube Crd Effects External Names Plugins Sdk.

(** ** Values *)

Notation decoder A := (json -> option A).

Definition d_string : decoder string := as_str.
Definition d_bool : decoder bool := as_bool.
Definition d_value : decoder json := Some.
Definition d_fields : decoder (list (string * json)) := fun j => match j with JObj fields => Some fields | _ => None end.
Definition d_option {A} (d : decoder A) : decoder (option A) :=
  fun j => match j with JNull => Some None | _ => Some <$> d j end.
Definition d_list {A} (d : decoder A) : decoder (list A) :=
  fun j => match j with JArr items => mapM d items | _ => None end.

(** [Number::as_u64] of a number given by its text, and an [i32]. *)
Definition as_u64 (j : json) : option Z :=
  match j with
  | JNum repr => z ← parse_digits (bytes repr); if Z.ltb z (2 ^ 64) then Some z else None
  | _ => None
  end.
Definition d_u64 : decoder Z := as_u64.
Definition d_i32 : decoder Z :=
  fun j => z ← as_i64 j; if (Z.leb (- 2 ^ 31) z && Z.ltb z (2 ^ 31))%bool then Some z else None.

(** ** Members *)

Definition member {A} (d : decoder A) (k : string) (fields : list (string * json)) : option A :=
  v ← json_lookup k fields; d v.
Definition opt_member {A} (d : decoder A) (k : string) (fields : list (string * json)) : option (option A) :=
  match json_lookup k fields with Some v => d_option d v | None => Some None end.
Definition default_member {A} (default : A) (d : decoder A) (k : string) (fields : list (string * json))
    : option A :=
  match json_lookup k fields with Some v => d v | None => Some default end.
(** [deny_unknown_fields]. *)
Definition only_members (ks : list string) (fields : list (string * json)) : bool :=
  forallb (fun f => existsb (String.eqb f.1) ks) fields.

Lemma opt_member_str k fields v :
  opt_member d_string k fields = Some v ->
  match json_lookup k fields with Some (JStr s) => v = Some s | _ => v = None end.
Proof. unfold opt_member. destruct (json_lookup k fields) as [[]|]; cbn; naive_solver. Qed.

(** ** models.rs *)

Definition decode_condition : decoder FilterCondition := fun j =>
  fields ← d_fields j;
  field ← member d_string "field" fields;
  equals ← opt_member d_string "equals" fields;
  matches ← opt_member d_string "matches" fields;
  json_path ← opt_member d_string "jsonPath" fields;
  Some {| fc_field := field; fc_equals := equals; fc_matches := matches; fc_json_path := json_path |}.

Definition decode_selector : decoder TestIdSelector := fun j =>
  fields ← d_fields j;
  field ← opt_member d_string "field" fields;
  json_path ← opt_member d_string "jsonPath" fields;
  segment ← opt_member d_i32 "pathSegment" fields;
  value ← opt_member d_string "value" fields;
  Some {| tis_field := field; tis_json_path := json_path; tis_path_segment := segment; tis_value := value |}.

Definition decode_observer : decoder ObserverConfig := fun j =>
  fields ← d_fields j;
  test_id ← opt_member decode_selector "testId" fields;
  conditions ← default_member [] (d_list decode_condition) "match" fields;
  notify_path ← opt_member d_string "notifyPath" fields;
  Some {| ob_test_id := test_id; ob_match := conditions; ob_notify_path := notify_path |}.

(** ** UTF-8 *)

Definition continuation (lo hi : N) (b : ascii) : bool := in_range lo hi b.
(** The ranges the continuation bytes after a leading byte must be in. *)
Definition expected_continuations (b : ascii) : option (list (N * N)) :=
  if in_range 0 127 b then Some []
  else if in_range 194 223 b then Some [(128%N, 191%N)]
  else if in_range 224 224 b then Some [(160%N, 191%N); (128%N, 191%N)]
  else if in_range 237 237 b then Some [(128%N, 159%N); (128%N, 191%N)]
  else if in_range 225 239 b then Some [(128%N, 191%N); (128%N, 191%N)]
  else if in_range 240 240 b then Some [(144%N, 191%N); (128%N, 191%N); (128%N, 191%N)]
  else if in_range 241 243 b then Some [(128%N, 191%N); (128%N, 191%N); (128%N, 191%N)]
  else if in_range 244 244 b then Some [(128%N, 143%N); (128%N, 191%N); (128%N, 191%N)]
  else None.
(** The bytes of [l] that continue as expected, and whether all were found. *)
Fixpoint take_continuations (rs : list (N * N)) (l : list ascii) : list ascii * bool :=
  match rs with
  | [] => ([], true)
  | (lo, hi) :: rs' =>
      match l with
      | b :: l' => if continuation lo hi b
                   then let '(bs, all) := take_continuations rs' l' in (b :: bs, all) else ([], false)
      | [] => ([], false)
      end
  end.
Definition replacement_character : list ascii := ["239"; "191"; "189"]%char.

(** Each maximal part that starts no character becomes U+FFFD; a byte is consumed at every step. *)
Fixpoint lossy (fuel : nat) (l : list ascii) : list ascii :=
  match fuel, l with
  | S n, b :: l' =>
      match expected_continuations b with
      | Some rs =>
          let '(bs, all) := take_continuations rs l' in
          (if all then b :: bs else replacement_character) ++ lossy n (drop (length bs) l')
      | None => replacement_character ++ lossy n l'
      end
  | _, _ => []
  end.
Definition from_utf8_lossy (s : string) : string := of_bytes (lossy (String.length s) (bytes s)).

Example lossy_ok : from_utf8_lossy "orders" = "orders".
Proof. reflexivity. Qed.
Example lossy_cut : bytes (from_utf8_lossy (of_bytes ["a"; "226"; "130"; "b"]%char))
  = "a"%char :: replacement_character ++ ["b"%char].
Proof. reflexivity. Qed.

(** ** Text *)

(** [str::find] with a non-empty pattern, and [str::contains]. *)
Fixpoint find_str (pat s : string) : option nat :=
  if starts_with pat s then Some O
  else match s with EmptyString => None | String _ s' => S <$> find_str pat s' end.
Definition contains_str (pat s : string) : bool := is_some (find_str pat s).
(** [str::rfind] of a character. *)
Definition rfind_char (c : ascii) (s : string) : option nat :=
  match find_str (String c "") (of_bytes (rev (bytes s))) with
  | Some i => Some (String.length s - 1 - i)%nat
  | None => None
  end.
(** [&s\[a..b\]] at character boundaries. *)
Definition slice (a b : nat) (s : string) : string := of_bytes (take (b - a) (drop a (bytes s))).

(** [format!("%{byte:02X}")] of a byte that is not unreserved. *)
Definition upper_hex_digit (n : N) : ascii := if N.ltb n 10 then ascii_of_N (48 + n) else ascii_of_N (55 + n).
Definition unreserved (b : ascii) : bool :=
  (is_ascii_alphanumeric b || existsb (Ascii.eqb b) (bytes "-._~"))%bool.
Definition percent_encode_byte (b : ascii) : list ascii :=
  if unreserved b then [b] else ["%"%char; upper_hex_digit (code b / 16); upper_hex_digit (code b mod 16)].
Definition percent_encode (s : string) : string := of_bytes (concat (map percent_encode_byte (bytes s))).

Example percent_ex : percent_encode "orders/v1" = "orders%2Fv1".
Proof. reflexivity. Qed.
Example slice_ex : slice 1 3 "abcd" = "bc".
Proof. reflexivity. Qed.
Example rfind_ex : rfind_char "@" "a@b@c" = Some 3%nat /\ rfind_char "@" "abc" = None.
Proof. split; reflexivity. Qed.
