(* ===== verification/HttpPlugin.v ===== *)
(** * The HTTP plugin

    [plugins/http/src]: a proxy in front of a service.  It splits traffic between blue and
    green, tells the verifier what it saw and registers test cases, answers from a mock, and
    writes on behalf of the test.  The cells its tasks share ([mode], [active_requests],
    [traffic_percent] of [AppState]) are read and written by requests of [InceptorEffects];
    a handler is a program, its response the result.

    Header names are in lower case, as [HeaderMap] keeps them. *)

From S2P Require Import Prelude RustString Float64 Kube Crd StateStore InceptorEffects Effects.
From S2P Require Import External Names SipHash Auth Plugins Sdk.

(** ** config.rs *)

Inductive ProxyProtocol := Http | Https.

Record DirectionConfig := { dir_filters : list NotificationFilter }.

Record InboundTlsConfig := {
  itc_enabled : bool; itc_port : option Z; itc_cert_path : option string; itc_key_path : option string }.
Record TlsConfig := { tls_inbound : InboundTlsConfig }.
Record ClientTlsConfig := { ctc_ca_cert_path : option string; ctc_insecure_skip_verify : bool }.

Record Config := {
  cfg_port : option Z;
  cfg_proxy_protocol : option ProxyProtocol;
  cfg_write_protocol : option ProxyProtocol;
  cfg_real_endpoint : option string;
  cfg_target_url : option string;
  cfg_green_endpoint : option string;
  cfg_blue_endpoint : option string;
  cfg_env_var_name : option string;
  cfg_write_env_var : option string;
  cfg_verifier_endpoint : option string;
  cfg_mock_path : option string;
  cfg_test_id : option TestIdSelector;
  cfg_match : list FilterCondition;
  cfg_filters : list NotificationFilter;
  cfg_ingress : option DirectionConfig;
  cfg_egress : option DirectionConfig;
  cfg_tls : TlsConfig;
  cfg_client_tls : ClientTlsConfig }.

Definition listen_port (c : Config) : Z := unwrap_or 9090 (cfg_port c).
Definition inbound_https_port (c : Config) : Z := unwrap_or 9443 (itc_port (tls_inbound (cfg_tls c))).

Definition resolve_runtime_endpoint_with (endpoint test_container_url : string) : string :=
  replace (replace endpoint "{{testContainerUrl}}" test_container_url) "{testContainerUrl}" test_container_url.

Definition resolve_runtime_endpoint (endpoint : string) : prog string :=
  let! url := env "FLUIDBG_TEST_CONTAINER_URL" in
  Ret (resolve_runtime_endpoint_with endpoint (unwrap_or "" url)).

Definition or_else {A} (o o' : option A) : option A := match o with Some _ => o | None => o' end.

Definition resolve_option (endpoint : option string) : prog (option string) :=
  match endpoint with
  | Some e => let! url := resolve_runtime_endpoint e in Ret (Some url)
  | None => Ret None
  end.

Definition proxy_target (c : Config) (route : TrafficRoute) : option string :=
  match route with
  | RouteBlue => or_else (cfg_blue_endpoint c) (cfg_real_endpoint c)
  | RouteGreen => or_else (cfg_green_endpoint c) (cfg_real_endpoint c)
  | _ => cfg_real_endpoint c
  end.
Definition routed_proxy_target (c : Config) (route : TrafficRoute) : prog (option string) :=
  resolve_option (proxy_target c route).

Definition write_target (c : Config) : prog (option string) :=
  resolve_option (or_else (cfg_target_url c) (cfg_real_endpoint c)).

Definition verifier_base_url (c : Config) (runtime_test_container_url : string) : prog string :=
  match cfg_verifier_endpoint c with
  | Some e => resolve_runtime_endpoint e
  | None => Ret runtime_test_container_url
  end.

Definition inbound_validate (t : InboundTlsConfig) : result string unit :=
  if negb (itc_enabled t) then Ok tt
  else if Z.eqb (unwrap_or 9443 (itc_port t)) 0 then Err "tls.inbound.port must be greater than zero"
  else if is_empty (unwrap_or "" (itc_cert_path t))
  then Err "tls.inbound.certPath is required when inbound TLS is enabled"
  else if is_empty (unwrap_or "" (itc_key_path t))
  then Err "tls.inbound.keyPath is required when inbound TLS is enabled"
  else Ok tt.

Definition is_https (p : option ProxyProtocol) : bool := match p with Some Https => true | _ => false end.

Definition validate (c : Config) : result string unit :=
  let inbound := tls_inbound (cfg_tls c) in
  _ ← (if (is_https (cfg_proxy_protocol c) || is_https (cfg_write_protocol c))%bool
       then inbound_validate inbound else Ok tt);
  if itc_enabled inbound then inbound_validate inbound else Ok tt.

Definition http_client (c : Config) : prog (result string string) :=
  let! cert :=
    match ctc_ca_cert_path (cfg_client_tls c) with
    | None => Ret (Ok tt)
    | Some path =>
        let! pem := request (AReadFile path) in
        match pem with
        | Err e => Ret (Err ("failed to read client CA certificate " +:+ path +:+ ": " +:+ e))
        | Ok pem =>
            let! parsed := request (AParseCert pem) in
            Ret (map_err (fun e => "failed to parse client CA certificate " +:+ path +:+ ": " +:+ e) parsed)
        end
    end in
  match cert with
  | Err e => Ret (Err e)
  | Ok _ => let! built := request ABuildClient in
            Ret match built with Ok _ => Ok "http" | Err e => Err ("failed to build HTTP client: " +:+ e) end
  end.

(** ** filters.rs *)

Notation HeaderMap := (list (string * string)).

(** [HeaderMap::get] with [HeaderValue::to_str]: the first value of the name, if it is visible ASCII. *)
Definition visible_ascii (b : ascii) : bool := (in_range 32 126 b || Ascii.eqb b "009")%bool.
Definition lower (s : string) : string := of_bytes (map to_ascii_lowercase (bytes s)).
Definition header_text (headers : HeaderMap) (key : string) : option string :=
  match List.find (fun h => String.eqb h.1 (lower key)) headers with
  | Some (_, v) => if all_bytes visible_ascii v then Some v else None
  | None => None
  end.

Section Filters.
Context `{Regexes}.

Definition resolve_field (c : FilterCondition) (method path : string) (headers : HeaderMap) (body : json)
    : option string :=
  resolve_http_field c method path body (header_text headers).

Definition matches_filter (conditions : list FilterCondition) (method path : string) (headers : HeaderMap)
    (body : json) : bool :=
  match_conditions conditions (fun c => resolve_field c method path headers body).

Definition direction_filters (d : option DirectionConfig) : list NotificationFilter :=
  match d with Some d => dir_filters d | None => [] end.

Definition matching_filter (c : Config) (method path : string) (headers : HeaderMap) (body : json)
    : option NotificationFilter :=
  List.find (fun f => matches_filter (nf_match f) method path headers body)
    (cfg_filters c ++ direction_filters (cfg_ingress c) ++ direction_filters (cfg_egress c)).

Definition nonempty {A} (l : list A) : bool := match l with [] => false | _ => true end.
Definition has_any_filters (c : Config) : bool :=
  (nonempty (cfg_filters c) || nonempty (direction_filters (cfg_ingress c))
   || nonempty (direction_filters (cfg_egress c)))%bool.

Definition extract_test_id (sel : TestIdSelector) (body : json) (path : string) (headers : HeaderMap)
    : option string :=
  extract_http_test_id sel body path (header_text headers).
End Filters.

(** ** state.rs *)

Inductive RuntimeMode := Active | Draining | Idle.
#[export] Instance RuntimeMode_eq_dec : EqDecision RuntimeMode.
Proof. solve_decision. Defined.

Definition mode_code (m : RuntimeMode) : Z := match m with Active => 0 | Draining => 1 | Idle => 2 end.
Definition from_u8 (value : Z) : RuntimeMode :=
  if Z.eqb value 1 then Draining else if Z.eqb value 2 then Idle else Active.

Record AppState := { st_config : Config; st_runtime : PluginInceptorRuntime; st_client : string }.

Definition cell (op : inceptor_op) : prog (inceptor_reply op) := request (AInceptor op).

Definition runtime_mode : prog RuntimeMode := let! m := cell LoadMode in Ret (from_u8 m).
Definition set_runtime_mode (m : RuntimeMode) : prog unit := cell (StoreMode (mode_code m)).

(** [ActiveRequestGuard::try_new]. *)
Definition try_new : prog bool :=
  let! m := runtime_mode in
  if negb (bool_decide (m = Active)) then Ret false
  else
    do! cell (AddActive 1) ;;
    let! m := runtime_mode in
    if negb (bool_decide (m = Active)) then do! cell (AddActive (-1)) ;; Ret false else Ret true.

(** The guard is dropped when the handler returns. *)
Definition with_guard {A} (refused : A) (body : prog A) : prog A :=
  let! admitted := try_new in
  if admitted then let! r := body in do! cell (AddActive (-1)) ;; Ret r else Ret refused.

(** ** handlers.rs *)

(** A request; reading its body can fail. *)
Record http_in := {
  rq_method : string; rq_path_and_query : string; rq_headers : HeaderMap; rq_body : result string string }.

Record AxumResponse := { ax_status : Z; ax_headers : HeaderMap; ax_body : string }.

Definition text_response (status : Z) (body : string) : AxumResponse :=
  {| ax_status := status; ax_headers := [("content-type", "text/plain; charset=utf-8")]; ax_body := body |}.
Definition plain_response (status : Z) (body : string) : AxumResponse := text_response status body.

Definition is_hop_by_hop_header (name : string) : bool :=
  existsb (String.eqb (lower name))
    ["connection"; "keep-alive"; "proxy-authenticate"; "proxy-authorization"; "te"; "trailer";
     "transfer-encoding"; "upgrade"].
Definition should_forward_request_header (name : string) : bool :=
  (negb (is_hop_by_hop_header name) && negb (String.eqb name "host")
   && negb (String.eqb name "content-length"))%bool.
Definition should_forward_response_header (name : string) : bool :=
  (negb (is_hop_by_hop_header name) && negb (String.eqb name "content-length")
   && negb (String.eqb name "transfer-encoding"))%bool.

Definition response_from_reqwest (resp : call_response) : AxumResponse :=
  {| ax_status := cr_status resp;
     ax_headers := List.filter (fun h => should_forward_response_header h.1) (cr_headers resp);
     ax_body := cr_body resp |}.

Inductive BodyPayload := Buffered (data : string) | Streaming.
Definition body_payload (b : BodyPayload) : payload :=
  match b with Buffered data => BytesPayload data | Streaming => StreamedPayload end.

Definition is_authorization (name : string) : bool := String.eqb (lower name) "authorization".

(** The headers of the request, without an authorization that [extra_headers] replace. *)
Definition forwarded_headers (headers extra_headers : HeaderMap) : HeaderMap :=
  let overrides_authorization := existsb (fun h => is_authorization h.1) extra_headers in
  List.filter (fun h => negb (overrides_authorization && is_authorization h.1)
                        && should_forward_request_header h.1)%bool headers
  ++ extra_headers.

Definition forward_raw_request (client method url : string) (headers : HeaderMap) (body : BodyPayload)
    (extra_headers : HeaderMap) : prog AxumResponse :=
  let! sent := cell (ICall {| call_client := client; call_method := method; call_url := url;
    call_headers := forwarded_headers headers extra_headers; call_basic_auth := None;
    call_payload := body_payload body |}) in
  Ret match (sent : result string call_response) with
      | Ok resp => response_from_reqwest resp
      | Err _ => plain_response 502 "upstream error"
      end.
Definition forward_streaming_request (client method url : string) (headers extra_headers : HeaderMap)
    : prog AxumResponse :=
  forward_raw_request client method url headers Streaming extra_headers.

Definition join_target_url (base path_and_query : string) : string :=
  let '(path, query) := match split_once "?" path_and_query with
                        | Some (path, query) => (path, Some query)
                        | None => (path_and_query, None)
                        end in
  let base := trim_end_matches "/" base in
  let joined := if (is_empty path || String.eqb path "/")%bool then base else base +:+ path in
  match query with
  | Some query => if is_empty query then joined else joined +:+ "?" +:+ query
  | None => joined
  end.

Definition filter_mock_path (c : Config) (filter : option NotificationFilter) : option string :=
  or_else (filter ≫= nf_mock_path) (cfg_mock_path c).
Definition should_mock_request (c : Config) (filter : option NotificationFilter) : bool :=
  is_some (filter_mock_path c filter).

Definition selector_uses_body (selector : option TestIdSelector) : bool :=
  match selector ≫= tis_field with Some field => String.eqb field "http.body" | None => false end.
Definition conditions_use_body (conditions : list FilterCondition) : bool :=
  existsb (fun c => String.eqb (fc_field c) "http.body") conditions.
Definition filter_uses_body (f : NotificationFilter) : bool := conditions_use_body (nf_match f).
Definition config_uses_body (c : Config) : bool :=
  (selector_uses_body (cfg_test_id c) || conditions_use_body (cfg_match c)
   || existsb filter_uses_body (cfg_filters c)
   || existsb filter_uses_body (direction_filters (cfg_ingress c))
   || existsb filter_uses_body (direction_filters (cfg_egress c)))%bool.

Section Handlers.
Context `{Regexes, JsonText}.
Context (state : AppState).

Definition has (r : PluginRole) : bool := runtime_has_role (st_runtime state) r.
Definition auth_token : option string := rt_auth_token (st_runtime state).

Definition request_requires_buffer : bool :=
  (has Splitter || has Observer || config_uses_body (st_config state))%bool.

Definition matches_without_body (method path : string) (headers : HeaderMap) : bool :=
  (matches_filter (cfg_match (st_config state)) method path headers JNull
   && (negb (has_any_filters (st_config state))
       || is_some (matching_filter (st_config state) method path headers JNull)))%bool.

Definition verifier_headers (test_id : string) (route : TrafficRoute) : HeaderMap :=
  match auth_token with Some t => [("authorization", bearer_value t)] | None => [] end
  ++ [("x-fluidbg-test-id", test_id);
      ("x-fluidbg-inception-point", rt_inception_point (st_runtime state));
      ("x-fluidbg-blue-green-ref", rt_blue_green_ref (st_runtime state));
      ("x-fluidbg-route", route_text route)].

(** The URL of a path at the verifier. *)
Definition verifier_url (template test_id : string) : prog string :=
  let! base := verifier_base_url (st_config state) (rt_test_container_url (st_runtime state)) in
  let path := render_path template test_id (rt_inception_point (st_runtime state)) in
  Ret (trim_end_matches "/" base +:+ path).

Definition notify_observer_with_client (notify_path test_id : string) (body : json) (route : TrafficRoute)
    : prog (result string unit) :=
  let! url := verifier_url notify_path test_id in
  let notification := {| on_test_id := test_id; on_inception_point := rt_inception_point (st_runtime state);
                         on_route := route_text route; on_payload := body |} in
  let! sent := cell (ICall (post (st_client state) url auth_token (NotificationPayload notification))) in
  Ret match (sent : result string call_response) with
      | Err e => Err e
      | Ok response => if is_error_status (cr_status response)
                       then Err ("HTTP status error " +:+ show_Z (cr_status response)) else Ok tt
      end.

Definition no_mock_path : AxumResponse := plain_response 502 "mockPath not configured for HTTP mock role".

Definition forward_mock_request (filter : option NotificationFilter) (test_id : option string)
    (route : TrafficRoute) (method : string) (headers : HeaderMap) (body : string) : prog AxumResponse :=
  match filter_mock_path (st_config state) filter with
  | None => Ret no_mock_path
  | Some mock_path =>
      let test_id := unwrap_or "unknown" test_id in
      let! url := verifier_url mock_path test_id in
      forward_raw_request (st_client state) method url headers (Buffered body) (verifier_headers test_id route)
  end.

Definition forward_mock_streaming_request (method path_and_query : string) (headers : HeaderMap)
    : prog AxumResponse :=
  let filter := matching_filter (st_config state) method path_and_query headers JNull in
  match filter_mock_path (st_config state) filter with
  | None => Ret no_mock_path
  | Some mock_path =>
      let test_id := unwrap_or "unknown"
        (cfg_test_id (st_config state) ≫= fun sel => extract_test_id sel JNull path_and_query headers) in
      let! url := verifier_url mock_path test_id in
      forward_streaming_request (st_client state) method url headers (verifier_headers test_id RouteBlue)
  end.

Definition no_real_endpoint : AxumResponse := plain_response 502 "realEndpoint not configured".

(** The path that does not look at the body. *)
Definition proxy_streaming (req : http_in) : prog AxumResponse :=
  let method := rq_method req in
  let path_and_query := rq_path_and_query req in
  let headers := rq_headers req in
  let matched := matches_without_body method path_and_query headers in
  let matched_filter := matching_filter (st_config state) method path_and_query headers JNull in
  if (matched && has Mock && should_mock_request (st_config state) matched_filter)%bool
  then forward_mock_streaming_request method path_and_query headers
  else
    let! target := routed_proxy_target (st_config state) RouteBlue in
    match target with
    | None => Ret no_real_endpoint
    | Some real_endpoint =>
        forward_streaming_request (st_client state) method (join_target_url real_endpoint path_and_query)
          headers []
    end.

Definition body_limit : Z := 10 * 1024 * 1024.
(** [axum::body::to_bytes]: fails on a longer body. *)
Definition to_bytes (body : result string string) (limit : Z) : result string string :=
  data ← body;
  if Z.leb (Z.of_nat (String.length data)) limit then Ok data else Err "length limit exceeded".

Definition unwrap_or_default (r : result string string) : string := match r with Ok s => s | Err _ => "" end.

(** The verifier hears of a request that belongs to a test case; the case is registered when
    it did and the request does not go to green. *)
Definition observe (matched_filter : option NotificationFilter) (test_id : string) (body_json : json)
    (route : TrafficRoute) : prog unit :=
  let! verifier_notified :=
    match matched_filter ≫= nf_notify_path with
    | Some notify_path =>
        let! r := notify_observer_with_client notify_path test_id body_json route in Ret (is_ok r)
    | None => Ret false
    end in
  if (verifier_notified && should_register_case route)%bool
  then let! _ := register_test_case (st_runtime state) test_id in Ret tt
  else Ret tt.

Definition proxy_buffered (req : http_in) : prog AxumResponse :=
  let config := st_config state in
  let method := rq_method req in
  let path_and_query := rq_path_and_query req in
  let headers := rq_headers req in
  let body_bytes := unwrap_or_default (to_bytes (rq_body req) body_limit) in
  let body_json := unwrap_or JNull (json_of_bytes body_bytes) in
  let! route :=
    if has Splitter
    then let! percent := cell LoadPercent in
         Ret (if routes_to_blue body_bytes (Z.min percent 100) then RouteBlue else RouteGreen)
    else Ret RouteBlue in
  let matched_filter := matching_filter config method path_and_query headers body_json in
  let matched := (matches_filter (cfg_match config) method path_and_query headers body_json
                  && (negb (has_any_filters config) || is_some matched_filter))%bool in
  let test_id := cfg_test_id config ≫= fun sel => extract_test_id sel body_json path_and_query headers in
  do! match test_id with
      | Some test_id => if (matched && has Observer)%bool
                        then observe matched_filter test_id body_json route else Ret tt
      | None => Ret tt
      end ;;
  if (matched && has Mock && should_mock_request config matched_filter)%bool
  then forward_mock_request matched_filter test_id route method headers body_bytes
  else
    let! target := routed_proxy_target config route in
    match target with
    | None => Ret no_real_endpoint
    | Some real_endpoint =>
        forward_raw_request (st_client state) method (join_target_url real_endpoint path_and_query) headers
          (Buffered body_bytes) []
    end.

Definition proxy_handler (req : http_in) : prog AxumResponse :=
  if negb (has Splitter || has Observer || has Mock)
  then Ret (plain_response 404 "fluidbg http proxy role is not active")
  else
    with_guard (plain_response 503 "fluidbg http plugin is not active")
      (if negb request_requires_buffer then proxy_streaming req else proxy_buffered req).

(** *** Writes *)

(** The bytes of an extension method. *)
Definition method_char (b : ascii) : bool :=
  (is_ascii_alphanumeric b || existsb (Ascii.eqb b) (bytes "!#$%&'*+-.^_`|~"))%bool.
Definition parse_method (m : string) : string :=
  if (negb (is_empty m) && all_bytes method_char m)%bool then m else "POST".

Definition write_headers (headers : option json) : HeaderMap :=
  match headers with
  | Some (JObj fields) =>
      omap (fun f => match f.2 with JStr v => Some (f.1, v) | _ => None end) fields
  | _ => []
  end.

Definition authorize_operator (header : option string) : result Z unit :=
  if bearer_matches header auth_token then Ok tt else Err 401.
Definition authorize_operator_response (header : option string) : result (Z * string) unit :=
  map_err (fun _ => (401, "unauthorized")) (require_bearer_token header auth_token).

Definition write_handler (headers : HeaderMap) (req : HttpWriteRequest) : prog (Z * string) :=
  match authorize_operator_response (header_text headers "authorization") with
  | Err e => Ret e
  | Ok _ =>
      if negb (has Writer) then Ret (404, "fluidbg http writer role is not active")
      else
        with_guard (503, "fluidbg http plugin is not active")
          (let! target := write_target (st_config state) in
           match target with
           | None => Ret (400, "targetUrl not configured")
           | Some target_url =>
               let url := join_target_url target_url (unwrap_or "/" (hwr_path req)) in
               let! sent := cell (ICall
                 {| call_client := st_client state; call_method := parse_method (unwrap_or "POST" (hwr_method req));
                    call_url := url; call_headers := write_headers (hwr_headers req);
                    call_basic_auth := None; call_payload := JsonPayload (hwr_payload req) |}) in
               Ret match (sent : result string call_response) with
                   | Ok resp => (cr_status resp, cr_body resp)
                   | Err _ => (502, "upstream error")
                   end
           end)
  end.

(** *** Lifecycle *)

Definition health : string := "ok".

Definition empty_lifecycle_response : PluginLifecycleResponse :=
  {| plr_assignments := []; plr_inceptor_env := []; plr_config := None |}.

Definition change_mode (headers : HeaderMap) (m : RuntimeMode) : prog (result Z PluginLifecycleResponse) :=
  match authorize_operator (header_text headers "authorization") with
  | Err e => Ret (Err e)
  | Ok _ => do! set_runtime_mode m ;; Ret (Ok empty_lifecycle_response)
  end.
Definition prepare_handler (headers : HeaderMap) := change_mode headers Idle.
Definition activate_handler (headers : HeaderMap) := change_mode headers Active.
Definition drain_handler (headers : HeaderMap) := change_mode headers Draining.
Definition cleanup_handler (headers : HeaderMap) := change_mode headers Draining.

Definition drain_status (headers : HeaderMap) : prog (result Z PluginDrainStatusResponse) :=
  match authorize_operator (header_text headers "authorization") with
  | Err e => Ret (Err e)
  | Ok _ =>
      let! active := cell LoadActive in
      let! mode := runtime_mode in
      let drained := (bool_decide (mode = Draining) && Z.eqb active 0)%bool in
      let message :=
        if drained then "http plugin is draining and has no admitted proxy/write requests"
        else if bool_decide (mode = Idle) then "http plugin is idle and has not been activated"
        else if bool_decide (mode = Active) then "http plugin is active and has not entered drain mode"
        else "http plugin still has " +:+ show_Z active +:+ " active proxy/write request(s)" in
      Ret (Ok {| pds_drained := drained; pds_message := Some message |})
  end.

Definition traffic_shift_handler (headers : HeaderMap) (req : TrafficShiftRequest)
    : prog (result Z TrafficShiftResponse) :=
  match authorize_operator (header_text headers "authorization") with
  | Err e => Ret (Err e)
  | Ok _ =>
      if negb (has Splitter) then Ret (Err 400)
      else
        do! cell (StorePercent (Z.min (tsr_traffic_percent req) 100)) ;;
        let! percent := cell LoadPercent in
        Ret (Ok {| tsp_traffic_percent := wrap_u8 percent |})
  end.
End Handlers.
