(* ===== verification/QueuePlugins.v ===== *)
(** * What the queue plugins share

    The plugins for message brokers ([plugins/rabbitmq/src], [plugins/nats/src],
    [plugins/azure_servicebus/src]) have functions of the same text: the cells of
    [AppState], the blocks of a configuration, required fields, assignments of queues to
    deployments, roles and rewritten configurations of the manager.  They are mapped to
    the first of their sources. *)

From S2P Require Import Prelude RustString Float64 Kube Crd StateStore InceptorEffects Effects.
From S2P Require Import External Plugins Sdk JsonDecode HttpPlugin.

(** ** Cells and time *)

Definition traffic_percent : prog Z := cell LoadPercent.
Definition set_traffic_percent (percent : Z) : prog unit := cell (StorePercent (Z.min percent 100)).

Definition ended {A} (r : A) : prog (option A) := Ret (Some r).
Definition pause (millis : Z) : prog unit := request (ASleep millis).

(** ** Configurations and messages *)

Definition required (value : option string) (name : string) : result string string :=
  ok_or ("missing config field '" +:+ name +:+ "'") value.
Definition is_queue (name : option string) (queue : string) : bool :=
  match name with Some n => String.eqb n queue | None => false end.
Definition body_of_bytes `{JsonText} (data : string) : json := unwrap_or JNull (json_of_bytes data).

(** *** The blocks of the roles that move messages between queues *)

(** A splitter and a duplicator have the same fields. *)
Record SplitterConfig := {
  in_input_queue : option string;
  in_green_queue : option string;
  in_blue_queue : option string;
  in_green_env : option string;
  in_blue_env : option string }.
Notation DuplicatorConfig := SplitterConfig.
Record CombinerConfig := {
  cb_output_queue : option string;
  cb_green_queue : option string;
  cb_blue_queue : option string;
  cb_green_env : option string;
  cb_blue_env : option string }.
Record WriterConfig := { wr_target_queue : option string }.
Record ConsumerConfig := { cs_input_queue : option string }.
Record WriteRequest := {
  wreq_test_id : option string; wreq_payload : json; wreq_properties : option json }.

Definition decode_splitter : decoder SplitterConfig := fun j =>
  fields ← d_fields j;
  input ← opt_member d_string "inputQueue" fields;
  green ← opt_member d_string "greenInputQueue" fields;
  blue ← opt_member d_string "blueInputQueue" fields;
  green_env ← opt_member d_string "greenInputQueueEnvVar" fields;
  blue_env ← opt_member d_string "blueInputQueueEnvVar" fields;
  Some {| in_input_queue := input; in_green_queue := green; in_blue_queue := blue; in_green_env := green_env;
          in_blue_env := blue_env |}.
Definition decode_combiner : decoder CombinerConfig := fun j =>
  fields ← d_fields j;
  output ← opt_member d_string "outputQueue" fields;
  green ← opt_member d_string "greenOutputQueue" fields;
  blue ← opt_member d_string "blueOutputQueue" fields;
  green_env ← opt_member d_string "greenOutputQueueEnvVar" fields;
  blue_env ← opt_member d_string "blueOutputQueueEnvVar" fields;
  Some {| cb_output_queue := output; cb_green_queue := green; cb_blue_queue := blue; cb_green_env := green_env;
          cb_blue_env := blue_env |}.
Definition decode_writer : decoder WriterConfig := fun j =>
  fields ← d_fields j; target ← opt_member d_string "targetQueue" fields; Some {| wr_target_queue := target |}.
Definition decode_consumer : decoder ConsumerConfig := fun j =>
  fields ← d_fields j; input ← opt_member d_string "inputQueue" fields; Some {| cs_input_queue := input |}.

(** ** Assignments *)

Definition push_queue_assignment (target : AssignmentTarget) (env_name queue : option string)
    : list PropertyAssignment :=
  match env_name, queue with
  | Some e, Some q => [{| pa_target := target; pa_kind := KindEnv; pa_name := e; pa_value := q;
                          pa_container_name := None |}]
  | _, _ => []
  end.
(** The assignments of a pair of queues, when the role is active and configured. *)
Definition when {A} (roles : list PluginRole) (r : PluginRole) (block : option A)
    (f : A -> list PropertyAssignment) : list PropertyAssignment :=
  match block with Some b => if has_role roles r then f b else [] | None => [] end.

(** ** Names *)

(** [names.sort(); names.dedup()]. *)
Fixpoint dedup_sorted (l : list string) : list string :=
  match l with
  | x :: rest => match rest with
                 | y :: _ => if String.eqb x y then dedup_sorted rest else x :: dedup_sorted rest
                 | [] => [x]
                 end
  | [] => []
  end.
Definition sorted_names (l : list string) : list string := dedup_sorted (merge_sort String.le l).

Definition parse_roles (roles : list string) : list PluginRole := omap PluginRole_parse roles.

Fixpoint json_replace (k : string) (v : json) (fields : list (string * json)) : list (string * json) :=
  match fields with
  | [] => []
  | (k', v') :: rest => if String.eqb k' k then (k', v) :: rest else (k', v') :: json_replace k v rest
  end.

(** Nothing is set when a part of the path is missing or not an object. *)
Fixpoint set_nested_string (config : json) (path : list string) (value : string) : json :=
  match path, config with
  | [], _ => config
  | [last], JObj fields => JObj (json_insert last (JStr value) fields)
  | segment :: rest, JObj fields =>
      match json_lookup segment fields with
      | Some next => JObj (json_replace segment (set_nested_string next rest value) fields)
      | None => config
      end
  | _, _ => config
  end.

(** ** URLs *)

(** The URL parser: components of an absolute URL, and its text. *)
Record Url := {
  url_scheme : string; url_username : string; url_password : option string; url_host : option string;
  url_path : string; url_query : option string; url_fragment : option string }.
(** [set_path] is [Url::set_path]. *)
Class Urls := { url_parse : string -> option Url; set_path : Url -> string -> Url; url_text : Url -> string }.
