(* ===== verification/QueueManagers.v ===== *)
(** * What the managers of the queue plugins share

    The managers for RabbitMQ and Azure Service Bus ([manager.rs] of [plugins/rabbitmq/src] and
    of [plugins/azure_servicebus/src]) have functions of the same text: which queues a
    configuration names, the names of temporary queues, what a token must say.  They are
    mapped to the first of their sources. *)

From S2P Require Import Prelude RustString Float64 Kube Crd StateStore InceptorEffects Effects.
From S2P Require Import External SipHash Auth Plugins Sdk SdkNames JsonDecode HttpPlugin QueuePlugins.

(** ** The queues of a configuration *)

(** A block counts when its role is active and it is configured. *)
Definition of_role {A B} (roles : list PluginRole) (r : PluginRole) (block : option A) (f : A -> list B)
    : list B :=
  match block with Some b => if has_role roles r then f b else [] | None => [] end.

(** The queues of green and blue. *)
Definition temp_queue_names (roles : list PluginRole) (duplicator splitter : option SplitterConfig)
    (combiner : option CombinerConfig) : list string :=
  omap id
    (of_role roles Duplicator duplicator (fun d => [in_green_queue d; in_blue_queue d])
     ++ of_role roles Splitter splitter (fun d => [in_green_queue d; in_blue_queue d])
     ++ of_role roles Combiner combiner (fun d => [cb_green_queue d; cb_blue_queue d])).
(** The queues messages come from or go to in the end. *)
Definition base_queue_names (roles : list PluginRole) (duplicator splitter : option SplitterConfig)
    (combiner : option CombinerConfig) : list string :=
  omap id
    (of_role roles Duplicator duplicator (fun d => [in_input_queue d])
     ++ of_role roles Splitter splitter (fun d => [in_input_queue d])
     ++ of_role roles Combiner combiner (fun d => [cb_output_queue d])).
(** Every queue an inceptor works on, with the shadow queues. *)
Definition with_shadows (shadow : string -> option string) (managed base other : list string) : list string :=
  let queues :=
    managed ++ concat (map (fun queue => match shadow queue with
                                         | Some shadow_queue => [queue; shadow_queue]
                                         | None => [queue]
                                         end) base) ++ other in
  sorted_names (queues ++ omap shadow queues).
Definition end_queue_names (roles : list PluginRole) (writer : option WriterConfig)
    (consumer : option ConsumerConfig) : list string :=
  omap id (of_role roles Writer writer (fun w => [wr_target_queue w])
           ++ of_role roles Consumer consumer (fun s => [cs_input_queue s])).

(** ** The names of temporary queues *)

Definition temporary_queue_identifier (config : json) (role : string) : option string :=
  opt_then (opt_then (json_get role config) (json_get "temporaryQueueIdentifier")) as_str.

(** The fields that are rewritten, each with its role and its logical queue. *)
Definition temp_queue_fields : list (string * string * string) :=
  [("duplicator", "greenInputQueue", "green-input"); ("duplicator", "blueInputQueue", "blue-input");
   ("splitter", "greenInputQueue", "green-input"); ("splitter", "blueInputQueue", "blue-input");
   ("combiner", "greenOutputQueue", "green-output"); ("combiner", "blueOutputQueue", "blue-output")].

(** The identifiers are read before anything is rewritten. *)
Definition rewrite_queue_temp_names `{Sha256} (config : json)
    (namespace blue_green_ref blue_green_uid inception_point : string) : json :=
  fold_left (fun value f =>
    let '(role, field, logical) := f in
    set_nested_string value [role; field]
      (derived_temp_queue_name_with_uid_and_identifier namespace blue_green_ref blue_green_uid inception_point
         role logical (temporary_queue_identifier config role)))
    temp_queue_fields config.
(** By the identity of a token; by that of an entry of an inventory. *)
Definition claimed_config `{Sha256} (claims : PluginAuthClaims) (config : json) : json :=
  rewrite_queue_temp_names config (cl_namespace claims) (cl_blue_green_ref claims)
    (unwrap_or "" (cl_blue_green_uid claims)) (cl_inception_point claims).
Definition inventoried_config `{Sha256} (a : ActiveInception) : json :=
  rewrite_queue_temp_names (ai_config a) (ai_namespace a) (ai_blue_green_ref a)
    (unwrap_or "" (ai_blue_green_uid a)) (ai_inception_point a).

(** ** The handlers *)

Definition push_optional_env (name : string) (value : option string) : list InceptorEnvVar :=
  match non_empty value with Some v => [{| iev_name := name; iev_value := v |}] | None => [] end.

Definition ensure_request_matches_claims (req : PluginManagerLifecycleRequest) (claims : PluginAuthClaims)
    : result Z unit :=
  map_err (fun _ => 401) (require_manager_request_matches_claims req claims).
Definition ensure_sync_request_matches_claims (req : PluginManagerSyncRequest) (claims : PluginAuthClaims)
    : result Z unit :=
  if (String.eqb (cl_blue_green_ref claims) "__manager_sync__"
      && String.eqb (cl_inception_point claims) "__manager_sync__"
      && String.eqb (cl_plugin claims) (pms_plugin req))%bool then Ok tt else Err 401.
