(* ===== verification/RabbitMq.v ===== *)
(** * The RabbitMQ plugin: inceptor

    [plugins/rabbitmq/src]: [config.rs], [amqp.rs], [filtering.rs], [assignments.rs],
    [input.rs], [combiner.rs], [management.rs], [lifecycle.rs] and [writer.rs].  A worker
    moves messages from the input queue to the queues of green and blue, or from their output
    queues to the result queue; a drain moves what is left back.  The workers' loops are
    looked at for a number of turns ([Sdk.loop]). *)

From S2P Require Import Prelude RustString Float64 Kube Crd StateStore InceptorEffects Effects.
From S2P Require Import External Names SipHash Auth Plugins Sdk SdkNames JsonDecode HttpPlugin QueuePlugins.

(** ** config.rs *)

Record QueueDeclarationConfig := {
  qd_durable : option bool;
  qd_exclusive : option bool;
  qd_auto_delete : option bool;
  qd_arguments : list (string * json) }.
Definition default_declaration : QueueDeclarationConfig :=
  {| qd_durable := None; qd_exclusive := None; qd_auto_delete := None; qd_arguments := [] |}.
Definition durable_or_default (d : QueueDeclarationConfig) : bool := unwrap_or true (qd_durable d).

Record ShadowQueueConfig := { shq_suffix : string; shq_declaration : QueueDeclarationConfig }.

Record RabbitConfig := {
  rc_queue_declaration : QueueDeclarationConfig;
  rc_shadow_queue : option ShadowQueueConfig;
  rc_duplicator : option DuplicatorConfig;
  rc_splitter : option SplitterConfig;
  rc_combiner : option CombinerConfig;
  rc_writer : option WriterConfig;
  rc_consumer : option ConsumerConfig;
  rc_observer : option ObserverConfig }.
Definition default_config : RabbitConfig :=
  {| rc_queue_declaration := default_declaration; rc_shadow_queue := None; rc_duplicator := None;
     rc_splitter := None; rc_combiner := None; rc_writer := None; rc_consumer := None; rc_observer := None |}.

Definition decode_declaration : decoder QueueDeclarationConfig := fun j =>
  fields ← d_fields j;
  durable ← opt_member d_bool "durable" fields;
  exclusive ← opt_member d_bool "exclusive" fields;
  auto_delete ← opt_member d_bool "autoDelete" fields;
  arguments ← default_member [] d_fields "arguments" fields;
  Some {| qd_durable := durable; qd_exclusive := exclusive; qd_auto_delete := auto_delete;
          qd_arguments := arguments |}.
Definition decode_shadow : decoder ShadowQueueConfig := fun j =>
  fields ← d_fields j;
  suffix ← member d_string "suffix" fields;
  declaration ← default_member default_declaration decode_declaration "queueDeclaration" fields;
  Some {| shq_suffix := suffix; shq_declaration := declaration |}.
Definition config_members : list string :=
  ["queueDeclaration"; "shadowQueue"; "duplicator"; "splitter"; "combiner"; "writer"; "consumer"; "observer"].
Definition decode_config : decoder RabbitConfig := fun j =>
  fields ← d_fields j;
  if negb (only_members config_members fields) then None
  else
    declaration ← default_member default_declaration decode_declaration "queueDeclaration" fields;
    shadow ← opt_member decode_shadow "shadowQueue" fields;
    duplicator ← opt_member decode_splitter "duplicator" fields;
    splitter ← opt_member decode_splitter "splitter" fields;
    combiner ← opt_member decode_combiner "combiner" fields;
    writer ← opt_member decode_writer "writer" fields;
    consumer ← opt_member decode_consumer "consumer" fields;
    observer ← opt_member decode_observer "observer" fields;
    Some {| rc_queue_declaration := declaration; rc_shadow_queue := shadow; rc_duplicator := duplicator;
            rc_splitter := splitter; rc_combiner := combiner; rc_writer := writer; rc_consumer := consumer;
            rc_observer := observer |}.

(** The mode and the percentage are cells. *)
Record RabbitState := {
  rs_config : RabbitConfig;
  rs_roles : list PluginRole;
  rs_amqp_url : string;
  rs_runtime : PluginInceptorRuntime }.

Definition rabbitmq_amqp_url_from_env : prog (result string string) :=
  let! url := env "FLUIDBG_RABBITMQ_AMQP_URL" in
  Ret (ok_or ("missing FLUIDBG_RABBITMQ_AMQP_URL; configure RabbitMQ runtime credentials "
              +:+ "on the plugin installation") url).

Definition duplicator_config (c : RabbitConfig) : result string DuplicatorConfig :=
  ok_or "missing config block 'duplicator'" (rc_duplicator c).
Definition splitter_config (c : RabbitConfig) : result string SplitterConfig :=
  ok_or "missing config block 'splitter'" (rc_splitter c).
Definition combiner_config (c : RabbitConfig) : result string CombinerConfig :=
  ok_or "missing config block 'combiner'" (rc_combiner c).
Definition writer_config (c : RabbitConfig) : result string WriterConfig :=
  ok_or "missing config block 'writer'" (rc_writer c).
Definition consumer_config (c : RabbitConfig) : result string ConsumerConfig :=
  ok_or "missing config block 'consumer'" (rc_consumer c).

Definition inceptor_infra_disabled : prog bool :=
  let! v := env "FLUIDBG_INCEPTOR_INFRA_DISABLED" in
  Ret (match v with Some v => String.eqb v "true" | None => false end).

(** ** amqp.rs *)

Definition json_to_amqp_value (value : json) : option AMQPValue :=
  match value with
  | JBool b => Some (AmqpBoolean b)
  | JNum repr =>
      match as_i64 value with
      | Some z => Some (if (Z.leb (- 2 ^ 31) z && Z.ltb z (2 ^ 31))%bool then AmqpLongInt z else AmqpLongLongInt z)
      | None =>
          match as_u64 value with
          | Some z => Some (if Z.ltb z (2 ^ 32) then AmqpLongUInt z else AmqpLongLongInt (Z.min z i64_max))
          | None => Some (AmqpDouble repr)
          end
      end
  | JStr s => Some (AmqpLongString s)
  | JNull => Some AmqpVoid
  | JArr _ | JObj _ => None
  end.

Fixpoint queue_arguments_of (arguments : list (string * json)) (table : FieldTable)
    : result string FieldTable :=
  match arguments with
  | [] => Ok table
  | (key, value) :: rest =>
      match json_to_amqp_value value with
      | Some v => queue_arguments_of rest (<[key := v]> table)
      | None => Err ("unsupported RabbitMQ queue argument '" +:+ key +:+ "'")
      end
  end.
Definition queue_arguments (d : QueueDeclarationConfig) : result string FieldTable :=
  queue_arguments_of (qd_arguments d) ∅.

Definition declare_queue (channel : Z) (queue : string) (d : QueueDeclarationConfig)
    : prog (result string unit) :=
  match queue_arguments d with
  | Err e => Ret (Err e)
  | Ok arguments =>
      cell (QDeclare channel queue
              {| qo_durable := durable_or_default d; qo_exclusive := unwrap_or false (qd_exclusive d);
                 qo_auto_delete := unwrap_or false (qd_auto_delete d) |} arguments)
  end.

(** A failure is logged only. *)
Definition delete_queue (channel : Z) (queue : string) : prog (result string unit) :=
  let! _ := cell (QDelete channel queue) in Ret (Ok tt).

Definition publish_confirmed (channel : Z) (routing_key data : string) (p : BasicProperties)
    : prog (result string unit) :=
  cell (QPublish channel routing_key data p).

Definition is_missing_queue_error (e : string) : bool := contains_str "NOT_FOUND - no queue" e.

Definition queue_state (channel : Z) (queue : string) : prog (result string (Z * Z)) :=
  let! declared := cell (QState channel queue) in
  Ret match (declared : result string (Z * Z)) with
      | Ok s => Ok s
      | Err e => if is_missing_queue_error e then Ok (0, 0) else Err e
      end.

Definition wrap_u32 (z : Z) : Z := z mod 2 ^ 32.

(** One message, from one queue to the other; the number moved so far is kept. *)
Definition move_message (channel : Z) (source_queue target_queue : string) (moved : Z)
    : prog (Z + result string Z) :=
  let! got := cell (QGet channel source_queue) in
  match (got : result string (option delivery)) with
  | Err e => Ret (inr (if is_missing_queue_error e then Ok moved else Err e))
  | Ok None => Ret (inr (Ok moved))
  | Ok (Some d) =>
      let! published := publish_confirmed channel target_queue (dl_data d) (dl_properties d) in
      match published with
      | Err e => Ret (inr (Err e))
      | Ok _ =>
          let! acked := cell (QAck d) in
          Ret match (acked : result string unit) with
              | Err e => inr (Err e)
              | Ok _ => inl (wrap_u32 (moved + 1))
              end
      end
  end.
Definition move_queue_messages (n : nat) (channel : Z) (source_queue target_queue : string)
    : prog (option (result string Z)) :=
  loop n 0 (move_message channel source_queue target_queue).

Definition amqp_tls_config_from_env : prog (result string (option string)) :=
  let! path := optional_env "FLUIDBG_RABBITMQ_AMQP_CA_CERT_PATH" in
  let! path := match path with
               | Some p => Ret (Some p)
               | None => optional_env "FLUIDBG_RABBITMQ_MANAGER_AMQP_CA_CERT_PATH"
               end in
  match path with
  | None => Ret (Ok None)
  | Some path =>
      let! chain := request (AReadFile path) in
      Ret match chain with
          | Ok chain => Ok (Some chain)
          | Err _ => Err ("failed to read RabbitMQ AMQP CA certificate " +:+ path)
          end
  end.
Definition connect_once (amqp_url : string) : prog (result string Z) :=
  let* tls := amqp_tls_config_from_env in cell (QConnect amqp_url tls).

(** [n] attempts are left. *)
Fixpoint connect_attempts (n : nat) (amqp_url : string) : prog (result string Z) :=
  match n with
  | O => Ret (Err "unable to connect to RabbitMQ")
  | S n' =>
      let! conn := connect_once amqp_url in
      match conn, n' with
      | Ok c, _ => Ret (Ok c)
      | Err e, O => Ret (Err e)
      | Err _, S _ => do! request (ASleep 2000) ;; connect_attempts n' amqp_url
      end
  end.
Definition connect_with_retry (amqp_url : string) : prog (result string Z) := connect_attempts 30 amqp_url.
Definition create_channel (conn : Z) : prog (result string Z) := cell (QChannel conn).
Definition open_channel (amqp_url : string) : prog (result string Z) :=
  let* conn := connect_with_retry amqp_url in create_channel conn.

(** ** filtering.rs *)

Definition route_from_output_source (c : CombinerConfig) (source_queue : string) : TrafficRoute :=
  if is_queue (cb_blue_queue c) source_queue then RouteBlue
  else if is_queue (cb_green_queue c) source_queue then RouteGreen else RouteUnknown.

Definition amqp_value_as_string (v : AMQPValue) : option string :=
  match v with AmqpLongString s => Some s | AmqpShortString s => Some s | _ => None end.

(** A field of a message: its body or a header. *)
Definition queue_field (field : string) (json_path : option string) (body : json) (properties : FieldTable)
    : option string :=
  if String.eqb field "queue.body" then body_field json_path body
  else match strip_prefix "queue.property." field with
       | Some key => v ← properties !! key; amqp_value_as_string v
       | None => None
       end.

Definition extract_test_id (selector : TestIdSelector) (body : json) (properties : FieldTable)
    : option string :=
  match tis_value selector with
  | Some value => Some value
  | None => field ← tis_field selector; queue_field field (tis_json_path selector) body properties
  end.

Section Filtering.
Context `{Regexes}.
Definition matches_filter (conditions : list FilterCondition) (body : json) (properties : FieldTable) : bool :=
  match conditions with
  | [] => true
  | _ => forallb (fun c => match queue_field (fc_field c) (fc_json_path c) body properties with
                           | Some v => condition_matches (Some v) c
                           | None => false
                           end) conditions
  end.
End Filtering.

(** ** assignments.rs *)

Definition push_env_assignment (target : AssignmentTarget) (name value : string) : PropertyAssignment :=
  {| pa_target := target; pa_kind := KindEnv; pa_name := name; pa_value := value; pa_container_name := None |}.

Definition bool_text (b : bool) : string := if b then "true" else "false".

Definition temp_queue_declaration_assignments `{JsonText} (c : RabbitConfig) : list PropertyAssignment :=
  let durable := bool_text (durable_or_default (rc_queue_declaration c)) in
  let arguments := json_to_bytes (JObj (qd_arguments (rc_queue_declaration c))) in
  concat (map (fun target => [push_env_assignment target "AMQP_TEMP_QUEUE_DURABLE" durable;
                              push_env_assignment target "AMQP_TEMP_QUEUE_ARGUMENTS_JSON" arguments])
            [TargetGreen; TargetBlue]).

Definition build_prepare_assignments `{JsonText} (c : RabbitConfig) (roles : list PluginRole)
    : list PropertyAssignment :=
  let inputs d := push_queue_assignment TargetGreen (in_green_env d) (in_green_queue d)
                  ++ push_queue_assignment TargetBlue (in_blue_env d) (in_blue_queue d) in
  when roles Duplicator (rc_duplicator c) inputs ++ when roles Splitter (rc_splitter c) inputs
  ++ when roles Combiner (rc_combiner c)
       (fun d => push_queue_assignment TargetGreen (cb_green_env d) (cb_green_queue d)
                 ++ push_queue_assignment TargetBlue (cb_blue_env d) (cb_blue_queue d))
  ++ temp_queue_declaration_assignments c.

Definition build_cleanup_assignments (c : RabbitConfig) (roles : list PluginRole) : list PropertyAssignment :=
  let inputs d := push_queue_assignment TargetGreen (in_green_env d) (in_input_queue d)
                  ++ push_queue_assignment TargetBlue (in_blue_env d) (in_input_queue d) in
  when roles Duplicator (rc_duplicator c) inputs ++ when roles Splitter (rc_splitter c) inputs
  ++ when roles Combiner (rc_combiner c)
       (fun d => push_queue_assignment TargetGreen (cb_green_env d) (cb_output_queue d)
                 ++ push_queue_assignment TargetBlue (cb_blue_env d) (cb_output_queue d)).
Definition build_drain_assignments (c : RabbitConfig) (roles : list PluginRole) : list PropertyAssignment :=
  build_cleanup_assignments c roles.

(** ** Shadow queues *)

Definition shadow_queue_name (c : RabbitConfig) (queue : string) : option string :=
  (fun shadow => derived_shadow_queue_name queue (shq_suffix shadow)) <$> rc_shadow_queue c.
Definition shadow_declaration (c : RabbitConfig) : QueueDeclarationConfig :=
  match rc_shadow_queue c with Some s => shq_declaration s | None => rc_queue_declaration c end.
