(* ===== verification/RabbitWorkers.v ===== *)
(** * The RabbitMQ plugin: workers and handlers

    [plugins/rabbitmq/src]: [input.rs], [combiner.rs], [management.rs], [lifecycle.rs] and
    [writer.rs].  [n] is the number of turns a loop is looked at. *)

From S2P Require Import Prelude RustString Float64 Kube Crd StateStore InceptorEffects Effects.
From S2P Require Import External Names SipHash Auth Plugins Sdk SdkNames JsonDecode HttpPlugin QueuePlugins RabbitMq.

(** [lapin]'s deserializer of a table of headers. *)
Class AmqpTables := { field_table_of_json : json -> option FieldTable }.

Section Inceptor.
Context `{Regexes, JsonText, Sha256}.

Definition body_of_text (data : string) : json := unwrap_or JNull (json_of_bytes (from_utf8_lossy data)).
Definition headers_of (d : delivery) : FieldTable := unwrap_or ∅ (bp_headers (dl_properties d)).

Section State.
Context (state : RabbitState).

Definition active (r : PluginRole) : bool := has_role (rs_roles state) r.

Definition notify_observer (o : ObserverConfig) (test_id : string) (body : json) (route : TrafficRoute)
    : prog bool :=
  match ob_notify_path o with
  | None => Ret false
  | Some path => let! r := Sdk.notify_observer (rs_runtime state) path test_id body route in Ret (is_ok r)
  end.

(** What both workers do for a message that matches the observer; it never fails. *)
Definition observe_message (o : ObserverConfig) (body : json) (headers : FieldTable) (route : TrafficRoute)
    : prog unit :=
  match ob_test_id o ≫= fun selector => extract_test_id selector body headers with
  | None => Ret tt
  | Some test_id =>
      let! notified := notify_observer o test_id body route in
      if (notified && should_register_case route)%bool
      then let! _ := register_test_case (rs_runtime state) test_id in Ret tt
      else Ret tt
  end.

(** ** input.rs *)

Definition publish_to (channel : Z) (queue : option string) (d : delivery) : prog (result string unit) :=
  match queue with
  | Some q => publish_confirmed channel q (dl_data d) (dl_properties d)
  | None => Ret (Ok tt)
  end.

(** Where the message goes; the route that tells. *)
Definition forward_input (channel : Z) (d : delivery) : prog (result string TrafficRoute) :=
  if active Duplicator then
    match duplicator_config (rs_config state) with
    | Err e => Ret (Err e)
    | Ok duplicator =>
        do* publish_to channel (in_green_queue duplicator) d ;;
        do* publish_to channel (in_blue_queue duplicator) d ;;
        Ret (Ok RouteBoth)
    end
  else if active Splitter then
    match splitter_config (rs_config state) with
    | Err e => Ret (Err e)
    | Ok splitter =>
        let! percent := traffic_percent in
        if routes_to_blue (dl_data d) percent
        then do* publish_to channel (in_blue_queue splitter) d ;; Ret (Ok RouteBlue)
        else match in_green_queue splitter with
             | Some green_queue =>
                 do* publish_confirmed channel green_queue (dl_data d) (dl_properties d) ;; Ret (Ok RouteGreen)
             | None => Ret (Ok RouteUnknown)
             end
    end
  else Ret (Ok RouteUnknown).

Definition process_input_delivery (channel : Z) (d : delivery) : prog (result string unit) :=
  let body_json := body_of_text (dl_data d) in
  let headers := headers_of d in
  let* route := forward_input channel d in
  do! match rc_observer (rs_config state) with
      | Some observer =>
          if (active Observer && matches_filter (ob_match observer) body_json headers)%bool
          then observe_message observer body_json headers route else Ret tt
      | None => Ret tt
      end ;;
  cell (QAck d).

(** The base queue and the queues of green and blue. *)
Definition input_queues : result string (option (string * string * string)) :=
  let names (block : string) (c : SplitterConfig) :=
    base ← required (in_input_queue c) (block +:+ ".inputQueue");
    green ← required (in_green_queue c) (block +:+ ".greenInputQueue");
    blue ← required (in_blue_queue c) (block +:+ ".blueInputQueue");
    Ok (Some (base, green, blue)) in
  if active Duplicator then c ← duplicator_config (rs_config state); names "duplicator" c
  else if active Splitter then c ← splitter_config (rs_config state); names "splitter" c
  else Ok None.

(** Everything left in [source], and in its shadow queue, goes back. *)
Definition drain_source (n : nat) (channel : Z) (source base_queue : string) : prog (option (result string unit)) :=
  let%* _ := move_queue_messages n channel source base_queue in
  match shadow_queue_name (rs_config state) source with
  | None => ended (Ok tt)
  | Some shadow_queue =>
      let target := unwrap_or base_queue (shadow_queue_name (rs_config state) base_queue) in
      let%* _ := move_queue_messages n channel shadow_queue target in ended (Ok tt)
  end.

Definition drain_input_queues (n : nat) (channel : Z) : prog (option (result string unit)) :=
  match input_queues with
  | Err e => ended (Err e)
  | Ok None => ended (Ok tt)
  | Ok (Some (base_queue, green_queue, blue_queue)) =>
      let%* _ := whole
        (let! disabled := inceptor_infra_disabled in
         match shadow_queue_name (rs_config state) base_queue with
         | Some base_shadow_queue =>
             if disabled then Ret (Ok tt)
             else declare_queue channel base_shadow_queue (shadow_declaration (rs_config state))
         | None => Ret (Ok tt)
         end) in
      do%* drain_source n channel green_queue base_queue ;;
      drain_source n channel blue_queue base_queue
  end.

Definition drain_input_roles (n : nat) : prog (option (result string unit)) :=
  if (negb (active Duplicator) && negb (active Splitter))%bool then ended (Ok tt)
  else let%* channel := whole (open_channel (rs_amqp_url state)) in drain_input_queues n channel.

Definition input_queue : result string string :=
  if active Duplicator
  then c ← duplicator_config (rs_config state); required (in_input_queue c) "duplicator.inputQueue"
  else if active Splitter
  then c ← splitter_config (rs_config state); required (in_input_queue c) "splitter.inputQueue"
  else c ← consumer_config (rs_config state); required (cs_input_queue c) "consumer.inputQueue".

(** A turn of the inner loop: [inr] is its [break]. *)
Definition input_turn (n : nat) (channel : Z) (queue : string) (_ : unit) : prog (option (unit + unit)) :=
  let! mode := runtime_mode in
  match mode with
  | Idle => do! pause 300 ;; ended (inl tt)
  | Draining =>
      let% drained := drain_input_queues n channel in
      match drained with
      | Err _ => ended (inr tt)
      | Ok _ => do! pause 300 ;; ended (inl tt)
      end
  | Active =>
      let! got := cell (QGet channel queue) in
      match (got : result string (option delivery)) with
      | Ok (Some d) =>
          let! processed := process_input_delivery channel d in
          ended (match processed with Ok _ => inl tt | Err _ => inr tt end)
      | Ok None => do! pause 200 ;; ended (inl tt)
      | Err _ => ended (inr tt)
      end
  end.

(** A turn of the outer loop: only an error of the configuration or of the declaration ends it. *)
Definition pipeline_turn (n : nat) (_ : unit) : prog (option (unit + result string unit)) :=
  let! mode := runtime_mode in
  match mode with
  | Idle => do! pause 300 ;; ended (inl tt)
  | _ =>
      let! opened := open_channel (rs_amqp_url state) in
      match opened with
      | Err _ => do! pause 2000 ;; ended (inl tt)
      | Ok channel =>
          match input_queue with
          | Err e => ended (inr (Err e))
          | Ok queue =>
              let! disabled := inceptor_infra_disabled in
              let! declared := (if disabled then Ret (Ok tt)
                                else declare_queue channel queue (rc_queue_declaration (rs_config state))) in
              match declared with
              | Err e => ended (inr (Err e))
              | Ok _ =>
                  let% _ := loop_of_loops n tt (input_turn n channel queue) in
                  do! pause 2000 ;; ended (inl tt)
              end
          end
      end
  end.
Definition run_input_pipeline (n : nat) : prog (option (result string unit)) :=
  loop_of_loops n tt (pipeline_turn n).

(** ** combiner.rs *)

Definition combine_message (publish_channel : Z) (combiner : CombinerConfig) (source_queue result_queue : string)
    (d : delivery) : prog (result string unit) :=
  let headers := headers_of d in
  let body_json := body_of_bytes (dl_data d) in
  let route := route_from_output_source combiner source_queue in
  do* publish_confirmed publish_channel result_queue (dl_data d) (dl_properties d) ;;
  do! match rc_observer (rs_config state) with
      | Some observer =>
          if (active Observer && matches_filter (ob_match observer) body_json headers)%bool
          then observe_message observer body_json headers route else Ret tt
      | None => Ret tt
      end ;;
  cell (QAck d).

Definition combine_turn (consume_channel publish_channel : Z) (combiner : CombinerConfig)
    (source_queue result_queue : string) (_ : unit) : prog (unit + result string unit) :=
  let! mode := runtime_mode in
  if negb (bool_decide (mode = Active)) then Ret (inr (Ok tt))
  else
    let! got := cell (QGet consume_channel source_queue) in
    match (got : result string (option delivery)) with
    | Err e => Ret (inr (Err e))
    | Ok None => do! pause 200 ;; Ret (inl tt)
    | Ok (Some d) =>
        let! mode := runtime_mode in
        if negb (bool_decide (mode = Active)) then let! nacked := cell (QNack d) in Ret (inr nacked)
        else
          let! combined := combine_message publish_channel combiner source_queue result_queue d in
          Ret (match combined with Ok _ => inl tt | Err e => inr (Err e) end)
    end.

Definition run_combine_loop_once (n : nat) (source_queue result_queue : string)
    : prog (option (result string unit)) :=
  let declaration := rc_queue_declaration (rs_config state) in
  let%* channels := whole
    (let* conn := connect_with_retry (rs_amqp_url state) in
     let* consume_channel := create_channel conn in
     let* publish_channel := create_channel conn in
     let! disabled := inceptor_infra_disabled in
     do* (if disabled then Ret (Ok tt)
          else do* declare_queue consume_channel source_queue declaration ;;
               declare_queue publish_channel result_queue declaration) ;;
     Ret (Ok (consume_channel, publish_channel))) in
  match combiner_config (rs_config state) with
  | Err e => ended (Err e)
  | Ok combiner => loop n tt (combine_turn channels.1 channels.2 combiner source_queue result_queue)
  end.

Definition drain_output_queue (n : nat) (source_queue result_queue : string) : prog (option (result string unit)) :=
  let%* channel := whole
    (let* channel := open_channel (rs_amqp_url state) in
     let! disabled := inceptor_infra_disabled in
     do* (if disabled then Ret (Ok tt)
          else do* declare_queue channel result_queue (rc_queue_declaration (rs_config state)) ;;
               match shadow_queue_name (rs_config state) result_queue with
               | Some result_shadow_queue =>
                   declare_queue channel result_shadow_queue (shadow_declaration (rs_config state))
               | None => Ret (Ok tt)
               end) ;;
     Ret (Ok channel)) in
  drain_source n channel source_queue result_queue.

Definition combine_loop_turn (n : nat) (source_queue result_queue : string) (_ : unit)
    : prog (option (unit + result string unit)) :=
  let! mode := runtime_mode in
  if bool_decide (mode = Idle) then do! pause 300 ;; ended (inl tt)
  else
    let! mode := runtime_mode in
    if bool_decide (mode = Draining) then
      let% _ := drain_output_queue n source_queue result_queue in
      do! pause 300 ;; ended (inl tt)
    else
      let% _ := run_combine_loop_once n source_queue result_queue in
      do! pause 2000 ;; ended (inl tt).
Definition run_combine_loop (n : nat) (source_queue result_queue : string) : prog (option (result string unit)) :=
  loop_of_loops n tt (combine_loop_turn n source_queue result_queue).

(** Green's output queue, blue's, and the queue both go to. *)
Definition output_queues : result string (string * string * string) :=
  c ← combiner_config (rs_config state);
  green ← required (cb_green_queue c) "combiner.greenOutputQueue";
  blue ← required (cb_blue_queue c) "combiner.blueOutputQueue";
  output ← required (cb_output_queue c) "combiner.outputQueue";
  Ok (green, blue, output).

Definition drain_output_queues (n : nat) : prog (option (result string unit)) :=
  if negb (active Combiner) then ended (Ok tt)
  else match output_queues with
       | Err e => ended (Err e)
       | Ok (green_queue, blue_queue, result_queue) =>
           do%* drain_output_queue n green_queue result_queue ;;
           drain_output_queue n blue_queue result_queue
       end.

(** The two tasks that [run_combiner] spawns and joins. *)
Definition run_combiner (n : nat) : result string (list (prog (option (result string unit)))) :=
  c ← combiner_config (rs_config state);
  blue_queue ← required (cb_blue_queue c) "combiner.blueOutputQueue";
  green_queue ← required (cb_green_queue c) "combiner.greenOutputQueue";
  result_queue ← required (cb_output_queue c) "combiner.outputQueue";
  Ok [run_combine_loop n blue_queue result_queue; run_combine_loop n green_queue result_queue].
End State.
End Inceptor.
