(* ===== verification/RabbitLifecycle.v ===== *)
(** * The RabbitMQ plugin: management API, lifecycle and writes

    [plugins/rabbitmq/src]: [management.rs], [lifecycle.rs] and [writer.rs]. *)

From S2P Require Import Prelude RustString Float64 Kube Crd StateStore InceptorEffects Effects.
From S2P Require Import External Names SipHash Auth Plugins Sdk SdkNames JsonDecode HttpPlugin QueuePlugins RabbitMq.
From S2P Require Import RabbitWorkers.

(** ** management.rs *)

Record ManagementClient := {
  mc_http : string; mc_base_url : Url; mc_username : string; mc_password : string; mc_vhost : string }.
Record QueueDepth := { depth_ready : Z; depth_unacknowledged : Z; depth_consumers : Z }.

Definition encode_path_segment (value : string) : string := percent_encode value.

Definition decode_queue : decoder QueueDepth := fun j =>
  fields ← d_fields j;
  ready ← default_member 0 d_u64 "messages_ready" fields;
  unacknowledged ← default_member 0 d_u64 "messages_unacknowledged" fields;
  consumers ← default_member 0 d_u64 "consumers" fields;
  Some {| depth_ready := ready; depth_unacknowledged := unacknowledged; depth_consumers := consumers |}.
(** An entry of a list of users or of queues. *)
Definition decode_name : decoder string := fun j => fields ← d_fields j; member d_string "name" fields.

Definition default_exchange_permission_regex : string := "^(amq\.default|)$".

Section Management.
Context `{Urls, Regexes}.

Definition base_url (m : ManagementClient) : string := trim_end_matches "/" (url_text (mc_base_url m)).
Definition api_url (m : ManagementClient) (path : string) : string := url_text (mc_base_url m) +:+ path.

Definition validate_management_base_url (value : string) (allow_insecure : bool) : result string Url :=
  match url_parse (trim value) with
  | None => Err "invalid RabbitMQ management URL"
  | Some url =>
      if is_none (url_host url) then Err "RabbitMQ management URL must include a host"
      else if (negb (is_empty (url_username url)) || is_some (url_password url))%bool
      then Err "RabbitMQ management URL must not contain credentials"
      else if (is_some (url_query url) || is_some (url_fragment url))%bool
      then Err "RabbitMQ management URL must not contain query or fragment components"
      else
        _ ← (if String.eqb (url_scheme url) "https" then Ok tt
             else if String.eqb (url_scheme url) "http" then
               if allow_insecure then Ok tt
               else Err ("RabbitMQ management URL uses http; set FLUIDBG_RABBITMQ_MANAGEMENT_ALLOW_INSECURE=true"
                         +:+ " only for trusted in-cluster development endpoints")
             else Err ("RabbitMQ management URL must use http or https, got '" +:+ url_scheme url +:+ "'"));
        Ok (if is_some (strip_prefix "/" (of_bytes (rev (bytes (url_path url))))) then url
            else set_path url (trim_end_matches "/" (url_path url) +:+ "/"))
  end.

Definition management_http_client (ca_cert_path : option string) : prog (result string string) :=
  let* _ := match ca_cert_path with
            | None => Ret (Ok tt)
            | Some path =>
                let! pem := request (AReadFile path) in
                match pem with
                | Err _ => Ret (Err ("failed to read RabbitMQ management CA certificate " +:+ path))
                | Ok pem => with_error ("failed to parse RabbitMQ management CA certificate " +:+ path)
                              (request (AParseCert pem))
                end
            end in
  let! built := request ABuildClient in
  Ret match built with Ok _ => Ok "management" | Err e => Err e end.

Definition new_client (base_url username password vhost : string) (allow_insecure : bool)
    (ca_cert_path : option string) : prog (result string ManagementClient) :=
  let* http := management_http_client ca_cert_path in
  Ret (url ← validate_management_base_url base_url allow_insecure;
       Ok {| mc_http := http; mc_base_url := url; mc_username := username; mc_password := password;
             mc_vhost := vhost |}).

Definition from_config : prog (result string (option ManagementClient)) :=
  let! url := env "FLUIDBG_RABBITMQ_MANAGEMENT_URL" in
  match url with
  | None => Ret (Ok None)
  | Some url =>
      let! username := optional_env "FLUIDBG_RABBITMQ_MANAGEMENT_USERNAME" in
      match username with
      | None => Ret (Ok None)
      | Some username =>
          let! password := optional_env "FLUIDBG_RABBITMQ_MANAGEMENT_PASSWORD" in
          match password with
          | None => Ret (Ok None)
          | Some password =>
              let! allow_insecure := env_flag "FLUIDBG_RABBITMQ_MANAGEMENT_ALLOW_INSECURE" in
              let! ca := optional_env "FLUIDBG_RABBITMQ_MANAGEMENT_CA_CERT_PATH" in
              let! _ := env_flag "FLUIDBG_RABBITMQ_MANAGEMENT_INSECURE_SKIP_VERIFY" in
              let! vhost := env "FLUIDBG_RABBITMQ_MANAGEMENT_VHOST" in
              let* m := new_client url username password (unwrap_or "/" vhost) allow_insecure ca in
              Ret (Ok (Some m))
          end
      end
  end.

Definition management_call (m : ManagementClient) (method path : string) (p : payload) : http_call :=
  {| call_client := mc_http m; call_method := method; call_url := api_url m path; call_headers := [];
     call_basic_auth := Some (mc_username m, mc_password m); call_payload := p |}.
(** [send().await?.error_for_status()?]. *)
Definition send (c : http_call) : prog (result string call_response) :=
  let! sent := cell (ICall c) in
  Ret match (sent : result string call_response) with
      | Ok resp => if is_error_status (cr_status resp)
                   then Err ("HTTP status error " +:+ show_Z (cr_status resp)) else Ok resp
      | Err e => Err e
      end.
(** The same where 404 is an answer. *)
Definition send_found (c : http_call) : prog (result string (option call_response)) :=
  let! sent := cell (ICall c) in
  Ret match (sent : result string call_response) with
      | Ok resp => if Z.eqb (cr_status resp) 404 then Ok None
                   else if is_error_status (cr_status resp)
                   then Err ("HTTP status error " +:+ show_Z (cr_status resp)) else Ok (Some resp)
      | Err e => Err e
      end.
Definition decoded {A} (d : decoder A) (resp : call_response) : result string A :=
  match cr_json resp with Ok j => ok_or "error decoding response body" (d j) | Err e => Err e end.

Definition queue_permission_regex (queue_names : list string) : string :=
  let names := sorted_names (map regex_escape (List.filter (fun n => negb (is_empty n)) queue_names)) in
  match names with [] => "^$" | _ => "^(" +:+ String.concat "|" names +:+ ")$" end.

Definition create_inceptor_user (m : ManagementClient) (username password : string) (queue_names : list string)
    : prog (result string unit) :=
  let* _ := send (management_call m "PUT" ("api/users/" +:+ encode_path_segment username)
    (JsonPayload (JObj [("password", JStr password); ("tags", JStr "monitoring")]))) in
  let* _ := send (management_call m "PUT"
    ("api/permissions/" +:+ encode_path_segment (mc_vhost m) +:+ "/" +:+ encode_path_segment username)
    (JsonPayload (JObj [("configure", JStr ""); ("read", JStr (queue_permission_regex queue_names));
                        ("write", JStr default_exchange_permission_regex)]))) in
  Ret (Ok tt).

Definition delete_user (m : ManagementClient) (username : string) : prog (result string unit) :=
  let* _ := send_found (management_call m "DELETE" ("api/users/" +:+ encode_path_segment username) NoPayload) in
  Ret (Ok tt).

Definition list_users (m : ManagementClient) : prog (result string (list string)) :=
  let* resp := send (management_call m "GET" "api/users" NoPayload) in
  Ret (decoded (d_list decode_name) resp).

Definition empty_depth : QueueDepth := {| depth_ready := 0; depth_unacknowledged := 0; depth_consumers := 0 |}.
Definition queue_depth (m : ManagementClient) (queue : string) : prog (result string QueueDepth) :=
  let* found := send_found (management_call m "GET"
    ("api/queues/" +:+ encode_path_segment (mc_vhost m) +:+ "/" +:+ encode_path_segment queue) NoPayload) in
  Ret match found with None => Ok empty_depth | Some resp => decoded decode_queue resp end.

Definition list_queues (m : ManagementClient) : prog (result string (list string)) :=
  let* resp := send (management_call m "GET" ("api/queues/" +:+ encode_path_segment (mc_vhost m)) NoPayload) in
  Ret (decoded (d_list decode_name) resp).
End Management.

(** ** lifecycle.rs *)

Section Handlers.
Context `{Urls, Regexes, JsonText, Sha256}.
Context (state : RabbitState).

(** [+=] on [u64]. *)
Definition add_depth (d e : QueueDepth) : QueueDepth :=
  {| depth_ready := wrap_u64 (depth_ready d + depth_ready e);
     depth_unacknowledged := wrap_u64 (depth_unacknowledged d + depth_unacknowledged e);
     depth_consumers := wrap_u64 (depth_consumers d + depth_consumers e) |}.

Definition management_queue_depth_with_shadow (m : ManagementClient) (queue : string)
    : prog (result string QueueDepth) :=
  let* depth := queue_depth m queue in
  match shadow_queue_name (rs_config state) queue with
  | None => Ret (Ok depth)
  | Some shadow_queue => let* shadow := queue_depth m shadow_queue in Ret (Ok (add_depth depth shadow))
  end.

Definition queue_state_with_shadow (channel : Z) (queue : string) : prog (result string (Z * Z)) :=
  let* ready_consumers := queue_state channel queue in
  match shadow_queue_name (rs_config state) queue with
  | None => Ret (Ok ready_consumers)
  | Some shadow_queue =>
      let* shadow := queue_state channel shadow_queue in
      Ret (Ok (wrap_u32 (ready_consumers.1 + shadow.1), wrap_u32 (ready_consumers.2 + shadow.2)))
  end.

Definition management_drain_status (label : string) (green blue : QueueDepth) : PluginDrainStatusResponse :=
  let green_total := wrap_u64 (depth_ready green + depth_unacknowledged green) in
  let blue_total := wrap_u64 (depth_ready blue + depth_unacknowledged blue) in
  let drained := (Z.eqb green_total 0 && Z.eqb blue_total 0)%bool in
  {| pds_drained := drained;
     pds_message := Some
       (if drained
        then label +:+ " are empty and have no unacknowledged messages (consumers: green="
             +:+ show_Z (depth_consumers green) +:+ ", blue=" +:+ show_Z (depth_consumers blue) +:+ ")"
        else label +:+ " not drained (green ready=" +:+ show_Z (depth_ready green) +:+ ", unacked="
             +:+ show_Z (depth_unacknowledged green) +:+ ", consumers=" +:+ show_Z (depth_consumers green)
             +:+ "; blue ready=" +:+ show_Z (depth_ready blue) +:+ ", unacked="
             +:+ show_Z (depth_unacknowledged blue) +:+ ", consumers=" +:+ show_Z (depth_consumers blue)
             +:+ ")") |}.

Definition queue_pair_drain_status (channel : Z) (green_queue blue_queue label : string)
    : prog (result string PluginDrainStatusResponse) :=
  let* management := from_config in
  match management with
  | Some m =>
      let* green := management_queue_depth_with_shadow m green_queue in
      let* blue := management_queue_depth_with_shadow m blue_queue in
      Ret (Ok (management_drain_status label green blue))
  | None =>
      let* green := queue_state_with_shadow channel green_queue in
      let* blue := queue_state_with_shadow channel blue_queue in
      let drained := (Z.eqb green.1 0 && Z.eqb blue.1 0)%bool in
      Ret (Ok {| pds_drained := drained;
        pds_message := Some
          (if drained
           then label +:+ " have no ready messages; RabbitMQ management API is not configured, so "
                +:+ "unacknowledged counts are not directly observable (consumers: green="
                +:+ show_Z green.2 +:+ ", blue=" +:+ show_Z blue.2 +:+ ")"
           else label +:+ " still contain ready messages (green=" +:+ show_Z green.1
                +:+ ", blue=" +:+ show_Z blue.1 +:+ ")") |})
  end.
Definition input_drain_status (channel : Z) (green_queue blue_queue : string)
    : prog (result string PluginDrainStatusResponse) :=
  queue_pair_drain_status channel green_queue blue_queue "temporary input queues".

Definition drain_runtime_queues (n : nat) : prog (option (result string unit)) :=
  do%* drain_input_roles state n ;; drain_output_queues state n.

Definition input_status (channel : Z) (block : string) (c : result string SplitterConfig)
    : prog (result string PluginDrainStatusResponse) :=
  match (c ← c;
         green ← required (in_green_queue c) (block +:+ ".greenInputQueue");
         blue ← required (in_blue_queue c) (block +:+ ".blueInputQueue");
         Ok (green, blue)) with
  | Err e => Ret (Err e)
  | Ok (green, blue) => input_drain_status channel green blue
  end.

Definition role_drain_status (channel : Z) : prog (result string PluginDrainStatusResponse) :=
  if active state Duplicator then input_status channel "duplicator" (duplicator_config (rs_config state))
  else if active state Splitter then input_status channel "splitter" (splitter_config (rs_config state))
  else if active state Combiner then
    match (c ← combiner_config (rs_config state);
           green ← required (cb_green_queue c) "combiner.greenOutputQueue";
           blue ← required (cb_blue_queue c) "combiner.blueOutputQueue";
           Ok (green, blue)) with
    | Err e => Ret (Err e)
    | Ok (green, blue) => queue_pair_drain_status channel green blue "temporary output queues"
    end
  else Ret (Ok {| pds_drained := true; pds_message := Some "no drain-sensitive RabbitMQ roles active" |}).

Definition compute_drain_status (n : nat) : prog (option (result string PluginDrainStatusResponse)) :=
  let! mode := runtime_mode in
  do%* (if bool_decide (mode = Draining) then drain_runtime_queues n else ended (Ok tt)) ;;
  whole (let* channel := open_channel (rs_amqp_url state) in role_drain_status channel).

(** *** Handlers *)

Definition authorize_operator (headers : HeaderMap) : result Z unit :=
  if bearer_matches (header_text headers "authorization") (rt_auth_token (rs_runtime state)) then Ok tt else Err 401.

(** [for queue in queues.iter().flatten()]. *)
Definition each_queue (queues : list (option string)) (body : string -> prog (result Z unit))
    : prog (result Z unit) := each (omap id queues) body.

Definition declare_temp_queues (channel : Z) (queues : list (option string)) : prog (result Z unit) :=
  each_queue queues (fun queue =>
    match shadow_queue_name (rs_config state) queue with
    | Some shadow_queue =>
        do* with_error 500 (declare_queue channel shadow_queue (shadow_declaration (rs_config state))) ;;
        with_error 500 (declare_queue channel queue (rc_queue_declaration (rs_config state)))
    | None => with_error 500 (declare_queue channel queue (rc_queue_declaration (rs_config state)))
    end).
Definition delete_temp_queues (channel : Z) (queues : list (option string)) : prog (result Z unit) :=
  each_queue queues (fun queue =>
    do* with_error 500 (delete_queue channel queue) ;;
    match shadow_queue_name (rs_config state) queue with
    | Some shadow_queue => with_error 500 (delete_queue channel shadow_queue)
    | None => Ret (Ok tt)
    end).

(** A block of the configuration that an active role needs. *)
Definition for_role {A} (r : PluginRole) (block : result string A) (f : A -> prog (result Z unit))
    : prog (result Z unit) :=
  if active state r then match block with Ok b => f b | Err _ => Ret (Err 500) end else Ret (Ok tt).

Definition with_assignments (l : list PropertyAssignment) : PluginLifecycleResponse :=
  {| plr_assignments := l; plr_inceptor_env := []; plr_config := None |}.

Definition prepare_handler (headers : HeaderMap) : prog (result Z PluginLifecycleResponse) :=
  match authorize_operator headers with
  | Err e => Ret (Err e)
  | Ok _ =>
      let prepared := with_assignments (build_prepare_assignments (rs_config state) (rs_roles state)) in
      do! set_runtime_mode Idle ;;
      let! disabled := inceptor_infra_disabled in
      if disabled then Ret (Ok prepared)
      else
        let* channel := with_error 500 (open_channel (rs_amqp_url state)) in
        do* for_role Duplicator (duplicator_config (rs_config state))
              (fun d => declare_temp_queues channel [in_green_queue d; in_blue_queue d]) ;;
        do* for_role Splitter (splitter_config (rs_config state))
              (fun d => declare_temp_queues channel [in_green_queue d; in_blue_queue d]) ;;
        do* for_role Combiner (combiner_config (rs_config state))
              (fun d => declare_temp_queues channel [cb_green_queue d; cb_blue_queue d; cb_output_queue d]) ;;
        do* for_role Writer (writer_config (rs_config state))
              (fun d => declare_temp_queues channel [wr_target_queue d]) ;;
        Ret (Ok prepared)
  end.

Definition activate_handler (headers : HeaderMap) : prog (result Z PluginLifecycleResponse) :=
  match authorize_operator headers with
  | Err e => Ret (Err e)
  | Ok _ => do! set_runtime_mode Active ;; Ret (Ok empty_lifecycle_response)
  end.

Definition cleanup_handler (headers : HeaderMap) : prog (result Z PluginLifecycleResponse) :=
  match authorize_operator headers with
  | Err e => Ret (Err e)
  | Ok _ =>
      do! set_runtime_mode Idle ;;
      let! disabled := inceptor_infra_disabled in
      if disabled then Ret (Ok (with_assignments []))
      else
        do! pause 1000 ;;
        let* channel := with_error 500 (open_channel (rs_amqp_url state)) in
        do* for_role Duplicator (duplicator_config (rs_config state))
              (fun d => delete_temp_queues channel [in_green_queue d; in_blue_queue d]) ;;
        do* for_role Splitter (splitter_config (rs_config state))
              (fun d => delete_temp_queues channel [in_green_queue d; in_blue_queue d]) ;;
        do* for_role Combiner (combiner_config (rs_config state))
              (fun d => delete_temp_queues channel [cb_green_queue d; cb_blue_queue d]) ;;
        Ret (Ok (with_assignments []))
  end.

Definition drain_handler (n : nat) (headers : HeaderMap) : prog (option (result Z PluginLifecycleResponse)) :=
  match authorize_operator headers with
  | Err e => ended (Err e)
  | Ok _ =>
      do! set_runtime_mode Draining ;;
      let% drained := drain_runtime_queues n in
      ended match drained with
            | Err _ => Err 500
            | Ok _ => Ok (with_assignments (build_drain_assignments (rs_config state) (rs_roles state)))
            end
  end.

Definition drain_status_handler (n : nat) (headers : HeaderMap)
    : prog (option (result Z PluginDrainStatusResponse)) :=
  match authorize_operator headers with
  | Err e => ended (Err e)
  | Ok _ => let% status := compute_drain_status n in ended (map_err (fun _ => 500) status)
  end.

Definition traffic_shift_handler (headers : HeaderMap) (req : TrafficShiftRequest)
    : prog (result Z TrafficShiftResponse) :=
  match authorize_operator headers with
  | Err e => Ret (Err e)
  | Ok _ =>
      do! set_traffic_percent (tsr_traffic_percent req) ;;
      let! percent := traffic_percent in Ret (Ok {| tsp_traffic_percent := percent |})
  end.

(** ** writer.rs *)

Context `{AmqpTables}.

Definition write_properties (req : WriteRequest) : BasicProperties :=
  match opt_then (opt_then (wreq_properties req) (json_get "headers")) field_table_of_json with
  | Some headers => {| bp_headers := Some headers; bp_rest := bp_rest default_properties |}
  | None => default_properties
  end.

Definition write_handler (headers : HeaderMap) (req : WriteRequest) : prog (Z * string) :=
  match require_bearer_token (header_text headers "authorization") (rt_auth_token (rs_runtime state)) with
  | Err _ => Ret (401, "unauthorized")
  | Ok _ =>
      match rc_writer (rs_config state) ≫= wr_target_queue with
      | None => Ret (400, "targetQueue not configured")
      | Some queue =>
          let! conn := connect_with_retry (rs_amqp_url state) in
          match conn with
          | Err _ => Ret (500, "connect failed")
          | Ok conn =>
              let! channel := create_channel conn in
              match channel with
              | Err _ => Ret (500, "channel failed")
              | Ok channel =>
                  let! published := publish_confirmed channel queue (json_to_bytes (wreq_payload req))
                                      (write_properties req) in
                  Ret match published with Ok _ => (200, "published") | Err _ => (500, "publish failed") end
              end
          end
      end
  end.
End Handlers.
