(* ===== verification/NatsWorkers.v ===== *)
(** * The NATS plugin: workers

    [plugins/nats/src]: [input.rs] and [combiner.rs].  [n] is the number of turns a loop is
    looked at. *)

From S2P Require Import Prelude RustString Float64 Kube Crd StateStore InceptorEffects Effects.
From S2P Require Import External Names SipHash Auth Plugins Sdk SdkNames JsonDecode HttpPlugin QueuePlugins Nats.

Section Worker.
Context `{Regexes, JsonText}.
Context (state : NatsState).

Definition active (r : PluginRole) : bool := has_role (ns_roles state) r.
Definition core_mode : bool := is_core (nc_mode (ns_config state)).

Definition notify_observer (o : ObserverConfig) (test_id : string) (body : json) (route : TrafficRoute)
    : prog bool :=
  match ob_notify_path o with
  | None => Ret false
  | Some path => let! r := Sdk.notify_observer (ns_runtime state) path test_id body route in Ret (is_ok r)
  end.

(** A message that belongs to a test case: a verifier that cannot be notified is passed over, a
    registration that fails is an error. *)
Definition observe_payload (body_json : json) (route : TrafficRoute) : prog (result string unit) :=
  match nc_observer (ns_config state) with
  | Some observer =>
      if (active Observer && matches_filter (ob_match observer) body_json)%bool then
        match ob_test_id observer ≫= fun selector => extract_test_id selector body_json with
        | Some test_id =>
            let! notified := notify_observer observer test_id body_json route in
            if (notified && should_register_case route)%bool
            then register_test_case (ns_runtime state) test_id else Ret (Ok tt)
        | None => Ret (Ok tt)
        end
      else Ret (Ok tt)
  | None => Ret (Ok tt)
  end.

(** ** input.rs *)

Definition publish_to_subject (client : Z) (subject body : string) : prog (result string unit) :=
  if core_mode then publish_core client subject body else publish client subject body.
Definition publish_optional (client : Z) (subject : option string) (body : string) : prog (result string unit) :=
  match subject with Some s => publish_to_subject client s body | None => Ret (Ok tt) end.

(** Where the message goes; the route that tells. *)
Definition forward_message (client : Z) (body : string) : prog (result string TrafficRoute) :=
  if active Duplicator then
    match duplicator_config (ns_config state) with
    | Err e => Ret (Err e)
    | Ok config =>
        do* publish_optional client (ic_green_subject config) body ;;
        do* publish_optional client (ic_blue_subject config) body ;;
        Ret (Ok RouteBoth)
    end
  else if active Splitter then
    match splitter_config (ns_config state) with
    | Err e => Ret (Err e)
    | Ok config =>
        let! percent := traffic_percent in
        if routes_to_blue body percent
        then do* publish_optional client (ic_blue_subject config) body ;; Ret (Ok RouteBlue)
        else match ic_green_subject config with
             | Some subject => do* publish_to_subject client subject body ;; Ret (Ok RouteGreen)
             | None => Ret (Ok RouteUnknown)
             end
    end
  else Ret (Ok RouteUnknown).

Definition process_input_payload (client : Z) (body : string) : prog (result string unit) :=
  let* route := forward_message client body in observe_payload (body_of_bytes body) route.

Definition process_input_message (client : Z) (message : jet_message) : prog (result string unit) :=
  do* process_input_payload client (jm_payload message) ;; nats (NAck message).

(** *** Draining *)

Definition input_consumer_durable (queue_group : option string) (subject : string) : string :=
  match queue_group with Some group => queue_group_durable group subject | None => durable_name "drain" subject end.

Definition drain_targets_of (block : string) (c : InputConfig)
    : result string (string * (string * string) * (string * string)) :=
  base ← required (ic_input_subject c) (block +:+ ".inputSubject");
  green ← required (ic_green_subject c) (block +:+ ".greenInputSubject");
  blue ← required (ic_blue_subject c) (block +:+ ".blueInputSubject");
  Ok (base, (green, input_consumer_durable (or_else (ic_green_group c) (ic_queue_group c)) green),
      (blue, input_consumer_durable (or_else (ic_blue_group c) (ic_queue_group c)) blue)).
(** The base subject, and the subjects of green and blue with the consumers they are drained by. *)
Definition input_drain_targets : result string (string * (string * string) * (string * string)) :=
  if active Duplicator
  then c ← duplicator_config (ns_config state); drain_targets_of "duplicator" c
  else c ← splitter_config (ns_config state); drain_targets_of "splitter" c.

Definition DRAIN_BATCH : nat := Z.to_nat 10000.

Definition drain_input_subjects : prog (result string unit) :=
  if core_mode then Ret (Ok tt)
  else if (negb (active Duplicator) && negb (active Splitter))%bool then Ret (Ok tt)
  else
    match input_drain_targets with
    | Err e => Ret (Err e)
    | Ok (base, green, blue) =>
        let* client := connect (ns_nats_url state) in
        each [green; blue] (fun target =>
          do* move_subject_messages client target.1 base target.2 DRAIN_BATCH ;; Ret (Ok tt))
    end.

(** *** The pipeline *)

Definition input_source_subject (config : NatsConfig) (roles : list PluginRole) : result string string :=
  if has_role roles Duplicator
  then c ← duplicator_config config; required (ic_input_subject c) "duplicator.inputSubject"
  else if has_role roles Splitter
  then c ← splitter_config config; required (ic_input_subject c) "splitter.inputSubject"
  else c ← consumer_config config; required (src_input_subject c) "consumer.inputSubject".

Definition input_source_queue_group (config : NatsConfig) (roles : list PluginRole) : option string :=
  if has_role roles Duplicator then nc_duplicator config ≫= ic_queue_group
  else if has_role roles Splitter then nc_splitter config ≫= ic_queue_group
  else None.

Record SourceDurable := { sd_name : string; sd_uses_existing_consumer : bool }.

Definition input_source_durable (config : NatsConfig) (roles : list PluginRole) (input_subject : string)
    : result string SourceDurable :=
  let of_group (r : PluginRole) (c : result string InputConfig) (otherwise : result string SourceDurable) :=
    if has_role roles r then
      c ← c;
      match ic_queue_group c with
      | Some queue_group => Ok {| sd_name := queue_group_durable queue_group input_subject;
                                  sd_uses_existing_consumer := true |}
      | None => otherwise
      end
    else otherwise in
  of_group Duplicator (duplicator_config config)
    (of_group Splitter (splitter_config config)
       (Ok {| sd_name := durable_name "input" input_subject; sd_uses_existing_consumer := false |})).

Definition next_input (client : Z) (input_subject : string) (d : SourceDurable)
    : prog (result string (option jet_message)) :=
  if (active Duplicator || active Splitter)%bool then
    if sd_uses_existing_consumer d then next_message client input_subject (sd_name d)
    else next_message_new client input_subject (sd_name d)
  else next_message client input_subject (sd_name d).

(** A turn of the inner loop: [inr None] is its [break], [inr (Some e)] an error that ends the
    worker. *)
Definition input_turn (client : Z) (input_subject : string) (_ : unit) : prog (unit + option string) :=
  let! mode := runtime_mode in
  match mode with
  | Idle => do! pause 300 ;; Ret (inl tt)
  | Draining => let! _ := drain_input_subjects in do! pause 300 ;; Ret (inl tt)
  | Active =>
      match input_source_durable (ns_config state) (ns_roles state) input_subject with
      | Err e => Ret (inr (Some e))
      | Ok durable =>
          let! next := next_input client input_subject durable in
          match (next : result string (option jet_message)) with
          | Ok (Some message) =>
              let! processed := process_input_message client message in
              Ret match processed with Ok _ => inl tt | Err _ => inr None end
          | Ok None => do! pause 200 ;; Ret (inl tt)
          | Err _ => Ret (inr None)
          end
      end
  end.

Definition pipeline_turn (n : nat) (_ : unit) : prog (option (unit + result string unit)) :=
  let! mode := runtime_mode in
  match mode with
  | Idle => do! pause 300 ;; ended (inl tt)
  | _ =>
      let! connected := connect (ns_nats_url state) in
      match connected with
      | Err _ => do! pause 2000 ;; ended (inl tt)
      | Ok client =>
          match input_source_subject (ns_config state) (ns_roles state) with
          | Err e => ended (inr (Err e))
          | Ok input_subject =>
              let% stopped := loop n tt (input_turn client input_subject) in
              ended match stopped with None => inl tt | Some e => inr (Err e) end
          end
      end
  end.

(** A turn of [while matches!(state.runtime_mode(), RuntimeMode::Active)]: what becomes of a
    message is only logged. *)
Definition subscription_turn (subscriber : Z) (process : string -> prog (result string unit)) (_ : unit)
    : prog (unit + unit) :=
  let! mode := runtime_mode in
  if negb (bool_decide (mode = Active)) then Ret (inr tt)
  else
    let! event := nats (NNext subscriber 500) in
    match (event : core_event) with
    | CoreMessage data => let! _ := process data in Ret (inl tt)
    | CoreClosed => Ret (inr tt)
    | CoreTimeout => Ret (inl tt)
    end.

(** Subscribes, says so, and serves the subscription while the mode is active. *)
Definition subscribed (n : nat) (subject : string) (queue_group : option string) (ready_mask : Z)
    (process : Z -> string -> prog (result string unit)) : prog (option unit) :=
  let! connected := connect (ns_nats_url state) in
  match connected with
  | Err _ => whole (pause 2000)
  | Ok client =>
      let! subscriber := subscribe_core client subject queue_group in
      match (subscriber : result string Z) with
      | Err _ => whole (pause 2000)
      | Ok subscriber =>
          do! mark_core_ready ready_mask ;;
          loop n tt (subscription_turn subscriber (process client))
      end
  end.

Definition core_pipeline_turn (n : nat) (_ : unit) : prog (option (unit + result string unit)) :=
  let! mode := runtime_mode in
  match mode with
  | Active =>
      match input_source_subject (ns_config state) (ns_roles state) with
      | Err e => ended (inr (Err e))
      | Ok input_subject =>
          let% _ := subscribed n input_subject (input_source_queue_group (ns_config state) (ns_roles state))
                      CORE_READY_INPUT process_input_payload in
          ended (inl tt)
      end
  | _ => do! pause 300 ;; ended (inl tt)
  end.
Definition run_core_input_pipeline (n : nat) : prog (option (result string unit)) :=
  loop_of_loops n tt (core_pipeline_turn n).

Definition run_input_pipeline (n : nat) : prog (option (result string unit)) :=
  if core_mode then run_core_input_pipeline n else loop_of_loops n tt (pipeline_turn n).

(** ** combiner.rs *)

Definition publish_to_target (client : Z) (target body : string) : prog (result string unit) :=
  publish_to_subject client target body.

Definition process_output (client : Z) (source target body : string) : prog (result string unit) :=
  match combiner_config (ns_config state) with
  | Err e => Ret (Err e)
  | Ok combiner =>
      let route := route_from_output_source combiner source in
      do* publish_to_target client target body ;;
      observe_payload (body_of_bytes body) route
  end.
Definition process_core_output_message (source target : string) (client : Z) (body : string)
    : prog (result string unit) := process_output client source target body.

Definition combiner_durable (source : string) : string := durable_name "combiner" source.

Definition drain_output_subject (source target : string) : prog (result string unit) :=
  let* client := connect (ns_nats_url state) in
  do* move_subject_messages client source target (combiner_durable source) DRAIN_BATCH ;; Ret (Ok tt).

(** Only an error that [?] hands on ends the loop. *)
Definition combine_turn (source target : string) (_ : unit) : prog (unit + result string unit) :=
  let! mode := runtime_mode in
  if bool_decide (mode = Idle) then do! pause 300 ;; Ret (inl tt)
  else
    let! connected := connect (ns_nats_url state) in
    match connected with
    | Err _ => do! pause 2000 ;; Ret (inl tt)
    | Ok client =>
        let! mode := runtime_mode in
        if bool_decide (mode = Draining) then
          let! drained := drain_output_subject source target in
          match drained with
          | Err e => Ret (inr (Err e))
          | Ok _ => do! pause 300 ;; Ret (inl tt)
          end
        else
          let! next := next_message client source (durable_name "combiner" source) in
          match (next : result string (option jet_message)) with
          | Ok (Some message) =>
              let! combined := (do* process_output client source target (jm_payload message) ;;
                                nats (NAck message)) in
              Ret match combined with Ok _ => inl tt | Err e => inr (Err e) end
          | Ok None => do! pause 200 ;; Ret (inl tt)
          | Err _ => do! pause 2000 ;; Ret (inl tt)
          end
    end.
Definition run_combine_loop (n : nat) (source target : string) : prog (option (result string unit)) :=
  loop n tt (combine_turn source target).

Definition core_combine_turn (n : nat) (source target : string) (ready_mask : Z) (_ : unit)
    : prog (option (unit + result string unit)) :=
  let! mode := runtime_mode in
  match mode with
  | Active =>
      let% _ := subscribed n source None ready_mask (process_core_output_message source target) in ended (inl tt)
  | _ => do! pause 300 ;; ended (inl tt)
  end.
Definition run_core_combine_loop (n : nat) (source target : string) (ready_mask : Z)
    : prog (option (result string unit)) :=
  loop_of_loops n tt (core_combine_turn n source target ready_mask).

(** Green's output subject, blue's, and the subject both go to. *)
Definition output_subjects : result string (string * string * string) :=
  c ← combiner_config (ns_config state);
  green ← required (oc_green_subject c) "combiner.greenOutputSubject";
  blue ← required (oc_blue_subject c) "combiner.blueOutputSubject";
  output ← required (oc_output_subject c) "combiner.outputSubject";
  Ok (green, blue, output).

Definition drain_output_subjects : prog (result string unit) :=
  if core_mode then Ret (Ok tt)
  else if negb (active Combiner) then Ret (Ok tt)
  else match output_subjects with
       | Err e => Ret (Err e)
       | Ok (green, blue, output) =>
           do* drain_output_subject green output ;; drain_output_subject blue output
       end.

(** The two tasks that [run_combiner] spawns and joins. *)
Definition run_combiner (n : nat) : result string (list (prog (option (result string unit)))) :=
  subjects ← output_subjects;
  let '(green, blue, output) := subjects in
  Ok (if core_mode
      then [run_core_combine_loop n green output CORE_READY_GREEN_OUTPUT;
            run_core_combine_loop n blue output CORE_READY_BLUE_OUTPUT]
      else [run_combine_loop n green output; run_combine_loop n blue output]).
End Worker.
