(* ===== verification/NatsLifecycle.v ===== *)
(** * The NATS plugin: lifecycle and writes

    [plugins/nats/src]: [lifecycle.rs] and [writer.rs]. *)

From S2P Require Import Prelude RustString Float64 Kube Crd StateStore InceptorEffects Effects.
From S2P Require Import External Names SipHash Auth Plugins Sdk SdkNames JsonDecode HttpPlugin QueuePlugins Nats.
From S2P Require Import NatsWorkers.

Section Handlers.
Context (state : NatsState).

(** ** Subjects *)

Definition of_role {A B} (r : PluginRole) (block : result string A) (f : A -> result string (list B))
    : result string (list B) :=
  if active state r then c ← block; f c else Ok [].
Definition append {A} (p q : result string (list A)) : result string (list A) := l ← p; l' ← q; Ok (l ++ l').

Definition input_pair (block : string) (c : InputConfig) : result string (list string) :=
  green ← required (ic_green_subject c) (block +:+ ".greenInputSubject");
  blue ← required (ic_blue_subject c) (block +:+ ".blueInputSubject");
  Ok [green; blue].
Definition output_pair (c : OutputConfig) : result string (list string) :=
  green ← required (oc_green_subject c) "combiner.greenOutputSubject";
  blue ← required (oc_blue_subject c) "combiner.blueOutputSubject";
  Ok [green; blue].

Definition drain_sensitive_subjects : result string (list string) :=
  append (of_role Duplicator (duplicator_config (ns_config state)) (input_pair "duplicator"))
    (append (of_role Splitter (splitter_config (ns_config state)) (input_pair "splitter"))
       (of_role Combiner (combiner_config (ns_config state)) output_pair)).

Definition managed_subjects : list string :=
  let base {A} (r : PluginRole) (block : option A) (f : A -> option string) :=
    match block ≫= f with Some subject => if active state r then [subject] else [] | None => [] end in
  sorted_names
    (match drain_sensitive_subjects with Ok l => l | Err _ => [] end
     ++ base Duplicator (nc_duplicator (ns_config state)) ic_input_subject
     ++ base Splitter (nc_splitter (ns_config state)) ic_input_subject
     ++ base Combiner (nc_combiner (ns_config state)) oc_output_subject).

Definition drain_backlog_targets : result string (list (string * string)) :=
  append
    (if (active state Duplicator || active state Splitter)%bool then
       targets ← input_drain_targets state;
       let '(_, green, blue) := targets in Ok [green; blue]
     else Ok [])
    (of_role Combiner (combiner_config (ns_config state)) (fun c =>
       subjects ← output_pair c; Ok (map (fun subject => (subject, combiner_durable subject)) subjects))).

(** ** The drain status *)

Fixpoint sum_backlogs (client : Z) (targets : list (string * string)) (remaining ack_pending : Z)
    : prog (result string (Z * Z)) :=
  match targets with
  | [] => Ret (Ok (remaining, ack_pending))
  | (subject, durable) :: targets' =>
      let* backlog := consumer_backlog client subject durable in
      sum_backlogs client targets' (wrap_u64 (remaining + bl_pending backlog))
        (wrap_u64 (ack_pending + bl_ack_pending backlog))
  end.

Definition compute_drain_status : prog (result string PluginDrainStatusResponse) :=
  if core_mode state then
    Ret (Ok {| pds_drained := true;
               pds_message := Some ("core NATS mode has no durable pending or ack-pending state; "
                                    +:+ "drain is best-effort") |})
  else
    let! mode := runtime_mode in
    do* (if bool_decide (mode = Draining)
         then do* drain_input_subjects state ;; drain_output_subjects state else Ret (Ok tt)) ;;
    let* client := connect (ns_nats_url state) in
    match drain_backlog_targets with
    | Err e => Ret (Err e)
    | Ok targets =>
        let* sums := sum_backlogs client targets 0 0 in
        let '(remaining, ack_pending) := sums in
        let drained := (Z.eqb remaining 0 && Z.eqb ack_pending 0)%bool in
        Ret (Ok {| pds_drained := drained;
          pds_message := Some
            (if drained then "temporary NATS consumers have no pending messages"
             else "temporary NATS consumers still have " +:+ show_Z remaining +:+ " pending and "
                  +:+ show_Z ack_pending +:+ " ack-pending message(s)") |})
    end.

(** ** Handlers *)

Definition authorize_operator (headers : HeaderMap) : result Z unit :=
  if bearer_matches (header_text headers "authorization") (rt_auth_token (ns_runtime state)) then Ok tt else Err 401.

Definition core_readiness_mask : Z :=
  if active state Combiner then Z.lor CORE_READY_GREEN_OUTPUT CORE_READY_BLUE_OUTPUT
  else if (active state Duplicator || active state Splitter || active state Consumer)%bool then CORE_READY_INPUT
  else 0.

Definition with_assignments (l : list PropertyAssignment) : PluginLifecycleResponse :=
  {| plr_assignments := l; plr_inceptor_env := []; plr_config := None |}.
Definition ok_json : json := JObj [("ok", JBool true)].

Definition prepare_handler (headers : HeaderMap) : prog (result Z PluginLifecycleResponse) :=
  match authorize_operator headers with
  | Err e => Ret (Err e)
  | Ok _ =>
      do! set_runtime_mode Idle ;;
      do* (if core_mode state then Ret (Ok tt)
           else let* client := with_error 500 (connect (ns_nats_url state)) in
                each managed_subjects (fun subject =>
                  with_error 500 (ensure_subject_stream client subject (nc_stream (ns_config state))))) ;;
      Ret (Ok (with_assignments (build_prepare_assignments (ns_config state) (ns_roles state))))
  end.

(** [n] notifications are looked at. *)
Definition activate_handler (n : nat) (headers : HeaderMap) : prog (option (result Z json)) :=
  match authorize_operator headers with
  | Err e => ended (Err e)
  | Ok _ =>
      do! reset_core_readiness ;;
      do! set_runtime_mode Active ;;
      if core_mode state then
        let% ready := wait_for_core_ready n core_readiness_mask 10000 in
        ended (if ready then Ok ok_json else Err 503)
      else ended (Ok ok_json)
  end.

Definition drain_handler (headers : HeaderMap) : prog (result Z PluginLifecycleResponse) :=
  match authorize_operator headers with
  | Err e => Ret (Err e)
  | Ok _ =>
      do! set_runtime_mode Draining ;;
      Ret (Ok (with_assignments (build_drain_assignments (ns_config state) (ns_roles state))))
  end.

Definition drain_status_handler (headers : HeaderMap) : prog (result Z PluginDrainStatusResponse) :=
  match authorize_operator headers with
  | Err e => Ret (Err e)
  | Ok _ => with_error 500 compute_drain_status
  end.

Definition cleanup_handler (headers : HeaderMap) : prog (result Z PluginLifecycleResponse) :=
  match authorize_operator headers with
  | Err e => Ret (Err e)
  | Ok _ =>
      do! set_runtime_mode Idle ;;
      do* (if core_mode state then Ret (Ok tt)
           else
             let* client := with_error 500 (connect (ns_nats_url state)) in
             match drain_sensitive_subjects with
             | Err _ => Ret (Err 400)
             | Ok subjects => each subjects (fun subject => with_error 500 (delete_subject_stream client subject))
             end) ;;
      Ret (Ok (with_assignments (build_drain_assignments (ns_config state) (ns_roles state))))
  end.

Definition traffic_shift_handler (headers : HeaderMap) (req : TrafficShiftRequest)
    : prog (result Z TrafficShiftResponse) :=
  match authorize_operator headers with
  | Err e => Ret (Err e)
  | Ok _ =>
      do! set_traffic_percent (tsr_traffic_percent req) ;;
      let! percent := traffic_percent in Ret (Ok {| tsp_traffic_percent := percent |})
  end.

(** ** writer.rs *)

Definition write_handler `{JsonText} (req : HttpWriteRequest) : prog (result Z json) :=
  match nc_writer (ns_config state) ≫= tc_target_subject with
  | None => Ret (Err 400)
  | Some subject =>
      let* client := with_error 500 (connect (ns_nats_url state)) in
      let payload := json_to_bytes (hwr_payload req) in
      do* with_error 500 (if core_mode state then publish_core client subject payload
                          else publish client subject payload) ;;
      Ret (Ok ok_json)
  end.
End Handlers.
