(* ===== verification/NatsManager.v ===== *)
(** * The NATS plugin: manager

    [plugins/nats/src/manager.rs]: it creates the streams of an inception point, deletes those
    of its temporary subjects, and collects the temporary streams no active inception point
    uses.  The names of temporary subjects are derived from the claims of the token. *)

From S2P Require Import Prelude RustString Float64 Kube Crd StateStore InceptorEffects Effects.
From S2P Require Import External Names SipHash Auth Plugins Sdk SdkNames JsonDecode HttpPlugin QueuePlugins Nats.

Record NatsManagerState := {
  nm_signing_key : list ascii;
  nm_nats_url : string;
  nm_inceptor_url : string }.

Definition manager_state_from_env : prog (result string NatsManagerState) :=
  let! key := env "FLUIDBG_MANAGER_AUTH_SIGNING_KEY" in
  match key with
  | None => Ret (Err "missing FLUIDBG_MANAGER_AUTH_SIGNING_KEY")
  | Some key =>
      let! url := env "FLUIDBG_NATS_MANAGER_URL" in
      match url with
      | None => Ret (Err "missing FLUIDBG_NATS_MANAGER_URL")
      | Some url =>
          let! inceptor_url := optional_env "FLUIDBG_NATS_INCEPTOR_URL" in
          Ret (Ok {| nm_signing_key := bytes key; nm_nats_url := url;
                     nm_inceptor_url := unwrap_or url inceptor_url |})
      end
  end.

(** ** Subjects *)

(** The subjects of a block, when its role is active and it is configured. *)
Definition block_subjects {A} (roles : list PluginRole) (r : PluginRole) (block : option A)
    (f : A -> list (option string)) : list (option string) :=
  match block with Some b => if has_role roles r then f b else [] | None => [] end.

Definition temporary_subjects (roles : list PluginRole) (c : NatsConfig) : list string :=
  omap id
    (block_subjects roles Duplicator (nc_duplicator c) (fun d => [ic_green_subject d; ic_blue_subject d])
     ++ block_subjects roles Splitter (nc_splitter c) (fun d => [ic_green_subject d; ic_blue_subject d])
     ++ block_subjects roles Combiner (nc_combiner c) (fun d => [oc_green_subject d; oc_blue_subject d])).

Definition managed_subjects (roles : list PluginRole) (c : NatsConfig) : list string :=
  omap id
    (block_subjects roles Duplicator (nc_duplicator c)
       (fun d => [ic_input_subject d; ic_green_subject d; ic_blue_subject d])
     ++ block_subjects roles Splitter (nc_splitter c)
       (fun d => [ic_input_subject d; ic_green_subject d; ic_blue_subject d])
     ++ block_subjects roles Combiner (nc_combiner c)
       (fun d => [oc_output_subject d; oc_green_subject d; oc_blue_subject d])
     ++ block_subjects roles Writer (nc_writer c) (fun d => [tc_target_subject d])
     ++ block_subjects roles Consumer (nc_consumer c) (fun d => [src_input_subject d])).

Definition temporary_subject_identifier (config : json) (role : string) : option string :=
  opt_then (opt_then (json_get role config) (json_get "temporarySubjectIdentifier")) as_str.

Section Names.
Context `{Sha256}.

Definition temp_subject (namespace blue_green_ref blue_green_uid inception_point role suffix : string)
    (identifier : option string) : string :=
  derived_temp_queue_name_with_uid_and_identifier namespace blue_green_ref blue_green_uid inception_point
    role suffix identifier.

(** The fields that are rewritten, each with its role and its logical subject. *)
Definition temp_subject_fields : list (string * string * string) :=
  [("duplicator", "greenInputSubject", "green-input"); ("duplicator", "blueInputSubject", "blue-input");
   ("splitter", "greenInputSubject", "green-input"); ("splitter", "blueInputSubject", "blue-input");
   ("combiner", "greenOutputSubject", "green-output"); ("combiner", "blueOutputSubject", "blue-output")].

(** The identifiers are read before anything is rewritten. *)
Definition rewrite_temp_subjects (config : json)
    (namespace blue_green_ref blue_green_uid inception_point : string) : json :=
  fold_left (fun value f =>
    let '(role, field, logical) := f in
    set_nested_string value [role; field]
      (temp_subject namespace blue_green_ref blue_green_uid inception_point role logical
         (temporary_subject_identifier config role)))
    temp_subject_fields config.

Definition secured_config_from_claims (claims : PluginAuthClaims) (req : PluginManagerLifecycleRequest)
    : json * NatsConfig :=
  let value := rewrite_temp_subjects (pml_config req) (cl_namespace claims) (cl_blue_green_ref claims)
                 (unwrap_or "" (cl_blue_green_uid claims)) (cl_inception_point claims) in
  (value, unwrap_or default_nats_config (decode_nats_config value)).

(** What does not decode and what runs in core mode has no streams. *)
Definition active_streams (a : ActiveInception) : list string :=
  let value := rewrite_temp_subjects (ai_config a) (ai_namespace a) (ai_blue_green_ref a)
                 (unwrap_or "" (ai_blue_green_uid a)) (ai_inception_point a) in
  match decode_nats_config value with
  | Some config => if is_core (nc_mode config) then []
                   else map stream_name (temporary_subjects (parse_roles (ai_roles a)) config)
  | None => []
  end.
Definition active_stream_names (active_inceptions : list ActiveInception) : list string :=
  concat (map active_streams active_inceptions).
End Names.

(** ** Handlers *)

Definition sync_claims_match (req : PluginManagerSyncRequest) (claims : PluginAuthClaims) : bool :=
  negb (negb (String.eqb (cl_blue_green_ref claims) "__manager_sync__")
        || negb (String.eqb (cl_inception_point claims) "__manager_sync__")
        || negb (String.eqb (cl_plugin claims) (pms_plugin req))).

Section Handlers.
Context `{Sha256, Codecs}.
Context (state : NatsManagerState).

Definition authorize (headers : HeaderMap) : result Z PluginAuthClaims :=
  map_err (fun _ => 401) (verify_manager_bearer_token (header_text headers "authorization") (nm_signing_key state)).

Definition reconcile_streams (roles : list PluginRole) (c : NatsConfig) (create : bool) : prog (result Z unit) :=
  if is_core (nc_mode c) then Ret (Ok tt)
  else
    let* client := with_error 500 (connect (nm_nats_url state)) in
    each (if create then managed_subjects roles c else temporary_subjects roles c) (fun subject =>
      with_error 500 (if create then ensure_subject_stream client subject (nc_stream c)
                      else delete_subject_stream client subject)).

Definition garbage_collect_temp_streams (active_inceptions : list ActiveInception) : prog (result Z unit) :=
  let active := active_stream_names active_inceptions in
  let* client := with_error 500 (connect (nm_nats_url state)) in
  let* streams := with_error 500 (list_stream_names client) in
  each streams (fun stream =>
    if (starts_with "fbg_fluidbg" stream && negb (existsb (String.eqb stream) active))%bool
    then let! _ := delete_stream_name client stream in Ret (Ok tt) else Ret (Ok tt)).

Definition prepare_handler (headers : HeaderMap) (req : PluginManagerLifecycleRequest)
    : prog (result Z PluginLifecycleResponse) :=
  let roles := parse_roles (pml_roles req) in
  match (claims ← authorize headers;
         _ ← map_err (fun _ => 401) (require_manager_request_matches_claims req claims);
         _ ← map_err (fun _ => 400) (queue_worker_role roles);
         Ok claims) with
  | Err e => Ret (Err e)
  | Ok claims =>
      let '(effective_config, config) := secured_config_from_claims claims req in
      do* reconcile_streams roles config true ;;
      do* garbage_collect_temp_streams (pml_active_inceptions req) ;;
      Ret (Ok {| plr_assignments := build_prepare_assignments config roles;
                 plr_inceptor_env := [{| iev_name := "FLUIDBG_NATS_URL"; iev_value := nm_inceptor_url state |}];
                 plr_config := Some effective_config |})
  end.

Definition cleanup_handler (headers : HeaderMap) (req : PluginManagerLifecycleRequest)
    : prog (result Z json) :=
  match (claims ← authorize headers;
         _ ← map_err (fun _ => 401) (require_manager_request_matches_claims req claims);
         Ok claims) with
  | Err e => Ret (Err e)
  | Ok claims =>
      let '(_, config) := secured_config_from_claims claims req in
      do* reconcile_streams (parse_roles (pml_roles req)) config false ;;
      do* garbage_collect_temp_streams (pml_active_inceptions req) ;;
      Ret (Ok (JObj [("ok", JBool true)]))
  end.

Definition sync_handler (headers : HeaderMap) (req : PluginManagerSyncRequest) : prog (result Z json) :=
  match authorize headers with
  | Err e => Ret (Err e)
  | Ok claims =>
      if negb (sync_claims_match req claims) then Ret (Err 401)
      else
        do* garbage_collect_temp_streams (pms_active_inceptions req) ;;
        Ret (Ok (JObj [("ok", JBool true)]))
  end.
End Handlers.
