(* ===== verification/ServiceBus.v ===== *)
(** * The Azure Service Bus plugin: configuration

    [plugins/azure_servicebus/src]: [config.rs], [filtering.rs] and [assignments.rs]. *)

From S2P Require Import Prelude RustString Float64 Kube Crd StateStore InceptorEffects Effects.
From S2P Require Import External Names SipHash Auth Plugins Sdk SdkNames JsonDecode HttpPlugin QueuePlugins.

(** ** config.rs *)

Record QueueDeclarationConfig := {
  qd_lock_duration : option string;
  qd_max_size_in_megabytes : option Z;
  qd_max_message_size_in_kilobytes : option Z;
  qd_requires_duplicate_detection : option bool;
  qd_requires_session : option bool;
  qd_default_message_time_to_live : option string;
  qd_dead_lettering_on_message_expiration : option bool;
  qd_duplicate_detection_history_time_window : option string;
  qd_max_delivery_count : option Z;
  qd_enable_batched_operations : option bool;
  qd_auto_delete_on_idle : option string;
  qd_enable_partitioning : option bool;
  qd_enable_express : option bool;
  qd_forward_to : option string;
  qd_forward_dead_lettered_messages_to : option string;
  qd_status : option string }.
Definition default_declaration : QueueDeclarationConfig :=
  {| qd_lock_duration := None; qd_max_size_in_megabytes := None; qd_max_message_size_in_kilobytes := None;
     qd_requires_duplicate_detection := None; qd_requires_session := None;
     qd_default_message_time_to_live := None; qd_dead_lettering_on_message_expiration := None;
     qd_duplicate_detection_history_time_window := None; qd_max_delivery_count := None;
     qd_enable_batched_operations := None; qd_auto_delete_on_idle := None; qd_enable_partitioning := None;
     qd_enable_express := None; qd_forward_to := None; qd_forward_dead_lettered_messages_to := None;
     qd_status := None |}.

Record ShadowQueueConfig := { shq_suffix : string; shq_declaration : QueueDeclarationConfig }.

Inductive AuthMode := ConnectionString | WorkloadIdentityMode.
Record AuthConfig := {
  ac_mode : option AuthMode;
  ac_tenant_id : option string;
  ac_client_id : option string;
  ac_federated_token_file : option string;
  ac_authority_host : option string;
  ac_sas_token_ttl_seconds : option Z }.
Record ManagementConfig := {
  mg_subscription_id : option string;
  mg_resource_group : option string;
  mg_namespace_name : option string;
  mg_create_queues : bool;
  mg_delete_queues : bool }.

Record BusConfig := {
  bc_queue_declaration : QueueDeclarationConfig;
  bc_shadow_queue : option ShadowQueueConfig;
  bc_duplicator : option SplitterConfig;
  bc_splitter : option SplitterConfig;
  bc_combiner : option CombinerConfig;
  bc_writer : option WriterConfig;
  bc_consumer : option ConsumerConfig;
  bc_observer : option ObserverConfig }.
Definition default_config : BusConfig :=
  {| bc_queue_declaration := default_declaration; bc_shadow_queue := None; bc_duplicator := None;
     bc_splitter := None; bc_combiner := None; bc_writer := None; bc_consumer := None; bc_observer := None |}.

(** *** Decoding *)

Definition decode_declaration : decoder QueueDeclarationConfig := fun j =>
  fields ← d_fields j;
  lock_duration ← opt_member d_string "lockDuration" fields;
  max_size ← opt_member as_i64 "maxSizeInMegabytes" fields;
  max_message_size ← opt_member as_i64 "maxMessageSizeInKilobytes" fields;
  duplicates ← opt_member d_bool "requiresDuplicateDetection" fields;
  session ← opt_member d_bool "requiresSession" fields;
  time_to_live ← opt_member d_string "defaultMessageTimeToLive" fields;
  dead_lettering ← opt_member d_bool "deadLetteringOnMessageExpiration" fields;
  history ← opt_member d_string "duplicateDetectionHistoryTimeWindow" fields;
  deliveries ← opt_member d_i32 "maxDeliveryCount" fields;
  batched ← opt_member d_bool "enableBatchedOperations" fields;
  auto_delete ← opt_member d_string "autoDeleteOnIdle" fields;
  partitioning ← opt_member d_bool "enablePartitioning" fields;
  express ← opt_member d_bool "enableExpress" fields;
  forward_to ← opt_member d_string "forwardTo" fields;
  forward_dead ← opt_member d_string "forwardDeadLetteredMessagesTo" fields;
  status ← opt_member d_string "status" fields;
  Some {| qd_lock_duration := lock_duration; qd_max_size_in_megabytes := max_size;
          qd_max_message_size_in_kilobytes := max_message_size; qd_requires_duplicate_detection := duplicates;
          qd_requires_session := session; qd_default_message_time_to_live := time_to_live;
          qd_dead_lettering_on_message_expiration := dead_lettering;
          qd_duplicate_detection_history_time_window := history; qd_max_delivery_count := deliveries;
          qd_enable_batched_operations := batched; qd_auto_delete_on_idle := auto_delete;
          qd_enable_partitioning := partitioning; qd_enable_express := express; qd_forward_to := forward_to;
          qd_forward_dead_lettered_messages_to := forward_dead; qd_status := status |}.
Definition decode_shadow : decoder ShadowQueueConfig := fun j =>
  fields ← d_fields j;
  suffix ← member d_string "suffix" fields;
  declaration ← default_member default_declaration decode_declaration "queueDeclaration" fields;
  Some {| shq_suffix := suffix; shq_declaration := declaration |}.
Definition config_members : list string :=
  ["queueDeclaration"; "shadowQueue"; "duplicator"; "splitter"; "combiner"; "writer"; "consumer"; "observer"].
Definition decode_config : decoder BusConfig := fun j =>
  fields ← d_fields j;
  if negb (only_members config_members fields) then None
  else
    declaration ← default_member default_declaration decode_declaration "queueDeclaration" fields;
    shadow ← opt_member decode_shadow "shadowQueue" fields;
    duplicator ← opt_member decode_splitter "duplicator" fields;
    splitter ← opt_member decode_splitter "splitter" fields;
    combiner ← opt_member decode_combiner "combiner" fields;
    writer ← opt_member decode_writer "writer" fields;
    consumer ← opt_member decode_consumer "consumer" fields;
    observer ← opt_member decode_observer "observer" fields;
    Some {| bc_queue_declaration := declaration; bc_shadow_queue := shadow; bc_duplicator := duplicator;
            bc_splitter := splitter; bc_combiner := combiner; bc_writer := writer; bc_consumer := consumer;
            bc_observer := observer |}.

Definition duplicator_config (c : BusConfig) : result string SplitterConfig :=
  ok_or "missing config block 'duplicator'" (bc_duplicator c).
Definition splitter_config (c : BusConfig) : result string SplitterConfig :=
  ok_or "missing config block 'splitter'" (bc_splitter c).
Definition combiner_config (c : BusConfig) : result string CombinerConfig :=
  ok_or "missing config block 'combiner'" (bc_combiner c).
Definition writer_config (c : BusConfig) : result string WriterConfig :=
  ok_or "missing config block 'writer'" (bc_writer c).
Definition consumer_config (c : BusConfig) : result string ConsumerConfig :=
  ok_or "missing config block 'consumer'" (bc_consumer c).

Definition inceptor_infra_disabled : prog bool :=
  let! v := env "FLUIDBG_INCEPTOR_INFRA_DISABLED" in
  Ret (match v with Some v => String.eqb v "true" | None => false end).

Definition shadow_queue_name (c : BusConfig) (queue : string) : option string :=
  (fun shadow => derived_shadow_queue_name queue (shq_suffix shadow)) <$> bc_shadow_queue c.
Definition shadow_declaration (c : BusConfig) : QueueDeclarationConfig :=
  match bc_shadow_queue c with Some s => shq_declaration s | None => bc_queue_declaration c end.

Example credentials_belong_to_the_runtime :
  decode_config (JObj [("connectionString", JStr "Endpoint=sb://example"); ("duplicator", JObj [])]) = None.
Proof. reflexivity. Qed.
Example rewritten_identifier_is_tolerated :
  (decode_config (JObj [("splitter", JObj [("inputQueue", JStr "orders");
     ("temporaryQueueIdentifier", JStr "incoming-orders")])]) ≫= bc_splitter) ≫= in_input_queue = Some "orders".
Proof. reflexivity. Qed.

(** *** The runtime's configuration *)

Record ServiceBusRuntimeConfig := {
  src_connection_string : option string;
  src_fully_qualified_namespace : option string;
  src_auth : option AuthConfig;
  src_management : option ManagementConfig;
  src_static_sas_tokens : gmap string string }.

Definition parse_auth_mode (mode : string) : option AuthMode :=
  if existsb (String.eqb mode) ["connectionString"; "connection-string"; "connection_string"]
  then Some ConnectionString
  else if existsb (String.eqb mode) ["workloadIdentity"; "workload-identity"; "workload_identity"]
  then Some WorkloadIdentityMode
  else None.

(** [str::parse] of a [bool] and of an [i64]. *)
Definition parse_bool (s : string) : option bool :=
  if String.eqb s "true" then Some true else if String.eqb s "false" then Some false else None.
Definition parse_i64 (s : string) : option Z :=
  let in_range z := if (Z.leb (- 2 ^ 63) z && Z.ltb z (2 ^ 63))%bool then Some z else None in
  match bytes s with
  | c :: rest =>
      if Ascii.eqb c "-" then z ← parse_digits rest; in_range (- z)
      else z ← parse_digits (if Ascii.eqb c "+" then rest else c :: rest); in_range z
  | [] => None
  end.
Definition env_bool (name : string) (default : bool) : prog bool :=
  let! v := env name in Ret (unwrap_or default (v ≫= parse_bool)).

(** An object of texts, as a [BTreeMap]. *)
Definition decode_texts : decoder (gmap string string) := fun j =>
  fields ← d_fields j;
  texts ← mapM (fun f => text ← d_string f.2; Some (f.1, text)) fields;
  Some (list_to_map (rev texts)).

Definition runtime_config_from_env `{JsonText} : prog ServiceBusRuntimeConfig :=
  let! mode := env "FLUIDBG_AZURE_SERVICEBUS_AUTH_MODE" in
  let! tenant := env "AZURE_TENANT_ID" in
  let! client := env "AZURE_CLIENT_ID" in
  let! token_file := env "AZURE_FEDERATED_TOKEN_FILE" in
  let! authority := env "AZURE_AUTHORITY_HOST" in
  let! ttl := env "FLUIDBG_AZURE_SERVICEBUS_SAS_TOKEN_TTL_SECONDS" in
  let! subscription := env "FLUIDBG_AZURE_SERVICEBUS_SUBSCRIPTION_ID" in
  let! group := env "FLUIDBG_AZURE_SERVICEBUS_RESOURCE_GROUP" in
  let! namespace_name := env "FLUIDBG_AZURE_SERVICEBUS_NAMESPACE_NAME" in
  let! create := env_bool "FLUIDBG_AZURE_SERVICEBUS_CREATE_QUEUES" true in
  let! delete := env_bool "FLUIDBG_AZURE_SERVICEBUS_DELETE_QUEUES" true in
  let! connection := env "AZURE_SERVICEBUS_CONNECTION_STRING" in
  let! namespace := env "AZURE_SERVICEBUS_NAMESPACE" in
  let! tokens := env "FLUIDBG_AZURE_SERVICEBUS_SAS_TOKENS_JSON" in
  Ret {| src_connection_string := connection; src_fully_qualified_namespace := namespace;
         src_auth := Some {| ac_mode := mode ≫= parse_auth_mode; ac_tenant_id := tenant; ac_client_id := client;
                             ac_federated_token_file := token_file; ac_authority_host := authority;
                             ac_sas_token_ttl_seconds := ttl ≫= parse_i64 |};
         src_management := Some {| mg_subscription_id := subscription; mg_resource_group := group;
                                   mg_namespace_name := namespace_name; mg_create_queues := create;
                                   mg_delete_queues := delete |};
         src_static_sas_tokens := unwrap_or ∅ ((tokens ≫= json_of_bytes) ≫= decode_texts) |}.

(** ** filtering.rs *)

Definition route_from_output_source (c : CombinerConfig) (source_queue : string) : TrafficRoute :=
  if is_queue (cb_blue_queue c) source_queue then RouteBlue
  else if is_queue (cb_green_queue c) source_queue then RouteGreen else RouteUnknown.

(** The body, whole when it is a text, or a property. *)
Definition queue_field (field : string) (json_path : option string) (body : json) (properties : gmap string string)
    : option string :=
  if (String.eqb field "queue.body" || String.eqb field "servicebus.body")%bool then body_field json_path body
  else match strip_prefix "queue.property." field with
       | Some key => properties !! key
       | None => strip_prefix "servicebus.property." field ≫= fun key => properties !! key
       end.

Definition extract_test_id (selector : TestIdSelector) (body : json) (properties : gmap string string)
    : option string :=
  match tis_value selector with
  | Some value => Some value
  | None => field ← tis_field selector; queue_field field (tis_json_path selector) body properties
  end.

Definition matches_filter `{Regexes} (conditions : list FilterCondition) (body : json)
    (properties : gmap string string) : bool :=
  forallb (fun c => match queue_field (fc_field c) (fc_json_path c) body properties with
                    | Some v => condition_matches (Some v) c
                    | None => false
                    end) conditions.

(** ** assignments.rs *)

Definition build_prepare_assignments (c : BusConfig) (roles : list PluginRole) : list PropertyAssignment :=
  let inputs d := push_queue_assignment TargetGreen (in_green_env d) (in_green_queue d)
                  ++ push_queue_assignment TargetBlue (in_blue_env d) (in_blue_queue d) in
  when roles Duplicator (bc_duplicator c) inputs ++ when roles Splitter (bc_splitter c) inputs
  ++ when roles Combiner (bc_combiner c)
       (fun d => push_queue_assignment TargetGreen (cb_green_env d) (cb_green_queue d)
                 ++ push_queue_assignment TargetBlue (cb_blue_env d) (cb_blue_queue d)).
Definition build_cleanup_assignments (c : BusConfig) (roles : list PluginRole) : list PropertyAssignment :=
  let inputs d := push_queue_assignment TargetGreen (in_green_env d) (in_input_queue d)
                  ++ push_queue_assignment TargetBlue (in_blue_env d) (in_input_queue d) in
  when roles Duplicator (bc_duplicator c) inputs ++ when roles Splitter (bc_splitter c) inputs
  ++ when roles Combiner (bc_combiner c)
       (fun d => push_queue_assignment TargetGreen (cb_green_env d) (cb_output_queue d)
                 ++ push_queue_assignment TargetBlue (cb_blue_env d) (cb_output_queue d)).
Definition build_drain_assignments (c : BusConfig) (roles : list PluginRole) : list PropertyAssignment :=
  build_cleanup_assignments c roles.
