(* ===== verification/ServiceBusClient.v ===== *)
(** * The Azure Service Bus plugin: client

    [plugins/azure_servicebus/src/servicebus.rs].  The plugin talks to Service Bus over its
    REST API: a message is peek-locked, sent on, and then completed or unlocked.  Queues are
    created and counted through the same API or, with a workload identity, through Azure
    Resource Manager. *)

From S2P Require Import Prelude RustString Float64 Kube Crd StateStore InceptorEffects Effects.
From S2P Require Import External Names SipHash Auth Plugins Sdk SdkNames JsonDecode HttpPlugin QueuePlugins ServiceBus.

Definition SERVICE_BUS_SCOPE : string := "https://servicebus.azure.net/.default".
Definition ARM_SCOPE : string := "https://management.azure.com/.default".
Definition BROKER_PROPERTIES_HEADER : string := "BrokerProperties".

(** ** Texts *)

Definition quote : string := String "034" "".

(** [str::split] at a text that is not empty; [fuel] is above the length. *)
Fixpoint split_str (fuel : nat) (pat s : string) : list string :=
  match fuel with
  | O => [s]
  | S fuel' =>
      match find_str pat s with
      | Some i => slice 0 i s :: split_str fuel' pat (slice (i + String.length pat) (String.length s) s)
      | None => [s]
      end
  end.
Definition split_text (pat s : string) : list string := split_str (S (String.length s)) pat s.
(** [trim_start_matches] of a text. *)
Fixpoint trim_start_str (fuel : nat) (pat s : string) : string :=
  match fuel with
  | O => s
  | S fuel' => match strip_prefix pat s with Some rest => trim_start_str fuel' pat rest | None => s end
  end.
Definition trim_start_text (pat s : string) : string := trim_start_str (String.length s) pat s.

Definition xml_escape (value : string) : string :=
  replace (replace (replace (replace (replace value "&" "&amp;") "<" "&lt;") ">" "&gt;") quote "&quot;") "'" "&apos;".
Definition xml_unescape (value : string) : string :=
  replace (replace (replace (replace (replace value "&lt;" "<") "&gt;" ">") "&quot;" quote) "&apos;" "'") "&amp;" "&".

Definition percent_encode_path_segment (value : string) : string := percent_encode value.
Definition percent_encode_query_value (value : string) : string := percent_encode value.
Definition percent_encode_path (value : string) : string :=
  String.concat "/" (map percent_encode_path_segment (split "/" value)).
Definition form_urlencoded (fields : list (string * string)) : string :=
  String.concat "&" (map (fun f => percent_encode_query_value f.1 +:+ "=" +:+ percent_encode_query_value f.2) fields).

Definition strip_query (value : string) : string :=
  match split_once "?" value with Some (url, _) => url | None => value end.
Definition dead_letter_path (queue : string) : string := trim_end_matches "/" queue +:+ "/$deadletterqueue".

Definition extract_xml_u64 (body tag : string) : option Z :=
  part ← split_text ("<" +:+ tag +:+ ">") body !! 1%nat;
  value ← head (split_text ("</" +:+ tag +:+ ">") part);
  parse_unsigned 64 (trim value).
Definition extract_xml_titles (body : string) : list string :=
  List.filter (fun value => negb (is_empty value))
    (map xml_unescape
       (omap (fun part => split_once ">" part ≫= fun p => head (split_text "</title>" p.2))
          (drop 1 (split_text "<title" body)))).

Example path_encoding_ex : percent_encode_path "orders/blue queue" = "orders/blue%20queue".
Proof. reflexivity. Qed.
Example dead_letter_ex : percent_encode_path (dead_letter_path "orders-blue/") = "orders-blue/%24deadletterqueue".
Proof. reflexivity. Qed.
Example message_count_ex :
  extract_xml_u64 "<QueueDescription><MessageCount>17</MessageCount></QueueDescription>" "MessageCount" = Some 17.
Proof. reflexivity. Qed.
Example titles_ex : extract_xml_titles "<title type='text'>a&amp;b</title><title/><title>c</title>" = ["a&b"; "c"].
Proof. vm_compute. reflexivity. Qed.

(** ** The description of a queue *)

Definition bool_text (b : bool) : string := if b then "true" else "false".
Definition push_xml_field {A} (show : A -> string) (name : string) (value : option A) : list (string * string) :=
  match value with Some v => [(name, show v)] | None => [] end.
Definition queue_description_fields (d : QueueDeclarationConfig) : list (string * string) :=
  let text := push_xml_field (fun s => s) in
  let number := push_xml_field show_Z in
  let flag := push_xml_field bool_text in
  [("LockDuration", unwrap_or "PT1M" (qd_lock_duration d));
   ("EnableBatchedOperations", bool_text (unwrap_or true (qd_enable_batched_operations d)))]
  ++ number "MaxSizeInMegabytes" (qd_max_size_in_megabytes d)
  ++ number "MaxMessageSizeInKilobytes" (qd_max_message_size_in_kilobytes d)
  ++ flag "RequiresDuplicateDetection" (qd_requires_duplicate_detection d)
  ++ flag "RequiresSession" (qd_requires_session d)
  ++ text "DefaultMessageTimeToLive" (qd_default_message_time_to_live d)
  ++ flag "DeadLetteringOnMessageExpiration" (qd_dead_lettering_on_message_expiration d)
  ++ text "DuplicateDetectionHistoryTimeWindow" (qd_duplicate_detection_history_time_window d)
  ++ number "MaxDeliveryCount" (qd_max_delivery_count d)
  ++ text "AutoDeleteOnIdle" (qd_auto_delete_on_idle d)
  ++ flag "EnablePartitioning" (qd_enable_partitioning d)
  ++ flag "EnableExpress" (qd_enable_express d)
  ++ text "ForwardTo" (qd_forward_to d)
  ++ text "ForwardDeadLetteredMessagesTo" (qd_forward_dead_lettered_messages_to d)
  ++ text "Status" (qd_status d).
Definition queue_description_xml (d : QueueDeclarationConfig) : string :=
  let attribute name value := name +:+ "=" +:+ quote +:+ value +:+ quote in
  let properties := String.concat newline
    (map (fun f => "      <" +:+ f.1 +:+ ">" +:+ xml_escape f.2 +:+ "</" +:+ f.1 +:+ ">")
       (queue_description_fields d)) in
  String.concat newline
    ["<?xml " +:+ attribute "version" "1.0" +:+ " " +:+ attribute "encoding" "utf-8" +:+ "?>";
     "<entry " +:+ attribute "xmlns" "http://www.w3.org/2005/Atom" +:+ ">";
     "  <content " +:+ attribute "type" "application/xml" +:+ ">";
     "    <QueueDescription "
       +:+ attribute "xmlns" "http://schemas.microsoft.com/netservices/2010/10/servicebus/connect" +:+ ">";
     properties;
     "    </QueueDescription>";
     "  </content>";
     "</entry>"].

Definition insert_json_property {A} (to_json : A -> json) (name : string) (value : option A)
    (target : list (string * json)) : list (string * json) :=
  match value with Some v => json_insert name (to_json v) target | None => target end.
Definition queue_description_arm_properties (d : QueueDeclarationConfig) : json :=
  let text := insert_json_property JStr in
  let number := insert_json_property (fun z => JNum (show_Z z)) in
  let flag := insert_json_property JBool in
  let properties := json_insert "enableBatchedOperations" (JBool (unwrap_or true (qd_enable_batched_operations d)))
                      [("lockDuration", JStr (unwrap_or "PT1M" (qd_lock_duration d)))] in
  let properties := number "maxSizeInMegabytes" (qd_max_size_in_megabytes d) properties in
  let properties := number "maxMessageSizeInKilobytes" (qd_max_message_size_in_kilobytes d) properties in
  let properties := flag "requiresDuplicateDetection" (qd_requires_duplicate_detection d) properties in
  let properties := flag "requiresSession" (qd_requires_session d) properties in
  let properties := text "defaultMessageTimeToLive" (qd_default_message_time_to_live d) properties in
  let properties := flag "deadLetteringOnMessageExpiration" (qd_dead_lettering_on_message_expiration d) properties in
  let properties :=
    text "duplicateDetectionHistoryTimeWindow" (qd_duplicate_detection_history_time_window d) properties in
  let properties := number "maxDeliveryCount" (qd_max_delivery_count d) properties in
  let properties := text "autoDeleteOnIdle" (qd_auto_delete_on_idle d) properties in
  let properties := flag "enablePartitioning" (qd_enable_partitioning d) properties in
  let properties := flag "enableExpress" (qd_enable_express d) properties in
  let properties := text "forwardTo" (qd_forward_to d) properties in
  let properties := text "forwardDeadLetteredMessagesTo" (qd_forward_dead_lettered_messages_to d) properties in
  JObj (text "status" (qd_status d) properties).

(** ** Properties of messages *)

Definition is_standard_header (name : string) : bool :=
  existsb (String.eqb (lower name))
    ["authorization"; "brokerproperties"; "content-type"; "content-length"; "date"; "server";
     "transfer-encoding"; "location"].

(** Values that are not visible ASCII are left out; of a repeated name the last one stays. *)
Definition custom_properties (headers : HeaderMap) : gmap string string :=
  fold_left (fun out h =>
    if is_standard_header h.1 then out
    else if all_bytes visible_ascii h.2 then <[h.1 := trim_matches "034" h.2]> out else out) headers ∅.

Definition sendable_members : list string :=
  ["MessageId"; "CorrelationId"; "SessionId"; "ReplyToSessionId"; "Label"; "Subject"; "To"; "ReplyTo";
   "ContentType"; "TimeToLive"; "ScheduledEnqueueTimeUtc"; "PartitionKey"; "ViaPartitionKey"].
Definition sendable_broker_properties (value : option json) : option json :=
  match value with
  | Some (JObj input) =>
      let out := fold_left (fun out key =>
        match json_lookup key input with
        | Some JNull | None => out
        | Some v => json_insert key v out
        end) sendable_members [] in
      match out with [] => None | _ => Some (JObj out) end
  | _ => None
  end.
Definition broker_properties `{JsonText} (headers : HeaderMap) : option json :=
  raw ← header_text headers BROKER_PROPERTIES_HEADER;
  parsed ← json_of_bytes raw;
  sendable_broker_properties (Some parsed).

(** [HeaderName::from_bytes]: a token that is not empty. *)
Definition header_name_char (b : ascii) : bool :=
  (is_ascii_alphanumeric b || existsb (Ascii.eqb b) (bytes "!#$%&'*+-.^_`|~"))%bool.
Definition is_header_name (name : string) : bool := (negb (is_empty name) && all_bytes header_name_char name)%bool.
Definition properties_from_json `{JsonText} (value : option json) : gmap string string :=
  match value with
  | Some (JObj fields) =>
      fold_left (fun properties f =>
        if (negb (is_header_name f.1) || is_standard_header f.1)%bool then properties
        else
          let text := match f.2 with JStr s => s | other => json_to_bytes other end in
          if all_bytes visible_ascii text then <[f.1 := text]> properties else properties) fields ∅
  | _ => ∅
  end.

(** ** Namespaces and credentials *)

Record ParsedConnectionString := {
  pcs_namespace : string; pcs_key_name : string; pcs_key : string }.

(** Of a repeated name the last value stays. *)
Definition connection_value (name value : string) : option string :=
  fold_left (fun last part =>
    match split_once "=" part with
    | Some (n, v) => if String.eqb n name then Some v else last
    | None => last
    end) (List.filter (fun part => negb (is_empty part)) (split ";" value)) None.
Definition host_of (endpoint : string) : string :=
  trim_end_matches "/" (trim_start_text "https://" (trim_start_text "sb://" endpoint)).
Definition parse_connection_string (value : string) : result string ParsedConnectionString :=
  endpoint ← ok_or "connection string missing Endpoint" (connection_value "Endpoint" value);
  key_name ← ok_or "connection string missing SharedAccessKeyName" (connection_value "SharedAccessKeyName" value);
  key ← ok_or "connection string missing SharedAccessKey" (connection_value "SharedAccessKey" value);
  Ok {| pcs_namespace := host_of endpoint; pcs_key_name := key_name; pcs_key := key |}.

Definition service_bus_suffixes : list string :=
  [".servicebus.windows.net"; ".servicebus.usgovcloudapi.net"; ".servicebus.chinacloudapi.cn"].
Definition is_allowed_service_bus_host (host : string) : bool :=
  let host := lower host in
  existsb (fun suffix => (ends_with suffix host && Nat.ltb (String.length suffix) (String.length host))%bool)
    service_bus_suffixes.
(** The endpoint, and the first label of the host. *)
Definition service_bus_endpoint_from_namespace (namespace : string) : result string (string * string) :=
  let host := host_of (trim namespace) in
  if (is_empty host || contains "/" host || contains "@" host || contains "?" host || contains "#" host
      || contains ":" host)%bool
  then Err "Service Bus namespace must be a host name without path, credentials, query, or port"
  else if negb (is_allowed_service_bus_host host)
  then Err ("Service Bus namespace host '" +:+ host +:+ "' is not an Azure Service Bus endpoint")
  else Ok ("https://" +:+ host, unwrap_or "" (head (split "." host))).
(** Panics on a namespace that is refused: [None]. *)
Definition service_bus_resource_url (namespace queue : string) : option string :=
  match service_bus_endpoint_from_namespace namespace with
  | Ok (endpoint, _) => Some (endpoint +:+ "/" +:+ percent_encode_path queue)
  | Err _ => None
  end.

(** The standard alphabet of base64, with padding. *)
Class StandardBase64 := { base64_encode : list ascii -> string }.

Definition hmac_sha256 `{Sha256} (key message : list ascii) : list ascii :=
  let key_block := zero_padded 64 (if Nat.ltb 64 (length key) then sha256 key else key) in
  let ipad := xor_with 54 key_block in
  let opad := xor_with 92 key_block in
  let inner_hash := sha256 (ipad ++ message) in
  sha256 (opad ++ inner_hash).

(** At the time [now], in milliseconds; the expiry is in seconds. *)
Definition sas_token_at `{Sha256, StandardBase64} (now : Z) (resource key_name key : string) (ttl_seconds : Z)
    : string :=
  let encoded_resource := percent_encode_query_value resource in
  let expiry := show_Z ((now + ttl_seconds * 1000) / 1000) in
  let signature := percent_encode_query_value
    (base64_encode (hmac_sha256 (bytes key) (bytes (encoded_resource +:+ newline +:+ expiry)))) in
  "SharedAccessSignature sr=" +:+ encoded_resource +:+ "&sig=" +:+ signature +:+ "&se=" +:+ expiry
  +:+ "&skn=" +:+ key_name.
Definition sas_token `{Sha256, StandardBase64} (resource key_name key : string) (ttl_seconds : Z) : prog string :=
  let! now := request ANow in Ret (sas_token_at now resource key_name key ttl_seconds).

Example connection_string_ex :
  parse_connection_string
    ("Endpoint=sb://example.servicebus.windows.net/;SharedAccessKeyName=RootManageSharedAccessKey;"
     +:+ "SharedAccessKey=abc=")
  = Ok {| pcs_namespace := "example.servicebus.windows.net"; pcs_key_name := "RootManageSharedAccessKey";
          pcs_key := "abc=" |}.
Proof. reflexivity. Qed.
Example namespace_ex :
  service_bus_endpoint_from_namespace "sb://example.servicebus.windows.net/"
  = Ok ("https://example.servicebus.windows.net", "example").
Proof. vm_compute. reflexivity. Qed.
Example metadata_host_is_refused :
  is_ok (service_bus_endpoint_from_namespace "https://169.254.169.254/latest/meta-data") = false.
Proof. reflexivity. Qed.
Example other_host_is_refused : is_ok (service_bus_endpoint_from_namespace "https://evil.example.com") = false.
Proof. vm_compute. reflexivity. Qed.

Definition validate_https_base_url `{Urls} (value label : string) : result string string :=
  match url_parse (trim value) with
  | None => Err ("invalid " +:+ label)
  | Some url =>
      if negb (String.eqb (url_scheme url) "https") then Err (label +:+ " must use https")
      else if is_none (url_host url) then Err (label +:+ " must include a host")
      else if (negb (is_empty (url_username url)) || is_some (url_password url))%bool
      then Err (label +:+ " must not contain credentials")
      else if (is_some (url_query url) || is_some (url_fragment url))%bool
      then Err (label +:+ " must not contain query or fragment components")
      else if (negb (String.eqb (url_path url) "/") && negb (is_empty (url_path url)))%bool
      then Err (label +:+ " must not contain a path")
      else Ok (trim_end_matches "/" (url_text (set_path url (trim_end_matches "/" (url_path url)))))
  end.

(** ** The client *)

(** The caches of a workload identity's tokens are cells, named by [tokens]. *)
Inductive AuthProvider :=
| StaticSasTokens (tokens_by_resource : gmap string string)
| Sas (key_name key : string) (ttl_seconds : Z)
| WorkloadIdentity (tenant_id client_id token_file authority_host : string) (tokens : Z).
Record ServiceBusClient := {
  sb_endpoint : string;
  sb_namespace_name : string;
  sb_auth : AuthProvider;
  sb_management : option ManagementConfig }.

Record LockedMessage := {
  lm_body : string;
  lm_properties : gmap string string;
  lm_broker_properties : option json;
  lm_location : string }.

Definition has_arm_management_config (m : ManagementConfig) : bool :=
  (is_some (mg_subscription_id m) && is_some (mg_resource_group m))%bool.
Definition required_management (value : option string) (name : string) : result string string :=
  ok_or ("missing " +:+ name) value.

(** The configured value, or the one of the environment. *)
Definition or_env (configured : option string) (name : string) : prog (option string) :=
  match configured with Some v => Ret (Some v) | None => env name end.
Definition from_auth {A} (auth : option AuthConfig) (f : AuthConfig -> option A) : option A := auth ≫= f.

Section Client.
Context `{Sha256, StandardBase64, JsonText, Urls}.

Definition workload_identity (auth : option AuthConfig) : prog (result string AuthProvider) :=
  let! tenant := or_env (from_auth auth ac_tenant_id) "AZURE_TENANT_ID" in
  match tenant with
  | None => Ret (Err "workloadIdentity auth requires tenantId or AZURE_TENANT_ID")
  | Some tenant =>
      let! client := or_env (from_auth auth ac_client_id) "AZURE_CLIENT_ID" in
      match client with
      | None => Ret (Err "workloadIdentity auth requires clientId or AZURE_CLIENT_ID")
      | Some client =>
          let! file := or_env (from_auth auth ac_federated_token_file) "AZURE_FEDERATED_TOKEN_FILE" in
          match file with
          | None => Ret (Err "workloadIdentity auth requires federatedTokenFile or AZURE_FEDERATED_TOKEN_FILE")
          | Some file =>
              let! authority := or_env (from_auth auth ac_authority_host) "AZURE_AUTHORITY_HOST" in
              match validate_https_base_url (unwrap_or "https://login.microsoftonline.com" authority)
                      "Azure authority host" with
              | Err e => Ret (Err e)
              | Ok authority =>
                  let! tokens := cell NewTokens in
                  Ret (Ok (WorkloadIdentity tenant client file authority tokens))
              end
          end
      end
  end.

Definition auth_provider (config : ServiceBusRuntimeConfig) (connection : option ParsedConnectionString)
    : prog (result string AuthProvider) :=
  if bool_decide (src_static_sas_tokens config <> ∅)
  then Ret (Ok (StaticSasTokens (src_static_sas_tokens config)))
  else
    match unwrap_or (if is_some connection then ConnectionString else WorkloadIdentityMode)
            (from_auth (src_auth config) ac_mode) with
    | ConnectionString =>
        Ret (connection ← ok_or "connectionString auth requires connectionString" connection;
             Ok (Sas (pcs_key_name connection) (pcs_key connection)
                   (unwrap_or 3600 (from_auth (src_auth config) ac_sas_token_ttl_seconds))))
    | WorkloadIdentityMode => workload_identity (src_auth config)
    end.

Definition from_runtime_config (config : ServiceBusRuntimeConfig) : prog (result string ServiceBusClient) :=
  match (connection ← match src_connection_string config with
                      | Some value => c ← parse_connection_string value; Ok (Some c)
                      | None => Ok None
                      end;
         namespace ← ok_or "missing fullyQualifiedNamespace or connectionString Endpoint"
                       (or_else (src_fully_qualified_namespace config) (pcs_namespace <$> connection));
         endpoint ← service_bus_endpoint_from_namespace namespace;
         Ok (connection, endpoint)) with
  | Err e => Ret (Err e)
  | Ok (connection, (endpoint, namespace_name)) =>
      let* auth := auth_provider config connection in
      Ret (Ok {| sb_endpoint := endpoint; sb_namespace_name := namespace_name; sb_auth := auth;
                 sb_management := src_management config |})
  end.

(** ** Authorization *)

Definition call (method url : string) (headers : list (string * string)) (p : payload) : http_call :=
  {| call_client := "service-bus"; call_method := method; call_url := url; call_headers := headers;
     call_basic_auth := None; call_payload := p |}.
Definition response_text (resp : call_response) : string := from_utf8_lossy (cr_body resp).
(** [bail!]. *)
Definition failed {A} (what : string) (resp : call_response) : result string A :=
  Err (what +:+ " failed: " +:+ show_Z (cr_status resp) +:+ " " +:+ response_text resp).

(** The token of the longest resource that [resource] begins with; of two of a length the later. *)
Definition static_token (tokens : gmap string string) (resource : string) : option string :=
  snd <$> fold_left (fun best entry =>
    if starts_with entry.1 resource then
      match best with
      | Some b => if Nat.leb (String.length b.1) (String.length entry.1) then Some entry else best
      | None => Some entry
      end
    else best) (sorted_entries tokens) None.

Definition decode_token_response : decoder (string * option Z) := fun j =>
  fields ← d_fields j;
  token ← member d_string "access_token" fields;
  expires_in ← opt_member as_i64 "expires_in" fields;
  Some (token, expires_in).

Definition request_workload_identity_token (authority_host tenant_id client_id token_file scope : string)
    : prog (result string CachedToken) :=
  let* assertion := with_error ("failed to read federated token file '" +:+ token_file +:+ "'")
                      (request (AReadFile token_file)) in
  let url := trim_end_matches "/" authority_host +:+ "/" +:+ percent_encode_path_segment tenant_id
             +:+ "/oauth2/v2.0/token" in
  let body := form_urlencoded
    [("client_id", client_id); ("scope", scope); ("grant_type", "client_credentials");
     ("client_assertion_type", "urn:ietf:params:oauth:client-assertion-type:jwt-bearer");
     ("client_assertion", trim assertion)] in
  let* response := cell (ICall (call "POST" url [("content-type", "application/x-www-form-urlencoded")]
                                  (BytesPayload body))) in
  if negb (is_success (cr_status response)) then Ret (failed "workload identity token request" response)
  else
    match (j ← cr_json response; ok_or "error decoding response body" (decode_token_response j)) with
    | Err e => Ret (Err e)
    | Ok (token, expires_in) =>
        let! now := request ANow in
        Ret (Ok {| access_token := token; expires_at := now + unwrap_or 3600 expires_in * 1000 |})
    end.

(** The mutex of the cache is held to the end. *)
Definition workload_token (tenant client file authority : string) (tokens : Z) (scope : string)
    : prog (result string string) :=
  let arm := String.eqb scope ARM_SCOPE in
  let! cached := cell (LockToken tokens arm) in
  let! valid := match cached with
                | Some t => let! now := request ANow in
                            Ret (if Z.ltb (now + 5 * 60 * 1000) (expires_at t) then Some (access_token t) else None)
                | None => Ret None
                end in
  match valid with
  | Some token => do! cell (UnlockToken tokens arm) ;; Ret (Ok (bearer_value token))
  | None =>
      let! fresh := request_workload_identity_token authority tenant client file scope in
      match fresh with
      | Err e => do! cell (UnlockToken tokens arm) ;; Ret (Err e)
      | Ok fresh =>
          do! cell (StoreToken tokens arm fresh) ;;
          do! cell (UnlockToken tokens arm) ;;
          Ret (Ok (bearer_value (access_token fresh)))
      end
  end.

Context (client : ServiceBusClient).

Definition authorization_header (resource scope : string) : prog (result string string) :=
  match sb_auth client with
  | StaticSasTokens tokens =>
      Ret (ok_or "no static SAS token matches Service Bus resource" (static_token tokens resource))
  | Sas key_name key ttl_seconds =>
      let! token := sas_token resource key_name key ttl_seconds in Ret (Ok token)
  | WorkloadIdentity tenant client file authority tokens =>
      workload_token tenant client file authority tokens scope
  end.

(** [authorized(builder).await?.send().await?]. *)
Definition send_authorized (c : http_call) (resource scope : string) : prog (result string call_response) :=
  let* header := authorization_header resource scope in
  cell (ICall (call (call_method c) (call_url c) (call_headers c ++ [("authorization", header)]) (call_payload c))).

Definition uses_workload_identity : bool :=
  match sb_auth client with WorkloadIdentity _ _ _ _ _ => true | _ => false end.
(** The settings of Resource Manager, when queues are managed through it. *)
Definition arm_management : option ManagementConfig :=
  if uses_workload_identity then
    m ← sb_management client; if has_arm_management_config m then Some m else None
  else None.

Definition queue_url (queue : string) : string := sb_endpoint client +:+ "/" +:+ percent_encode_path queue.
Definition arm_queues_url (m : ManagementConfig) : result string string :=
  subscription ← required_management (mg_subscription_id m) "management.subscriptionId";
  group ← required_management (mg_resource_group m) "management.resourceGroup";
  Ok ("https://management.azure.com/subscriptions/" +:+ percent_encode_path_segment subscription
      +:+ "/resourceGroups/" +:+ percent_encode_path_segment group
      +:+ "/providers/Microsoft.ServiceBus/namespaces/"
      +:+ percent_encode_path_segment (unwrap_or (sb_namespace_name client) (mg_namespace_name m)) +:+ "/queues").
Definition api_version : string := "?api-version=2024-01-01".
Definition arm_queue_url (queue : string) (m : ManagementConfig) : result string string :=
  queues ← arm_queues_url m; Ok (queues +:+ "/" +:+ percent_encode_path_segment queue +:+ api_version).
(** A request to a URL that may be missing a part, and what its answer says. *)
Definition arm_call {A} (url : result string string) (method : string) (p : payload)
    (answer : call_response -> result string A) : prog (result string A) :=
  match url with
  | Err e => Ret (Err e)
  | Ok url => let* response := send_authorized (call method url [] p) url ARM_SCOPE in Ret (answer response)
  end.
Definition has_status (resp : call_response) (statuses : list Z) : bool := existsb (Z.eqb (cr_status resp)) statuses.
Definition done_when {A} (statuses : list Z) (what : string) (a : A) (resp : call_response) : result string A :=
  if has_status resp statuses then Ok a else failed what resp.

(** ** Queues *)

Definition create_queue_arm (queue : string) (m : ManagementConfig) (d : QueueDeclarationConfig)
    : prog (result string unit) :=
  arm_call (arm_queue_url queue m) "PUT" (JsonPayload (JObj [("properties", queue_description_arm_properties d)]))
    (done_when [200; 201; 202; 409] ("ARM create Service Bus queue '" +:+ queue +:+ "'") tt).
Definition create_queue (queue : string) (d : QueueDeclarationConfig) : prog (result string unit) :=
  match arm_management with
  | Some m => if negb (mg_create_queues m) then Ret (Ok tt) else create_queue_arm queue m d
  | None =>
      let url := queue_url queue in
      let* response := send_authorized
        (call "PUT" url [("content-type", "application/atom+xml;type=entry;charset=utf-8")]
           (BytesPayload (queue_description_xml d))) url SERVICE_BUS_SCOPE in
      Ret (done_when [200; 201; 409] ("create Service Bus queue '" +:+ queue +:+ "'") tt response)
  end.

Definition delete_queue_arm (queue : string) (m : ManagementConfig) : prog (result string unit) :=
  arm_call (arm_queue_url queue m) "DELETE" NoPayload
    (done_when [200; 202; 204; 404] ("ARM delete Service Bus queue '" +:+ queue +:+ "'") tt).
Definition delete_queue (queue : string) : prog (result string unit) :=
  match arm_management with
  | Some m => if negb (mg_delete_queues m) then Ret (Ok tt) else delete_queue_arm queue m
  | None =>
      let url := queue_url queue in
      let* response := send_authorized (call "DELETE" url [] NoPayload) url SERVICE_BUS_SCOPE in
      Ret (done_when [200; 202; 204; 404] ("delete Service Bus queue '" +:+ queue +:+ "'") tt response)
  end.

Definition json_u64 (j : json) (path : list string) : option Z :=
  fold_left (fun v k => v ≫= json_get k) path (Some j) ≫= as_u64.
(** A missing queue, and a queue without the member, has no messages. *)
Definition queue_message_count_arm (queue : string) (m : ManagementConfig) : prog (result string Z) :=
  arm_call (arm_queue_url queue m) "GET" NoPayload (fun response =>
    if has_status response [200]
    then body ← cr_json response; Ok (unwrap_or 0 (json_u64 body ["properties"; "messageCount"]))
    else done_when [404] ("ARM get Service Bus queue '" +:+ queue +:+ "'") 0 response).
Definition queue_message_count (queue : string) : prog (result string Z) :=
  match arm_management with
  | Some m => queue_message_count_arm queue m
  | None =>
      let url := queue_url queue in
      let* response := send_authorized (call "GET" url [] NoPayload) url SERVICE_BUS_SCOPE in
      Ret (if has_status response [200] then
             let body := response_text response in
             Ok (unwrap_or 0 (or_else (extract_xml_u64 body "MessageCount") (extract_xml_u64 body "QueueDepth")))
           else done_when [404] ("get Service Bus queue '" +:+ queue +:+ "'") 0 response)
  end.

Definition queue_drain_message_count_arm (queue : string) (m : ManagementConfig) : prog (result string Z) :=
  arm_call (arm_queue_url queue m) "GET" NoPayload (fun response =>
    if has_status response [200] then
      body ← cr_json response;
      let details k := json_u64 body ["properties"; "messageCountDetails"; k] in
      let dead_letter := unwrap_or 0 (details "deadLetterMessageCount") in
      let detailed_total :=
        unwrap_or 0 ((fun active => wrap_u64 (active + dead_letter)) <$> details "activeMessageCount") in
      Ok (Z.max (unwrap_or 0 (json_u64 body ["properties"; "messageCount"])) detailed_total)
    else done_when [404] ("ARM get Service Bus queue '" +:+ queue +:+ "'") 0 response).
Definition queue_drain_message_count (queue : string) : prog (result string Z) :=
  match arm_management with
  | Some m => queue_drain_message_count_arm queue m
  | None =>
      let* active := queue_message_count queue in
      let* dead_letter := queue_message_count (dead_letter_path queue) in
      Ret (Ok (wrap_u64 (active + dead_letter)))
  end.

Definition list_queues_arm (m : ManagementConfig) : prog (result string (list string)) :=
  arm_call (url ← arm_queues_url m; Ok (url +:+ api_version)) "GET" NoPayload (fun response =>
    if has_status response [200] then
      body ← cr_json response;
      Ok match json_get "value" body with
         | Some (JArr items) => omap (fun item => json_get "name" item ≫= as_str) items
         | _ => []
         end
    else done_when [404] "ARM list Service Bus queues" [] response).
Definition list_queues : prog (result string (list string)) :=
  match arm_management with
  | Some m => list_queues_arm m
  | None =>
      let url := sb_endpoint client +:+ "/$Resources/Queues" in
      let* response := send_authorized (call "GET" url [] NoPayload) url SERVICE_BUS_SCOPE in
      Ret (if has_status response [200] then Ok (extract_xml_titles (response_text response))
           else done_when [404] "list Service Bus queues" [] response)
  end.

(** ** Messages *)

Definition message_headers (properties : gmap string string) (broker : option json) : list (string * string) :=
  [("content-type", "application/octet-stream")]
  ++ match sendable_broker_properties broker with
     | Some b => [(BROKER_PROPERTIES_HEADER, json_to_bytes b)]
     | None => []
     end
  ++ sorted_entries properties.
Definition send_message_with_broker_properties (queue data : string) (properties : gmap string string)
    (broker : option json) : prog (result string unit) :=
  let url := queue_url queue in
  let* response := send_authorized
    (call "POST" (url +:+ "/messages") (message_headers properties broker) (BytesPayload data)) url SERVICE_BUS_SCOPE in
  Ret (done_when [200; 201] ("send Service Bus message to '" +:+ queue +:+ "'") tt response).
Definition send_message (queue data : string) (properties : gmap string string) : prog (result string unit) :=
  send_message_with_broker_properties queue data properties None.
Definition forward_message (queue : string) (message : LockedMessage) : prog (result string unit) :=
  send_message_with_broker_properties queue (lm_body message) (lm_properties message) (lm_broker_properties message).

Definition locked_message (response : call_response) : result string LockedMessage :=
  location ← ok_or "Service Bus locked message response missing Location"
               (header_text (cr_headers response) "location");
  Ok {| lm_body := cr_body response; lm_properties := custom_properties (cr_headers response);
        lm_broker_properties := broker_properties (cr_headers response); lm_location := location |}.
Definition receive_peek_lock (queue : string) (timeout_seconds : Z) : prog (result string (option LockedMessage)) :=
  let url := queue_url queue in
  let* response := send_authorized
    (call "POST" (url +:+ "/messages/head?timeout=" +:+ show_Z timeout_seconds) [] NoPayload) url SERVICE_BUS_SCOPE in
  Ret (if has_status response [201] then m ← locked_message response; Ok (Some m)
       else done_when [204] ("receive Service Bus message from '" +:+ queue +:+ "'") None response).

Definition complete (message : LockedMessage) : prog (result string unit) :=
  let* response := send_authorized (call "DELETE" (lm_location message) [] NoPayload)
                     (strip_query (lm_location message)) SERVICE_BUS_SCOPE in
  Ret (done_when [200; 204] "complete Service Bus message" tt response).
Definition abandon (message : LockedMessage) : prog (result string unit) :=
  let* response := send_authorized (call "PUT" (lm_location message) [] NoPayload)
                     (strip_query (lm_location message)) SERVICE_BUS_SCOPE in
  Ret (done_when [200; 204] "unlock Service Bus message" tt response).

(** One message; the number moved so far is kept. *)
Definition move_message (source_path target_queue : string) (moved : Z) : prog (Z + result string Z) :=
  let! received := receive_peek_lock source_path 1 in
  match (received : result string (option LockedMessage)) with
  | Err e => Ret (inr (Err e))
  | Ok None => Ret (inr (Ok moved))
  | Ok (Some message) =>
      let! forwarded := forward_message target_queue message in
      match forwarded with
      | Ok _ =>
          let! completed := complete message in
          Ret match completed with Ok _ => inl ((moved + 1) mod 2 ^ 32) | Err e => inr (Err e) end
      | Err e => let! _ := abandon message in Ret (inr (Err e))
      end
  end.
Definition move_available_messages_from_path (n : nat) (source_path target_queue : string)
    : prog (option (result string Z)) := loop n 0 (move_message source_path target_queue).
Definition move_available_messages (n : nat) (source_queue target_queue : string)
    : prog (option (result string Z)) := move_available_messages_from_path n source_queue target_queue.
Definition move_available_dead_letter_messages (n : nat) (source_queue target_queue : string)
    : prog (option (result string Z)) :=
  move_available_messages_from_path n (dead_letter_path source_queue) target_queue.
End Client.
