(* ===== verification/ServiceBusWorkers.v ===== *)
(** * The Azure Service Bus plugin: workers

    [plugins/azure_servicebus/src]: [input.rs] and [combiner.rs].  [n] is the number of turns
    a loop is looked at. *)

From S2P Require Import Prelude RustString Float64 Kube Crd StateStore InceptorEffects Effects.
From S2P Require Import External Names SipHash Auth Plugins Sdk SdkNames JsonDecode HttpPlugin QueuePlugins.
From S2P Require Import ServiceBus ServiceBusClient.

(** The mode, the percentage and the count of messages in work are cells. *)
Record BusState := {
  bs_config : BusConfig;
  bs_roles : list PluginRole;
  bs_runtime : PluginInceptorRuntime;
  bs_client : ServiceBusClient }.

Definition new_state (config : BusConfig) (roles : list PluginRole) (runtime : PluginInceptorRuntime)
    (client : ServiceBusClient) : prog BusState :=
  do! set_runtime_mode Idle ;;
  let! percent := traffic_percent_from_env in
  do! cell (StorePercent percent) ;;
  Ret {| bs_config := config; bs_roles := roles; bs_runtime := runtime; bs_client := client |}.

(** [track_message]: counted until the guard is dropped, with [body] in between. *)
Definition track_message {A} (body : prog A) : prog A :=
  do! cell (AddActive 1) ;;
  let! a := body in
  do! cell (AddActive (-1)) ;;
  Ret a.

Section Worker.
Context `{Sha256, StandardBase64, JsonText, Regexes}.
Context (state : BusState).

Definition active (r : PluginRole) : bool := has_role (bs_roles state) r.
Notation client := (bs_client state).
Notation config := (bs_config state).

Definition notify_observer (o : ObserverConfig) (test_id : string) (body : json) (route : TrafficRoute)
    : prog bool :=
  match ob_notify_path o with
  | None => Ret false
  | Some path => let! r := Sdk.notify_observer (bs_runtime state) path test_id body route in Ret (is_ok r)
  end.

(** What both workers do with a message that was sent on; it never fails. *)
Definition observe_message (body_json : json) (properties : gmap string string) (route : TrafficRoute)
    : prog unit :=
  match bc_observer config with
  | Some observer =>
      if (active Observer && matches_filter (ob_match observer) body_json properties)%bool then
        match ob_test_id observer ≫= fun selector => extract_test_id selector body_json properties with
        | Some test_id =>
            let! notified := notify_observer observer test_id body_json route in
            if (notified && should_register_case route)%bool
            then let! _ := register_test_case (bs_runtime state) test_id in Ret tt
            else Ret tt
        | None => Ret tt
        end
      else Ret tt
  | None => Ret tt
  end.

(** ** input.rs *)

Definition forward_optional (queue : option string) (message : LockedMessage) : prog (result string unit) :=
  match queue with Some q => forward_message client q message | None => Ret (Ok tt) end.

(** Where the message goes; the route that tells. *)
Definition forward_input (message : LockedMessage) : prog (result string TrafficRoute) :=
  if active Duplicator then
    match duplicator_config config with
    | Err e => Ret (Err e)
    | Ok duplicator =>
        do* forward_optional (in_green_queue duplicator) message ;;
        do* forward_optional (in_blue_queue duplicator) message ;;
        Ret (Ok RouteBoth)
    end
  else if active Splitter then
    match splitter_config config with
    | Err e => Ret (Err e)
    | Ok splitter =>
        let! percent := traffic_percent in
        if routes_to_blue (lm_body message) percent
        then do* forward_optional (in_blue_queue splitter) message ;; Ret (Ok RouteBlue)
        else match in_green_queue splitter with
             | Some green_queue => do* forward_message client green_queue message ;; Ret (Ok RouteGreen)
             | None => Ret (Ok RouteUnknown)
             end
    end
  else Ret (Ok RouteUnknown).

Definition process_input_message (message : LockedMessage) : prog (result string TrafficRoute) :=
  let* route := forward_input message in
  do! observe_message (body_of_bytes (lm_body message)) (lm_properties message) route ;;
  Ret (Ok route).

(** The base queue and the queues of green and blue. *)
Definition input_queues : result string (option (string * string * string)) :=
  let names (block : string) (c : SplitterConfig) :=
    base ← required (in_input_queue c) (block +:+ ".inputQueue");
    green ← required (in_green_queue c) (block +:+ ".greenInputQueue");
    blue ← required (in_blue_queue c) (block +:+ ".blueInputQueue");
    Ok (Some (base, green, blue)) in
  if active Duplicator then c ← duplicator_config config; names "duplicator" c
  else if active Splitter then c ← splitter_config config; names "splitter" c
  else Ok None.

(** The queue that everything goes back to, and its shadow queue. *)
Definition create_target_queues (target_queue : string) : prog (result string unit) :=
  let! disabled := inceptor_infra_disabled in
  if disabled then Ret (Ok tt)
  else
    do* create_queue client target_queue (bc_queue_declaration config) ;;
    match shadow_queue_name config target_queue with
    | Some shadow => create_queue client shadow (shadow_declaration config)
    | None => Ret (Ok tt)
    end.

(** Everything left in [source], and in its shadow queue, goes back; dead letters too. *)
Definition drain_source (n : nat) (source base_queue : string) : prog (option (result string unit)) :=
  let%* _ := move_available_messages client n source base_queue in
  let%* _ := move_available_dead_letter_messages client n source base_queue in
  match shadow_queue_name config source with
  | None => ended (Ok tt)
  | Some shadow_queue =>
      let target := unwrap_or base_queue (shadow_queue_name config base_queue) in
      let%* _ := move_available_messages client n shadow_queue target in
      let%* _ := move_available_dead_letter_messages client n shadow_queue target in
      ended (Ok tt)
  end.

Definition drain_input_queues (n : nat) : prog (option (result string unit)) :=
  match input_queues with
  | Err e => ended (Err e)
  | Ok None => ended (Ok tt)
  | Ok (Some (base_queue, green_queue, blue_queue)) =>
      do%* whole (create_target_queues base_queue) ;;
      do%* drain_source n green_queue base_queue ;;
      drain_source n blue_queue base_queue
  end.

Definition input_queue : result string string :=
  if active Duplicator
  then c ← duplicator_config config; required (in_input_queue c) "duplicator.inputQueue"
  else if active Splitter
  then c ← splitter_config config; required (in_input_queue c) "splitter.inputQueue"
  else c ← consumer_config config; required (cs_input_queue c) "consumer.inputQueue".

(** A message that is locked: unlocked when a drain has begun, else completed once [process] has
    succeeded, and unlocked when it has failed. *)
Definition handle_locked {A} (message : LockedMessage) (process : prog (result string A)) : prog unit :=
  track_message
    (let! mode := runtime_mode in
     if negb (bool_decide (mode = Active)) then let! _ := abandon client message in Ret tt
     else
       let! processed := process in
       match processed with
       | Ok _ => let! _ := complete client message in Ret tt
       | Err _ => do! (let! _ := abandon client message in Ret tt) ;; pause 1000
       end).

(** A turn of a worker on a queue; no turn ends the loop. *)
Definition worker_turn {A} (queue : string) (drain : prog (option (result string unit)))
    (process : LockedMessage -> prog (result string A)) (_ : unit) : prog (option (unit + result string unit)) :=
  let! mode := runtime_mode in
  match mode with
  | Idle => do! pause 300 ;; ended (inl tt)
  | Draining => let% _ := drain in do! pause 300 ;; ended (inl tt)
  | Active =>
      let! received := receive_peek_lock client queue 1 in
      match (received : result string (option LockedMessage)) with
      | Ok (Some message) => do! handle_locked message (process message) ;; ended (inl tt)
      | Ok None => do! pause 200 ;; ended (inl tt)
      | Err _ => do! pause 2000 ;; ended (inl tt)
      end
  end.

Definition run_input_pipeline (n : nat) : prog (option (result string unit)) :=
  match input_queue with
  | Err e => ended (Err e)
  | Ok queue => loop_of_loops n tt (worker_turn queue (drain_input_queues n) process_input_message)
  end.

(** ** combiner.rs *)

Definition process_output_message (combiner : CombinerConfig) (source_queue result_queue : string)
    (message : LockedMessage) : prog (result string unit) :=
  let route := route_from_output_source combiner source_queue in
  do* forward_message client result_queue message ;;
  do! observe_message (body_of_bytes (lm_body message)) (lm_properties message) route ;;
  Ret (Ok tt).

Definition drain_output_queue (n : nat) (source_queue result_queue : string) : prog (option (result string unit)) :=
  do%* whole (create_target_queues result_queue) ;;
  drain_source n source_queue result_queue.

Definition run_combine_loop (n : nat) (source_queue result_queue : string) : prog (option (result string unit)) :=
  match combiner_config config with
  | Err e => ended (Err e)
  | Ok combiner =>
      loop_of_loops n tt
        (worker_turn source_queue (drain_output_queue n source_queue result_queue)
           (process_output_message combiner source_queue result_queue))
  end.

(** Green's output queue, blue's, and the queue both go to. *)
Definition output_queues : result string (string * string * string) :=
  c ← combiner_config config;
  green ← required (cb_green_queue c) "combiner.greenOutputQueue";
  blue ← required (cb_blue_queue c) "combiner.blueOutputQueue";
  output ← required (cb_output_queue c) "combiner.outputQueue";
  Ok (green, blue, output).

Definition drain_output_queues (n : nat) : prog (option (result string unit)) :=
  if negb (active Combiner) then ended (Ok tt)
  else match output_queues with
       | Err e => ended (Err e)
       | Ok (green_queue, blue_queue, result_queue) =>
           do%* drain_output_queue n green_queue result_queue ;;
           drain_output_queue n blue_queue result_queue
       end.

(** The two tasks that [run_combiner] spawns and joins. *)
Definition run_combiner (n : nat) : result string (list (prog (option (result string unit)))) :=
  c ← combiner_config config;
  blue_queue ← required (cb_blue_queue c) "combiner.blueOutputQueue";
  green_queue ← required (cb_green_queue c) "combiner.greenOutputQueue";
  result_queue ← required (cb_output_queue c) "combiner.outputQueue";
  Ok [run_combine_loop n blue_queue result_queue; run_combine_loop n green_queue result_queue].
End Worker.
