(* ===== verification/ServiceBusLifecycle.v ===== *)
(** * The Azure Service Bus plugin: lifecycle and writes

    [plugins/azure_servicebus/src]: [lifecycle.rs] and [writer.rs]. *)

From S2P Require Import Prelude RustString Float64 Kube Crd StateStore InceptorEffects Effects.
From S2P Require Import External Names SipHash Auth Plugins Sdk SdkNames JsonDecode HttpPlugin QueuePlugins.
From S2P Require Import ServiceBus ServiceBusClient ServiceBusWorkers.

Section Handlers.
Context `{Sha256, StandardBase64, JsonText, Regexes}.
Context (state : BusState).
Notation client := (bs_client state).
Notation config := (bs_config state).

(** ** Drain status *)

Definition in_flight_messages : prog Z := cell LoadActive.

(** Of a queue and its shadow queue; [+=] on [u64]. *)
Definition queue_drain_message_count_with_shadow (queue : string) : prog (result string Z) :=
  let* total := queue_drain_message_count client queue in
  match shadow_queue_name config queue with
  | None => Ret (Ok total)
  | Some shadow_queue =>
      let* shadow := queue_drain_message_count client shadow_queue in Ret (Ok (wrap_u64 (total + shadow)))
  end.

Definition queue_drain_status (label : string) (green_messages blue_messages in_flight : Z)
    : PluginDrainStatusResponse :=
  let drained := (Z.eqb green_messages 0 && Z.eqb blue_messages 0 && Z.eqb in_flight 0)%bool in
  {| pds_drained := drained;
     pds_message := Some
       (if drained
        then label +:+ " report zero total messages and no plugin-owned locked messages remain"
        else if Z.ltb 0 in_flight
        then label +:+ " still have " +:+ show_Z in_flight +:+ " plugin-owned locked message(s)"
        else label +:+ " still contain messages (green=" +:+ show_Z green_messages
             +:+ ", blue=" +:+ show_Z blue_messages +:+ ")") |}.

(** The messages in work are read after the queues were counted. *)
Definition queue_pair_drain_status (label green_queue blue_queue : string)
    : prog (result string PluginDrainStatusResponse) :=
  let* green_messages := queue_drain_message_count_with_shadow green_queue in
  let* blue_messages := queue_drain_message_count_with_shadow blue_queue in
  let! in_flight := in_flight_messages in
  Ret (Ok (queue_drain_status label green_messages blue_messages in_flight)).
Definition input_drain_status (green_queue blue_queue : string) : prog (result string PluginDrainStatusResponse) :=
  queue_pair_drain_status "temporary input queues" green_queue blue_queue.

Definition drain_runtime_queues (n : nat) : prog (option (result string unit)) :=
  do%* drain_input_queues state n ;; drain_output_queues state n.

Definition input_status (block : string) (c : result string SplitterConfig)
    : prog (result string PluginDrainStatusResponse) :=
  match (c ← c;
         green ← required (in_green_queue c) (block +:+ ".greenInputQueue");
         blue ← required (in_blue_queue c) (block +:+ ".blueInputQueue");
         Ok (green, blue)) with
  | Err e => Ret (Err e)
  | Ok (green, blue) => input_drain_status green blue
  end.

Definition role_drain_status : prog (result string PluginDrainStatusResponse) :=
  if active state Duplicator then input_status "duplicator" (duplicator_config config)
  else if active state Splitter then input_status "splitter" (splitter_config config)
  else if active state Combiner then
    match (c ← combiner_config config;
           green ← required (cb_green_queue c) "combiner.greenOutputQueue";
           blue ← required (cb_blue_queue c) "combiner.blueOutputQueue";
           Ok (green, blue)) with
    | Err e => Ret (Err e)
    | Ok (green, blue) => queue_pair_drain_status "temporary output queues" green blue
    end
  else Ret (Ok {| pds_drained := true;
                  pds_message := Some "no drain-sensitive Azure Service Bus roles active" |}).

Definition compute_drain_status (n : nat) : prog (option (result string PluginDrainStatusResponse)) :=
  let! mode := runtime_mode in
  do%* (if bool_decide (mode = Draining) then drain_runtime_queues n else ended (Ok tt)) ;;
  whole role_drain_status.

(** ** Handlers *)

Definition authorize_operator (headers : HeaderMap) : result Z unit :=
  if bearer_matches (header_text headers "authorization") (rt_auth_token (bs_runtime state)) then Ok tt else Err 401.

(** [for queue in queues.iter().flatten()]. *)
Definition each_queue (queues : list (option string)) (body : string -> prog (result Z unit))
    : prog (result Z unit) := each (omap id queues) body.

Definition create_temp_queues (queues : list (option string)) : prog (result Z unit) :=
  each_queue queues (fun queue =>
    match shadow_queue_name config queue with
    | Some shadow_queue =>
        do* with_error 500 (create_queue client shadow_queue (shadow_declaration config)) ;;
        with_error 500 (create_queue client queue (bc_queue_declaration config))
    | None => with_error 500 (create_queue client queue (bc_queue_declaration config))
    end).
Definition delete_temp_queues (queues : list (option string)) : prog (result Z unit) :=
  each_queue queues (fun queue =>
    do* with_error 500 (delete_queue client queue) ;;
    match shadow_queue_name config queue with
    | Some shadow_queue => with_error 500 (delete_queue client shadow_queue)
    | None => Ret (Ok tt)
    end).

(** A block of the configuration that an active role needs. *)
Definition for_role {A} (r : PluginRole) (block : result string A) (f : A -> prog (result Z unit))
    : prog (result Z unit) :=
  if active state r then match block with Ok b => f b | Err _ => Ret (Err 400) end else Ret (Ok tt).

Definition with_assignments (l : list PropertyAssignment) : PluginLifecycleResponse :=
  {| plr_assignments := l; plr_inceptor_env := []; plr_config := None |}.

Definition prepare_handler (headers : HeaderMap) : prog (result Z PluginLifecycleResponse) :=
  match authorize_operator headers with
  | Err e => Ret (Err e)
  | Ok _ =>
      let prepared := with_assignments (build_prepare_assignments config (bs_roles state)) in
      do! set_runtime_mode Idle ;;
      let! disabled := inceptor_infra_disabled in
      if disabled then Ret (Ok prepared)
      else
        do* for_role Duplicator (duplicator_config config)
              (fun d => create_temp_queues [in_green_queue d; in_blue_queue d]) ;;
        do* for_role Splitter (splitter_config config)
              (fun d => create_temp_queues [in_green_queue d; in_blue_queue d]) ;;
        do* for_role Combiner (combiner_config config)
              (fun d => create_temp_queues [cb_green_queue d; cb_blue_queue d; cb_output_queue d]) ;;
        do* for_role Writer (writer_config config) (fun d => create_temp_queues [wr_target_queue d]) ;;
        Ret (Ok prepared)
  end.

Definition activate_handler (headers : HeaderMap) : prog (result Z PluginLifecycleResponse) :=
  match authorize_operator headers with
  | Err e => Ret (Err e)
  | Ok _ => do! set_runtime_mode Active ;; Ret (Ok empty_lifecycle_response)
  end.

Definition cleanup_handler (headers : HeaderMap) : prog (result Z PluginLifecycleResponse) :=
  match authorize_operator headers with
  | Err e => Ret (Err e)
  | Ok _ =>
      do! set_runtime_mode Idle ;;
      let! disabled := inceptor_infra_disabled in
      if disabled then Ret (Ok (with_assignments []))
      else
        do* for_role Duplicator (duplicator_config config)
              (fun d => delete_temp_queues [in_green_queue d; in_blue_queue d]) ;;
        do* for_role Splitter (splitter_config config)
              (fun d => delete_temp_queues [in_green_queue d; in_blue_queue d]) ;;
        do* for_role Combiner (combiner_config config)
              (fun d => delete_temp_queues [cb_green_queue d; cb_blue_queue d]) ;;
        Ret (Ok (with_assignments []))
  end.

Definition drain_handler (n : nat) (headers : HeaderMap) : prog (option (result Z PluginLifecycleResponse)) :=
  match authorize_operator headers with
  | Err e => ended (Err e)
  | Ok _ =>
      do! set_runtime_mode Draining ;;
      let% drained := drain_runtime_queues n in
      ended match drained with
            | Err _ => Err 500
            | Ok _ => Ok (with_assignments (build_drain_assignments config (bs_roles state)))
            end
  end.

Definition drain_status_handler (n : nat) (headers : HeaderMap)
    : prog (option (result Z PluginDrainStatusResponse)) :=
  match authorize_operator headers with
  | Err e => ended (Err e)
  | Ok _ => let% status := compute_drain_status n in ended (map_err (fun _ => 500) status)
  end.

Definition traffic_shift_handler (headers : HeaderMap) (req : TrafficShiftRequest)
    : prog (result Z TrafficShiftResponse) :=
  match authorize_operator headers with
  | Err e => Ret (Err e)
  | Ok _ =>
      do! set_traffic_percent (tsr_traffic_percent req) ;;
      let! percent := traffic_percent in Ret (Ok {| tsp_traffic_percent := percent |})
  end.

(** ** writer.rs *)

Definition write_handler (headers : HeaderMap) (req : WriteRequest) : prog (Z * string) :=
  match require_bearer_token (header_text headers "authorization") (rt_auth_token (bs_runtime state)) with
  | Err _ => Ret (401, "unauthorized")
  | Ok _ =>
      match bc_writer config ≫= wr_target_queue with
      | None => Ret (400, "targetQueue not configured")
      | Some queue =>
          let! sent := send_message client queue (json_to_bytes (wreq_payload req))
                         (properties_from_json (wreq_properties req)) in
          Ret match sent with Ok _ => (200, "published") | Err _ => (500, "publish failed") end
      end
  end.
End Handlers.

Example locked_messages_delay_a_drain :
  pds_drained (queue_drain_status "temporary output queues" 0 0 1) = false
  /\ pds_drained (queue_drain_status "temporary input queues" 0 2 0) = false
  /\ pds_drained (queue_drain_status "temporary output queues" 0 0 0) = true.
Proof. by vm_compute. Qed.
