(* ===== verification/ServiceBusManager.v ===== *)
(** * The Azure Service Bus plugin: manager

    [plugins/azure_servicebus/src/manager.rs]: it creates the queues of an inception point,
    deletes them, and collects the temporary queues no active inception point uses.  An
    inceptor is handed signed tokens for its queues, not the key they are signed with.
    [None] is a panic. *)

From S2P Require Import Prelude RustString Float64 Kube Crd StateStore InceptorEffects Effects.
From S2P Require Import External Names SipHash Auth Plugins Sdk SdkNames JsonDecode HttpPlugin QueuePlugins.
From S2P Require Import QueueManagers ServiceBus ServiceBusClient.

Record BusManagerState := {
  bm_signing_key : list ascii;
  bm_runtime_config : ServiceBusRuntimeConfig }.

Definition manager_state_from_env `{JsonText} : prog (result string BusManagerState) :=
  let! key := env "FLUIDBG_MANAGER_AUTH_SIGNING_KEY" in
  match key with
  | None => Ret (Err "missing FLUIDBG_MANAGER_AUTH_SIGNING_KEY")
  | Some key =>
      let! config := runtime_config_from_env in
      Ret (Ok {| bm_signing_key := bytes key; bm_runtime_config := config |})
  end.

(** ** Names *)

Definition managed_temp_queue_names (roles : list PluginRole) (c : BusConfig) : list string :=
  temp_queue_names roles (bc_duplicator c) (bc_splitter c) (bc_combiner c).
Definition base_shadow_queue_names (roles : list PluginRole) (c : BusConfig) : list string :=
  base_queue_names roles (bc_duplicator c) (bc_splitter c) (bc_combiner c).
Definition inceptor_queue_names (roles : list PluginRole) (c : BusConfig) : list string :=
  with_shadows (shadow_queue_name c) (managed_temp_queue_names roles c) (base_shadow_queue_names roles c)
    (end_queue_names roles (bc_writer c) (bc_consumer c)).

Section Names.
Context `{Sha256}.

Definition secured_config_from_claims (claims : PluginAuthClaims) (req : PluginManagerLifecycleRequest)
    : json * BusConfig :=
  let value := claimed_config claims (pml_config req) in
  (value, unwrap_or default_config (decode_config value)).

Definition active_config (a : ActiveInception) : BusConfig :=
  unwrap_or default_config (decode_config (inventoried_config a)).
Definition active_queue_names (active_inceptions : list ActiveInception) : list string :=
  concat (map (fun a =>
    let config := active_config a in
    let local := managed_temp_queue_names (parse_roles (ai_roles a)) config in
    local ++ omap (shadow_queue_name config) local) active_inceptions).
End Names.

(** ** Environment of the inceptor *)

Section Environment.
Context `{Sha256, StandardBase64, JsonText}.

Definition connection_of (runtime : ServiceBusRuntimeConfig) : option ParsedConnectionString :=
  src_connection_string runtime ≫= fun value =>
    match parse_connection_string value with Ok parsed => Some parsed | Err _ => None end.

(** The tokens by resource; the clock is read for every queue. *)
Fixpoint sas_tokens (connection : ParsedConnectionString) (ttl : Z) (queues : list string)
    (tokens : gmap string string) : prog (option (gmap string string)) :=
  match queues with
  | [] => ended tokens
  | queue :: rest =>
      match service_bus_resource_url (pcs_namespace connection) queue with
      | None => Ret None
      | Some resource =>
          let! token := sas_token resource (pcs_key_name connection) (pcs_key connection) ttl in
          sas_tokens connection ttl rest (<[resource := token]> tokens)
      end
  end.
(** An object of texts. *)
Definition texts_to_json (texts : gmap string string) : json :=
  JObj (map (fun e => (e.1, JStr e.2)) (sorted_entries texts)).

Definition static_sas_tokens_json (runtime : ServiceBusRuntimeConfig) (roles : list PluginRole) (c : BusConfig)
    : prog (option (option string)) :=
  match connection_of runtime with
  | None => ended None
  | Some connection =>
      let ttl := unwrap_or 3600 (src_auth runtime ≫= ac_sas_token_ttl_seconds) in
      let% tokens := sas_tokens connection ttl (inceptor_queue_names roles c) ∅ in
      ended (Some (json_to_bytes (texts_to_json tokens)))
  end.

Definition inceptor_env (runtime : ServiceBusRuntimeConfig) (roles : list PluginRole) (c : BusConfig)
    : prog (option (list InceptorEnvVar)) :=
  let namespace := or_else (src_fully_qualified_namespace runtime)
                     (pcs_namespace <$> connection_of runtime) in
  let mode := (fun mode => match mode with
                           | ConnectionString => "connectionString"
                           | WorkloadIdentityMode => "workloadIdentity"
                           end) <$> (src_auth runtime ≫= ac_mode) in
  let% tokens := static_sas_tokens_json runtime roles c in
  ended (push_optional_env "AZURE_SERVICEBUS_NAMESPACE" namespace
         ++ push_optional_env "FLUIDBG_AZURE_SERVICEBUS_SAS_TOKENS_JSON" tokens
         ++ push_optional_env "FLUIDBG_AZURE_SERVICEBUS_AUTH_MODE" mode).
End Environment.

(** ** Handlers *)

Section Handlers.
Context `{Sha256, StandardBase64, JsonText, Urls, Codecs}.
Context (state : BusManagerState).

Definition authorize (headers : HeaderMap) : result Z PluginAuthClaims :=
  map_err (fun _ => 401) (verify_manager_bearer_token (header_text headers "authorization") (bm_signing_key state)).

Definition create_with_shadow (client : ServiceBusClient) (c : BusConfig) (queue : string) : prog (result Z unit) :=
  match shadow_queue_name c queue with
  | Some shadow_queue =>
      do* with_error 500 (create_queue client shadow_queue (shadow_declaration c)) ;;
      with_error 500 (create_queue client queue (bc_queue_declaration c))
  | None => with_error 500 (create_queue client queue (bc_queue_declaration c))
  end.
Definition delete_with_shadow (client : ServiceBusClient) (c : BusConfig) (queue : string) : prog (result Z unit) :=
  do* with_error 500 (delete_queue client queue) ;;
  match shadow_queue_name c queue with
  | Some shadow_queue => with_error 500 (delete_queue client shadow_queue)
  | None => Ret (Ok tt)
  end.

Definition reconcile_queues (roles : list string) (c : BusConfig) (create : bool) : prog (result Z unit) :=
  let roles := parse_roles roles in
  let* client := with_error 400 (from_runtime_config (bm_runtime_config state)) in
  let queues := managed_temp_queue_names roles c in
  do* (match bc_shadow_queue c with
       | Some shadow =>
           if create then
             each (base_shadow_queue_names roles c) (fun queue =>
               match shadow_queue_name c queue with
               | Some shadow_queue => with_error 500 (create_queue client shadow_queue (shq_declaration shadow))
               | None => Ret (Ok tt)
               end)
           else Ret (Ok tt)
       | None => Ret (Ok tt)
       end) ;;
  each queues (fun queue => if create then create_with_shadow client c queue else delete_with_shadow client c queue).

Definition garbage_collect_temp_queues (active_inceptions : list ActiveInception) : prog (result Z unit) :=
  let* client := with_error 400 (from_runtime_config (bm_runtime_config state)) in
  let active := active_queue_names active_inceptions in
  let* queues := with_error 500 (list_queues client) in
  each queues (fun queue =>
    if (starts_with "fluidbg-" queue && negb (existsb (String.eqb queue) active))%bool
    then with_error 500 (delete_queue client queue) else Ret (Ok tt)).

Definition prepare_handler (headers : HeaderMap) (req : PluginManagerLifecycleRequest)
    : prog (option (result Z PluginLifecycleResponse)) :=
  let roles := parse_roles (pml_roles req) in
  match (claims ← authorize headers;
         _ ← ensure_request_matches_claims req claims;
         _ ← map_err (fun _ => 400) (queue_worker_role roles);
         Ok claims) with
  | Err e => ended (Err e)
  | Ok claims =>
      let '(effective_config, config) := secured_config_from_claims claims req in
      do%* whole (reconcile_queues (pml_roles req) config true) ;;
      let% env := inceptor_env (bm_runtime_config state) roles config in
      ended (Ok {| plr_assignments := build_prepare_assignments config roles; plr_inceptor_env := env;
                   plr_config := Some effective_config |})
  end.

Definition cleanup_handler (headers : HeaderMap) (req : PluginManagerLifecycleRequest) : prog (result Z json) :=
  match (claims ← authorize headers; _ ← ensure_request_matches_claims req claims; Ok claims) with
  | Err e => Ret (Err e)
  | Ok claims =>
      let '(_, config) := secured_config_from_claims claims req in
      do* reconcile_queues (pml_roles req) config false ;; Ret (Ok (JObj [("ok", JBool true)]))
  end.

Definition sync_handler (headers : HeaderMap) (req : PluginManagerSyncRequest) : prog (result Z json) :=
  match (claims ← authorize headers; _ ← ensure_sync_request_matches_claims req claims; Ok tt) with
  | Err e => Ret (Err e)
  | Ok _ => do* garbage_collect_temp_queues (pms_active_inceptions req) ;; Ret (Ok (JObj [("ok", JBool true)]))
  end.
End Handlers.
