(* ===== verification/CosmosStore.v ===== *)
(** * The Cosmos store

    [operator/src/state_store/cosmos.rs]: the test cases as documents of a Cosmos container,
    over its REST API.  A document is read with its version ([_etag]) and replaced on the
    condition that it still has it.  Every operation is a program; what it asks is an HTTP
    call of the client [cosmos]. *)

From S2P Require Import Prelude RustString Float64 Kube Crd InceptorEffects Effects StateStore.
From S2P Require Import External Names Auth Plugins Sdk JsonDecode HttpPlugin QueuePlugins.

(** ** Workload identity tokens

    [operator/src/state_store/azure_identity.rs]: tokens for Azure, got with the federated
    token of the pod and cached. *)

Record WorkloadIdentityConfig := {
  wi_tenant_id : string; wi_client_id : string; wi_token_file : string; wi_authority_host : string }.
(** The mutex with the cached token is a cell, named by [tp_token]. *)
Record TokenProvider := { tp_config : WorkloadIdentityConfig; tp_token : Z }.

Definition new_token_provider (config : WorkloadIdentityConfig) : prog TokenProvider :=
  let! token := cell NewTokens in Ret {| tp_config := config; tp_token := token |}.

(** [JsonDecode.percent_encode] keeps the unreserved characters. *)
Definition percent_encode_path_segment (value : string) : string := percent_encode value.
Definition percent_encode_query_value (value : string) : string := percent_encode value.
Definition form_urlencoded (fields : list (string * string)) : string :=
  String.concat "&" (map (fun f => percent_encode_query_value f.1 +:+ "=" +:+ percent_encode_query_value f.2) fields).

(** [None] is a panic. *)
Definition required_env (prefix name fallback : string) : prog (option string) :=
  let! own := env (prefix +:+ "_" +:+ name) in
  match own with Some v => Ret (Some v) | None => env fallback end.
Definition workload_identity_from_env (prefix : string) : prog (option WorkloadIdentityConfig) :=
  let% tenant_id := required_env prefix "TENANT_ID" "AZURE_TENANT_ID" in
  let% client_id := required_env prefix "CLIENT_ID" "AZURE_CLIENT_ID" in
  let% token_file := required_env prefix "FEDERATED_TOKEN_FILE" "AZURE_FEDERATED_TOKEN_FILE" in
  let! authority_host := required_env prefix "AUTHORITY_HOST" "AZURE_AUTHORITY_HOST" in
  ended {| wi_tenant_id := tenant_id; wi_client_id := client_id; wi_token_file := token_file;
           wi_authority_host := unwrap_or "https://login.microsoftonline.com" authority_host |}.

Definition TokenResponse : Type := string * option Z.
Definition decode_token_response : decoder TokenResponse := fun j =>
  fields ← d_fields j;
  token ← member d_string "access_token" fields;
  expires_in ← opt_member as_i64 "expires_in" fields;
  Some (token, expires_in).

Definition request_workload_identity_token (config : WorkloadIdentityConfig) (scope : string)
    : prog (result StoreError CachedToken) :=
  let* assertion := with_error (Other ("failed to read federated token file '" +:+ wi_token_file config +:+ "'"))
                      (request (AReadFile (wi_token_file config))) in
  let url := trim_end_matches "/" (wi_authority_host config) +:+ "/"
             +:+ percent_encode_path_segment (wi_tenant_id config) +:+ "/oauth2/v2.0/token" in
  let body := form_urlencoded
    [("client_id", wi_client_id config); ("scope", scope); ("grant_type", "client_credentials");
     ("client_assertion_type", "urn:ietf:params:oauth:client-assertion-type:jwt-bearer");
     ("client_assertion", trim assertion)] in
  let* response := with_error (Other "workload identity token request failed")
    (cell (ICall {| call_client := "azure-identity"; call_method := "POST"; call_url := url;
                    call_headers := [("content-type", "application/x-www-form-urlencoded")];
                    call_basic_auth := None; call_payload := BytesPayload body |})) in
  if negb (is_success (cr_status response))
  then Ret (Err (Other ("workload identity token request failed: " +:+ show_Z (cr_status response) +:+ " "
                        +:+ from_utf8_lossy (cr_body response))))
  else
    match (j ← cr_json response; ok_or "error decoding response body" (decode_token_response j)) with
    | Err e => Ret (Err (Other ("failed to decode workload identity token: " +:+ e)))
    | Ok (token, expires_in) =>
        let! now := request ANow in
        Ret (Ok {| access_token := token; InceptorEffects.expires_at := now + unwrap_or 3600 expires_in * 1000 |})
    end.

(** The mutex is held to the end. *)
Definition get_access_token (provider : TokenProvider) (scope : string) : prog (result StoreError string) :=
  let! cached := cell (LockToken (tp_token provider) false) in
  let! valid := match cached with
                | Some t => let! now := request ANow in
                            Ret (if Z.ltb (now + 5 * 60 * 1000) (InceptorEffects.expires_at t)
                                 then Some (access_token t) else None)
                | None => Ret None
                end in
  match valid with
  | Some token => do! cell (UnlockToken (tp_token provider) false) ;; Ret (Ok token)
  | None =>
      let! fresh := request_workload_identity_token (tp_config provider) scope in
      match fresh with
      | Err e => do! cell (UnlockToken (tp_token provider) false) ;; Ret (Err e)
      | Ok fresh =>
          do! cell (StoreToken (tp_token provider) false fresh) ;;
          do! cell (UnlockToken (tp_token provider) false) ;;
          Ret (Ok (access_token fresh))
      end
  end.

(** ** The account and its encodings *)

Definition COSMOS_SCOPE : string := "https://cosmos.azure.com/.default".
Definition COSMOS_VERSION : string := "2018-12-31".

(** The standard alphabet of base64, and the formats of [chrono]: RFC 3339, and the one of the
    date header. *)
Class CosmosCodecs := {
  standard_encode : list ascii -> string;
  standard_decode : string -> result string (list ascii);
  rfc3339 : Z -> string;
  rfc3339_parse : string -> option Z;
  http_date : Z -> string }.

Module Cosmos.

Inductive CosmosAuth :=
| MasterKey (key : string)
| WorkloadIdentity (provider : TokenProvider).
Record CosmosStore := { endpoint : string; database : string; container : string; auth : CosmosAuth }.

Record CosmosTestCase := {
  d_id : string;
  d_etag : option string;
  d_test_id : string;
  d_blue_green_ref : string;
  d_triggered_at : Z;
  d_trigger_inception_point : string;
  d_timeout_seconds : Z;
  d_status : string;
  d_verdict : option bool;
  d_verification_mode : string;
  d_verify_url : string;
  d_verifier_auth_token : string;
  d_retries_remaining : Z;
  d_failure_message : option string;
  d_expires_at : Z }.

Definition other {A} (what : string) : result StoreError A := Err (Other what).
Definition cosmos_failed {A} (what : string) (response : call_response) : result StoreError A :=
  other ("cosmos " +:+ what +:+ " failed: " +:+ show_Z (cr_status response) +:+ " "
         +:+ from_utf8_lossy (cr_body response)).

(** ** Documents *)

Definition status_text (s : TestStatus) : string :=
  match s with
  | Triggered => "Triggered" | CaseObserving => "Observing" | Passed => "Passed" | Failed => "Failed"
  | TimedOut => "TimedOut"
  end.
Definition status_of_text (s : string) : TestStatus :=
  if String.eqb s "Observing" then CaseObserving
  else if String.eqb s "Passed" then Passed
  else if String.eqb s "Failed" then Failed
  else if String.eqb s "TimedOut" then TimedOut
  else Triggered.
Definition mode_text (m : VerificationMode) : string := match m with Data => "Data" | Custom => "Custom" end.
Definition mode_of_text (s : string) : VerificationMode := if String.eqb s "Custom" then Custom else Data.
Definition is_pending_status (s : string) : bool := (String.eqb s "Triggered" || String.eqb s "Observing")%bool.

Definition cosmos_document_id `{Sha256, Codecs} (bg id : string) : string :=
  base64url_encode (sha256 (name_parts [bg; id])).

Definition case_to_doc `{Sha256, Codecs} (run : TestCaseRecord) : CosmosTestCase :=
  {| d_id := cosmos_document_id (blue_green_ref run) (test_id run); d_etag := None;
     d_test_id := test_id run; d_blue_green_ref := blue_green_ref run; d_triggered_at := triggered_at run;
     d_trigger_inception_point := source_inception_point run;
     d_timeout_seconds := Z.quot (timeout run) 1000; d_status := status_text (status run);
     d_verdict := verdict run; d_verification_mode := mode_text (verification_mode run);
     d_verify_url := verify_url run; d_verifier_auth_token := verifier_auth_token run;
     d_retries_remaining := retries_remaining run; d_failure_message := failure_message run;
     d_expires_at := StateStore.expires_at run |}.
Definition doc_to_case (doc : CosmosTestCase) : TestCaseRecord :=
  {| test_id := d_test_id doc; blue_green_ref := d_blue_green_ref doc; triggered_at := d_triggered_at doc;
     source_inception_point := d_trigger_inception_point doc; timeout := d_timeout_seconds doc * 1000;
     status := status_of_text (d_status doc); verdict := d_verdict doc;
     verification_mode := mode_of_text (d_verification_mode doc); verify_url := d_verify_url doc;
     verifier_auth_token := d_verifier_auth_token doc; retries_remaining := d_retries_remaining doc;
     failure_message := d_failure_message doc |}.

Definition optional {A} (f : A -> json) (o : option A) : json := match o with Some a => f a | None => JNull end.
Definition number (z : Z) : json := JNum (show_Z z).

Section Documents.
Context `{CosmosCodecs}.

(** What [serde] writes; the version is left out when there is none. *)
Definition encode_doc (doc : CosmosTestCase) : json :=
  JObj ([("id", JStr (d_id doc))]
    ++ match d_etag doc with Some e => [("_etag", JStr e)] | None => [] end
    ++ [("test_id", JStr (d_test_id doc)); ("blue_green_ref", JStr (d_blue_green_ref doc));
        ("triggered_at", JStr (rfc3339 (d_triggered_at doc)));
        ("trigger_inception_point", JStr (d_trigger_inception_point doc));
        ("timeout_seconds", number (d_timeout_seconds doc)); ("status", JStr (d_status doc));
        ("verdict", optional JBool (d_verdict doc)); ("verification_mode", JStr (d_verification_mode doc));
        ("verify_url", JStr (d_verify_url doc)); ("verifier_auth_token", JStr (d_verifier_auth_token doc));
        ("retries_remaining", number (d_retries_remaining doc));
        ("failure_message", optional JStr (d_failure_message doc));
        ("expires_at", JStr (rfc3339 (d_expires_at doc)))]).
Definition d_time : decoder Z := fun j => s ← d_string j; rfc3339_parse s.
Definition decode_doc : decoder CosmosTestCase := fun j =>
  fields ← d_fields j;
  id ← member d_string "id" fields;
  etag ← opt_member d_string "_etag" fields;
  test_id ← member d_string "test_id" fields;
  bg ← member d_string "blue_green_ref" fields;
  triggered ← member d_time "triggered_at" fields;
  ip ← member d_string "trigger_inception_point" fields;
  timeout ← member as_i64 "timeout_seconds" fields;
  status ← member d_string "status" fields;
  verdict ← opt_member d_bool "verdict" fields;
  mode ← member d_string "verification_mode" fields;
  url ← member d_string "verify_url" fields;
  token ← default_member "" d_string "verifier_auth_token" fields;
  retries ← member d_i32 "retries_remaining" fields;
  failure ← opt_member d_string "failure_message" fields;
  expires ← member d_time "expires_at" fields;
  Some {| d_id := id; d_etag := etag; d_test_id := test_id; d_blue_green_ref := bg; d_triggered_at := triggered;
          d_trigger_inception_point := ip; d_timeout_seconds := timeout; d_status := status; d_verdict := verdict;
          d_verification_mode := mode; d_verify_url := url; d_verifier_auth_token := token;
          d_retries_remaining := retries; d_failure_message := failure; d_expires_at := expires |}.

Definition set_doc_outcome (status : string) (verdict : option bool) (failure : option string) (doc : CosmosTestCase)
    : CosmosTestCase :=
  {| d_id := d_id doc; d_etag := d_etag doc; d_test_id := d_test_id doc; d_blue_green_ref := d_blue_green_ref doc;
     d_triggered_at := d_triggered_at doc; d_trigger_inception_point := d_trigger_inception_point doc;
     d_timeout_seconds := d_timeout_seconds doc; d_status := status; d_verdict := verdict;
     d_verification_mode := d_verification_mode doc; d_verify_url := d_verify_url doc;
     d_verifier_auth_token := d_verifier_auth_token doc; d_retries_remaining := d_retries_remaining doc;
     d_failure_message := failure; d_expires_at := d_expires_at doc |}.
Definition set_doc_retries (n : Z) (doc : CosmosTestCase) : CosmosTestCase :=
  {| d_id := d_id doc; d_etag := d_etag doc; d_test_id := d_test_id doc; d_blue_green_ref := d_blue_green_ref doc;
     d_triggered_at := d_triggered_at doc; d_trigger_inception_point := d_trigger_inception_point doc;
     d_timeout_seconds := d_timeout_seconds doc; d_status := d_status doc; d_verdict := d_verdict doc;
     d_verification_mode := d_verification_mode doc; d_verify_url := d_verify_url doc;
     d_verifier_auth_token := d_verifier_auth_token doc; d_retries_remaining := n;
     d_failure_message := d_failure_message doc; d_expires_at := d_expires_at doc |}.
End Documents.

(** ** Accounts *)

Section Accounts.
Context `{Urls}.

Definition cosmos_suffixes : list string := [".documents.azure.com"; ".documents.azure.us"; ".documents.azure.cn"].
Definition validate_cosmos_endpoint (value : string) : result StoreError string :=
  match url_parse (trim value) with
  | None => other "invalid cosmos endpoint"
  | Some url =>
      if negb (String.eqb (url_scheme url) "https") then other "cosmos endpoint must use https"
      else
        match url_host url with
        | None => other "cosmos endpoint must include a host"
        | Some host =>
            if negb (existsb (fun suffix => ends_with suffix host) cosmos_suffixes)
            then other ("cosmos endpoint host '" +:+ host +:+ "' is not a Cosmos DB endpoint")
            else if (negb (is_empty (url_username url)) || is_some (url_password url))%bool
            then other "cosmos endpoint must not contain credentials"
            else if (is_some (url_query url) || is_some (url_fragment url))%bool
            then other "cosmos endpoint must not contain query or fragment components"
            else if (negb (String.eqb (url_path url) "/") && negb (is_empty (url_path url)))%bool
            then other "cosmos endpoint must not contain a path"
            else Ok (trim_end_matches "/" (url_text (set_path url (trim_end_matches "/" (url_path url)))))
        end
  end.

Record ParsedConnectionString := { pc_endpoint : string; pc_account_key : string }.
(** Of a repeated name the last value stays. *)
Definition connection_value (name value : string) : option string :=
  fold_left (fun last part =>
    match split_once "=" part with
    | Some (n, v) => if String.eqb n name then Some v else last
    | None => last
    end) (List.filter (fun part => negb (is_empty part)) (split ";" value)) None.
Definition parse_connection_string (value : string) : result StoreError ParsedConnectionString :=
  e ← ok_or (Other "cosmos connection string missing AccountEndpoint") (connection_value "AccountEndpoint" value);
  k ← ok_or (Other "cosmos connection string missing AccountKey") (connection_value "AccountKey" value);
  Ok {| pc_endpoint := e; pc_account_key := k |}.

Definition new_master_key (endpoint database container key : string) : result StoreError CosmosStore :=
  e ← validate_cosmos_endpoint endpoint;
  Ok {| endpoint := e; database := database; container := container; auth := MasterKey key |}.
Definition new_workload_identity (endpoint database container : string) (identity : WorkloadIdentityConfig)
    : prog (result StoreError CosmosStore) :=
  match validate_cosmos_endpoint endpoint with
  | Err e => Ret (Err e)
  | Ok e =>
      let! provider := new_token_provider identity in
      Ret (Ok {| endpoint := e; database := database; container := container; auth := WorkloadIdentity provider |})
  end.
Definition from_connection_string (value database container : string) : result StoreError CosmosStore :=
  parsed ← parse_connection_string value;
  new_master_key (pc_endpoint parsed) database container (pc_account_key parsed).
End Accounts.

(** ** Requests *)

Section Store.
Context `{CosmosCodecs, Sha256, Codecs}.
Context (store : CosmosStore).

Definition container_link : string := "dbs/" +:+ database store +:+ "/colls/" +:+ container store.
Definition docs_url : string := endpoint store +:+ "/" +:+ container_link +:+ "/docs".
Definition doc_url (id : string) : string := endpoint store +:+ "/" +:+ container_link +:+ "/docs/" +:+ id.
Definition doc_link (id : string) : string := container_link +:+ "/docs/" +:+ id.

(** The copy of [hmac_sha256] that this file has. *)
Definition hmac_sha256 (key message : list ascii) : list ascii :=
  let key_block := zero_padded 64 (if Nat.ltb 64 (length key) then sha256 key else key) in
  let inner_hash := sha256 (xor_with 54 key_block ++ message) in
  sha256 (xor_with 92 key_block ++ inner_hash).
Definition cosmos_master_auth (verb resource_type link date key : string) : result StoreError string :=
  let payload := lower verb +:+ newline +:+ lower resource_type +:+ newline +:+ link +:+ newline
                 +:+ lower date +:+ newline +:+ newline in
  key ← map_err (fun e => Other ("invalid cosmos account key: " +:+ e)) (standard_decode key);
  let signature := standard_encode (hmac_sha256 key (bytes payload)) in
  Ok (percent_encode_query_value ("type=master&ver=1.0&sig=" +:+ signature)).
Definition authorization (verb resource_type link date : string) : prog (result StoreError string) :=
  match auth store with
  | MasterKey key => Ret (cosmos_master_auth verb resource_type link date key)
  | WorkloadIdentity provider =>
      let* token := get_access_token provider COSMOS_SCOPE in
      Ret (Ok (percent_encode_query_value ("type=aad&ver=1.0&sig=" +:+ token)))
  end.

Definition header_value (name value : string) : result StoreError string :=
  if all_bytes visible_ascii value then Ok value
  else other ("invalid " +:+ name +:+ " header value: failed to parse header value").
(** [serde_json::to_string] of an array of one text. *)
Context `{JsonText}.
Definition partition_key_header (partition_key : option string) : result StoreError (list (string * string)) :=
  match partition_key with
  | None => Ok []
  | Some key =>
      v ← header_value "x-ms-documentdb-partitionkey" (json_to_bytes (JArr [JStr key]));
      Ok [("x-ms-documentdb-partitionkey", v)]
  end.
Definition headers (verb resource_type link : string) (partition_key : option string)
    : prog (result StoreError (list (string * string))) :=
  let! now := request ANow in
  let date := http_date now in
  let* auth := authorization verb resource_type link date in
  Ret (auth ← header_value "authorization" auth;
       date ← header_value "x-ms-date" date;
       key ← partition_key_header partition_key;
       Ok ([("authorization", auth); ("x-ms-date", date); ("x-ms-version", COSMOS_VERSION)] ++ key)).

Definition cosmos_call (method url : string) (headers : list (string * string)) (p : payload) : http_call :=
  {| call_client := "cosmos"; call_method := method; call_url := url; call_headers := headers;
     call_basic_auth := None; call_payload := p |}.
Definition http_err (e : string) : StoreError := Other ("cosmos http request failed: " +:+ e).
Definition send (c : http_call) : prog (result StoreError call_response) :=
  let! r := cell (ICall c) in
  Ret (map_err http_err r).

Definition validate_container : prog (result StoreError unit) :=
  let* headers := headers "GET" "colls" container_link None in
  let* response := send (cosmos_call "GET" (endpoint store +:+ "/" +:+ container_link) headers NoPayload) in
  Ret (if Z.eqb (cr_status response) 200 then Ok tt else cosmos_failed "container validation" response).

(** ** Queries *)

Definition decode_rows {A} (d : decoder A) : decoder (list A) := fun j =>
  fields ← d_fields j; member (d_list d) "Documents" fields.
Definition query_headers : list (string * string) :=
  [("content-type", "application/query+json"); ("x-ms-documentdb-isquery", "true");
   ("x-ms-documentdb-query-enablecrosspartition", "true")].
Definition query_body (text : string) (parameters : json) : json :=
  JObj [("parameters", parameters); ("query", JStr text)].
(** One page of the answer. *)
Definition query {A} (d : decoder A) (text : string) (parameters : json) : prog (result StoreError (list A)) :=
  let* headers := headers "POST" "docs" container_link None in
  let* response := send (cosmos_call "POST" docs_url (headers ++ query_headers)
                           (JsonPayload (query_body text parameters))) in
  Ret (if negb (is_success (cr_status response)) then cosmos_failed "query" response
       else map_err (fun e => Other ("failed to decode cosmos query: " +:+ e))
              (j ← cr_json response; ok_or "error decoding response body" (decode_rows d j))).

Definition query_param (name : string) (value : json) : json := JObj [("name", JStr name); ("value", value)].
Definition CASE_QUERY : string := "SELECT * FROM c WHERE c.blue_green_ref = @bg AND c.test_id = @test_id".
Definition OPEN_QUERY : string := "SELECT * FROM c WHERE c.status IN ('Triggered', 'Observing')".
Definition REFS_QUERY : string := "SELECT DISTINCT VALUE c.blue_green_ref FROM c".
Definition REF_QUERY : string := "SELECT * FROM c WHERE c.blue_green_ref = @bg".
Definition EXPIRED_QUERY : string :=
  "SELECT * FROM c WHERE c.expires_at < @now AND c.status IN ('Triggered', 'Observing')".
Definition FAILURE_QUERY : string :=
  "SELECT TOP 1 c.failure_message FROM c WHERE c.blue_green_ref = @bg AND IS_DEFINED(c.failure_message) AND NOT IS_NULL(c.failure_message) ORDER BY c.triggered_at DESC".

Definition get_doc (bg id : string) : prog (result StoreError (option CosmosTestCase)) :=
  let* rows := query decode_doc CASE_QUERY
                 (JArr [query_param "@bg" (JStr bg); query_param "@test_id" (JStr id)]) in
  Ret (Ok (head rows)).

(** ** Changes *)

Definition json_type : list (string * string) := [("content-type", "application/json")].
Definition replace_doc (doc : CosmosTestCase) : prog (result StoreError unit) :=
  let* headers := headers "PUT" "docs" (doc_link (d_id doc)) (Some (d_blue_green_ref doc)) in
  match match d_etag doc with
        | Some etag => v ← header_value "if-match" etag; Ok [("if-match", v)]
        | None => Ok []
        end with
  | Err e => Ret (Err e)
  | Ok condition =>
      let* response := send (cosmos_call "PUT" (doc_url (d_id doc)) (headers ++ json_type ++ condition)
                               (JsonPayload (encode_doc doc))) in
      Ret (if is_success (cr_status response) then Ok tt
           else if Z.eqb (cr_status response) 412 then Err (Conflict (d_test_id doc))
           else cosmos_failed "replace" response)
  end.

Fixpoint delete_docs (rows : list CosmosTestCase) (deleted : Z) : prog (result StoreError Z) :=
  match rows with
  | [] => Ret (Ok deleted)
  | doc :: rows =>
      let* headers := headers "DELETE" "docs" (doc_link (d_id doc)) (Some (d_blue_green_ref doc)) in
      let* response := send (cosmos_call "DELETE" (doc_url (d_id doc)) headers NoPayload) in
      delete_docs rows (if is_success (cr_status response) then deleted + 1 else deleted)
  end.

(** ** The operations of the trait *)

(** A conflict is a case that is registered already; it stays as it is. *)
Definition register (run : TestCaseRecord) : prog (result StoreError unit) :=
  let doc := case_to_doc run in
  let* headers := headers "POST" "docs" container_link (Some (d_blue_green_ref doc)) in
  let* response := send (cosmos_call "POST" docs_url (headers ++ json_type) (JsonPayload (encode_doc doc))) in
  Ret (if existsb (Z.eqb (cr_status response)) [200; 201; 409] then Ok tt else cosmos_failed "register" response).

Definition get (bg id : string) : prog (result StoreError (option TestCaseRecord)) :=
  let* doc := get_doc bg id in Ret (Ok (doc_to_case <$> doc)).

(** Replaces a pending case that is there. *)
Definition finalize_doc (f : CosmosTestCase -> CosmosTestCase) (bg id : string) : prog (result StoreError unit) :=
  let* found := get_doc bg id in
  match found with
  | None => Ret (Err (NotFound id))
  | Some doc => if negb (is_pending_status (d_status doc)) then Ret (Err (NotFound id)) else replace_doc (f doc)
  end.
Definition set_verdict (bg id : string) (passed : bool) (failure_message : option string)
    : prog (result StoreError unit) :=
  finalize_doc (set_doc_outcome (if passed then "Passed" else "Failed") (Some passed) failure_message) bg id.
Definition mark_timed_out (bg id : string) : prog (result StoreError unit) :=
  finalize_doc (fun doc => set_doc_outcome "TimedOut" None (d_failure_message doc) doc) bg id.
Definition decrement_retries (bg id : string) : prog (result StoreError (option Z)) :=
  let* found := get_doc bg id in
  match found with
  | None => Ret (Err (NotFound id))
  | Some doc =>
      if (negb (is_pending_status (d_status doc)) || Z.leb (d_retries_remaining doc) 0)%bool then Ret (Ok None)
      else
        let remaining := d_retries_remaining doc - 1 in
        do* replace_doc (set_doc_retries remaining doc) ;;
        Ret (Ok (Some remaining))
  end.

Definition list_pending : prog (result StoreError (list TestCaseRecord)) :=
  let* rows := query decode_doc OPEN_QUERY (JArr []) in Ret (Ok (map doc_to_case rows)).
Definition list_blue_green_refs : prog (result StoreError (gset string)) :=
  let* refs := query d_string REFS_QUERY (JArr []) in Ret (Ok (list_to_set refs)).

Definition CountRow : Type := option Z * option Z * option Z * option Z.
Definition decode_counts : decoder CountRow := fun j =>
  fields ← d_fields j;
  passed ← opt_member as_i64 "passed" fields;
  failed ← opt_member as_i64 "failed" fields;
  timed_out ← opt_member as_i64 "timed_out" fields;
  pending ← opt_member as_i64 "pending" fields;
  Some (passed, failed, timed_out, pending).
Definition count_query_text (predicate : string) : string :=
  let line indent text := newline +:+ of_bytes (repeat " "%char indent) +:+ text in
  "SELECT VALUE {"
  +:+ line 16%nat "passed: SUM(IIF(c.status = 'Passed', 1, 0)),"
  +:+ line 16%nat "failed: SUM(IIF(c.status = 'Failed', 1, 0)),"
  +:+ line 16%nat "timed_out: SUM(IIF(c.status = 'TimedOut', 1, 0)),"
  +:+ line 16%nat "pending: SUM(IIF(c.status IN ('Triggered', 'Observing'), 1, 0))"
  +:+ line 12%nat "} FROM c WHERE " +:+ predicate.
Definition counts_query (text : string) (parameters : json) : prog (result StoreError Counts) :=
  let* rows := query decode_counts text parameters in
  let '(passed, failed, timed_out, pending) := unwrap_or (Some 0, Some 0, Some 0, Some 0) (head rows) in
  Ret (Ok {| passed := unwrap_or 0 passed; failed := unwrap_or 0 failed; timed_out := unwrap_or 0 timed_out;
             pending := unwrap_or 0 pending |}).
Definition counts_for_mode_query (bg : string) (mode : option VerificationMode) : prog (result StoreError Counts) :=
  counts_query
    (count_query_text ("c.blue_green_ref = @bg"
       +:+ match mode with Some _ => " AND c.verification_mode = @mode" | None => "" end))
    (JArr (query_param "@bg" (JStr bg)
           :: match mode with Some m => [query_param "@mode" (JStr (mode_text m))] | None => [] end)).
Definition counts (bg : string) : prog (result StoreError Counts) := counts_for_mode_query bg None.
Definition counts_for_mode (bg : string) (mode : VerificationMode) : prog (result StoreError Counts) :=
  counts_for_mode_query bg (Some mode).

Definition decode_failure : decoder (option string) := fun j =>
  fields ← d_fields j; opt_member d_string "failure_message" fields.
Definition latest_failure_message (bg : string) : prog (result StoreError (option string)) :=
  let* rows := query decode_failure FAILURE_QUERY (JArr [query_param "@bg" (JStr bg)]) in
  Ret (Ok (mjoin (head rows))).

Definition cleanup_blue_green (bg : string) : prog (result StoreError Z) :=
  let* rows := query decode_doc REF_QUERY (JArr [query_param "@bg" (JStr bg)]) in delete_docs rows 0.
Definition cleanup_expired : prog (result StoreError Z) :=
  let! now := request ANow in
  let* rows := query decode_doc EXPIRED_QUERY (JArr [query_param "@now" (JStr (rfc3339 now))]) in delete_docs rows 0.
End Store.
End Cosmos.

Example cosmos_connection_string :
  Cosmos.parse_connection_string "AccountEndpoint=https://acct.documents.azure.com:443/;AccountKey=abc==;"
  = Ok {| Cosmos.pc_endpoint := "https://acct.documents.azure.com:443/"; Cosmos.pc_account_key := "abc==" |}.
Proof. reflexivity. Qed.
