(* ===== verification/PostgresSchema.v ===== *)
(** * The schema of the SQL store

    The pool and the migration of [operator/src/state_store/postgres.rs].  A statement that
    defines data is a value of [ddl]; [step] is what PostgreSQL documents of it, on relations
    of tuples.  The theorems: the migration brings a new or an older database to the table
    that [PostgresStore] works on, from wherever earlier runs were interrupted; two that run
    at once may fail. *)

From S2P Require Import Prelude RustString Float64 Kube Crd InceptorEffects Effects StateStore.
From S2P Require Import External Auth Plugins Sdk JsonDecode HttpPlugin QueuePlugins PostgresStore CosmosStore.

Module Schema.

(** ** Statements *)

Inductive sql_type := TEXT | TIMESTAMPTZ | INTEGER | BOOLEAN.
Inductive sql_value := VText (s : string) | VTime (t : Z) | VInt (z : Z) | VBool (b : bool) | VNull.
#[export] Instance sql_value_eq_dec : EqDecision sql_value.
Proof. solve_decision. Defined.

Record column := {
  col_name : string; col_type : sql_type; col_not_null : bool; col_default : option sql_value }.

Inductive ddl :=
| CreateTableIfNotExists (table : string) (columns : list column) (key : list string)
| DropConstraintIfExists (table constraint : string)
| AddPrimaryKey (table : string) (key : list string)
| AddColumnIfNotExists (table : string) (c : column)
| CreateIndexIfNotExists (name table : string) (key : list string) (predicate : option string)
| DropIndexIfExists (name : string).

#[export] Instance sql_type_eq_dec : EqDecision sql_type.
Proof. solve_decision. Defined.
#[export] Instance column_eq_dec : EqDecision column.
Proof. solve_decision. Defined.

Definition not_null (name : string) (t : sql_type) : column :=
  {| col_name := name; col_type := t; col_not_null := true; col_default := None |}.
Definition with_default (name : string) (t : sql_type) (v : sql_value) : column :=
  {| col_name := name; col_type := t; col_not_null := true; col_default := Some v |}.
Definition nullable (name : string) (t : sql_type) : column :=
  {| col_name := name; col_type := t; col_not_null := false; col_default := None |}.

Definition token_column : column := with_default "verifier_auth_token" TEXT (VText "").
Definition case_columns : list column :=
  [not_null "test_id" TEXT; not_null "blue_green_ref" TEXT; not_null "triggered_at" TIMESTAMPTZ;
   not_null "trigger_inception_point" TEXT; not_null "timeout_seconds" INTEGER; not_null "status" TEXT;
   nullable "verdict" BOOLEAN; with_default "verification_mode" TEXT (VText "Data");
   with_default "verify_url" TEXT (VText ""); token_column;
   with_default "retries_remaining" INTEGER (VInt 0); nullable "failure_message" TEXT;
   not_null "expires_at" TIMESTAMPTZ].
Definition case_key : list string := ["blue_green_ref"; "test_id"].

Definition bg_index (table : string) : string := "idx_" +:+ table +:+ "_blue_green_ref".
Definition expires_index (table : string) : string := "idx_" +:+ table +:+ "_expires".
Definition legacy_index (table : string) : string := "idx_" +:+ table +:+ "_test_id_unique".
Definition OPEN_CASES : string := "status IN ('Triggered', 'Observing')".
(** The statements, in the order they are executed. *)
Definition migration (table : string) : list ddl :=
  [CreateTableIfNotExists table case_columns case_key;
   DropConstraintIfExists table (table +:+ "_pkey");
   AddPrimaryKey table case_key;
   AddColumnIfNotExists table token_column;
   CreateIndexIfNotExists (bg_index table) table ["blue_green_ref"] None;
   DropIndexIfExists (legacy_index table);
   CreateIndexIfNotExists (expires_index table) table ["expires_at"] (Some OPEN_CASES)].

(** ** The pool *)

Definition POSTGRES_ENTRA_SCOPE : string := "https://ossrdbms-aad.database.windows.net/.default".

Inductive connect_options :=
| ByUrl (url : string)
| ByIdentity (host database user password : string).
Record PostgresHandle := { pool : Z; table_name : string }.

Section Client.
(** [sqlx]: a pool of five connections, over TLS for an identity; the execution of a statement. *)
Context (connect : connect_options -> prog (result string Z)).
Context (execute : Z -> ddl -> prog (result string unit)).

Definition postgres_err {A} (p : prog (result string A)) : prog (result StoreError A) :=
  let! r := p in Ret (map_err Postgres r).
Definition new (url table : string) : prog (result StoreError PostgresHandle) :=
  let* pool := postgres_err (connect (ByUrl url)) in
  Ret (Ok {| pool := pool; table_name := table |}).
Definition new_workload_identity (host database user table : string) (identity : WorkloadIdentityConfig)
    : prog (result StoreError PostgresHandle) :=
  let! provider := new_token_provider identity in
  let* token := get_access_token provider POSTGRES_ENTRA_SCOPE in
  let* pool := postgres_err (connect (ByIdentity host database user token)) in
  Ret (Ok {| pool := pool; table_name := table |}).
Definition migrate (store : PostgresHandle) : prog (result StoreError unit) :=
  each (migration (table_name store)) (fun statement => postgres_err (execute (pool store) statement)).
End Client.

(** ** What the statements do to a database *)

Notation tuple := (gmap string sql_value).
(** A primary key is a constraint with a name, on columns. *)
Record relation := {
  columns : list column; primary_key : option (string * list string); tuples : list tuple }.
Record db := { relations : gmap string relation; indexes : gmap string (string * list string) }.

Definition set_relation (table : string) (r : relation) (d : db) : db :=
  {| relations := <[table := r]> (relations d); indexes := indexes d |}.
Definition set_indexes (i : gmap string (string * list string)) (d : db) : db :=
  {| relations := relations d; indexes := i |}.
Definition set_key (k : option (string * list string)) (r : relation) : relation :=
  {| columns := columns r; primary_key := k; tuples := tuples r |}.

Definition has_column (name : string) (r : relation) : bool :=
  existsb (fun c => String.eqb (col_name c) name) (columns r).
Definition project (key : list string) (t : tuple) : list (option sql_value) := map (fun n => t !! n) key.
Definition add_column (c : column) (r : relation) : relation :=
  {| columns := columns r ++ [c]; primary_key := primary_key r;
     tuples := map (<[col_name c := unwrap_or VNull (col_default c)]>) (tuples r) |}.

Section Server.
(** The name the server gives to a primary key that is not named. *)
Context (default_pkey : string -> string).

Definition on_table (table : string) (d : db) (f : relation -> result string db) : result string db :=
  match relations d !! table with
  | Some r => f r
  | None => Err ("relation " +:+ table +:+ " does not exist")
  end.
Definition step (s : ddl) (d : db) : result string db :=
  match s with
  | CreateTableIfNotExists table cols key =>
      match relations d !! table with
      | Some _ => Ok d
      | None => Ok (set_relation table {| columns := cols; primary_key := Some (default_pkey table, key);
                                          tuples := [] |} d)
      end
  | DropConstraintIfExists table name => on_table table d (fun r =>
      match primary_key r with
      | Some (n, _) => Ok (if String.eqb n name then set_relation table (set_key None r) d else d)
      | None => Ok d
      end)
  | AddPrimaryKey table key => on_table table d (fun r =>
      if is_some (primary_key r) then Err ("multiple primary keys for table " +:+ table +:+ " are not allowed")
      else if negb (forallb (fun n => has_column n r) key) then Err "column named in key does not exist"
      else if existsb (fun t => existsb (fun v => bool_decide (v = Some VNull \/ v = None)) (project key t)) (tuples r)
      then Err "column contains null values"
      else if bool_decide (NoDup (map (project key) (tuples r)))
      then Ok (set_relation table (set_key (Some (default_pkey table, key)) r) d)
      else Err "could not create unique index")
  | AddColumnIfNotExists table c => on_table table d (fun r =>
      if has_column (col_name c) r then Ok d else Ok (set_relation table (add_column c r) d))
  | CreateIndexIfNotExists name table key _ =>
      match indexes d !! name with
      | Some _ => Ok d
      | None => on_table table d (fun r =>
          if forallb (fun n => has_column n r) key then Ok (set_indexes (<[name := (table, key)]> (indexes d)) d)
          else Err "column does not exist")
      end
  | DropIndexIfExists name => Ok (set_indexes (delete name (indexes d)) d)
  end.

(** Statements are executed one by one; the first that fails is the last. *)
Fixpoint run_ddl (l : list ddl) (d : db) : result string unit * db :=
  match l with
  | [] => (Ok tt, d)
  | s :: l => match step s d with Ok d' => run_ddl l d' | Err e => (Err e, d) end
  end.
End Server.

(** ** The table the store works on *)

Definition text (n : string) (t : tuple) : option string :=
  match t !! n with Some (VText s) => Some s | _ => None end.
Definition time (n : string) (t : tuple) : option Z := match t !! n with Some (VTime z) => Some z | _ => None end.
Definition integer (n : string) (t : tuple) : option Z := match t !! n with Some (VInt z) => Some z | _ => None end.
Definition opt_text (n : string) (t : tuple) : option (option string) :=
  match t !! n with Some (VText s) => Some (Some s) | Some VNull => Some None | _ => None end.
Definition opt_bool (n : string) (t : tuple) : option (option bool) :=
  match t !! n with Some (VBool b) => Some (Some b) | Some VNull => Some None | _ => None end.
(** The row of [PostgresStore] a tuple holds. *)
Definition row_of (t : tuple) : option Pg.Row :=
  test ← text "test_id" t; bg ← text "blue_green_ref" t; triggered ← time "triggered_at" t;
  ip ← text "trigger_inception_point" t; timeout ← integer "timeout_seconds" t; status ← text "status" t;
  verdict ← opt_bool "verdict" t; mode ← text "verification_mode" t; url ← text "verify_url" t;
  token ← text "verifier_auth_token" t; retries ← integer "retries_remaining" t;
  failure ← opt_text "failure_message" t; expires ← time "expires_at" t;
  Some {| Pg.c_test_id := test; Pg.c_blue_green_ref := bg; Pg.c_triggered_at := triggered;
          Pg.c_trigger_inception_point := ip; Pg.c_timeout_seconds := timeout; Pg.c_status := status;
          Pg.c_verdict := verdict; Pg.c_verification_mode := mode; Pg.c_verify_url := url;
          Pg.c_verifier_auth_token := token; Pg.c_retries_remaining := retries;
          Pg.c_failure_message := failure; Pg.c_expires_at := expires |}.
Definition keyed_row (r : Pg.Row) : (string * string) * Pg.Row := ((Pg.c_blue_green_ref r, Pg.c_test_id r), r).
Definition table_of (r : relation) : Pg.table := list_to_map (map keyed_row (omap row_of (tuples r))).

(** ** Databases an operator may find *)

Definition has_type (t : sql_type) (v : sql_value) : Prop :=
  match t, v with
  | TEXT, VText _ | TIMESTAMPTZ, VTime _ | BOOLEAN, VBool _ | _, VNull => True
  | INTEGER, VInt z => in_signed 32 z
  | _, _ => False
  end.
Definition fits (c : column) (t : tuple) : Prop :=
  exists v, t !! col_name c = Some v /\ has_type (col_type c) v /\ (v = VNull -> col_not_null c = false).

Section Migrations.
Context (default_pkey : string -> string) (table : string).
Notation step := (step default_pkey).
Notation run_ddl := (run_ddl default_pkey).

(** A relation of cases, as this or an older version left it: the token of the verifier may be
    missing, the primary key may be any or none, under the name the server gives. *)
Record case_relation (r : relation) : Prop := {
  cr_key : primary_key r = None \/ exists k, primary_key r = Some (default_pkey table, k);
  cr_columns c : c ∈ case_columns -> c ∈ columns r \/ c = token_column /\ has_column (col_name c) r = false;
  cr_fits t c : t ∈ tuples r -> c ∈ case_columns -> c ∈ columns r -> fits c t;
  cr_no_token t : t ∈ tuples r -> has_column "verifier_auth_token" r = false -> t !! "verifier_auth_token" = None;
  cr_distinct : NoDup (map (project case_key) (tuples r)) }.
Definition compatible (d : db) : Prop := forall r, relations d !! table = Some r -> case_relation r.

Definition tuples_in (d : db) : list tuple := from_option tuples [] (relations d !! table).
(** Older tuples get the default. *)
Definition with_token (t : tuple) : tuple :=
  match t !! "verifier_auth_token" with Some _ => t | None => <["verifier_auth_token" := VText ""]> t end.
Definition same_cases (d d' : db) : Prop := map with_token (tuples_in d) = map with_token (tuples_in d').

(** What [PostgresStore] takes for granted: every tuple is a row, no two have the key, which the
    primary key says, as [ON CONFLICT] needs. *)
Record ready (d : db) (r : relation) : Prop := {
  rd_relation : relations d !! table = Some r;
  rd_cases : case_relation r;
  rd_key : primary_key r = Some (default_pkey table, case_key);
  rd_token : has_column "verifier_auth_token" r = true;
  rd_indexes : is_Some (indexes d !! bg_index table) /\ is_Some (indexes d !! expires_index table)
               /\ indexes d !! legacy_index table = None }.

(** *** The statements one by one *)

(** Membership is decided. *)
Lemma in_case_columns c : existsb (fun c' => bool_decide (c = c')) case_columns = true -> c ∈ case_columns.
Proof. intros (c' & Hin%list_elem_of_In & ->%bool_decide_eq_true)%existsb_exists. done. Qed.
Lemma case_columns_named c c' : c ∈ case_columns -> c' ∈ case_columns -> col_name c = col_name c' -> c = c'.
Proof.
  unfold case_columns. intros Hc Hc'. repeat (apply elem_of_cons in Hc as [->|Hc]); [..|by apply not_elem_of_nil in Hc].
  all: repeat (apply elem_of_cons in Hc' as [->|Hc']); try done; by apply not_elem_of_nil in Hc'.
Qed.

Lemma has_column_in c r : c ∈ columns r -> has_column (col_name c) r = true.
Proof.
  intros Hc. apply existsb_exists. exists c. split; [by apply list_elem_of_In|by apply String.eqb_refl].
Qed.

Lemma case_relation_key k r :
  case_relation r -> (k = None \/ exists l, k = Some (default_pkey table, l)) -> case_relation (set_key k r).
Proof. intros [_ Hc Hf Hn Hd] Hk. by split. Qed.

Lemma create_runs d : compatible d ->
  exists d' r, step (CreateTableIfNotExists table case_columns case_key) d = Ok d'
    /\ relations d' !! table = Some r /\ case_relation r /\ same_cases d d'.
Proof.
  intros Hd. cbn. destruct (relations d !! table) as [r|] eqn:E; [exists d, r; split_and!; [done..|by apply Hd|done]|].
  eexists _, _. split_and!; [done|apply lookup_insert_eq| |].
  - split; cbn; [right; by eexists|by left|by intros ?? ?%not_elem_of_nil|by intros ? ?%not_elem_of_nil|constructor].
  - unfold same_cases, tuples_in. cbn. by rewrite E, lookup_insert_eq.
Qed.

Lemma drop_runs d r : default_pkey table = table +:+ "_pkey" -> relations d !! table = Some r -> case_relation r ->
  exists d', step (DropConstraintIfExists table (table +:+ "_pkey")) d = Ok d'
    /\ relations d' !! table = Some (set_key None r) /\ same_cases d d'.
Proof.
  intros Hp E Hr. cbn. unfold on_table. rewrite E. destruct (cr_key r Hr) as [Hk|[k Hk]]; rewrite Hk.
  - exists d. split_and!; [done| |done]. rewrite E. destruct r. cbn in *. by subst.
  - rewrite Hp, String.eqb_refl. eexists. split_and!; [done|apply lookup_insert_eq|].
    unfold same_cases, tuples_in. cbn. by rewrite E, lookup_insert_eq.
Qed.

Lemma case_key_present r : case_relation r -> forallb (fun n => has_column n r) case_key = true.
Proof.
  intros Hr. assert (forall c, c ∈ case_columns -> c <> token_column -> has_column (col_name c) r = true) as H.
  { intros c Hc Hne. destruct (cr_columns r Hr c Hc) as [Hin|[-> _]]; [by apply has_column_in|done]. }
  assert (has_column "blue_green_ref" r = true) as H1 by (apply (H (not_null "blue_green_ref" TEXT)); [by apply in_case_columns|done]).
  assert (has_column "test_id" r = true) as H2 by (apply (H (not_null "test_id" TEXT)); [by apply in_case_columns|done]).
  cbn -[has_column]. by rewrite H1, H2.
Qed.
Lemma case_column_fits r t c : case_relation r -> t ∈ tuples r -> c ∈ case_columns -> c <> token_column -> fits c t.
Proof.
  intros Hr Ht Hc Hne. apply (cr_fits r Hr); [done..|]. destruct (cr_columns r Hr c Hc) as [Hin|[-> _]]; done.
Qed.
Lemma text_fits r t n : case_relation r -> t ∈ tuples r -> not_null n TEXT ∈ case_columns ->
  exists s, t !! n = Some (VText s).
Proof.
  intros Hr Ht Hc. destruct (case_column_fits r t _ Hr Ht Hc ltac:(done)) as (v & Hv & Hty & Hn). cbn in *.
  destruct v; try done; [by eexists|]. by specialize (Hn eq_refl).
Qed.
Lemma case_key_not_null r : case_relation r ->
  existsb (fun t => existsb (fun v => bool_decide (v = Some VNull \/ v = None)) (project case_key t)) (tuples r) = false.
Proof.
  intros Hr. apply not_true_iff_false. intros (t & Ht%list_elem_of_In & H)%existsb_exists.
  destruct (text_fits r t "blue_green_ref" Hr Ht) as [b Hb]; [by apply in_case_columns|].
  destruct (text_fits r t "test_id" Hr Ht) as [i Hi]; [by apply in_case_columns|].
  cbn in H. rewrite Hb, Hi in H. by repeat case_bool_decide; naive_solver.
Qed.

Lemma add_key_runs d r : relations d !! table = Some r -> case_relation r -> primary_key r = None ->
  exists d', step (AddPrimaryKey table case_key) d = Ok d'
    /\ relations d' !! table = Some (set_key (Some (default_pkey table, case_key)) r) /\ same_cases d d'
    /\ indexes d' = indexes d.
Proof.
  intros E Hr Hk. cbn -[case_key]. unfold on_table. rewrite E, Hk, case_key_present, case_key_not_null by done.
  rewrite bool_decide_eq_true_2 by apply (cr_distinct r Hr). eexists. split_and!; [done|apply lookup_insert_eq| |done].
  unfold same_cases, tuples_in. cbn. by rewrite E, lookup_insert_eq.
Qed.

Lemma has_token_added r : has_column "verifier_auth_token" (add_column token_column r) = true.
Proof. unfold has_column. cbn. rewrite existsb_app. by rewrite orb_true_r. Qed.
Lemma project_token t : project case_key (<["verifier_auth_token" := VText ""]> t) = project case_key t.
Proof. cbn. by rewrite !lookup_insert_ne. Qed.
Lemma add_column_cases r : case_relation r -> has_column "verifier_auth_token" r = false ->
  case_relation (add_column token_column r).
Proof.
  intros Hr Hc. split.
  - apply (cr_key r Hr).
  - intros c Hin. left. cbn. rewrite elem_of_app, list_elem_of_singleton. destruct (cr_columns r Hr c Hin) as [?|[-> _]]; tauto.
  - cbn. intros t c (t0 & -> & Ht)%list_elem_of_fmap Hin Hcol.
    destruct (String.eqb_spec (col_name c) "verifier_auth_token") as [En|En].
    + assert (c = token_column) as -> by (apply case_columns_named; [done|by apply in_case_columns|done]).
      exists (VText ""). by split_and!; [apply lookup_insert_eq|..].
    + apply elem_of_app in Hcol as [Hcol| ->%list_elem_of_singleton]; [|done].
      destruct (cr_fits r Hr t0 c Ht Hin Hcol) as (v & Hv & ? & ?). exists v. by rewrite lookup_insert_ne.
  - intros t _ E. by rewrite has_token_added in E.
  - cbn. rewrite map_map. erewrite map_ext; [apply (cr_distinct r Hr)|]. intros t. apply project_token.
Qed.
Lemma with_token_added t : t !! "verifier_auth_token" = None ->
  with_token (<["verifier_auth_token" := VText ""]> t) = with_token t.
Proof. intros Ht. unfold with_token. by rewrite lookup_insert_eq, Ht. Qed.

Lemma add_column_runs d r : relations d !! table = Some r -> case_relation r ->
  exists d' r', step (AddColumnIfNotExists table token_column) d = Ok d'
    /\ relations d' !! table = Some r' /\ case_relation r' /\ primary_key r' = primary_key r
    /\ has_column "verifier_auth_token" r' = true /\ same_cases d d' /\ indexes d' = indexes d.
Proof.
  intros E Hr. cbn -[token_column add_column]. unfold on_table. rewrite E. change (col_name token_column) with "verifier_auth_token".
  destruct (has_column "verifier_auth_token" r) eqn:Hc; [by exists d, r|].
  eexists _, (add_column token_column r). split_and!; [done|apply lookup_insert_eq|by apply add_column_cases|done|apply has_token_added| |done].
  unfold same_cases, tuples_in. cbn -[with_token]. rewrite E, lookup_insert_eq. cbn -[with_token]. rewrite map_map.
  apply map_ext_in. intros t Ht%list_elem_of_In. symmetry. by apply with_token_added, (cr_no_token r Hr).
Qed.

Lemma create_index_runs name n predicate d r : relations d !! table = Some r -> has_column n r = true ->
  exists d', step (CreateIndexIfNotExists name table [n] predicate) d = Ok d'
    /\ relations d' = relations d /\ is_Some (indexes d' !! name)
    /\ forall other, other <> name -> indexes d' !! other = indexes d !! other.
Proof.
  intros E Hn. cbn. destruct (indexes d !! name) eqn:Ei; [exists d; by rewrite Ei|]. unfold on_table. rewrite E, Hn.
  eexists. split_and!; [done|done|cbn; by rewrite lookup_insert_eq|]. intros other Ho. cbn. by rewrite lookup_insert_ne.
Qed.

(** *** Runs *)

(** The statements run, every database on the way satisfies [Q] and the last one [F]. *)
Fixpoint path (l : list ddl) (d : db) (Q F : db -> Prop) : Prop :=
  match l with
  | [] => F d
  | s :: l => exists d', step s d = Ok d' /\ Q d' /\ path l d' Q F
  end.
Lemma path_take n l d Q F : path l d Q F -> Q d -> (run_ddl (take n l) d).1 = Ok tt /\ Q (run_ddl (take n l) d).2.
Proof.
  revert n d. induction l as [|s l IH]; intros [|n] d Hp Hq; cbn; [done..|].
  destruct Hp as (d' & -> & Hq' & Hp). by apply IH.
Qed.
Lemma path_run l d Q F : path l d Q F -> exists d', run_ddl l d = (Ok tt, d') /\ F d'.
Proof.
  revert d. induction l as [|s l IH]; intros d; cbn; [by exists d|]. intros (d' & -> & _ & Hp). by apply IH.
Qed.

Lemma index_names :
  bg_index table <> legacy_index table /\ expires_index table <> legacy_index table /\ bg_index table <> expires_index table.
Proof. unfold bg_index, legacy_index, expires_index. split_and!; by intros [=E%sapp_inv_l]. Qed.

Lemma compatible_at d r : relations d !! table = Some r -> case_relation r -> compatible d.
Proof. intros E Hr r' E'. by rewrite E in E'; injection E' as <-. Qed.
Lemma same_relations d d' : relations d' !! table = relations d !! table -> same_cases d d'.
Proof. intros E. unfold same_cases, tuples_in. by rewrite E. Qed.

Lemma migration_path d0 d : default_pkey table = table +:+ "_pkey" -> compatible d -> same_cases d0 d ->
  path (migration table) d (fun d' => compatible d' /\ same_cases d0 d') (fun d' => (exists r, ready d' r) /\ same_cases d0 d').
Proof.
  intros Hp Hd H0. destruct index_names as (N1 & N2 & N3).
  destruct (create_runs d Hd) as (d1 & r1 & E1 & R1 & C1 & S1).
  destruct (drop_runs d1 r1 Hp R1 C1) as (d2 & E2 & R2 & S2).
  assert (case_relation (set_key None r1)) as C2 by (apply case_relation_key; [done|by left]).
  destruct (add_key_runs d2 _ R2 C2 eq_refl) as (d3 & E3 & R3 & S3 & _).
  set (r3 := set_key (Some (default_pkey table, case_key)) (set_key None r1)) in *.
  assert (case_relation r3) as C3 by (apply case_relation_key; [done|right; by eexists]).
  destruct (add_column_runs d3 r3 R3 C3) as (d4 & r4 & E4 & R4 & C4 & K4 & T4 & S4 & _).
  assert (forall c, c ∈ case_columns -> has_column (col_name c) r4 = true) as Hcol.
  { intros c Hc. destruct (cr_columns r4 C4 c Hc) as [Hin|[-> Hn]]; [by apply has_column_in|change (has_column "verifier_auth_token" r4 = false) in Hn; by rewrite T4 in Hn]. }
  destruct (create_index_runs (bg_index table) "blue_green_ref" None d4 r4 R4) as (d5 & E5 & R5 & I5 & J5).
  { apply (Hcol (not_null "blue_green_ref" TEXT)). by apply in_case_columns. }
  set (d6 := set_indexes (delete (legacy_index table) (indexes d5)) d5).
  assert (relations d6 !! table = Some r4) as R6 by (unfold d6; cbn; by rewrite R5).
  destruct (create_index_runs (expires_index table) "expires_at" (Some OPEN_CASES) d6 r4 R6) as (d7 & E7 & R7 & I7 & J7).
  { apply (Hcol (not_null "expires_at" TIMESTAMPTZ)). by apply in_case_columns. }
  assert (relations d7 !! table = Some r4) as R7' by by rewrite R7.
  unfold same_cases in *. assert (map with_token (tuples_in d0) = map with_token (tuples_in d4)) as H4 by congruence.
  assert (forall d', relations d' !! table = Some r4 -> compatible d' /\ map with_token (tuples_in d0) = map with_token (tuples_in d')) as Hat.
  { intros d' E. split; [by eapply compatible_at|]. rewrite H4. unfold tuples_in. by rewrite E, R4. }
  unfold migration. cbn [path].
  exists d1; split; [exact E1|]. split; [split; [by eapply compatible_at|congruence]|].
  exists d2; split; [exact E2|]. split; [split; [by eapply compatible_at|congruence]|].
  exists d3; split; [exact E3|]. split; [split; [by eapply compatible_at|congruence]|].
  exists d4; split; [exact E4|]. split; [by apply Hat|].
  exists d5; split; [exact E5|]. split; [apply Hat; by rewrite R5|].
  exists d6; split; [done|]. split; [by apply Hat|].
  exists d7; split; [exact E7|]. split; [by apply Hat|]. split; [|by apply Hat].
  exists r4. split; [done|done|by rewrite K4|done|]. split_and!; [|done|].
  - rewrite J7 by done. unfold d6. cbn. by rewrite lookup_delete_ne.
  - rewrite J7 by done. unfold d6. cbn. apply lookup_delete_eq.
Qed.

(** A database that is ready stays as it is. *)
Lemma set_relation_back x r d : relations d !! table = Some r -> set_relation table r (set_relation table x d) = d.
Proof. intros E. destruct d as [m i]. unfold set_relation. cbn in *. f_equal. by rewrite insert_insert_eq, insert_id. Qed.
Lemma ready_stays d r : default_pkey table = table +:+ "_pkey" -> ready d r -> run_ddl (migration table) d = (Ok tt, d).
Proof.
  intros Hp [E Hr Hk Ht ([i1 I1] & [i2 I2] & I3)].
  set (d2 := set_relation table (set_key None r) d).
  assert (step (CreateTableIfNotExists table case_columns case_key) d = Ok d) as S1 by (cbn; by rewrite E).
  assert (step (DropConstraintIfExists table (table +:+ "_pkey")) d = Ok d2) as S2.
  { cbn. unfold on_table. by rewrite E, Hk, Hp, String.eqb_refl. }
  assert (relations d2 !! table = Some (set_key None r)) as E2 by apply lookup_insert_eq.
  assert (case_relation (set_key None r)) as C2 by (apply case_relation_key; [done|by left]).
  assert (step (AddPrimaryKey table case_key) d2 = Ok d) as S3.
  { cbn -[case_key]. unfold on_table. rewrite E2, case_key_present, case_key_not_null by done. cbn -[case_key].
    rewrite bool_decide_eq_true_2 by apply (cr_distinct r Hr). unfold d2.
    replace (set_key (Some (default_pkey table, case_key)) (set_key None r)) with r by (destruct r; cbn in *; by subst).
    by rewrite set_relation_back. }
  assert (step (AddColumnIfNotExists table token_column) d = Ok d) as S4.
  { cbn -[token_column]. unfold on_table. rewrite E. change (col_name token_column) with "verifier_auth_token". by rewrite Ht. }
  assert (step (CreateIndexIfNotExists (bg_index table) table ["blue_green_ref"] None) d = Ok d) as S5 by (cbn [Schema.step]; by rewrite I1).
  assert (step (DropIndexIfExists (legacy_index table)) d = Ok d) as S6.
  { cbn [Schema.step]. rewrite delete_id by done. by destruct d. }
  assert (step (CreateIndexIfNotExists (expires_index table) table ["expires_at"] (Some OPEN_CASES)) d = Ok d) as S7 by (cbn [Schema.step]; by rewrite I2).
  unfold migration. cbn [Schema.run_ddl]. by rewrite S1, S2, S3, S4, S5, S6, S7.
Qed.

(** *** Tuples are rows *)

Lemma ready_fits d r t c : ready d r -> t ∈ tuples r -> c ∈ case_columns -> fits c t.
Proof.
  intros Hd Ht Hc. pose proof (rd_cases _ _ Hd) as Hr. apply (cr_fits r Hr); [done..|].
  destruct (cr_columns r Hr c Hc) as [?|[-> Hn]]; [done|]. change (has_column "verifier_auth_token" r = false) in Hn; by rewrite (rd_token _ _ Hd) in Hn.
Qed.
Lemma fits_text n t : fits (not_null n TEXT) t \/ (exists v, fits (with_default n TEXT v) t) -> exists s, text n t = Some s.
Proof.
  intros [(v & Hv & Ht & Hn)|(? & v & Hv & Ht & Hn)]; cbn in *; unfold text; rewrite Hv;
    (destruct v; try done; [by eexists|by specialize (Hn eq_refl)]).
Qed.
Lemma fits_time n t : fits (not_null n TIMESTAMPTZ) t -> exists z, time n t = Some z.
Proof.
  intros (v & Hv & Ht & Hn). cbn in *. unfold time. rewrite Hv. destruct v; try done; [by eexists|by specialize (Hn eq_refl)].
Qed.
Lemma fits_integer n t : fits (not_null n INTEGER) t \/ (exists v, fits (with_default n INTEGER v) t) ->
  exists z, integer n t = Some z.
Proof.
  intros [(v & Hv & Ht & Hn)|(? & v & Hv & Ht & Hn)]; cbn in *; unfold integer; rewrite Hv;
    (destruct v; try done; [by eexists|by specialize (Hn eq_refl)]).
Qed.
Lemma fits_opt_text n t : fits (nullable n TEXT) t -> exists s, opt_text n t = Some s.
Proof. intros (v & Hv & Ht & _). cbn in *. unfold opt_text. rewrite Hv. destruct v; try done; by eexists. Qed.
Lemma fits_opt_bool n t : fits (nullable n BOOLEAN) t -> exists s, opt_bool n t = Some s.
Proof. intros (v & Hv & Ht & _). cbn in *. unfold opt_bool. rewrite Hv. destruct v; try done; by eexists. Qed.

Lemma tuple_is_row t : (forall c, c ∈ case_columns -> fits c t) ->
  exists row, row_of t = Some row
    /\ text "blue_green_ref" t = Some (Pg.c_blue_green_ref row) /\ text "test_id" t = Some (Pg.c_test_id row).
Proof.
  intros H. assert (Forall (fun c => fits c t) case_columns) as F by by apply Forall_forall.
  unfold case_columns in F. repeat (apply Forall_cons in F as [? F]). clear H F. unfold row_of.
  edestruct (fits_text "test_id" t) as [v1 E1]; [auto|]. edestruct (fits_text "blue_green_ref" t) as [v2 E2]; [auto|].
  edestruct (fits_time "triggered_at" t) as [v3 E3]; [auto|].
  edestruct (fits_text "trigger_inception_point" t) as [v4 E4]; [auto|].
  edestruct (fits_integer "timeout_seconds" t) as [v5 E5]; [auto|]. edestruct (fits_text "status" t) as [v6 E6]; [auto|].
  edestruct (fits_opt_bool "verdict" t) as [v7 E7]; [auto|].
  edestruct (fits_text "verification_mode" t) as [v8 E8]; [eauto|].
  edestruct (fits_text "verify_url" t) as [v9 E9]; [eauto|].
  edestruct (fits_text "verifier_auth_token" t) as [v10 E10]; [eauto|].
  edestruct (fits_integer "retries_remaining" t) as [v11 E11]; [eauto|].
  edestruct (fits_opt_text "failure_message" t) as [v12 E12]; [auto|].
  edestruct (fits_time "expires_at" t) as [v13 E13]; [auto|].
  rewrite E1, E2, E3, E4, E5, E6, E7, E8, E9, E10, E11, E12, E13. cbn. by eexists.
Qed.

Lemma project_row t row : text "blue_green_ref" t = Some (Pg.c_blue_green_ref row) -> text "test_id" t = Some (Pg.c_test_id row) ->
  project case_key t = (fun k : string * string => [Some (VText k.1); Some (VText k.2)]) (keyed_row row).1.
Proof.
  unfold text, project. cbn. intros H1 H2. destruct (t !! "blue_green_ref") as [[]|]; try done.
  destruct (t !! "test_id") as [[]|]; try done. congruence.
Qed.

(** The tuples are the rows of a map from the key: none is lost, none is there twice. *)
Lemma ready_table d r : ready d r ->
  length (omap row_of (tuples r)) = length (tuples r)
  /\ map_to_list (table_of r) ≡ₚ map keyed_row (omap row_of (tuples r)).
Proof.
  intros Hd. pose proof (cr_distinct r (rd_cases _ _ Hd)) as Hn.
  assert (forall t, t ∈ tuples r -> forall c, c ∈ case_columns -> fits c t) as Hf by by (intros; eapply ready_fits).
  assert (length (omap row_of (tuples r)) = length (tuples r)
    /\ map (project case_key) (tuples r)
       = map (fun k : string * string => [Some (VText k.1); Some (VText k.2)]) (map fst (map keyed_row (omap row_of (tuples r)))))
    as [Hl Hk].
  { clear Hd Hn. induction (tuples r) as [|t l IH]; [done|]. destruct (tuple_is_row t) as (row & Er & Eb & Et); [apply Hf; set_solver|].
    destruct IH as [IHl IHk]; [intros t' Ht; apply Hf; set_solver|]. cbn -[project case_key]. rewrite Er. cbn -[project case_key].
    split; [by f_equal|]. by rewrite (project_row t row Eb Et), IHk. }
  split; [done|]. unfold table_of. apply map_to_list_to_map. rewrite Hk in Hn. by apply NoDup_fmap_1 in Hn.
Qed.
End Migrations.

(** ** The properties *)

(** The database after runs that were cut off after so many statements. *)
Definition interrupted (default_pkey : string -> string) (table : string) (cuts : list nat) (d : db) : db :=
  fold_left (fun d n => (run_ddl default_pkey (take n (migration table)) d).2) cuts d.

Lemma interrupted_compatible default_pkey table cuts d : default_pkey table = table +:+ "_pkey" ->
  compatible default_pkey table d ->
  compatible default_pkey table (interrupted default_pkey table cuts d)
  /\ same_cases table d (interrupted default_pkey table cuts d).
Proof.
  intros Hp. unfold interrupted. revert d. induction cuts as [|n cuts IH]; intros d Hd; cbn [fold_left]; [done|].
  destruct (path_take default_pkey n (migration table) d _ _ (migration_path default_pkey table d d Hp Hd eq_refl) (conj Hd eq_refl))
    as [_ [Hc Hs]].
  destruct (IH _ Hc) as [Hc' Hs']. split; [done|]. unfold same_cases in *. congruence.
Qed.

(** C38. An operator that starts on PostgreSQL finds its table, when the name of the table has at most
    58 bytes (PostgreSQL names the key of such a table after it in full; [long_table_fails] is a longer
    name).  From a database without the table, or with one an older version left (any primary key under
    that name, no column for the token), however many earlier migrations were cut off and wherever, with
    no other running beside them: the migration runs to its end; the primary key is then the reference
    and the test id; the cases are those that were there, older ones with an empty token, each of them
    a row and no two under one key, so that they are a finite map as the store takes them to be; and
    another migration changes nothing. *)
Theorem migration_recovers (default_pkey : string -> string) (table : string) (d : db) (cuts : list nat) :
  (forall t, (String.length t <= 58)%nat -> default_pkey t = t +:+ "_pkey") ->
  (String.length table <= 58)%nat -> compatible default_pkey table d ->
  exists d' r,
    run_ddl default_pkey (migration table) (interrupted default_pkey table cuts d) = (Ok tt, d')
    /\ relations d' !! table = Some r /\ primary_key r = Some (default_pkey table, case_key)
    /\ map with_token (tuples_in table d) = map with_token (tuples r)
    /\ length (omap row_of (tuples r)) = length (tuples r)
    /\ map_to_list (table_of r) ≡ₚ map keyed_row (omap row_of (tuples r))
    /\ run_ddl default_pkey (migration table) d' = (Ok tt, d').
Proof.
  intros Hnames Hlen Hd. pose proof (Hnames table Hlen) as Hp.
  destruct (interrupted_compatible default_pkey table cuts d Hp Hd) as [Hc Hs].
  destruct (path_run default_pkey _ _ _ _ (migration_path default_pkey table d _ Hp Hc Hs)) as (d' & Hrun & (r & Hr) & Hs').
  destruct (ready_table default_pkey table d' r Hr) as [Hl Hm].
  exists d', r. split_and!; [done|apply (rd_relation _ _ _ _ Hr)|apply (rd_key _ _ _ _ Hr)| |done|done|by eapply ready_stays].
  unfold same_cases, tuples_in in *. by rewrite (rd_relation _ _ _ _ Hr) in Hs'.
Qed.

(** Operators that start at the same time may both have dropped the key when they add it: the second
    fails, and so does its start. *)
Lemma concurrent_migrations_fail (default_pkey : string -> string) (table : string) (d : db) :
  default_pkey table = table +:+ "_pkey" -> compatible default_pkey table d ->
  exists d' e, run_ddl default_pkey
    (take 2 (migration table) ++ take 2 (migration table) ++ [AddPrimaryKey table case_key; AddPrimaryKey table case_key]) d
    = (Err e, d').
Proof.
  intros Hp Hd.
  destruct (create_runs default_pkey table d Hd) as (d1 & r1 & E1 & R1 & C1 & _).
  destruct (drop_runs default_pkey table d1 r1 Hp R1 C1) as (d2 & E2 & R2 & _).
  assert (case_relation default_pkey table (set_key None r1)) as C2 by (apply case_relation_key; [done|by left]).
  assert (step default_pkey (CreateTableIfNotExists table case_columns case_key) d2 = Ok d2) as E3 by (cbn; by rewrite R2).
  assert (step default_pkey (DropConstraintIfExists table (table +:+ "_pkey")) d2 = Ok d2) as E4 by (cbn; unfold on_table; by rewrite R2).
  destruct (add_key_runs default_pkey table d2 _ R2 C2 eq_refl) as (d3 & E5 & R3 & _).
  exists d3, ("multiple primary keys for table " +:+ table +:+ " are not allowed").
  cbn [take migration app run_ddl]. rewrite E1, E2, E3, E4, E5. cbn -[case_key]. unfold on_table. by rewrite R3.
Qed.

(** A table whose key the server does not name after it is created, and its migration fails: PostgreSQL
    shortens the name of a key to 63 bytes by cutting the name of the table. *)
Lemma long_table_fails (default_pkey : string -> string) (table : string) (d : db) :
  default_pkey table <> table +:+ "_pkey" -> relations d !! table = None ->
  exists d' e, run_ddl default_pkey (migration table) d = (Err e, d').
Proof.
  intros Hp E. eexists _, _. unfold migration. cbn [run_ddl step]. rewrite E. unfold on_table. cbn [relations set_relation].
  rewrite lookup_insert_eq. cbn [primary_key]. rewrite (proj2 (String.eqb_neq _ _) Hp). cbn [relations set_relation].
  rewrite lookup_insert_eq. reflexivity.
Qed.

(** ** An older database *)

(** PostgreSQL's rule: the name of the table, cut so that the name of the key has at most 63 bytes. *)
Definition pkey_of (table : string) : string := String.substring 0 58 table +:+ "_pkey".
Lemma substring_whole (s : string) : forall n, (String.length s <= n)%nat -> String.substring 0 n s = s.
Proof. induction s as [|c s IH]; intros [|n] H; cbn in *; try done; [lia|]. rewrite IH; [done|lia]. Qed.
Lemma pkey_of_short table : (String.length table <= 58)%nat -> pkey_of table = table +:+ "_pkey".
Proof. intros H. unfold pkey_of. by rewrite substring_whole. Qed.
Definition old_tuple (id : string) : tuple :=
  list_to_map [("test_id", VText id); ("blue_green_ref", VText "shop/orders"); ("triggered_at", VTime 1000);
    ("trigger_inception_point", VText "in"); ("timeout_seconds", VInt 60); ("status", VText "Triggered"); ("verdict", VNull);
    ("verification_mode", VText "Data"); ("verify_url", VText "https://verify"); ("retries_remaining", VInt 0);
    ("failure_message", VNull); ("expires_at", VTime 61000)].
Definition old_columns : list column := List.filter (fun c => negb (String.eqb (col_name c) "verifier_auth_token")) case_columns.
Definition old_relation : relation :=
  {| columns := old_columns; primary_key := Some ("cases_pkey", ["test_id"]); tuples := [old_tuple "t-1"; old_tuple "t-2"] |}.
Definition old_db : db :=
  {| relations := {["cases" := old_relation]}; indexes := {["idx_cases_test_id_unique" := ("cases", ["test_id"])]} |}.

Lemma old_compatible : compatible pkey_of "cases" old_db.
Proof.
  intros r Er. unfold old_db in Er. cbn [relations] in Er. rewrite lookup_singleton_eq in Er. injection Er as <-. split.
  - right. by exists ["test_id"].
  - intros c Hc. unfold case_columns in Hc.
    repeat (apply elem_of_cons in Hc as [->|Hc]); [..|by apply not_elem_of_nil in Hc].
    10: by right.
    all: left; cbn; repeat (apply elem_of_cons; first [by left|right]); done.
  - intros t c Ht _ Hc. assert (exists i, t = old_tuple i) as [i ->].
    { cbn in Ht. apply elem_of_cons in Ht as [->|Ht%list_elem_of_singleton]; [by eexists|by exists "t-2"]. }
    cbn in Hc. repeat (apply elem_of_cons in Hc as [->|Hc]); [..|by apply not_elem_of_nil in Hc].
    all: eexists; split_and!; [reflexivity|done|done].
  - intros t Ht _. cbn in Ht. by apply elem_of_cons in Ht as [->| ->%list_elem_of_singleton].
  - apply (bool_decide_unpack _). vm_compute. exact I.
Qed.

Lemma migration_recovers_witness :
  length (tuples_in "cases" old_db) = 2%nat
  /\ exists d' r, run_ddl pkey_of (migration "cases") (interrupted pkey_of "cases" [2; 3; 5]%nat old_db) = (Ok tt, d')
    /\ relations d' !! "cases" = Some r /\ primary_key r = Some (pkey_of "cases", case_key)
    /\ map with_token (tuples_in "cases" old_db) = map with_token (tuples r)
    /\ length (omap row_of (tuples r)) = length (tuples r)
    /\ map_to_list (table_of r) ≡ₚ map keyed_row (omap row_of (tuples r))
    /\ run_ddl pkey_of (migration "cases") d' = (Ok tt, d').
Proof. split; [reflexivity|]. apply (migration_recovers pkey_of "cases" old_db [2; 3; 5]%nat pkey_of_short ltac:(cbn; lia) old_compatible). Defined.

End Schema.
