(* ===== verification/SharedCells.v ===== *)
(** * The tasks of an inceptor

    An inceptor serves its requests as concurrent tasks that share a few atomic cells.  Here a
    task is a program, the cells answer the requests to them in turn (sequential consistency,
    [Ordering::SeqCst]), and everything else a task asks for is answered in any way.  Tasks
    arrive at any time, and one that waits for the network may be dropped: [axum] drops the
    handler of a client that has gone away, and the drop of its [ActiveRequestGuard] is all
    that is left to do. *)

From S2P Require Import Prelude RustString Float64 Kube Crd StateStore InceptorEffects Effects.

Record cells := { c_mode : Z; c_percent : Z; c_active : Z; c_ready : Z }.

(** What a request to the cells answers and leaves; [fetch_add] on an [AtomicUsize] wraps. *)
Definition cell_answer (op : inceptor_op) (c : cells) : inceptor_reply op -> cells -> Prop :=
  match op as o return inceptor_reply o -> cells -> Prop with
  | LoadMode => fun r c' => r = c_mode c /\ c' = c
  | StoreMode m => fun _ c' => c' = {| c_mode := m; c_percent := c_percent c; c_active := c_active c; c_ready := c_ready c |}
  | LoadPercent => fun r c' => r = c_percent c /\ c' = c
  | StorePercent p => fun _ c' => c' = {| c_mode := c_mode c; c_percent := p; c_active := c_active c; c_ready := c_ready c |}
  | LoadActive => fun r c' => r = c_active c /\ c' = c
  | AddActive d => fun _ c' =>
      c' = {| c_mode := c_mode c; c_percent := c_percent c; c_active := wrap_u64 (c_active c + d); c_ready := c_ready c |}
  | LoadReady => fun r c' => r = c_ready c /\ c' = c
  | StoreReady m => fun _ c' =>
      c' = {| c_mode := c_mode c; c_percent := c_percent c; c_active := c_active c; c_ready := m |}
  | OrReady m => fun _ c' =>
      c' = {| c_mode := c_mode c; c_percent := c_percent c; c_active := c_active c; c_ready := Z.lor (c_ready c) m |}
  | _ => fun _ c' => c' = c
  end.
Definition answered (act : action) (c : cells) : reply act -> cells -> Prop :=
  match act as a return reply a -> cells -> Prop with
  | AInceptor op => cell_answer op c
  | _ => fun _ c' => c' = c
  end.

(** Requests a dropped task may have been waiting for. *)
Definition awaits (act : action) : Prop :=
  match act with AInceptor (ICall _) | ASleep _ => True | _ => False end.

Section Tasks.
Context {R : Type} (arrives : prog R -> Prop) (dropped : prog R).

Record tasks := { shared : cells; threads : list (prog R) }.

Inductive step : tasks -> tasks -> Prop :=
| step_arrive s p : arrives p -> step s {| shared := shared s; threads := threads s ++ [p] |}
| step_serve s i act k r c' :
    threads s !! i = Some (Vis act k) -> answered act (shared s) r c' ->
    step s {| shared := c'; threads := <[i := k r]> (threads s) |}
| step_drop s i act k :
    threads s !! i = Some (Vis act k) -> awaits act ->
    step s {| shared := shared s; threads := <[i := dropped]> (threads s) |}.

Definition started (s : tasks) : Prop := threads s = [] /\ c_active (shared s) = 0.
Inductive reachable : tasks -> Prop :=
| reachable_init s : started s -> reachable s
| reachable_step s s' : reachable s -> step s s' -> reachable s'.

(** Steps that keep a property of the cells. *)
Definition step_in (P : cells -> Prop) (s s' : tasks) : Prop := step s s' /\ P (shared s) /\ P (shared s').
Definition steps_in (P : cells -> Prop) : tasks -> tasks -> Prop := rtc (step_in P).

(** ** Silent tasks

    With every reading of the mode [closed], a silent task calls nobody. *)

Context (closed : Z -> Prop).

Fixpoint silent {A} (p : prog A) : Prop :=
  match p with
  | Ret _ => True
  | Vis act k =>
      match act as a return (reply a -> prog A) -> Prop with
      | AInceptor (ICall _) => fun _ => False
      | AInceptor LoadMode => fun k => forall m, closed m -> silent (k m)
      | a => fun k => forall r, silent (k r)
      end k
  end.

Definition calling (p : prog R) : Prop := exists c k, p = Vis (AInceptor (ICall c)) k.

Lemma silent_not_calling p : silent p -> ~ calling p.
Proof. by intros Hs (c & k & ->). Qed.

Lemma silent_next {A} act (k : reply act -> prog A) c r c' :
  closed (c_mode c) -> silent (Vis act k) -> answered act c r c' -> silent (k r).
Proof.
  intros Hc Hs Ha. destruct act; try apply Hs. destruct op; try apply Hs; [done|].
  by destruct Ha as [-> _].
Qed.

(** ** Credits

    [credit n p]: the task has added [n] to the counter and will take it back, and it waits
    for the network only while it is counted, and is silent while it is not. *)

Fixpoint credit {A} (n : Z) (p : prog A) : Prop :=
  match p with
  | Ret _ => n = 0
  | Vis act k =>
      0 <= n <= 1 /\ (awaits act -> n = 1) /\ (n = 0 -> silent (Vis act k)) /\
      match act as a return (reply a -> prog A) -> Prop with
      | AInceptor (AddActive d) => fun k => credit (n + d) (k tt)
      | a => fun k => forall r, credit n (k r)
      end k
  end.

Lemma credit_range {A} n (p : prog A) : credit n p -> 0 <= n <= 1.
Proof. destruct p; cbn; [lia|naive_solver]. Qed.

Definition delta (act : action) : Z := match act with AInceptor (AddActive d) => d | _ => 0 end.

Lemma credit_next {A} n act (k : reply act -> prog A) r : credit n (Vis act k) -> credit (n + delta act) (k r).
Proof.
  intros (_ & _ & _ & H). destruct act; cbn in H |- *; try (rewrite Z.add_0_r; apply H).
  destruct op; cbn in H |- *; try (rewrite Z.add_0_r; apply H). by destruct r.
Qed.

Lemma answered_active_delta act c r c' : answered act c r c' -> c_active c = wrap_u64 (c_active c) ->
  c_active c' = wrap_u64 (c_active c + delta act).
Proof.
  intros H Hw. assert (c_active c' = c_active c /\ delta act = 0 \/
    c_active c' = wrap_u64 (c_active c + delta act)) as [[-> ->]|?]; [|by rewrite Z.add_0_r|done].
  destruct act; cbn in *; try (left; by subst). destruct op; cbn in *;
    try (left; first [by subst | by destruct H as [_ ->]]). right. by subst.
Qed.

Context (arrives_credit : forall p, arrives p -> credit 0 p) (dropped_credit : credit 1 dropped).

Definition total (ns : list Z) : Z := foldr Z.add 0 ns.

Lemma total_app l l' : total (l ++ l') = total l + total l'.
Proof.
  induction l as [|x l IH]; [done|]. change (x + total (l ++ l') = x + total l + total l'). lia.
Qed.
Lemma total_insert l i x y : l !! i = Some x -> total (<[i := y]> l) = total l - x + y.
Proof.
  revert i. induction l as [|z l IH]; intros [|i] E; try done.
  - cbn in E. injection E as ->. change (y + total l = x + total l - x + y). lia.
  - cbn in E. specialize (IH i E). change (z + total (<[i := y]> l) = z + total l - x + y). lia.
Qed.

(** The counter is the number of the tasks that are counted. *)
Definition counted (s : tasks) : Prop :=
  exists ns, Forall2 credit ns (threads s) /\ c_active (shared s) = wrap_u64 (total ns).

Lemma wrap_wrap z d : wrap_u64 (wrap_u64 z + d) = wrap_u64 (z + d).
Proof. unfold wrap_u64. by rewrite Zplus_mod_idemp_l. Qed.

Lemma counted_step s s' : counted s -> step s s' -> counted s'.
Proof using arrives_credit dropped_credit.
  intros Hc Hst. revert Hc. destruct Hst as [s p Hp|s i act k r c' Hi Hans|s i act k Hi Haw];
    intros (ns & Hns & Ha); unfold counted; cbn [threads shared].
  - exists (ns ++ [0]). rewrite total_app. change (total [0]) with 0. rewrite Z.add_0_r. split; [|exact Ha].
    apply Forall2_app; [done|]. constructor; [by apply arrives_credit|constructor].
  - destruct (Forall2_lookup_r _ _ _ _ _ Hns Hi) as (n & Hn & Hc).
    exists (<[i := n + delta act]> ns). split.
    + apply Forall2_insert; [done|]. by apply credit_next.
    + rewrite (total_insert _ _ n) by done.
      erewrite answered_active_delta; [|exact Hans|rewrite Ha; unfold wrap_u64; by rewrite Zmod_mod].
      rewrite Ha, wrap_wrap. f_equal. lia.
  - destruct (Forall2_lookup_r _ _ _ _ _ Hns Hi) as (n & Hn & Hc).
    destruct Hc as (_ & Hw & _). specialize (Hw Haw). subst n.
    exists (<[i := 1]> ns). split.
    + by apply Forall2_insert.
    + rewrite (total_insert _ _ 1) by done. rewrite Ha. f_equal. lia.
Qed.

Lemma counted_reachable s : reachable s -> counted s.
Proof using arrives_credit dropped_credit.
  induction 1 as [s [Ht Ha]|s s' _ IH Hs]; [|by eapply counted_step].
  exists []. rewrite Ht, Ha. by split.
Qed.

Lemma total_bounds ns (ps : list (prog R)) :
  Forall2 credit ns ps -> 0 <= total ns <= Z.of_nat (length ps) /\ (total ns = 0 -> Forall (eq 0) ns).
Proof.
  induction 1 as [|n p ns ps Hc _ [IH IH0]]; [by split|]. apply credit_range in Hc.
  unfold total in *. cbn [foldr length]. split; [lia|]. intros E. constructor; [lia|]. apply IH0. lia.
Qed.

(** With the counter at zero no task is counted. *)
Lemma none_counted s : counted s -> c_active (shared s) = 0 -> Z.of_nat (length (threads s)) < 2 ^ 64 ->
  Forall (credit 0) (threads s).
Proof using.
  intros (ns & Hns & Ha) H0 Hlen. destruct (total_bounds _ _ Hns) as [Hb Hz].
  rewrite H0 in Ha. unfold wrap_u64 in Ha. rewrite Z.mod_small in Ha by lia.
  specialize (Hz (eq_sym Ha)). clear -Hns Hz.
  induction Hns as [|n p ns ps Hc _ IH]; [done|]. apply Forall_cons in Hz as [<- Hz]. by constructor; auto.
Qed.

Lemma credit_silent {A} (p : prog A) : credit 0 p -> silent p.
Proof. destruct p; [done|]. intros (_ & _ & H & _). by apply H. Qed.

(** ** Reports

    A report is a result of a task that is given only after the counter was read as zero. *)

Context (report : R -> Prop).

Fixpoint unfounded (p : prog R) : Prop :=
  match p with
  | Ret r => report r
  | Vis act k =>
      match act as a return (reply a -> prog R) -> Prop with
      | AInceptor LoadActive => fun k => exists n, n <> 0 /\ unfounded (k n)
      | a => fun k => exists r, unfounded (k r)
      end k
  end.

Lemma founded_next act k r : ~ unfounded (Vis act k) -> unfounded (k r) ->
  exists c, forall c0 c', answered act c0 r c' -> c_active c0 = 0 /\ c = act.
Proof.
  intros Hn Hu. exists act. intros c0 c' Ha. split; [|done].
  destruct act; try (exfalso; apply Hn; by exists r).
  destruct op; try (exfalso; apply Hn; by exists r).
  destruct Ha as [-> _]. destruct (decide (c_active c0 = 0)) as [->|Hne]; [done|].
  exfalso. apply Hn. by exists (c_active c0).
Qed.

Context (arrives_silent : forall p, arrives p -> ~ unfounded p) (dropped_founded : ~ unfounded dropped).

Definition quiet (s : tasks) : Prop := Forall silent (threads s).

(** The tasks that arrived after the first [n] have no report to give yet. *)
Definition unreported (n : nat) (s : tasks) : Prop :=
  forall i p, (n <= i)%nat -> threads s !! i = Some p -> ~ unfounded p.

Lemma arrives_quiet p : arrives p -> silent p.
Proof using arrives_credit. intros Hp. by apply credit_silent, arrives_credit. Qed.

Context (dropped_silent : silent dropped).

Lemma quiet_step s s' : closed (c_mode (shared s)) -> quiet s -> step s s' -> quiet s'.
Proof using arrives_credit dropped_silent.
  intros Hc Hq Hst. revert Hc Hq. destruct Hst as [s p Hp|s i act k r c' Hi Hans|s i act k Hi Haw];
    intros Hc Hq; unfold quiet; cbn [threads].
  - apply Forall_app_2; [done|]. apply Forall_singleton. by apply arrives_quiet.
  - apply Forall_insert; [done|]. eapply silent_next; [exact Hc| |exact Hans].
    by eapply (Forall_lookup_1 _ _ i).
  - by apply Forall_insert.
Qed.

Lemma quiet_steps s s' : quiet s -> steps_in (fun c => closed (c_mode c)) s s' -> quiet s'.
Proof using arrives_credit dropped_silent.
  intros Hq Hs. induction Hs as [|s s1 s' (Hst & Hc & _) _ IH]; [done|]. apply IH. by eapply quiet_step.
Qed.

Lemma length_step s s' : step s s' -> (length (threads s) <= length (threads s'))%nat.
Proof.
  intros []; cbn [threads]; rewrite ?length_app, ?length_insert; lia.
Qed.

Lemma steps_reachable P s s' : reachable s -> steps_in P s s' -> reachable s'.
Proof.
  intros Hr Hs. induction Hs as [|s s1 s' (Hst & _) _ IH]; [done|]. apply IH. by eapply reachable_step.
Qed.

Lemma quiet_or_unreported n s s' :
  reachable s -> Z.of_nat (length (threads s)) < 2 ^ 64 -> quiet s \/ unreported n s ->
  (n <= length (threads s))%nat -> closed (c_mode (shared s)) -> step s s' -> quiet s' \/ unreported n s'.
Proof using arrives_credit arrives_silent dropped_credit dropped_founded dropped_silent.
  intros Hr Hlen [Hq|Hu] Hn Hc Hst; [left; by eapply quiet_step|].
  pose proof (counted_reachable _ Hr) as Hcount. revert Hr Hlen Hu Hn Hc Hcount.
  destruct Hst as [s p Hp|s i act k r c' Hi Hans|s i act k Hi Haw]; intros Hr Hlen Hu Hn Hc Hcount.
  - right. intros j q Hj [Hq|[_ Hq]]%lookup_app_Some; [by eapply Hu|].
    apply list_lookup_singleton_Some in Hq as [_ <-]. by apply arrives_silent.
  - destruct (decide (n <= i)%nat) as [Hni|Hni].
    + destruct (decide (c_active (shared s) = 0)) as [H0|H0].
      * left. eapply (quiet_step s); [done| |by econstructor].
        eapply Forall_impl; [by apply none_counted|]. intros p. apply credit_silent.
      * right. intros j q Hj Hq Hun. apply list_lookup_insert_Some in Hq as [(-> & <- & _)|[_ Hq]].
        -- destruct (founded_next _ _ _ (Hu _ _ Hni Hi) Hun) as (a & Ha).
           by destruct (Ha _ _ Hans).
        -- by eapply Hu.
    + right. intros j q Hj Hq. apply list_lookup_insert_Some in Hq as [(-> & _)|[_ Hq]]; [done|]. by eapply Hu.
  - right. intros j q Hj Hq. apply list_lookup_insert_Some in Hq as [(-> & <- & _)|[_ Hq]]; [done|].
    by eapply Hu.
Qed.

(** A report of a task that arrived once the mode was closed: nobody calls from then on,
    until the mode is opened again. *)
Lemma report_is_final s0 s i r s' :
  reachable s0 -> steps_in (fun c => closed (c_mode c)) s0 s -> Z.of_nat (length (threads s)) < 2 ^ 64 ->
  (length (threads s0) <= i)%nat -> threads s !! i = Some (Ret r) -> report r ->
  steps_in (fun c => closed (c_mode c)) s s' -> Forall (fun p => ~ calling p) (threads s').
Proof using arrives_credit arrives_silent dropped_credit dropped_founded dropped_silent.
  intros Hr Hs Hlen Hi Hret Hrep Hs'.
  assert (quiet s \/ unreported (length (threads s0)) s) as [Hq|Hu].
  { assert (quiet s0 \/ unreported (length (threads s0)) s0) as Hinit.
    { right. intros j p Hj Hp%lookup_lt_Some. lia. }
    assert (length (threads s0) <= length (threads s0))%nat as Hle by lia.
    revert Hr Hinit Hle. generalize (length (threads s0)) at 1 2 4 as n. clear Hret Hrep Hs' Hi.
    induction Hs as [s|s s1 s2 (Hst & Hc & _) Hrest IH]; intros n Hr Hinit Hle; [done|].
    assert (length (threads s1) <= length (threads s2))%nat as Hl.
    { clear -Hrest. induction Hrest as [|a b c (H & _) _ IH]; [done|]. apply length_step in H. lia. }
    pose proof (length_step _ _ Hst).
    apply IH; [done|by eapply reachable_step| |lia].
    eapply quiet_or_unreported; [exact Hr|lia|done..]. }
  - eapply Forall_impl; [by eapply quiet_steps|]. intros p. apply silent_not_calling.
  - by destruct (Hu _ _ Hi Hret).
Qed.
End Tasks.

#[global] Arguments tasks : clear implicits.

(** ** Schedules

    Executions of the tasks, with answers from the cells and none from elsewhere. *)

Definition cell_reply (op : inceptor_op) (c : cells) : inceptor_reply op * cells :=
  match op as o return inceptor_reply o * cells with
  | LoadMode => (c_mode c, c)
  | StoreMode m => (tt, {| c_mode := m; c_percent := c_percent c; c_active := c_active c; c_ready := c_ready c |})
  | LoadPercent => (c_percent c, c)
  | StorePercent p => (tt, {| c_mode := c_mode c; c_percent := p; c_active := c_active c; c_ready := c_ready c |})
  | LoadActive => (c_active c, c)
  | AddActive d =>
      (tt, {| c_mode := c_mode c; c_percent := c_percent c; c_active := wrap_u64 (c_active c + d); c_ready := c_ready c |})
  | LoadReady => (c_ready c, c)
  | StoreReady m => (tt, {| c_mode := c_mode c; c_percent := c_percent c; c_active := c_active c; c_ready := m |})
  | OrReady m =>
      (tt, {| c_mode := c_mode c; c_percent := c_percent c; c_active := c_active c; c_ready := Z.lor (c_ready c) m |})
  | ReadyNotified _ => (false, c)
  | NewTokens => (0, c)
  | LockToken _ _ => (None, c)
  | StoreToken _ _ _ | UnlockToken _ _ => (tt, c)
  | ICall _ => (Err "unreachable", c)
  | INats op => (nats_refusal op, c)
  | QConnect _ _ | QChannel _ => (Err "unreachable", c)
  | QGet _ _ => (Err "unreachable", c)
  | QPublish _ _ _ _ | QAck _ | QNack _ | QDeclare _ _ _ _ | QDelete _ _ => (Err "unreachable", c)
  | QState _ _ => (Err "unreachable", c)
  end.

Definition reply_of (act : action) (c : cells) : option (reply act * cells) :=
  match act as a return option (reply a * cells) with
  | AInceptor op => Some (cell_reply op c)
  | AEnv _ => Some (None, c)
  | ANow => Some (0, c)
  | ASleep _ => Some (tt, c)
  | _ => None
  end.

Lemma reply_of_answered act c r c' : reply_of act c = Some (r, c') -> answered act c r c'.
Proof.
  destruct act; cbn [reply_of]; intros E; try discriminate E; try by simplify_eq.
  injection E as E. match goal with o : inceptor_op |- _ => destruct o end; cbn in E |- *; by simplify_eq.
Qed.

Inductive move (R : Type) := Arrive (p : prog R) | Serve (i : nat).
Arguments Arrive {R} p.
Arguments Serve {R} i.

Definition play_move {R} (s : tasks R) (m : move R) : option (tasks R) :=
  match m with
  | Arrive p => Some {| shared := shared s; threads := threads s ++ [p] |}
  | Serve i =>
      match threads s !! i with
      | Some (Vis act k) =>
          match reply_of act (shared s) with
          | Some (r, c) => Some {| shared := c; threads := <[i := k r]> (threads s) |}
          | None => None
          end
      | _ => None
      end
  end.
Fixpoint play_moves {R} (s : tasks R) (ms : list (move R)) : option (tasks R) :=
  match ms with
  | [] => Some s
  | m :: ms => match play_move s m with Some s' => play_moves s' ms | None => None end
  end.

Definition arriving {R} (arrives : prog R -> Prop) (m : move R) : Prop :=
  match m with Arrive p => arrives p | Serve _ => True end.

Lemma play_move_step {R} (arrives : prog R -> Prop) dropped s m s' :
  arriving arrives m -> play_move s m = Some s' -> step arrives dropped s s'.
Proof.
  destruct m as [p|i]; cbn; [intros Hp [= <-]; by constructor|]. intros _.
  destruct (threads s !! i) as [[a|act k]|] eqn:Ei; [done| |done].
  destruct (reply_of act (shared s)) as [[r c]|] eqn:Er; [|done]. intros [= <-].
  eapply step_serve; [done|]. by apply reply_of_answered.
Qed.

Lemma play_moves_reachable {R} (arrives : prog R -> Prop) dropped ms s s' :
  Forall (arriving arrives) ms -> reachable arrives dropped s -> play_moves s ms = Some s' ->
  reachable arrives dropped s'.
Proof.
  intros Hms. revert s. induction Hms as [|m ms Hm _ IH]; intros s Hs; cbn; [by intros [= <-]|].
  destruct (play_move s m) as [s1|] eqn:E; [|done]. apply IH. eapply reachable_step; [done|].
  by eapply play_move_step.
Qed.

(** The state after each move satisfies [P]. *)
Fixpoint all_along {R} (P : cells -> bool) (s : tasks R) (ms : list (move R)) : bool :=
  P (shared s) && match ms with
                  | [] => true
                  | m :: ms => match play_move s m with Some s' => all_along P s' ms | None => false end
                  end.

Lemma all_along_here {R} P (s : tasks R) ms : all_along P s ms = true -> P (shared s) = true.
Proof. by destruct ms; intros [? _]%andb_true_iff. Qed.

Lemma play_moves_in {R} (arrives : prog R -> Prop) dropped (P : cells -> bool) (Q : cells -> Prop) ms s s' :
  (forall c, P c = true -> Q c) ->
  Forall (arriving arrives) ms -> all_along P s ms = true -> play_moves s ms = Some s' ->
  steps_in arrives dropped Q s s'.
Proof.
  intros HPQ Hms. revert s. induction Hms as [|m ms Hm _ IH]; intros s Ha; cbn; [by intros [= <-]|].
  cbn in Ha. apply andb_true_iff in Ha as [Hs Ha].
  destruct (play_move s m) as [s1|] eqn:E; [|done]. intros Hp.
  eapply rtc_l; [|by apply IH]. split_and!; [by eapply play_move_step|by apply HPQ|].
  apply HPQ. by eapply all_along_here.
Qed.
