(* ===== verification/Resources.v ===== *)
(** * Generated resources

    [operator/src/controller/resources.rs]: the test deployment and service, the
    verifier's secret, the tokens of the inceptors, the deployment manifests of
    candidate and green, and the deletion of everything generated.  An API value
    of a kind [K] is the pair of the kind and the namespace. *)

From S2P Require Import Prelude RustString Float64 Kube Crd StateStore Effects External Status.
From S2P Require Import Names Auth Deployments Plugins.

(** [controller.rs] [AuthConfig]. *)
Record AuthConfig := {
  signing_secret_namespace : string;
  signing_secret_name : string;
  signing_secret_key : string }.

(** ** Environment *)

Definition no_pod_template : ReconcileError := StoreErr "deployment has no pod template spec".

Definition update_pod_spec (f : PodSpec -> PodSpec) (s : DeploymentSpec)
    : result ReconcileError DeploymentSpec :=
  pod ← ok_or no_pod_template (tpl_spec (ds_template s));
  Ok (with_template {| tpl_metadata := tpl_metadata (ds_template s); tpl_spec := Some (f pod) |} s).

Definition upsert_env_var (env : list EnvVar) (name value : string) : list EnvVar :=
  upsert_env env name value.

Definition apply_assignment (target : AssignmentTarget) (pod : PodSpec) (a : PropertyAssignment) : PodSpec :=
  if negb (bool_decide (pa_target a = target)) then pod
  else map_containers (fun c =>
         if targets_container (pa_container_name a) c
         then set_container_env (fun env => upsert_env_var env (pa_name a) (pa_value a)) c else c) pod.

Definition apply_assignments_to_deployment_spec (d : DeploymentSpec)
    (assignments : list PropertyAssignment) (target : AssignmentTarget)
    : result ReconcileError DeploymentSpec :=
  update_pod_spec (fun pod => fold_left (apply_assignment target) assignments pod) d.

(** The first variable of that name is replaced as a whole, or the variable is added. *)
Fixpoint replace_env (env : list EnvVar) (extra : EnvVar) : list EnvVar :=
  match env with
  | [] => [extra]
  | e :: env' => if String.eqb (env_name e) (env_name extra) then extra :: env'
                 else e :: replace_env env' extra
  end.

Definition apply_extra_env_to_deployment_spec (d : DeploymentSpec) (extra_env : list EnvVar)
    : result ReconcileError DeploymentSpec :=
  match extra_env with
  | [] => Ok d
  | _ => update_pod_spec (map_containers (set_container_env (fun env =>
           fold_left replace_env extra_env env))) d
  end.

(** ** Tests *)

Definition no_test_port (t : TestSpec) : ReconcileError :=
  StoreErr ("test '" +:+ test_name t +:+ "' service spec must define at least one port").

Definition test_service_port (t : TestSpec) : result ReconcileError Z :=
  match svc_ports (test_service t) with
  | Some (port :: _) => Ok (sp_port port)
  | _ => Err (no_test_port t)
  end.

(** [merge_labels]: the given labels win. *)
Definition merge_labels (target : option labels) (ls : labels) : option labels :=
  Some (ls ∪ unwrap_or ∅ target).

Definition deployment_spec_for_test (t : TestSpec) (ls : labels) : DeploymentSpec :=
  let d := test_deployment t in
  let m := unwrap_or default_meta (tpl_metadata (ds_template d)) in
  {| ds_replicas := ds_replicas d;
     ds_selector := {| sel_match_labels := merge_labels (sel_match_labels (ds_selector d)) ls;
                       sel_rest := sel_rest (ds_selector d) |};
     ds_template := with_template_metadata (with_labels (merge_labels (meta_labels m) ls) m) (ds_template d);
     ds_rest := ds_rest d |}.

Definition service_spec_for_test (t : TestSpec) (ls : labels) : result ReconcileError ServiceSpec :=
  let s := test_service t in
  let s := {| svc_selector := merge_labels (svc_selector s) ls; svc_ports := svc_ports s;
              svc_rest := svc_rest s |} in
  match svc_ports s with
  | None | Some [] => Err (no_test_port t)
  | _ => Ok s
  end.

Definition test_labels (b : BlueGreenDeployment) (logical_name runtime_name : string) : labels :=
  {["app" := runtime_name; "fluidbg.io/test" := logical_name;
    ref_label := bgd_name_or "" b; uid_label := bgd_uid_or "" b]}.

Definition test_resource_matches (ls : option labels) (expected : labels) : bool :=
  match ls with
  | None => false
  | Some ls => forallb (fun kv => bool_decide (ls !! kv.1 = Some kv.2)) (map_to_list expected)
  end.

Definition test_name_collision_error (b : BlueGreenDeployment) (kd ns logical_name runtime_name : string)
    : ReconcileError :=
  StoreErr ("generated test " +:+ kd +:+ " name '" +:+ ns +:+ "/" +:+ runtime_name +:+ "' for BGD '"
    +:+ bgd_name_or "" b +:+ "' logical test '" +:+ logical_name
    +:+ "' collides with an existing resource owned by another rollout").

Definition ensure_test_name_available (b : BlueGreenDeployment) (ns logical_name runtime_name : string)
    (expected : labels) : M unit :=
  let free m := match m with Some m => test_resource_matches (meta_labels m) expected | None => true end in
  let? d := k8s (request (AGetOpt KDeployment (Some ns) runtime_name)) in
  if negb (free (dep_metadata <$> d))
  then err (test_name_collision_error b "deployment" ns logical_name runtime_name)
  else
    let? s := k8s (request (AGetOpt KService (Some ns) runtime_name)) in
    if negb (free (svc_metadata <$> s))
    then err (test_name_collision_error b "service" ns logical_name runtime_name)
    else ok tt.

(** ** Applying *)

Definition refusing_to_apply (name : string) : ReconcileError :=
  ResourceErr ("refusing to apply generated resource '" +:+ name
    +:+ "' because an existing resource with that name is not owned by this BlueGreenDeployment").

(** The labels of an existing object belong to the same blue-green deployment. *)
Definition owned_by (expected existing : labels) : bool :=
  (bool_decide (existing !! ref_label = expected !! ref_label)
   && (is_none (expected !! uid_label) || bool_decide (existing !! uid_label = expected !! uid_label)))%bool.

Definition ensure_apply_target_available (k : kind) (ns : scope) (name : string) (o : obj k) : M unit :=
  let expected := labels_of (meta_of k o) in
  match expected !! ref_label with
  | None => ok tt
  | Some _ =>
      let? existing := k8s (request (AGetOpt k ns name)) in
      match existing with
      | None => ok tt
      | Some e => if owned_by expected (labels_of (meta_of k e)) then ok tt
                  else err (refusing_to_apply name)
      end
  end.

Definition apply_resource (k : kind) (ns : scope) (name : string) (o : obj k) : M unit :=
  do? ensure_apply_target_available k ns name o ;;
  do? k8s (request (AApply k ns name o)) ;;
  ok tt.

(** ** Deletion *)

Definition delete_resource (k : kind) (ns : scope) (name : string) : M unit :=
  let! r := request (ADelete k ns name) in lift (deleted r).

Definition delete_deployment (ns name : string) : M unit := delete_resource KDeployment (Some ns) name.
Definition delete_service (ns name : string) : M unit := delete_resource KService (Some ns) name.
Definition delete_config_map (ns name : string) : M unit := delete_resource KConfigMap (Some ns) name.
Definition delete_secret (ns name : string) : M unit := delete_resource KSecret (Some ns) name.

(** [ResourceExt::name_any] of an object the API returned. *)
Definition name_any (m : ObjectMeta) : string := unwrap_or "" (meta_name m).

Definition blue_green_ref_selector (ref : string) : string := ref_label +:+ "=" +:+ ref.

Definition delete_labeled_resources (k : kind) (ns selector : string) : M unit :=
  let? items := k8s (request (AList k (Some ns) selector)) in
  for_each items (fun item => delete_resource k (Some ns) (name_any (meta_of k item))).

(** The five kinds that carry the label of their blue-green deployment. *)
Definition generated_kinds : list kind := [KDeployment; KService; KConfigMap; KSecret; KPod].

Definition listed_is_empty (k : kind) (ns selector : string) : M bool :=
  let? items := k8s (request (AList k (Some ns) selector)) in
  ok (match items with [] => true | _ => false end).

(** All five lists are fetched, then compared with zero. *)
Definition all_listed_empty (ns selector : string) : M bool :=
  fold_each generated_kinds true (fun acc k =>
    let? e := listed_is_empty k ns selector in ok (acc && e)%bool).

Definition wait_until_listed_empty (ns selector : string) (failure : ReconcileError) : M unit :=
  let? r := attempts 60 1 (fun _ =>
    let? empty := all_listed_empty ns selector in
    if (empty : bool) then ok (Some tt) else do! request (ASleep 1000) ;; ok None) in
  match r with Some _ => ok tt | None => err failure end.

Definition wait_for_inception_resources_deleted (ns ref : string) : M unit :=
  wait_until_listed_empty ns (ref_label +:+ "=" +:+ ref +:+ ",fluidbg.io/inception-point")
    (StoreErr ("inception resources for BGD '" +:+ ref +:+ "' were not deleted in namespace " +:+ ns)).

Definition wait_for_blue_green_resources_deleted (ns ref : string) : M unit :=
  wait_until_listed_empty ns (blue_green_ref_selector ref)
    (StoreErr ("orphaned resources for BGD '" +:+ ref +:+ "' were not deleted in namespace " +:+ ns)).

Definition cleanup_orphaned_blue_green_resources (ns ref : string) : M unit :=
  do? for_each generated_kinds (fun k => delete_labeled_resources k ns (blue_green_ref_selector ref)) ;;
  wait_for_blue_green_resources_deleted ns ref.

(** ** The owners of what exists *)

Definition collect_blue_green_refs (k : kind) (ns : string) (refs : gset string) : M (gset string) :=
  let? items := k8s (request (AList k (Some ns) ref_label)) in
  ok (fold_left (fun refs item => match labels_of (meta_of k item) !! ref_label with
                                  | Some value => {[value]} ∪ refs
                                  | None => refs
                                  end) items refs).

Definition blue_green_refs_from_owned_resources (ns : string) : M (gset string) :=
  fold_each generated_kinds ∅ (fun refs k => collect_blue_green_refs k ns refs).

(** [controller.rs] [blue_green_state_key]. *)
Definition blue_green_state_key (ns name : string) : string := ns +:+ "/" +:+ name.

Definition blue_green_refs_from_owned_resources_all : M (gset string) :=
  let? namespaces := k8s (request (AList KNamespace None "")) in
  fold_each namespaces ∅ (fun refs n =>
    match meta_name (ns_metadata n) with
    | None => ok refs
    | Some ns =>
        let? names := blue_green_refs_from_owned_resources ns in
        ok (refs ∪ set_map (blue_green_state_key ns) names)
    end).

(** ** Readiness of services *)

Definition endpoint_subset_has_ready_target (s : EndpointSubset) : bool :=
  (match ep_addresses s with Some (_ :: _) => true | _ => false end
   && match ep_ports s with Some (_ :: _) => true | _ => false end)%bool.

Definition wait_for_service_ready_endpoint (ns service_name : string) : M unit :=
  let? r := attempts 60 1 (fun _ =>
    let! r := request (AGet KEndpoints (Some ns) service_name) in
    if match r with
       | Ok current => match ep_subsets current with
                       | Some subsets => existsb endpoint_subset_has_ready_target subsets
                       | None => false
                       end
       | Err _ => false
       end
    then ok (Some tt)
    else do! request (ASleep 1000) ;; ok None) in
  match r with
  | Some _ => ok tt
  | None => err (StoreErr ("service '" +:+ ns +:+ "/" +:+ service_name
                           +:+ "' did not publish a ready endpoint"))
  end.

(** ** Patching the candidate's specification *)

(** The members of a patch are merged one by one: [null] removes a member, any
    other value is merged into the member, or into [null] when there is none. *)
Fixpoint merge_json_value (base patch : json) {struct patch} : json :=
  match base, patch with
  | JObj base, JObj patch =>
      JObj ((fix members (base patch : list (string * json)) {struct patch} :=
        match patch with
        | [] => base
        | (k, v) :: patch' =>
            members (match v with
                     | JNull => json_remove k base
                     | _ => json_insert k (merge_json_value (unwrap_or JNull (json_lookup k base)) v) base
                     end) patch'
        end) base patch)
  | _, _ => patch
  end.

(** ** Runtime identity *)

Definition apply_runtime_identity_selector (d : Deployment) (name : string)
    : result ReconcileError Deployment :=
  match dep_spec d with
  | None => Err (StoreErr "deployment spec missing")
  | Some s =>
      let selector := {| sel_match_labels :=
          Some (<[deployment_label := name]> (unwrap_or ∅ (sel_match_labels (ds_selector s))));
          sel_rest := sel_rest (ds_selector s) |} in
      let s := {| ds_replicas := ds_replicas s; ds_selector := selector; ds_template := ds_template s;
                  ds_rest := ds_rest s |} in
      update_template_labels (<[deployment_label := name]>) (with_dep_spec s d)
  end.

(** ** Keys and tokens *)

Definition read_operator_signing_key (ns secret_name secret_key : string) : M (list ascii) :=
  let? secret := k8s (request (AGet KSecret (Some ns) secret_name)) in
  match sec_data secret ≫= (fun data => data !! secret_key) with
  | Some value => if is_empty value then err (StoreErr ("operator auth Secret '" +:+ ns +:+ "/"
                      +:+ secret_name +:+ "' is missing non-empty key '" +:+ secret_key +:+ "'"))
                  else ok (bytes value)
  | None => err (StoreErr ("operator auth Secret '" +:+ ns +:+ "/" +:+ secret_name
                           +:+ "' is missing non-empty key '" +:+ secret_key +:+ "'"))
  end.

Definition signing_key (auth : AuthConfig) : M (list ascii) :=
  read_operator_signing_key (signing_secret_namespace auth) (signing_secret_name auth)
    (signing_secret_key auth).

Definition plugin_name_of (plugin : InceptionPlugin) : string :=
  unwrap_or "" (meta_name (plug_metadata plugin)).

Section Generated.
Context `{Sha256, HC : Codecs}.

Definition ensure_test_resources (b : BlueGreenDeployment) (ns : string)
    (assignments : list PropertyAssignment) (extra_env : list EnvVar) : M (list DeploymentIdentity) :=
  match bgs_test (bgd_spec b) with
  | None => ok []
  | Some t =>
      let name := test_instance_name b (test_name t) in
      let ls := test_labels b (test_name t) name in
      do? ensure_test_name_available b ns (test_name t) name ls ;;
      let? spec := lift (apply_assignments_to_deployment_spec (deployment_spec_for_test t ls)
                           assignments TargetTest) in
      let? spec := lift (apply_extra_env_to_deployment_spec spec extra_env) in
      do? apply_resource KDeployment (Some ns) name
            {| dep_metadata := named_meta name (Some ns) (Some ls); dep_spec := Some spec;
               dep_status := None |} ;;
      let? service := lift (service_spec_for_test t ls) in
      do? apply_resource KService (Some ns) name
            {| svc_metadata := named_meta name (Some ns) (Some ls); svc_spec := Some service |} ;;
      ok [{| di_namespace := ns; di_name := name |}]
  end.

Definition ensure_verifier_auth_secret (b : BlueGreenDeployment) (ns auth_tokens_json : string)
    : M string :=
  match meta_name (bgd_metadata b) with
  | None => err (ResourceErr "BlueGreenDeployment is missing metadata.name")
  | Some name =>
      let secret_name := verifier_auth_secret_name b in
      let ls : labels := {[ref_label := name; uid_label := bgd_uid_or "" b;
                           "fluidbg.io/verifier-auth" := "true"]} in
      do? apply_resource KSecret (Some ns) secret_name
            {| sec_metadata := named_meta secret_name (Some ns) (Some ls);
               sec_data := Some {["tokens.json" := auth_tokens_json]} |} ;;
      ok secret_name
  end.

Definition verifier_auth_env (secret_name : string) : EnvVar :=
  {| env_name := "FLUIDBG_VERIFIER_AUTH_TOKENS_JSON"; env_value := None;
     env_secret := Some {| skr_name := secret_name; skr_key := "tokens.json";
                           skr_optional := Some false |} |}.

Definition wait_for_test_services_ready (b : BlueGreenDeployment) (ns : string) : M unit :=
  match bgs_test (bgd_spec b) with
  | Some t => wait_for_service_ready_endpoint ns (test_instance_name b (test_name t))
  | None => ok tt
  end.

(** ** Tokens *)

Definition sign_inception_auth_token (ns : string) (auth : AuthConfig)
    (ref inception_point : string) (plugin : InceptionPlugin) : M string :=
  let? key := signing_key auth in
  let? b := k8s (request (AGet KBgd (Some ns) ref)) in
  let? uid := lift (ok_or (StoreErr ("BlueGreenDeployment '" +:+ ns +:+ "/" +:+ ref +:+ "' has no uid"))
                      (meta_uid (bgd_metadata b))) in
  let claims := new_with_uid ns ref uid inception_point (plugin_name_of plugin) in
  lift (map_err (fun e => AuthErr ("failed to sign plugin auth token: " +:+ e))
          (sign_plugin_auth_token claims key)).

Definition sign_manager_sync_auth_token (auth : AuthConfig) (plugin : InceptionPlugin) : M string :=
  let? key := signing_key auth in
  let claims := new_claims "fluidbg-system" "__manager_sync__" "__manager_sync__" (plugin_name_of plugin) in
  lift (map_err (fun e => AuthErr ("failed to sign manager sync token: " +:+ e))
          (sign_plugin_auth_token claims key)).

(** No header and a token that does not verify both give [None]. *)
Definition validate_inception_auth_token (auth : AuthConfig) (header_value : option string)
    : M (option PluginAuthClaims) :=
  match header_value ≫= bearer_token with
  | None => ok None
  | Some token =>
      let? key := signing_key auth in
      match verify_plugin_auth_token token key with
      | Ok claims => ok (Some claims)
      | Err _ => ok None
      end
  end.

(** ** Deployment manifests *)

Definition deployment_spec_with_test_patch (b : BlueGreenDeployment) (base : DeploymentSpec)
    : result ReconcileError DeploymentSpec :=
  match bgs_candidate_patch (bgd_spec b) with
  | None => Ok base
  | Some patch =>
      value ← map_err (fun e => StoreErr ("failed to encode deployment spec for patching: " +:+ e))
                (deployment_spec_to_json base);
      patch ← map_err (fun e => StoreErr ("failed to encode spec.candidatePatch for patching: " +:+ e))
                (candidate_patch_to_json patch);
      map_err (fun e => StoreErr
          ("spec.candidatePatch does not produce a valid apps/v1 DeploymentSpec: " +:+ e))
        (deployment_spec_of_json (merge_json_value value patch))
  end.

Definition manifest_spec (b : BlueGreenDeployment) (spec : DeploymentSpec) (is_green : bool)
    (initial_assignments : list PropertyAssignment) : result ReconcileError DeploymentSpec :=
  if is_green then Ok spec
  else spec ← deployment_spec_with_test_patch b spec;
       apply_assignments_to_deployment_spec spec initial_assignments TargetBlue.

(** The manifest, before its resource version is known. *)
Definition deployment_manifest (b : BlueGreenDeployment) (default_namespace : string)
    (deployment_spec : ManagedDeploymentSpec) (family_labels : labels) (is_green : bool)
    (initial_assignments : list PropertyAssignment) : result ReconcileError Deployment :=
  spec ← manifest_spec b (mds_spec deployment_spec) is_green initial_assignments;
  let d := {| dep_metadata := named_meta (dr_name (candidate_ref b))
                (Some (deployment_namespace_spec deployment_spec default_namespace)) None;
              dep_spec := Some spec; dep_status := None |} in
  d ← apply_family_labels_to_deployment d family_labels;
  d ← set_green_label d is_green;
  d ← (if is_green then clear_rollout_candidate_labels d else apply_rollout_candidate_labels d b);
  apply_runtime_identity_selector d (dr_name (candidate_ref b)).

Definition apply_deployment_manifest (b : BlueGreenDeployment) (default_namespace : string)
    (deployment_spec : ManagedDeploymentSpec) (family_labels : labels) (is_green : bool)
    (initial_assignments : list PropertyAssignment) : M DeploymentIdentity :=
  let name := dr_name (candidate_ref b) in
  let ns := deployment_namespace_spec deployment_spec default_namespace in
  let? d := lift (deployment_manifest b default_namespace deployment_spec family_labels is_green
                    initial_assignments) in
  let! r := request (AGet KDeployment (Some ns) name) in
  let identity := {| di_namespace := ns; di_name := name |} in
  match r with
  | Ok existing =>
      let d := with_dep_metadata (with_resource_version
                 (meta_resource_version (dep_metadata existing)) (dep_metadata d)) d in
      do? k8s (request (AReplace KDeployment (Some ns) name d)) ;; ok identity
  | Err e =>
      if is_not_found e then do? k8s (request (ACreate KDeployment (Some ns) d)) ;; ok identity
      else err (K8sErr e)
  end.

(** ** Cleaning up *)

(** After the loop both objects are looked up once more. *)
Definition wait_for_test_resources_deleted (b : BlueGreenDeployment) (ns : string) : M unit :=
  match bgs_test (bgd_spec b) with
  | None => ok tt
  | Some t =>
      let name := test_instance_name b (test_name t) in
      let failure := StoreErr ("test resources for BGD '" +:+ bgd_name_or "" b +:+ "' logical test '"
            +:+ test_name t +:+ "' were not deleted in namespace " +:+ ns) in
      do? attempts 60 1 (fun _ =>
        let? d := k8s (request (AGetOpt KDeployment (Some ns) name)) in
        let? s := k8s (request (AGetOpt KService (Some ns) name)) in
        if (is_none d && is_none s)%bool then ok (Some tt)
        else do! request (ASleep 1000) ;; ok None) ;;
      let? d := k8s (request (AGetOpt KDeployment (Some ns) name)) in
      if is_some d then err failure
      else
        let? s := k8s (request (AGetOpt KService (Some ns) name)) in
        if is_some s then err failure else ok tt
  end.

Definition cleanup_test_resources (b : BlueGreenDeployment) (ns : string) : M unit :=
  do? (match bgs_test (bgd_spec b) with
       | Some t =>
           let name := test_instance_name b (test_name t) in
           do? delete_deployment ns name ;;
           do? delete_service ns name ;;
           delete_secret ns (verifier_auth_secret_name b)
       | None => ok tt
       end) ;;
  wait_for_test_resources_deleted b ns.

Definition cleanup_inception_resources (b : BlueGreenDeployment) (ns : string) : M unit :=
  let ref := bgd_name_or "" b in
  do? for_each (bgs_inception_points (bgd_spec b)) (fun ip =>
    do? delete_deployment ns (inception_instance_base_name ref (ip_name ip)) ;;
    do? delete_service ns (inception_service_name ref (ip_name ip)) ;;
    do? delete_config_map ns (inception_config_map_name ref (ip_name ip)) ;;
    delete_secret ns (inception_auth_secret_name ref (ip_name ip))) ;;
  wait_for_inception_resources_deleted ns ref.
End Generated.
