(* ===== verification/PluginLifecycle.v ===== *)
(** * Calls to plugins

    [operator/src/controller/plugin_lifecycle.rs]: the HTTP calls to the inceptors
    of an inception point and to plugin managers, their retries, and the start of
    draining.  A client is described by what its builder was told; the timeouts
    are read from the environment and given to the HTTP library. *)

From S2P Require Import Prelude RustString Float64 Kube Crd StateStore Effects External Status.
From S2P Require Import Names Auth Deployments Plugins Resources.

Inductive PluginLifecycleStage := Prepare | Activate | Drain | Cleanup.

(** ** The client *)

Definition control_plane_url (service_name ns : string) (port : Z) (path : string)
    (tls : option ControlPlaneTls) : string :=
  let scheme := match tls with Some t => if tls_enabled t then "https" else "http" | None => "http" end in
  scheme +:+ "://" +:+ service_name +:+ "." +:+ ns +:+ ".svc:" +:+ show_Z port +:+ path.

(** [value.parse::<u64>()]: an optional [+] and decimal digits, in range. *)
Definition parse_u64 (s : string) : option Z :=
  let digits := match bytes s with
                | c :: rest => if Ascii.eqb c "+" then rest else c :: rest
                | [] => []
                end in
  match parse_digits digits with
  | Some v => if Z.ltb v (2 ^ 64) then Some v else None
  | None => None
  end.

Definition positive_u64_or (default_value : Z) (value : option string) : Z :=
  match opt_then value parse_u64 with
  | Some v => if Z.ltb 0 v then v else default_value
  | None => default_value
  end.

Definition env_positive_u64 (name : string) (default_value : Z) : prog Z :=
  let! value := request (AEnv name) in Ret (positive_u64_or default_value value).

Record http_client := { hc_insecure : bool; hc_ca : option string }.

Definition add_root_certificate (path : string) : M string :=
  let! r := request (AReadFile path) in
  let? pem := lift (map_err (fun e => PluginInceptorErr
      ("failed to read plugin control-plane CA certificate " +:+ path +:+ ": " +:+ e)) r) in
  let! c := request (AParseCert pem) in
  let? _ := lift (map_err (fun e => PluginInceptorErr
      ("failed to parse plugin control-plane CA certificate " +:+ path +:+ ": " +:+ e)) c) in
  ok pem.

Definition control_plane_client (tls : option ControlPlaneTls) : M http_client :=
  do! env_positive_u64 "FLUIDBG_PLUGIN_CONTROL_PLANE_CONNECT_TIMEOUT_SECONDS" 3 ;;
  do! env_positive_u64 "FLUIDBG_PLUGIN_CONTROL_PLANE_TIMEOUT_SECONDS" 10 ;;
  let? ca := match tls ≫= tls_ca_cert_path with
             | Some path => if is_empty path then ok None
                            else let? pem := add_root_certificate path in ok (Some pem)
             | None => ok None
             end in
  let! built := request ABuildClient in
  let? _ := lift (map_err (fun e => PluginInceptorErr
      ("failed to build plugin control-plane client: " +:+ e)) built) in
  ok {| hc_insecure := match tls with Some t => tls_insecure_skip_verify t | None => false end;
        hc_ca := ca |}.

Definition send (c : http_client) (r : http_request) : prog (result string http_response) :=
  request (AHttp (hc_insecure c) (hc_ca c) r).

Definition authorized (m : http_method) (url token : string) (body : http_body) : http_request :=
  {| hr_method := m; hr_url := url; hr_authorization := Some (bearer_value token); hr_body := body |}.

(** [for attempt in 1..=n]: a request that could not be sent is tried again two
    seconds later, the last failure is reported; a response ends the loop. *)
Definition send_with_retries {A} (n : nat) (c : http_client) (r : http_request)
    (failed : string -> ReconcileError) (on_response : http_response -> M A) : M (option A) :=
  attempts n 1 (fun attempt =>
    let! sent := send c r in
    match sent with
    | Ok response => let? a := on_response response in ok (Some a)
    | Err e => if Z.ltb attempt (Z.of_nat n) then do! request (ASleep 2000) ;; ok None
               else err (failed e)
    end).

(** ** Addresses *)

Definition inceptor_port (plugin : InceptionPlugin) : Z :=
  let i := ips_inceptor (plug_spec plugin) in
  match inc_control_plane_tls i ≫= tls_port with
  | Some p => p
  | None => match inc_ports i with p :: _ => pp_container_port p | [] => 9090 end
  end.

Definition manager_port (m : PluginManager) : Z :=
  match pm_control_plane_tls m ≫= tls_port with Some p => p | None => unwrap_or 9090 (pm_port m) end.

Definition manager_url (m : PluginManager) (path : string) : string :=
  control_plane_url (pm_service_name m) (unwrap_or "fluidbg-system" (pm_namespace m)) (manager_port m)
    path (pm_control_plane_tls m).

Definition roles_text (ip : InceptionPoint) : list string := map plugin_role_name (ip_roles ip).

(** ** What is active *)

Definition is_active_inception_phase (b : BlueGreenDeployment) : bool :=
  match bgd_phase b with Some Completed | Some RolledBack => false | _ => true end.

Definition active_inceptions_of (plugin_name : string) (b : BlueGreenDeployment) : list ActiveInception :=
  match is_active_inception_phase b, meta_namespace (bgd_metadata b), meta_name (bgd_metadata b) with
  | true, Some ns, Some ref =>
      map (fun ip => {| ai_namespace := ns; ai_blue_green_ref := ref;
                        ai_blue_green_uid := meta_uid (bgd_metadata b); ai_inception_point := ip_name ip;
                        ai_plugin := plugin_name; ai_roles := roles_text ip; ai_config := ip_config ip |})
        (List.filter (fun ip => String.eqb (ip_plugin_ref ip) plugin_name) (bgs_inception_points (bgd_spec b)))
  | _, _, _ => []
  end.

Definition active_inceptions_for_plugin (plugin_name : string) : M (list ActiveInception) :=
  let? bgds := k8s (request (AList KBgd None "")) in
  ok (concat (map (active_inceptions_of plugin_name) bgds)).

Definition filter_assignments (assignments : list PropertyAssignment) (targets : list AssignmentTarget)
    : list PropertyAssignment :=
  List.filter (fun a => existsb (fun t => bool_decide (t = pa_target a)) targets) assignments.

(** Environment variables as assignments to every container of a deployment. *)
Definition env_assignments (target : AssignmentTarget) (vars : list EnvVar) : list PropertyAssignment :=
  map (fun e => {| pa_target := target; pa_kind := KindEnv; pa_name := env_name e;
                   pa_value := unwrap_or "" (env_value e); pa_container_name := None |}) vars.

Section Calls.
Context `{Sha256, HC : Codecs}.

(** [error_for_status]: 4xx and 5xx are errors. *)
Definition error_for_status (url : string) (r : http_response) : result string http_response :=
  if (Z.leb 400 (resp_status r) && Z.ltb (resp_status r) 600)%bool
  then Err (http_status_error (resp_status r) url) else Ok r.

Definition inceptor_url (ref ns inception_point : string) (plugin : InceptionPlugin) (path : string)
    : string :=
  control_plane_url (inception_service_name ref inception_point) ns (inceptor_port plugin) path
    (inc_control_plane_tls (ips_inceptor (plug_spec plugin))).

Definition inceptor_client (plugin : InceptionPlugin) : M http_client :=
  control_plane_client (inc_control_plane_tls (ips_inceptor (plug_spec plugin))).

Definition stage_path (l : PluginLifecycle) (stage : PluginLifecycleStage) : option string :=
  match stage with
  | Prepare => pl_prepare_path l
  | Activate => pl_activate_path l
  | Drain => pl_drain_path l
  | Cleanup => pl_cleanup_path l
  end.

Definition invoke_inceptor_lifecycle (ref ns inception_point : string) (plugin : InceptionPlugin)
    (auth : AuthConfig) (stage : PluginLifecycleStage) : M (option PluginLifecycleResponse) :=
  match ips_lifecycle (plug_spec plugin) ≫= (fun l => stage_path l stage) with
  | None => ok None
  | Some path =>
      let url := inceptor_url ref ns inception_point plugin path in
      let failed e := PluginInceptorErr
        ("plugin inceptor lifecycle call failed for " +:+ url +:+ ": " +:+ e) in
      let? http := inceptor_client plugin in
      let? token := sign_inception_auth_token ns auth ref inception_point plugin in
      send_with_retries 10 http (authorized POST url token NoBody) failed (fun response =>
        let? response := lift (map_err failed (error_for_status url response)) in
        lift (map_err (fun e => PluginInceptorErr
            ("plugin inceptor lifecycle response deserialization failed for " +:+ url +:+ ": " +:+ e))
          (j ← resp_json response; lifecycle_of_json j)))
  end.

Definition invoke_plugin_manager_sync (plugin : InceptionPlugin) (auth : AuthConfig) : M unit :=
  match ips_manager (plug_spec plugin) with
  | None => ok tt
  | Some manager =>
      let url := manager_url manager (unwrap_or "/manager/sync" (pm_sync_path manager)) in
      let failed e := PluginManagerErr ("plugin manager sync failed for " +:+ url +:+ ": " +:+ e) in
      let plugin_name := plugin_name_of plugin in
      let? active := active_inceptions_for_plugin plugin_name in
      let? token := sign_manager_sync_auth_token auth plugin in
      let? http := control_plane_client (pm_control_plane_tls manager) in
      do? send_with_retries 3 http
            (authorized POST url token
               (SyncBody {| pms_plugin := plugin_name; pms_active_inceptions := active |}))
            failed (fun response =>
              do? lift (map_err failed (error_for_status url response)) ;; ok tt) ;;
      ok tt
  end.

Definition manager_stage_path (m : PluginManager) (stage : PluginLifecycleStage) : option string :=
  match stage with
  | Prepare => Some (unwrap_or "/manager/prepare" (pm_prepare_path m))
  | Cleanup => Some (unwrap_or "/manager/cleanup" (pm_cleanup_path m))
  | Activate | Drain => None
  end.

(** [controller.rs] [validate_plugin_auth]: the error as text. *)
Definition validate_plugin_auth (auth : AuthConfig) (header_value : option string)
    : prog (result string (option PluginAuthClaims)) :=
  let! r := validate_inception_auth_token auth header_value in
  Ret (map_err show_reconcile_error r).

Definition empty_lifecycle_response : PluginLifecycleResponse :=
  {| plr_assignments := []; plr_inceptor_env := []; plr_config := None |}.

Definition invoke_plugin_manager_lifecycle (ref ns : string) (ip : InceptionPoint)
    (plugin : InceptionPlugin) (auth : AuthConfig) (stage : PluginLifecycleStage)
    : M (option PluginLifecycleResponse) :=
  match ips_manager (plug_spec plugin) with
  | None => ok None
  | Some manager =>
      match manager_stage_path manager stage with
      | None => ok None
      | Some path =>
          let url := manager_url manager path in
          let failed e := PluginManagerErr ("plugin manager call failed for " +:+ url +:+ ": " +:+ e) in
          let? token := sign_inception_auth_token ns auth ref (ip_name ip) plugin in
          let! checked := validate_plugin_auth auth (Some (bearer_value token)) in
          let? claims := lift (map_err AuthErr checked) in
          let? claims := lift (ok_or (PluginManagerErr "manager auth token did not produce claims") claims) in
          let context :=
            {| ric_namespace := ns; ric_operator_url := ""; ric_test_container_url := "";
               ric_test_data_verify_path := None; ric_blue_deployment_name := "";
               ric_blue_green_ref := ref; ric_blue_green_uid := unwrap_or "" (cl_blue_green_uid claims);
               ric_auth_token := token; ric_manager_inceptor_env := []; ric_manager_config := None |} in
          let? active := active_inceptions_for_plugin (plugin_name_of plugin) in
          let payload :=
            {| pml_namespace := ns; pml_blue_green_ref := ref;
               pml_blue_green_uid := cl_blue_green_uid claims; pml_inception_point := ip_name ip;
               pml_plugin := plugin_name_of plugin; pml_roles := roles_text ip;
               pml_config := secured_inception_config plugin ip context;
               pml_active_inceptions := active |} in
          let? http := control_plane_client (pm_control_plane_tls manager) in
          send_with_retries 10 http (authorized POST url token (LifecycleBody payload)) failed
            (fun response =>
              let? response := lift (map_err failed (error_for_status url response)) in
              let? value := lift (map_err (fun e => PluginManagerErr
                  ("plugin manager response deserialization failed for " +:+ url +:+ ": " +:+ e))
                (resp_json response)) in
              ok (match lifecycle_of_json value with Ok p => p | Err _ => empty_lifecycle_response end))
      end
  end.

Definition invoke_inceptor_drain_status (ref ns inception_point : string) (plugin : InceptionPlugin)
    (auth : AuthConfig) : M (option PluginDrainStatusResponse) :=
  match ips_lifecycle (plug_spec plugin) ≫= pl_drain_status_path with
  | None => ok None
  | Some path =>
      let url := inceptor_url ref ns inception_point plugin path in
      let failed e := PluginDrainStatusErr
        ("plugin inceptor drain status call failed for " +:+ url +:+ ": " +:+ e) in
      let? token := sign_inception_auth_token ns auth ref inception_point plugin in
      let? http := inceptor_client plugin in
      let! sent := send http (authorized GET url token NoBody) in
      let? response := lift (map_err failed sent) in
      let? response := lift (map_err failed (error_for_status url response)) in
      let? payload := lift (map_err (fun e => PluginDrainStatusErr
          ("plugin inceptor drain status response deserialization failed for " +:+ url +:+ ": " +:+ e))
        (j ← resp_json response; drain_status_of_json j)) in
      ok (Some payload)
  end.

Definition invoke_inceptor_traffic_shift (ref ns inception_point : string) (plugin : InceptionPlugin)
    (auth : AuthConfig) (traffic_percent : Z) : M unit :=
  let path := unwrap_or "/traffic" (ips_lifecycle (plug_spec plugin) ≫= pl_traffic_shift_path) in
  let url := inceptor_url ref ns inception_point plugin path in
  let failed e := PluginTrafficShiftErr
    ("plugin inceptor traffic shift call failed for " +:+ url +:+ ": " +:+ e) in
  let? http := inceptor_client plugin in
  let? token := sign_inception_auth_token ns auth ref inception_point plugin in
  do? send_with_retries 10 http
        (authorized POST url token (TrafficBody {| tsr_traffic_percent := traffic_percent |}))
        failed (fun response =>
          do? lift (map_err failed (error_for_status url response)) ;; ok tt) ;;
  ok tt.

(** ** The start of draining *)

Definition restore_assignments (b : BlueGreenDeployment) (ns : string) (ip : InceptionPoint)
    (plugin : InceptionPlugin) : list PropertyAssignment :=
  let injections := render_container_env_injections plugin
                      (plugin_template_context ip ns (bgd_name_or "" b)) true in
  env_assignments TargetGreen (cei_green injections)
  ++ env_assignments TargetBlue (cei_blue injections)
  ++ env_assignments TargetTest (cei_test injections).

Definition start_plugin_draining (b : BlueGreenDeployment) (ns : string) (auth : AuthConfig)
    (restore_targets : list AssignmentTarget) : M unit :=
  for_each (bgs_inception_points (bgd_spec b)) (fun ip =>
    let? plugin := k8s (request (AGet KPlugin None (ip_plugin_ref ip))) in
    let assignments := restore_assignments b ns ip plugin in
    let? response := invoke_inceptor_lifecycle (bgd_name_or "" b) ns (ip_name ip) plugin auth Drain in
    let assignments := assignments ++ match response with Some r => plr_assignments r | None => [] end in
    match filter_assignments assignments restore_targets with
    | [] => ok tt
    | filtered =>
        let? touched := apply_assignments b ns filtered false in
        wait_for_deployments_ready touched
    end).
End Calls.
