(* ===== verification/Phases.v ===== *)
(** * The phases of a rollout

    [operator/src/controller/phases/*]: setting up the inception points, traffic
    shifting, promotion, the start of draining and draining itself. *)

From S2P Require Import Prelude RustString Float64 Kube Crd StateStore Effects External Strategy.
From S2P Require Import Promotion Status Names Auth Deployments Plugins Resources PluginLifecycle.

Definition drain_is_final (p : InceptionPointDrainPhase) : bool :=
  match p with DrainSuccessful | DrainTimedOutMaybeSuccessful => true | DrainPending => false end.

Definition drain_max_wait (ip : InceptionPoint) : Z := unwrap_or 60 (ip_drain ip ≫= ipds_max_wait_seconds).

(** ** [phases/rollout.rs]: the previous green *)

Definition green_names (l : list Deployment) : result ReconcileError (list string) :=
  fold_right (fun d acc => name ← named "selected green deployment has no name" d; names ← acc; Ok (name :: names))
    (Ok []) l.

Definition select_previous_green_for_promotion (green_namespace : string) (green_deployments : list Deployment)
    (candidate : DeploymentRef) (default_namespace : string) : result ReconcileError DeploymentRef :=
  names ← green_names green_deployments;
  let is_candidate name := (String.eqb name (dr_name candidate)
        && String.eqb green_namespace (deployment_namespace candidate default_namespace))%bool in
  let candidate_seen := existsb is_candidate names in
  let previous := map (fun name => {| dr_name := name; dr_namespace := Some green_namespace |})
                    (List.filter (fun name => negb (is_candidate name)) names) in
  match candidate_seen, previous with
  | true, [deployment] => Ok deployment
  | true, [] => Ok candidate
  | true, deployments => Err (StoreErr ("promotion found candidate plus "
        +:+ show_Z (Z.of_nat (length deployments)) +:+ " previous green deployments in namespace '"
        +:+ green_namespace +:+ "'; expected at most one previous green"))
  | false, [deployment] => Ok deployment
  | false, [] => Err (StoreErr ("selector matched no green deployments in namespace '"
        +:+ green_namespace +:+ "'"))
  | false, deployments => Err (StoreErr ("selector matched "
        +:+ show_Z (Z.of_nat (length deployments)) +:+ " green deployments in namespace '"
        +:+ green_namespace
        +:+ "'; expected exactly one or an in-progress promotion candidate plus previous green"))
  end.

Definition resolve_previous_green_for_promotion (ns : string) (selector : DeploymentSelector)
    (candidate : DeploymentRef) : M DeploymentRef :=
  if bool_decide (dsel_match_labels selector = ∅) then err selector_empty_error
  else
    let green_namespace := unwrap_or ns (dsel_namespace selector) in
    let ls := <[green_label := "true"]> (dsel_match_labels selector) in
    let? deployments := k8s (request (AList KDeployment (Some green_namespace) (label_selector ls))) in
    lift (select_previous_green_for_promotion green_namespace deployments candidate ns).

(** ** [phases/inception.rs]: checks of what plugins answer *)

Definition manager_inceptor_env_vars (vars : list InceptorEnvVar) : list EnvVar :=
  map (fun e => env_value_var (iev_name e) (Some (iev_value e))) vars.

Definition is_test_assignment (a : PropertyAssignment) : bool :=
  match pa_target a with TargetTest => true | _ => false end.

Definition split_test_assignments (l : list PropertyAssignment)
    : list PropertyAssignment * list PropertyAssignment :=
  (List.filter is_test_assignment l, List.filter (fun a => negb (is_test_assignment a)) l).

Definition reject_manager_test_assignments (inception_point : string) (l : list PropertyAssignment)
    : result ReconcileError unit :=
  if existsb is_test_assignment l
  then Err (PluginManagerErr ("inception point '" +:+ inception_point +:+
         "' returned test deployment assignments from prepare; test assignments must be declared in InceptionPlugin injects so the operator can apply them before inceptor activation"))
  else Ok tt.

Definition reject_activation_assignments (inception_point : string) (l : list PropertyAssignment)
    : result ReconcileError unit :=
  match l with
  | [] => Ok tt
  | _ => Err (PluginInceptorErr ("inception point '" +:+ inception_point +:+
         "' returned deployment assignments from activate; app/test assignments must be provided before activation"))
  end.

Definition reject_inceptor_env_response (inception_point : string) (env : list InceptorEnvVar)
    : result ReconcileError unit :=
  match env with
  | [] => Ok tt
  | _ => Err (PluginInceptorErr ("inception point '" +:+ inception_point +:+
         "' returned inceptorEnv outside manager prepare; inceptor runtime env must be provided by the manager before pod creation"))
  end.

Definition template_assignments (green blue test : list EnvVar) : list PropertyAssignment :=
  env_assignments TargetGreen green ++ env_assignments TargetBlue blue ++ env_assignments TargetTest test.

(** ** [phases/traffic.rs] *)

Definition validate_progressive_splitter_plugin (inception_point_name plugin_name : string)
    (plugin : InceptionPlugin) : result ReconcileError unit :=
  if match ips_features (plug_spec plugin) with
     | Some f => pf_supports_progressive_shifting f | None => false end
  then Ok tt
  else Err (InvalidSpec ("progressive strategy requires inception point '" +:+ inception_point_name
         +:+ "' plugin '" +:+ plugin_name +:+ "' to set features.supportsProgressiveShifting=true")).

Definition splitters (b : BlueGreenDeployment) : list InceptionPoint :=
  List.filter is_splitter (bgs_inception_points (bgd_spec b)).

Definition validate_progressive_shifting_support (b : BlueGreenDeployment) : M unit :=
  match bgs_promotion (bgd_spec b) with
  | Some promotion =>
      match strat_type (promo_strategy promotion) with
      | Progressive =>
          do? for_each (splitters b) (fun ip =>
            let? plugin := k8s (request (AGet KPlugin None (ip_plugin_ref ip))) in
            lift (validate_progressive_splitter_plugin (ip_name ip) (ip_plugin_ref ip) plugin)) ;;
          match splitters b with
          | [] => err (InvalidSpec "progressive strategy requires at least one splitter inception point")
          | _ => ok tt
          end
      | HardSwitch => ok tt
      end
  | None => ok tt
  end.

(** A named object of a list of generated ones. *)
Definition apply_named (k : kind) (what ns : string) (o : obj k) : M unit :=
  let? name := lift (ok_or (ResourceErr ("generated " +:+ what +:+ " has no name")) (meta_name (meta_of k o))) in
  apply_resource k (Some ns) name o.

Record PreparedInceptionPoint := {
  pip_inception_point : InceptionPoint;
  pip_plugin : InceptionPlugin;
  pip_plugin_deployments : list DeploymentIdentity }.

(** The vectors the loop of [ensure_inception_resources] fills. *)
Record Preparation := {
  prep_plans : list PreparedInceptionPoint;
  prep_test_assignments : list PropertyAssignment;
  prep_pre_activation_assignments : list PropertyAssignment;
  prep_verifier_auth_tokens : gmap string string }.

Section Phases.
Context `{Sha256, HC : Codecs}.

Definition apply_splitter_traffic_percent (b : BlueGreenDeployment) (ns : string) (auth : AuthConfig)
    (traffic_percent : Z) : M unit :=
  for_each (splitters b) (fun ip =>
    let? plugin := k8s (request (AGet KPlugin None (ip_plugin_ref ip))) in
    invoke_inceptor_traffic_shift (bgd_name_or "" b) ns (ip_name ip) plugin auth
      (wrap_u8 traffic_percent)).

Definition initialize_splitter_traffic (b : BlueGreenDeployment) (ns : string) (auth : AuthConfig)
    : M unit :=
  match initial_splitter_traffic_percent b with
  | None => ok tt
  | Some traffic_percent =>
      do? apply_splitter_traffic_percent b ns auth traffic_percent ;;
      do! update_status_progress b ns 0 traffic_percent ;;
      ok tt
  end.

(** ** [phases/rollout.rs] *)

Definition apply_bgd_manifest (b : BlueGreenDeployment) (ns : string) (is_green : bool)
    (initial_assignments : list PropertyAssignment) : M DeploymentIdentity :=
  apply_deployment_manifest b ns (bgs_deployment (bgd_spec b))
    (dsel_match_labels (bgs_selector (bgd_spec b))) is_green initial_assignments.

Definition promote (b : BlueGreenDeployment) (ns : string) : M DeploymentRef :=
  let? current_green := resolve_previous_green_for_promotion ns (bgs_selector (bgd_spec b))
                          (candidate_ref b) in
  let? candidate_identity := apply_bgd_manifest b ns true [] in
  do? wait_for_deployments_ready [candidate_identity] ;;
  ok current_green.

Definition ensure_declared_deployments (b : BlueGreenDeployment) (ns : string)
    (initial_assignments : list PropertyAssignment) : M unit :=
  do? apply_bgd_manifest b ns false initial_assignments ;; ok tt.

Definition bootstrap_initial_green_if_empty (b : BlueGreenDeployment) (ns : string) : M bool :=
  let selector := bgs_selector (bgd_spec b) in
  if bool_decide (dsel_match_labels selector = ∅) then err selector_empty_error
  else
    let green_namespace := unwrap_or ns (dsel_namespace selector) in
    let? family := k8s (request (AList KDeployment (Some green_namespace)
                                   (label_selector (dsel_match_labels selector)))) in
    match family with
    | [] => do? apply_bgd_manifest b ns true [] ;; ok true
    | _ => ok false
    end.

Definition begin_draining_after_promotion (b : BlueGreenDeployment) (ns : string) (auth : AuthConfig)
    (previous_green : DeploymentRef) : M unit :=
  do? start_plugin_draining b ns auth [TargetBlue] ;;
  delete_current_green ns (candidate_ref b) previous_green.

Definition begin_draining_after_rollback (b : BlueGreenDeployment) (ns : string) (auth : AuthConfig)
    : M unit :=
  do? start_plugin_draining b ns auth [TargetGreen] ;;
  delete_deployment (deployment_namespace (candidate_ref b) ns) (dr_name (candidate_ref b)).

(** ** [phases/inception.rs] *)

(** The manager's part of one inception point: the inceptor's environment, its
    configuration and the assignments to make before activation. *)
Definition prepare_with_manager (b : BlueGreenDeployment) (ns : string) (auth : AuthConfig)
    (ip : InceptionPoint) (plugin : InceptionPlugin)
    : M (list EnvVar * option json * list PropertyAssignment) :=
  let? response := invoke_plugin_manager_lifecycle (bgd_name_or "" b) ns ip plugin auth Prepare in
  match response with
  | None => ok ([], None, [])
  | Some r =>
      do? lift (reject_manager_test_assignments (ip_name ip) (plr_assignments r)) ;;
      ok (manager_inceptor_env_vars (plr_inceptor_env r), plr_config r, plr_assignments r)
  end.

(** The objects of an inception point; the inceptor's deployments are returned. *)
Definition apply_inception_resources (ns : string) (r : ReconciledResources)
    : M (list DeploymentIdentity) :=
  do? for_each (rr_config_maps r) (apply_named KConfigMap "ConfigMap" ns) ;;
  do? for_each (rr_secrets r) (apply_named KSecret "Secret" ns) ;;
  let? deployments := fold_each (rr_deployments r) [] (fun acc d =>
    let? name := lift (ok_or (ResourceErr "generated Deployment has no name")
                         (meta_name (dep_metadata d))) in
    let deployment_namespace := unwrap_or ns (meta_namespace (dep_metadata d)) in
    do? apply_resource KDeployment (Some deployment_namespace) name d ;;
    ok (acc ++ [{| di_namespace := deployment_namespace; di_name := name |}])) in
  do? for_each (rr_services r) (apply_named KService "Service" ns) ;;
  ok deployments.

(** The body of the first loop. *)
Definition prepare_inception_point (b : BlueGreenDeployment) (ns : string) (auth : AuthConfig)
    (operator_url test_container_url : string) (p : Preparation) (ip : InceptionPoint) : M Preparation :=
  let? plugin := k8s (request (AGet KPlugin None (ip_plugin_ref ip))) in
  do? lift (map_err InvalidSpec (validate_inception_point plugin ip)) ;;
  let? manager := prepare_with_manager b ns auth ip plugin in
  let '(manager_inceptor_env, manager_config, manager_assignments) := manager in
  let? auth_token := sign_inception_auth_token ns auth (bgd_name_or "" b) (ip_name ip) plugin in
  let context :=
    {| ric_namespace := ns; ric_operator_url := operator_url;
       ric_test_container_url := test_container_url;
       ric_test_data_verify_path := dv_verify_path <$> (bgs_test (bgd_spec b) ≫= test_data_verification);
       ric_blue_deployment_name := dr_name (candidate_ref b);
       ric_blue_green_ref := bgd_name_or "" b; ric_blue_green_uid := bgd_uid_or "" b;
       ric_auth_token := auth_token; ric_manager_inceptor_env := manager_inceptor_env;
       ric_manager_config := manager_config |} in
  let? resources := lift (map_err ResourceErr (reconcile_inception_point plugin ip context)) in
  let '(test, other) := split_test_assignments (template_assignments (rr_green_env_injections resources)
                          (rr_blue_env_injections resources) (rr_test_env_injections resources)) in
  let? plugin_deployments := apply_inception_resources ns resources in
  ok {| prep_plans := prep_plans p ++
          [{| pip_inception_point := ip; pip_plugin := plugin;
              pip_plugin_deployments := plugin_deployments |}];
        prep_test_assignments := prep_test_assignments p ++ test;
        prep_pre_activation_assignments :=
          prep_pre_activation_assignments p ++ manager_assignments ++ other;
        prep_verifier_auth_tokens := <[ip_name ip := auth_token]> (prep_verifier_auth_tokens p) |}.

(** The second loop: wait for the inceptor, then its own [prepare]. *)
Definition prepare_inceptor (b : BlueGreenDeployment) (ns : string) (auth : AuthConfig)
    (acc : list PropertyAssignment) (plan : PreparedInceptionPoint) : M (list PropertyAssignment) :=
  let name := ip_name (pip_inception_point plan) in
  do? match pip_plugin_deployments plan with [] => ok tt | l => wait_for_deployments_ready l end ;;
  let? response := invoke_inceptor_lifecycle (bgd_name_or "" b) ns name (pip_plugin plan) auth Prepare in
  match response with
  | None => ok acc
  | Some r =>
      do? lift (reject_inceptor_env_response name (plr_inceptor_env r)) ;;
      do? lift (reject_manager_test_assignments name (plr_assignments r)) ;;
      ok (acc ++ plr_assignments r)
  end.

(** The last loop. *)
Definition activate_inceptor (b : BlueGreenDeployment) (ns : string) (auth : AuthConfig)
    (plan : PreparedInceptionPoint) : M unit :=
  let name := ip_name (pip_inception_point plan) in
  let? response := invoke_inceptor_lifecycle (bgd_name_or "" b) ns name (pip_plugin plan) auth Activate in
  match response with
  | None => ok tt
  | Some r =>
      do? lift (reject_inceptor_env_response name (plr_inceptor_env r)) ;;
      lift (reject_activation_assignments name (plr_assignments r))
  end.

Definition test_container_url (b : BlueGreenDeployment) (ns : string) : result ReconcileError string :=
  match bgs_test (bgd_spec b) with
  | Some t => port ← test_service_port t;
              Ok ("http://" +:+ test_instance_name b (test_name t) +:+ "." +:+ ns +:+ ":" +:+ show_Z port)
  | None => Ok "http://localhost:8080"
  end.

Definition publish_verifier_tokens (b : BlueGreenDeployment) (ns : string) (tokens : gmap string string)
    : M (list EnvVar) :=
  if is_some (bgs_test (bgd_spec b)) then
    let? tokens_json := lift (map_err (fun e => AuthErr
        ("failed to serialize verifier auth tokens: " +:+ e)) (tokens_to_json tokens)) in
    let? secret_name := ensure_verifier_auth_secret b ns tokens_json in
    ok [verifier_auth_env secret_name]
  else ok [].

Definition ensure_inception_resources (b : BlueGreenDeployment) (ns : string) (auth : AuthConfig)
    : M unit :=
  let! url := request (AEnv "FLUIDBG_OPERATOR_URL") in
  let operator_url := unwrap_or "http://fluidbg-operator.fluidbg-system:8090" url in
  let? container_url := lift (test_container_url b ns) in
  let? p := fold_each (bgs_inception_points (bgd_spec b))
              {| prep_plans := []; prep_test_assignments := [];
                 prep_pre_activation_assignments := []; prep_verifier_auth_tokens := ∅ |}
              (prepare_inception_point b ns auth operator_url container_url) in
  let? pre_activation := fold_each (prep_plans p) (prep_pre_activation_assignments p)
                           (prepare_inceptor b ns auth) in
  let? extra_test_env := publish_verifier_tokens b ns (prep_verifier_auth_tokens p) in
  do? ensure_declared_deployments b ns pre_activation ;;
  let? test_deployments := ensure_test_resources b ns (prep_test_assignments p) extra_test_env in
  do? wait_for_deployments_ready test_deployments ;;
  do? wait_for_test_services_ready b ns ;;
  do? match pre_activation with
      | [] => ok tt
      | _ => let? touched := apply_assignments b ns pre_activation false in
             wait_for_deployments_ready touched
      end ;;
  for_each (prep_plans p) (activate_inceptor b ns auth).

(** ** [phases/draining.rs] *)

Definition force_replace_interrupted_rollout (b : BlueGreenDeployment) : bool :=
  let force_replace := match bgs_update_policy (bgd_spec b) ≫= up_active_rollout with
                       | Some ForceReplace => true | _ => false end in
  let generation := unwrap_or 0 (meta_generation (bgd_metadata b)) in
  let rollout_generation := unwrap_or 0 (bgd_status b ≫= st_rollout_generation) in
  (force_replace && Z.ltb 0 rollout_generation && Z.ltb rollout_generation generation)%bool.

Definition final_phase (b : BlueGreenDeployment) (terminal_counts_have_failure : bool) : BGDPhase :=
  if (force_replace_interrupted_rollout b || terminal_counts_have_failure)%bool
  then RolledBack else Completed.

Definition finalize_draining (b : BlueGreenDeployment) (ns : string) (auth : AuthConfig)
    (terminal_counts_have_failure : bool) : M unit :=
  do? for_each (bgs_inception_points (bgd_spec b)) (fun ip =>
    let? plugin := k8s (request (AGet KPlugin None (ip_plugin_ref ip))) in
    do? invoke_inceptor_lifecycle (bgd_name_or "" b) ns (ip_name ip) plugin auth Cleanup ;;
    do? invoke_plugin_manager_lifecycle (bgd_name_or "" b) ns ip plugin auth Cleanup ;;
    ok tt) ;;
  do? cleanup_inception_resources b ns ;;
  do? cleanup_test_resources b ns ;;
  do! update_status_phase b ns (final_phase b terminal_counts_have_failure) ;;
  ok tt.

Definition drain_status (name : string) (phase : InceptionPointDrainPhase) (message : option string)
    (completed_at : option Z) : InceptionPointDrainStatus :=
  {| ids_name := name; ids_phase := phase; ids_message := message; ids_completed_at := completed_at |}.

Definition final_drain_of (name : string) (l : list InceptionPointDrainStatus)
    : option InceptionPointDrainStatus :=
  List.find (fun s => (String.eqb (ids_name s) name && drain_is_final (ids_phase s))%bool) l.

(** The body of the loop of [reconcile_draining]. *)
Definition drain_inception_point (b : BlueGreenDeployment) (ns : string) (auth : AuthConfig)
    (elapsed_seconds : Z) (ip : InceptionPoint) : M InceptionPointDrainStatus :=
  let previous := match bgd_status b with Some s => st_inception_point_drains s | None => [] end in
  match final_drain_of (ip_name ip) previous with
  | Some existing => ok existing
  | None =>
      if Z.leb (drain_max_wait ip) elapsed_seconds then
        let! now := request ANow in
        ok (drain_status (ip_name ip) DrainTimedOutMaybeSuccessful
              (Some ("max drain wait of " +:+ show_Z (drain_max_wait ip)
                     +:+ "s elapsed before plugin confirmed completion")) (Some now))
      else
        let? plugin := k8s (request (AGet KPlugin None (ip_plugin_ref ip))) in
        let? answer := invoke_inceptor_drain_status (bgd_name_or "" b) ns (ip_name ip) plugin auth in
        match answer with
        | Some s =>
            if pds_drained s then
              let! now := request ANow in
              ok (drain_status (ip_name ip) DrainSuccessful (pds_message s) (Some now))
            else ok (drain_status (ip_name ip) DrainPending (pds_message s) None)
        | None =>
            let! now := request ANow in
            ok (drain_status (ip_name ip) DrainSuccessful
                  (Some "plugin does not expose drainStatusPath") (Some now))
        end
  end.

Definition any_drain_pending (l : list InceptionPointDrainStatus) : bool :=
  existsb (fun s => match ids_phase s with DrainPending => true | _ => false end) l.

Definition drain_elapsed (b : BlueGreenDeployment) : prog Z :=
  let! started := match bgd_status b ≫= st_drain_started_at with
                  | Some t => Ret t
                  | None => request ANow
                  end in
  let! now := request ANow in
  Ret (Z.max (Z.quot (now - started) 1000) 0).

(** The final counters of a rollout; [true] when some case is still pending. *)
Definition publish_drain_counts (b : BlueGreenDeployment) (ns state_key : string) : M Counts :=
  let? counts := in_store (request (AStoreCounts state_key)) in
  let? latest_failure_message := in_store (request (AStoreLatestFailure state_key)) in
  do! update_status_counts b ns counts (actual_rate counts) latest_failure_message ;;
  ok counts.

Definition reconcile_draining (b : BlueGreenDeployment) (ns : string) (auth : AuthConfig)
    (state_key : string) : M unit :=
  let! elapsed_seconds := drain_elapsed b in
  let? statuses := fold_each (bgs_inception_points (bgd_spec b)) [] (fun acc ip =>
    let? s := drain_inception_point b ns auth elapsed_seconds ip in ok (acc ++ [s])) in
  do! update_inception_point_drain_statuses b ns statuses ;;
  if any_drain_pending statuses then ok tt
  else
    let? counts := publish_drain_counts b ns state_key in
    if Z.ltb 0 (pending counts) then ok tt
    else finalize_draining b ns auth (Z.ltb 0 (failed counts) || Z.ltb 0 (timed_out counts))%bool.
End Phases.
