(* ===== verification/Controller.v ===== *)
(** * The reconciler

    [operator/src/controller.rs]: one reconcile pass of a [BlueGreenDeployment]
    under the in-process lock and the lease, the state machine of the phases, the
    snapshot of the specification a rollout runs with, finalizers, and the cleanup
    of what deleted deployments left behind. *)

From S2P Require Import Prelude RustString Float64 Kube Crd StateStore Effects External Strategy.
From S2P Require Import Promotion Status Names Lease Auth Deployments Plugins Resources.
From S2P Require Import PluginLifecycle Phases.

Inductive Action := AwaitChange | Requeue (seconds : Z).

Record Ctx := { ctx_auth : AuthConfig; ctx_lease : LeaseConfig }.

(** ** Configuration *)

(** [pid] is [std::process::id()]. *)
Definition operator_identity (pid : Z) : prog string :=
  let! id := request (AEnv "FLUIDBG_OPERATOR_ID") in
  match id with
  | Some id => Ret id
  | None => let! host := request (AEnv "HOSTNAME") in
            Ret (unwrap_or ("fluidbg-operator-" +:+ show_Z pid) host)
  end.

Definition env_u64 (name : string) (default_value : Z) : prog Z := env_positive_u64 name default_value.

Definition lease_config_from_env (pid : Z) : prog LeaseConfig :=
  let! duration_seconds := env_u64 "FLUIDBG_RECONCILE_LEASE_DURATION_SECONDS" 30 in
  let! renew_seconds := env_u64 "FLUIDBG_RECONCILE_LEASE_RENEW_INTERVAL_SECONDS" 10 in
  let renew_seconds := if Z.leb duration_seconds renew_seconds
                       then Z.max (duration_seconds / 3) 1 else renew_seconds in
  let! holder := operator_identity pid in
  Ret {| holder_identity := holder; lc_duration := duration_seconds;
         lc_renew_interval := renew_seconds |}.

(** ** State keys *)

Definition split_blue_green_state_key (key : string) : result ReconcileError (string * string) :=
  ok_or (ResourceErr ("state key '" +:+ key +:+ "' is not namespace-qualified")) (split_once "/" key).

Definition orphan_namespace (key : string) : option string := fst <$> split_once "/" key.

(** ** Finalizers *)

Definition BGD_FINALIZER : string := "fluidbg.io/cleanup".

Definition has_finalizer (b : BlueGreenDeployment) (finalizer : string) : bool :=
  existsb (fun value => String.eqb value finalizer) (unwrap_or [] (meta_finalizers (bgd_metadata b))).

Definition ensure_finalizer (b : BlueGreenDeployment) (ns : string) : M unit :=
  match meta_name (bgd_metadata b) with
  | None => ok tt
  | Some name => do? k8s (request (APatchFinalizers ns name (Some [BGD_FINALIZER]))) ;; ok tt
  end.

Definition remove_finalizer (b : BlueGreenDeployment) (ns : string) : M unit :=
  match meta_name (bgd_metadata b) with
  | None => ok tt
  | Some name =>
      let finalizers := List.filter (fun value => negb (String.eqb value BGD_FINALIZER))
                          (unwrap_or [] (meta_finalizers (bgd_metadata b))) in
      do? k8s (request (APatchFinalizers ns name (non_empty finalizers))) ;; ok tt
  end.

(** ** New generations of the specification *)

Definition generation_of (b : BlueGreenDeployment) : Z := unwrap_or 0 (meta_generation (bgd_metadata b)).
Definition rollout_generation_of (b : BlueGreenDeployment) : Z :=
  unwrap_or 0 (bgd_status b ≫= st_rollout_generation).

Definition rollout_needs_restart (b : BlueGreenDeployment) (phase : BGDPhase) : bool :=
  match phase with
  | Completed | RolledBack | Invalid => Z.ltb (observed_generation_of b) (generation_of b)
  | _ => false
  end.

Definition active_rollout_has_new_spec_generation (b : BlueGreenDeployment) (phase : BGDPhase) : bool :=
  match phase with
  | Completed | RolledBack => false
  | _ => (Z.ltb 0 (rollout_generation_of b) && Z.ltb (rollout_generation_of b) (generation_of b))%bool
  end.

Definition force_replace_active_rollout (b : BlueGreenDeployment) : bool :=
  match bgs_update_policy (bgd_spec b) ≫= up_active_rollout with Some ForceReplace => true | _ => false end.

Definition should_start_force_replace_rollout (b : BlueGreenDeployment) (phase : BGDPhase) : bool :=
  (force_replace_active_rollout b && active_rollout_has_new_spec_generation b phase
   && negb (bool_decide (phase = Draining)))%bool.

Definition with_spec (s : BlueGreenDeploymentSpec) (b : BlueGreenDeployment) : BlueGreenDeployment :=
  {| bgd_metadata := bgd_metadata b; bgd_spec := s; bgd_status := bgd_status b |}.
Definition with_update_policy (u : option UpdatePolicy) (s : BlueGreenDeploymentSpec)
    : BlueGreenDeploymentSpec :=
  {| bgs_selector := bgs_selector s; bgs_deployment := bgs_deployment s;
     bgs_candidate_patch := bgs_candidate_patch s; bgs_inception_points := bgs_inception_points s;
     bgs_test := bgs_test s; bgs_promotion := bgs_promotion s; bgs_update_policy := u |}.

(** A set of strings in order, as a [BTreeSet] is walked. *)
Definition string_le (a b : string) : Prop := Is_true (String.leb a b).
#[export] Instance string_le_dec a b : Decision (string_le a b).
Proof. unfold string_le. apply _. Defined.
Definition sorted_set (s : gset string) : list string := merge_sort string_le (elements s).

Section Reconcile.
Context `{Sha256, HC : Codecs}.

(** ** The snapshot *)

Definition snapshot_config_map (b : BlueGreenDeployment) (ns name spec : string) : ConfigMap :=
  let ls : labels := {[ref_label := name; "fluidbg.io/rollout-snapshot" := "true"]} in
  {| cm_metadata := named_meta (rollout_spec_snapshot_name b ns) (Some ns) (Some ls);
     cm_data := Some {["generation" := show_Z (current_rollout_generation b); "spec.yaml" := spec]} |}.

Definition ensure_rollout_spec_snapshot (b : BlueGreenDeployment) (ns : string) : M unit :=
  match meta_name (bgd_metadata b) with
  | None => ok tt
  | Some name =>
      let? spec := lift (map_err (fun e => ResourceErr ("failed to snapshot BGD spec: " +:+ e))
                           (spec_to_yaml (bgd_spec b))) in
      apply_resource KConfigMap (Some ns) (rollout_spec_snapshot_name b ns)
        (snapshot_config_map b ns name spec)
  end.

Definition load_rollout_spec_snapshot (b : BlueGreenDeployment) (ns : string) : M BlueGreenDeployment :=
  let name := bgd_name_or "unknown" b in
  let snapshot_name := rollout_spec_snapshot_name b ns in
  let! got := request (AGet KConfigMap (Some ns) snapshot_name) in
  let? snapshot := lift (map_err (fun e => ResourceErr ("BGD '" +:+ name
      +:+ "' was updated during an active rollout, but rollout spec snapshot '" +:+ snapshot_name
      +:+ "' could not be loaded: " +:+ show_kube_error e)) got) in
  let? spec_yaml := lift (ok_or (ResourceErr ("BGD '" +:+ name +:+ "' rollout spec snapshot '"
      +:+ snapshot_name +:+ "' is missing spec.yaml"))
    (cm_data snapshot ≫= (fun data => data !! "spec.yaml"))) in
  let? spec := lift (map_err (fun e => ResourceErr ("BGD '" +:+ name +:+ "' rollout spec snapshot '"
      +:+ snapshot_name +:+ "' could not be parsed: " +:+ e)) (spec_of_yaml spec_yaml)) in
  let spec := if force_replace_active_rollout b
              then with_update_policy (bgs_update_policy (bgd_spec b)) spec else spec in
  ok (with_spec spec b).

Definition delete_rollout_spec_snapshot (b : BlueGreenDeployment) (ns : string) : M unit :=
  let! r := request (ADelete KConfigMap (Some ns) (rollout_spec_snapshot_name b ns)) in
  lift (deleted r).

Definition start_force_replace_rollout (b : BlueGreenDeployment) (ns : string) (auth : AuthConfig)
    : M unit :=
  let! loaded := load_rollout_spec_snapshot b ns in
  let rollout_bgd := match loaded with Ok frozen => frozen | Err _ => b end in
  do? begin_draining_after_rollback rollout_bgd ns auth ;;
  do! update_status_phase rollout_bgd ns Draining ;;
  do! update_drain_started_at rollout_bgd ns ;;
  ok tt.

(** ** Removing a rollout *)

(** Everything a rollout generated, its snapshot and its test cases. *)
Definition cleanup_rollout (b : BlueGreenDeployment) (ns state_key : string) : M unit :=
  do? cleanup_inception_resources b ns ;;
  do? cleanup_test_resources b ns ;;
  do? delete_rollout_spec_snapshot b ns ;;
  do? in_store (request (AStoreCleanup state_key)) ;;
  ok tt.

Definition missing_namespace (name : string) : ReconcileError :=
  ResourceErr ("BlueGreenDeployment '" +:+ name +:+ "' is missing metadata.namespace").

Definition cleanup_deleted_bgd (b : BlueGreenDeployment) : M unit :=
  let name := bgd_name_or "unknown" b in
  let? ns := lift (ok_or (missing_namespace name) (meta_namespace (bgd_metadata b))) in
  do? cleanup_rollout b ns (blue_green_state_key ns name) ;;
  remove_finalizer b ns.

(** ** The phases *)

Definition reconcile_pending (b : BlueGreenDeployment) (ns : string) (auth : AuthConfig) : M Action :=
  do! ensure_rollout_generation b ns ;;
  do? ensure_rollout_spec_snapshot b ns ;;
  let? generated_name := ensure_generated_candidate_name b ns in
  match generated_name with
  | None => ok (Requeue 1)
  | Some _ =>
      let? bootstrapped := bootstrap_initial_green_if_empty b ns in
      if (bootstrapped : bool) then do! update_status_phase b ns Completed ;; ok (Requeue 300)
      else
        do? resolve_current_green ns (bgs_selector (bgd_spec b)) ;;
        do? validate_progressive_shifting_support b ;;
        do? ensure_inception_resources b ns auth ;;
        do? initialize_splitter_traffic b ns auth ;;
        do! update_status_phase b ns Observing ;;
        ok (Requeue 5)
  end.

Definition reconcile_observing (b : BlueGreenDeployment) (ns : string) (auth : AuthConfig)
    (state_key : string) : M Action :=
  do? lift (validate_test_configuration b) ;;
  let? counts := in_store (request (AStoreCounts state_key)) in
  let? data_counts := in_store (request (AStoreCountsForMode state_key Data)) in
  let? custom_counts := in_store (request (AStoreCountsForMode state_key Custom)) in
  let? latest_failure_message := in_store (request (AStoreLatestFailure state_key)) in
  do! update_status_counts b ns counts (actual_rate counts) latest_failure_message ;;
  let? decided := lift (decide_promotion_action b data_counts custom_counts
                          (bgd_status b ≫= st_current_step)) in
  do? match decided with
      | ContinueObserving => ok tt
      | Promote => do! update_status_phase b ns Promoting ;; ok tt
      | Rollback =>
          do? begin_draining_after_rollback b ns auth ;;
          do! update_status_phase b ns Draining ;;
          do! update_drain_started_at b ns ;;
          ok tt
      | AdvanceStep step traffic_percent =>
          do? apply_splitter_traffic_percent b ns auth traffic_percent ;;
          do! update_status_progress b ns step traffic_percent ;;
          ok tt
      end ;;
  ok (Requeue 5).

Definition reconcile_promoting (b : BlueGreenDeployment) (ns : string) (auth : AuthConfig) : M Action :=
  let? previous_green := promote b ns in
  do? begin_draining_after_promotion b ns auth previous_green ;;
  do! update_status_phase b ns Draining ;;
  do! update_drain_started_at b ns ;;
  ok (Requeue 5).

Definition reconcile_phase (b : BlueGreenDeployment) (ns : string) (auth : AuthConfig)
    (state_key : string) (phase : BGDPhase) : M Action :=
  match phase with
  | Pending => reconcile_pending b ns auth
  | Observing => reconcile_observing b ns auth state_key
  | Promoting => reconcile_promoting b ns auth
  | Draining => do? reconcile_draining b ns auth state_key ;; ok (Requeue 5)
  | Completed | RolledBack | Invalid => do? cleanup_rollout b ns state_key ;; ok (Requeue 300)
  end.

(** What is reconciled: the deployment itself, or, while a newer specification
    waits for the rollout to finish, the deployment with the snapshot's
    specification; [None] when the rollout is being replaced. *)
Definition rollout_bgd (b : BlueGreenDeployment) (ns : string) (auth : AuthConfig) (phase : BGDPhase)
    : M (option BlueGreenDeployment) :=
  if active_rollout_has_new_spec_generation b phase then
    if should_start_force_replace_rollout b phase
    then do? start_force_replace_rollout b ns auth ;; ok None
    else
      do! (if force_replace_active_rollout b then Ret tt else update_status_update_deferred b ns) ;;
      let? frozen := load_rollout_spec_snapshot b ns in ok (Some frozen)
  else ok (Some b).

Definition reconcile_locked (b : BlueGreenDeployment) (auth : AuthConfig) : M Action :=
  let name := bgd_name_or "unknown" b in
  let? ns := lift (ok_or (missing_namespace name) (meta_namespace (bgd_metadata b))) in
  let state_key := blue_green_state_key ns name in
  let phase := unwrap_or Pending (bgd_phase b) in
  if is_some (meta_deletion_timestamp (bgd_metadata b)) then
    do? cleanup_deleted_bgd b ;; ok AwaitChange
  else if negb (has_finalizer b BGD_FINALIZER) then
    do? ensure_finalizer b ns ;; ok (Requeue 1)
  else if rollout_needs_restart b phase then
    do? cleanup_rollout b ns state_key ;;
    do! reset_status_for_new_rollout b ns ;;
    ok (Requeue 1)
  else
    let? current := rollout_bgd b ns auth phase in
    match current with
    | None => ok (Requeue 1)
    | Some current => reconcile_phase current ns auth state_key phase
    end.

(** ** A pass *)

Definition publish_reconcile_error_status (b : BlueGreenDeployment) (ns : string) (e : ReconcileError)
    : prog unit :=
  if is_terminal_for_generation e
  then update_status_invalid b ns (diagnostic_reason e) (show_reconcile_error e)
  else update_status_reconcile_failure b ns (diagnostic_reason e) (show_reconcile_error e).

(** An error is published in the status before it is returned. *)
Definition publishing {A} (b : BlueGreenDeployment) (ns : string) (p : M A) : M A :=
  let! r := p in
  match r with
  | Ok a => ok a
  | Err e => do! publish_reconcile_error_status b ns e ;; err e
  end.

(** [api.get(name)] where a missing object ends the pass. *)
Definition with_latest (ns name : string) (body : BlueGreenDeployment -> M Action) : M Action :=
  let! r := request (AGet KBgd (Some ns) name) in
  match r with
  | Ok latest => body latest
  | Err e => if is_not_found e then ok AwaitChange else err (K8sErr e)
  end.

Definition reconcile_deleted (b : BlueGreenDeployment) (ns : string) : M Action :=
  match meta_name (bgd_metadata b) with
  | None => ok AwaitChange
  | Some name => publishing b ns (with_latest ns name (fun latest =>
                   do? cleanup_deleted_bgd latest ;; ok AwaitChange))
  end.

Definition reconcile_under_lease (b : BlueGreenDeployment) (ns : string) (c : Ctx) : M Action :=
  publishing b ns
    (let? r := run_with_bgd_lease b ns (ctx_lease c)
       (match meta_name (bgd_metadata b) with
        | None => ok AwaitChange
        | Some name => with_latest ns name (fun latest => reconcile_locked latest (ctx_auth c))
        end) in
     ok (unwrap_or (Requeue 2) r)).

Definition local_lock_key (b : BlueGreenDeployment) : string :=
  let ns := unwrap_or "unknown" (meta_namespace (bgd_metadata b)) in
  match meta_uid (bgd_metadata b) with
  | Some uid => ns +:+ "/" +:+ uid
  | None => blue_green_state_key ns (bgd_name_or "unknown" b)
  end.

(** The lock is released when the pass ends, however it ends. *)
Definition reconcile (b : BlueGreenDeployment) (c : Ctx) : M Action :=
  match meta_namespace (bgd_metadata b) with
  | None => ok AwaitChange
  | Some ns =>
      let! locked := request (ALock (local_lock_key b)) in
      match locked with
      | Some true =>
          let! r := (if is_some (meta_deletion_timestamp (bgd_metadata b))
                     then reconcile_deleted b ns else reconcile_under_lease b ns c) in
          do! request (AUnlock (local_lock_key b)) ;;
          Ret r
      | _ => ok (Requeue 1)
      end
  end.

Definition error_policy (_ : ReconcileError) : Action := Requeue 30.

(** ** Orphans *)

Definition existing_key (b : BlueGreenDeployment) : option string :=
  match meta_namespace (bgd_metadata b), meta_name (bgd_metadata b) with
  | Some ns, Some name => Some (blue_green_state_key ns name)
  | _, _ => None
  end.

Definition existing_blue_green_keys : M (gset string) :=
  let? bgds := k8s (request (AList KBgd None "")) in
  ok (list_to_set (omap existing_key bgds)).

Definition cleanup_single_orphaned_blue_green_ref (blue_green_key : string) : M unit :=
  let? key := lift (split_blue_green_state_key blue_green_key) in
  do? cleanup_orphaned_blue_green_resources key.1 key.2 ;;
  do? in_store (request (AStoreCleanup blue_green_key)) ;;
  ok tt.

Definition cleanup_orphan (c : LeaseConfig) (existing : gset string) (cleaned : Z) (ref : string) : M Z :=
  if bool_decide (ref ∈ existing) then ok cleaned
  else
    let? r := run_with_orphan_lease ref (unwrap_or "default" (orphan_namespace ref)) c
                (cleanup_single_orphaned_blue_green_ref ref) in
    ok (if is_some r then cleaned + 1 else cleaned).

Definition cleanup_orphaned_blue_green_refs (c : LeaseConfig) : M Z :=
  let? existing := existing_blue_green_keys in
  let? refs := in_store (request AStoreRefs) in
  let? owned := blue_green_refs_from_owned_resources_all in
  fold_each (sorted_set (refs ∪ owned)) 0 (cleanup_orphan c existing).

Definition sync_plugin_managers (auth : AuthConfig) : M unit :=
  let? plugins := k8s (request (AList KPlugin None "")) in
  for_each plugins (fun plugin =>
    if is_none (ips_manager (plug_spec plugin)) then ok tt else invoke_plugin_manager_sync plugin auth).

(** One turn of the loop of [run_orphan_cleanup]: neither failure stops it. *)
Definition orphan_cleanup_turn (pid : Z) (auth : AuthConfig) : prog unit :=
  let! lease := lease_config_from_env pid in
  do! cleanup_orphaned_blue_green_refs lease ;;
  do! sync_plugin_managers auth ;;
  Ret tt.
End Reconcile.
