(* ===== verification/Footprint.v ===== *)
(** * Footprints

    Which requests a program can make.  [is_read] singles out the requests that
    change neither the cluster nor the store; the lemmas hold for every set of
    actions [P] that contains them, and ask for the writes of a program one by
    one.  The tactic [footprint] walks a program.  At the end: the requests of a whole
    pass, for every [P] that contains the reads and the kinds of writes a pass makes;
    none of them is a write of a lease, except those of [Lease.v] itself. *)

From S2P Require Import Prelude RustString Float64 Kube Crd StateStore Effects External Strategy.
From S2P Require Import Promotion Status Names Lease Auth Deployments Plugins Resources.
From S2P Require Import PluginLifecycle Phases Controller.

(** ** Reads *)

Definition is_read (act : action) : bool :=
  match act with
  | AGet _ _ _ | AGetOpt _ _ _ | AList _ _ _ | AGetStatus _ _
  | AStoreGet _ _ | AStoreListPending | AStoreRefs | AStoreCounts _ | AStoreCountsForMode _ _
  | AStoreLatestFailure _
  | AHttp _ _ _ | AReadFile _ | AParseCert _ | ABuildClient | AEnv _ | ANow | ASleep _
  | ASelect _ | APended _ | APollLost _ => true
  | _ => false
  end.

Class Reads (P : action -> Prop) := read_ok : forall act, is_read act = true -> P act.

(** ** Combinators *)

Section Combinators.
Context (P : action -> Prop).

Lemma only_request act : P act -> only P (request act).
Proof. intros H. split; [done|]. by intros. Qed.

Lemma only_bind_res {A B} (p : M A) (f : A -> M B) :
  only P p -> (forall a, only P (f a)) -> only P (bind_res p f).
Proof. intros Hp Hf. apply only_bind; [done|]. intros [a|e]; [apply Hf|done]. Qed.

Lemma only_k8s {A} (p : prog (result kube_error A)) : only P p -> only P (k8s p).
Proof. intros Hp. apply only_bind; done. Qed.

Lemma only_in_store {A} (p : prog (result StoreError A)) : only P p -> only P (in_store p).
Proof. intros Hp. apply only_bind; done. Qed.

Lemma only_for_each {X} (xs : list X) (body : X -> M unit) :
  (forall x, x ∈ xs -> only P (body x)) -> only P (for_each xs body).
Proof.
  induction xs as [|x xs IH]; intros Hb; [done|]. cbn.
  apply only_bind_res; [apply Hb; left|]. intros _. apply IH. intros y Hy. apply Hb. by right.
Qed.

Lemma only_fold_each {X S} (xs : list X) (s : S) (body : S -> X -> M S) :
  (forall s x, x ∈ xs -> only P (body s x)) -> only P (fold_each xs s body).
Proof.
  revert s. induction xs as [|x xs IH]; intros s Hb; [done|]. cbn.
  apply only_bind_res; [apply Hb; left|]. intros s'. apply IH. intros t y Hy. apply Hb. by right.
Qed.

Lemma only_attempts {A} n k (body : Z -> M (option A)) :
  (forall i, only P (body i)) -> only P (attempts n k body).
Proof.
  intros Hb. revert k. induction n as [|n IH]; intros k; [done|]. cbn.
  apply only_bind_res; [done|]. intros [a|]; [done|]. apply IH.
Qed.

Lemma only_if_named b body : (forall n, only P (body n)) -> only P (if_named b body).
Proof. intros Hb. unfold if_named. destruct (meta_name _); [apply Hb|done]. Qed.

Lemma only_select_lost {A} lease (p : prog A) :
  P (ASelect lease) -> P (APended lease) -> P (APollLost lease) -> only P p -> only P (select_lost lease p).
Proof.
  intros Hs Hd Hl.
  assert (forall q : prog (option A), only P q -> only P (look lease q)) as Hlook by (intros q Hq; split; [done|by intros []]).
  assert (forall body : bool -> prog (option A), (forall b, only P (body b)) -> only P (next_poll lease body)) as Hnext
    by (intros body Hb; split; [done|intros []; [apply Hlook|]; apply Hb]).
  intros Hp. apply Hnext. revert Hp. induction p as [a|act k IH]; intros Hp looked; [done|]. destruct Hp as [Ha Hk].
  cbn [poll_body only]. split; [done|]. intros r.
  assert (only P (suspended lease looked (fun b => poll_body lease b (k r)))) as Hsus
    by (unfold suspended; destruct looked; [|apply Hlook]; apply Hnext; intros b; by apply IH).
  destruct (over_network act r); [done|]. split; [done|]. intros []; [done|]. by apply IH.
Qed.
End Combinators.

Create HintDb footprint.

(** One step through a program; the calls of named programs are left to the hints. *)
Ltac footprint_step :=
  match goal with
  | |- only _ (bind_res _ _) => apply only_bind_res; [|intros ?]
  | |- only _ (bind_prog _ _) => apply only_bind; [|intros ?]
  | |- only _ (request _) => apply only_request
  | |- only _ (k8s _) => apply only_k8s
  | |- only _ (in_store _) => apply only_in_store
  | |- only _ (lift _) => exact I
  | |- only _ (ok _) => exact I
  | |- only _ (err _) => exact I
  | |- only _ (Ret _) => exact I
  | |- only _ (for_each _ _) => apply only_for_each; intros ? ?
  | |- only _ (fold_each _ _ _) => apply only_fold_each; intros ? ? ?
  | |- only _ (attempts _ _ _) => apply only_attempts; intros ?
  | |- only _ (if_named _ _) => apply only_if_named; intros ?
  | |- only _ (match ?x with _ => _ end) => destruct x
  | |- only _ _ => solve [eauto 4 with footprint]
  | |- _ => solve [apply read_ok; reflexivity | eauto 3 with footprint]
  end.
Ltac footprint := repeat (cbv zeta; cbn beta iota; footprint_step).

(** ** Programs that only read *)

Section ReadOnly.
Context (P : action -> Prop) `{HR : Reads P} `{Sha256, HC : Codecs}.

Lemma fp_wait_for_deployments_ready l : only P (wait_for_deployments_ready l).
Proof. unfold wait_for_deployments_ready, wait_for_deployment_ready. footprint. Qed.

Lemma fp_ensure_test_name_available b ns l r e : only P (ensure_test_name_available b ns l r e).
Proof. unfold ensure_test_name_available. footprint. Qed.

Lemma fp_ensure_apply_target_available k ns n o : only P (ensure_apply_target_available k ns n o).
Proof. unfold ensure_apply_target_available. footprint. Qed.

Lemma fp_wait_until_listed_empty ns s f : only P (wait_until_listed_empty ns s f).
Proof. unfold wait_until_listed_empty, all_listed_empty, listed_is_empty. footprint. Qed.

Lemma fp_wait_for_test_services_ready b ns : only P (wait_for_test_services_ready b ns).
Proof. unfold wait_for_test_services_ready, wait_for_service_ready_endpoint. footprint. Qed.

Lemma fp_wait_for_test_resources_deleted b ns : only P (wait_for_test_resources_deleted b ns).
Proof. unfold wait_for_test_resources_deleted. footprint. Qed.

Lemma fp_signing_key auth : only P (signing_key auth).
Proof. unfold signing_key, read_operator_signing_key. footprint. Qed.
Hint Resolve fp_signing_key : footprint.

Lemma fp_sign_inception_auth_token ns auth ref ip plugin :
  only P (sign_inception_auth_token ns auth ref ip plugin).
Proof. unfold sign_inception_auth_token. footprint. Qed.
Hint Resolve fp_sign_inception_auth_token : footprint.

Lemma fp_sign_manager_sync_auth_token auth plugin : only P (sign_manager_sync_auth_token auth plugin).
Proof. unfold sign_manager_sync_auth_token. footprint. Qed.
Hint Resolve fp_sign_manager_sync_auth_token : footprint.

Lemma fp_validate_plugin_auth auth h : only P (validate_plugin_auth auth h).
Proof. unfold validate_plugin_auth, validate_inception_auth_token. footprint. Qed.
Hint Resolve fp_validate_plugin_auth : footprint.

Lemma fp_control_plane_client tls : only P (control_plane_client tls).
Proof. unfold control_plane_client, env_positive_u64, add_root_certificate. footprint. Qed.
Hint Resolve fp_control_plane_client : footprint.

Lemma fp_send_with_retries {A} n c r failed (f : http_response -> M A) :
  (forall x, only P (f x)) -> only P (send_with_retries n c r failed f).
Proof. intros. unfold send_with_retries, send. footprint. Qed.

Lemma fp_active_inceptions_for_plugin n : only P (active_inceptions_for_plugin n).
Proof. unfold active_inceptions_for_plugin. footprint. Qed.
Hint Resolve fp_active_inceptions_for_plugin : footprint.

Lemma fp_invoke_inceptor_lifecycle ref ns ip plugin auth stage :
  only P (invoke_inceptor_lifecycle ref ns ip plugin auth stage).
Proof.
  unfold invoke_inceptor_lifecycle, inceptor_client. footprint.
  apply fp_send_with_retries. intros x. footprint.
Qed.

Lemma fp_invoke_plugin_manager_sync plugin auth : only P (invoke_plugin_manager_sync plugin auth).
Proof.
  unfold invoke_plugin_manager_sync. footprint. apply fp_send_with_retries. intros x. footprint.
Qed.

Lemma fp_invoke_plugin_manager_lifecycle ref ns ip plugin auth stage :
  only P (invoke_plugin_manager_lifecycle ref ns ip plugin auth stage).
Proof.
  unfold invoke_plugin_manager_lifecycle. footprint. apply fp_send_with_retries. intros x. footprint.
Qed.

Lemma fp_invoke_inceptor_drain_status ref ns ip plugin auth :
  only P (invoke_inceptor_drain_status ref ns ip plugin auth).
Proof. unfold invoke_inceptor_drain_status, inceptor_client, send. footprint. Qed.

Lemma fp_invoke_inceptor_traffic_shift ref ns ip plugin auth t :
  only P (invoke_inceptor_traffic_shift ref ns ip plugin auth t).
Proof.
  unfold invoke_inceptor_traffic_shift, inceptor_client. footprint.
  apply fp_send_with_retries. intros x. footprint.
Qed.
Hint Resolve fp_invoke_inceptor_traffic_shift fp_invoke_inceptor_drain_status : footprint.

Lemma fp_apply_splitter_traffic_percent b ns auth t :
  only P (apply_splitter_traffic_percent b ns auth t).
Proof. unfold apply_splitter_traffic_percent. footprint. Qed.

Lemma fp_validate_progressive_shifting_support b : only P (validate_progressive_shifting_support b).
Proof. unfold validate_progressive_shifting_support. footprint. Qed.

Lemma fp_resolve_previous_green ns s c : only P (resolve_previous_green_for_promotion ns s c).
Proof. unfold resolve_previous_green_for_promotion. footprint. Qed.

Lemma fp_load_rollout_spec_snapshot b ns : only P (load_rollout_spec_snapshot b ns).
Proof. unfold load_rollout_spec_snapshot. footprint. Qed.

Lemma fp_drain_elapsed b : only P (drain_elapsed b).
Proof. unfold drain_elapsed. footprint. Qed.

Lemma fp_drain_inception_point b ns auth e ip : only P (drain_inception_point b ns auth e ip).
Proof. unfold drain_inception_point. footprint. Qed.
End ReadOnly.

#[export] Hint Resolve fp_wait_for_deployments_ready fp_ensure_test_name_available
  fp_ensure_apply_target_available fp_wait_until_listed_empty fp_wait_for_test_services_ready
  fp_wait_for_test_resources_deleted fp_signing_key fp_sign_inception_auth_token
  fp_invoke_inceptor_lifecycle fp_invoke_plugin_manager_lifecycle fp_invoke_plugin_manager_sync
  fp_invoke_inceptor_drain_status fp_invoke_inceptor_traffic_shift fp_apply_splitter_traffic_percent
  fp_validate_progressive_shifting_support fp_resolve_previous_green fp_load_rollout_spec_snapshot
  fp_drain_elapsed fp_drain_inception_point : footprint.
#[export] Hint Extern 0 (Reads _) => (assumption || apply _) : footprint.
#[export] Hint Extern 0 (_ <> KLease) => discriminate : footprint.

(** ** Programs that write

    The permission for every kind of write a program makes is a hypothesis. *)

Section Writers.
Context (P : action -> Prop) {HR : Reads P} `{Sha256, HC : Codecs}.
Context (may_replace : forall ns n d, P (AReplace KDeployment ns n d))
  (may_create : forall ns d, P (ACreate KDeployment ns d))
  (may_apply : forall k ns n o, k <> KLease -> P (AApply k ns n o))
  (may_patch : forall ns n fs, field_phase fs = None -> P (APatchStatus ns n fs)).

Lemma fp_resolve_current_green ns s : only P (resolve_current_green ns s).
Proof using HR may_replace. unfold resolve_current_green. footprint. Qed.
Hint Resolve fp_resolve_current_green : footprint.

Lemma fp_apply_assignments b ns l i : only P (apply_assignments b ns l i).
Proof using HR may_replace.
  unfold apply_assignments, patch_targeted_deployment_env. footprint.
Qed.
Hint Resolve fp_apply_assignments : footprint.

Lemma fp_start_plugin_draining b ns auth l : only P (start_plugin_draining b ns auth l).
Proof using HR may_replace. unfold start_plugin_draining. footprint. Qed.
Hint Resolve fp_start_plugin_draining : footprint.

Lemma fp_apply_deployment_manifest b ns s l g a : only P (apply_deployment_manifest b ns s l g a).
Proof using HR may_replace may_create. unfold apply_deployment_manifest. footprint. Qed.
Hint Resolve fp_apply_deployment_manifest : footprint.

Lemma fp_promote b ns : only P (promote b ns).
Proof using HR may_replace may_create. unfold promote, apply_bgd_manifest. footprint. Qed.

Lemma fp_bootstrap b ns : only P (bootstrap_initial_green_if_empty b ns).
Proof using HR may_replace may_create.
  unfold bootstrap_initial_green_if_empty, apply_bgd_manifest. footprint.
Qed.

Lemma fp_apply_resource k ns n o : k <> KLease -> only P (apply_resource k ns n o).
Proof using HR may_apply. intros Hk. unfold apply_resource. footprint. Qed.
Hint Resolve fp_apply_resource : footprint.

Lemma fp_ensure_rollout_spec_snapshot b ns : only P (ensure_rollout_spec_snapshot b ns).
Proof using HR may_apply. unfold ensure_rollout_spec_snapshot. footprint. Qed.

Lemma fp_prepare_inception_point b ns auth u c p ip :
  only P (prepare_inception_point b ns auth u c p ip).
Proof using HR may_apply.
  unfold prepare_inception_point, prepare_with_manager, apply_inception_resources, apply_named.
  footprint.
Qed.

Lemma fp_ensure_test_resources b ns a e : only P (ensure_test_resources b ns a e).
Proof using HR may_apply. unfold ensure_test_resources. footprint. Qed.
Hint Resolve fp_prepare_inception_point fp_ensure_test_resources : footprint.

Lemma fp_ensure_inception_resources b ns auth : only P (ensure_inception_resources b ns auth).
Proof using HR may_replace may_create may_apply.
  unfold ensure_inception_resources, prepare_inceptor, publish_verifier_tokens,
    ensure_verifier_auth_secret, ensure_declared_deployments, apply_bgd_manifest, activate_inceptor.
  footprint.
Qed.

Lemma fp_update_status_progress b ns s t : only P (update_status_progress b ns s t).
Proof using may_patch. unfold update_status_progress, patch_status. footprint. Qed.
Lemma fp_update_status_counts b ns c r m : only P (update_status_counts b ns c r m).
Proof using may_patch. unfold update_status_counts, patch_status. footprint. Qed.
Lemma fp_update_drain_started_at b ns : only P (update_drain_started_at b ns).
Proof using HR may_patch. unfold update_drain_started_at, patch_status. footprint. Qed.
Lemma fp_update_drains b ns l : only P (update_inception_point_drain_statuses b ns l).
Proof using may_patch.
  unfold update_inception_point_drain_statuses, patch_status. footprint.
Qed.
Lemma fp_ensure_rollout_generation b ns : only P (ensure_rollout_generation b ns).
Proof using may_patch.
  unfold ensure_rollout_generation, patch_status. footprint.
Qed.
Hint Resolve fp_update_status_progress fp_update_status_counts : footprint.

Lemma fp_ensure_generated_candidate_name b ns : only P (ensure_generated_candidate_name b ns).
Proof using HR may_patch.
  unfold ensure_generated_candidate_name. destruct (_ ≫= _); [done|].
  generalize (deterministic_candidate_suffixes (generated_candidate_name_seed b)) as l.
  induction l as [|s l IH]; cbn [try_candidate_names]; [done|].
  unfold update_status_generated_deployment_name, patch_status. footprint.
Qed.

Lemma fp_initialize_splitter_traffic b ns auth : only P (initialize_splitter_traffic b ns auth).
Proof using HR may_patch. unfold initialize_splitter_traffic. footprint. Qed.

(** *** Deletions *)

Lemma fp_delete_resource k ns n : P (ADelete k ns n) -> only P (delete_resource k ns n).
Proof using. intros. unfold delete_resource. footprint. Qed.
Hint Resolve fp_delete_resource : footprint.

Definition inception_objects (b : BlueGreenDeployment) (ip : InceptionPoint) : list (kind * string) :=
  let ref := bgd_name_or "" b in
  [(KDeployment, inception_instance_base_name ref (ip_name ip));
   (KService, inception_service_name ref (ip_name ip));
   (KConfigMap, inception_config_map_name ref (ip_name ip));
   (KSecret, inception_auth_secret_name ref (ip_name ip))].

Definition test_objects (b : BlueGreenDeployment) (t : TestSpec) : list (kind * string) :=
  [(KDeployment, test_instance_name b (test_name t)); (KService, test_instance_name b (test_name t));
   (KSecret, verifier_auth_secret_name b)].

(** The objects a rollout generated for its inception points and its test. *)
Definition generated_objects (b : BlueGreenDeployment) : list (kind * string) :=
  concat (map (inception_objects b) (bgs_inception_points (bgd_spec b)))
  ++ match bgs_test (bgd_spec b) with Some t => test_objects b t | None => [] end.

Lemma fp_cleanup_inception_resources b ns :
  (forall k n, (k, n) ∈ generated_objects b -> P (ADelete k (Some ns) n)) ->
  only P (cleanup_inception_resources b ns).
Proof using HR.
  intros Hd. assert (forall ip k n, ip ∈ bgs_inception_points (bgd_spec b) ->
    (k, n) ∈ inception_objects b ip -> P (ADelete k (Some ns) n)) as Hip.
  { intros ip k n Hip Hk. apply Hd, elem_of_app. left. apply list_elem_of_In, in_concat.
    exists (inception_objects b ip). split; [|by apply list_elem_of_In].
    apply in_map. by apply list_elem_of_In. }
  unfold cleanup_inception_resources, wait_for_inception_resources_deleted,
    delete_deployment, delete_service, delete_config_map, delete_secret.
  footprint; apply fp_delete_resource; (eapply Hip; [done|]); unfold inception_objects;
    rewrite !elem_of_cons; auto.
Qed.

Lemma fp_cleanup_test_resources b ns :
  (forall k n, (k, n) ∈ generated_objects b -> P (ADelete k (Some ns) n)) ->
  only P (cleanup_test_resources b ns).
Proof using HR.
  intros Hd. unfold cleanup_test_resources, generated_objects in *.
  apply only_bind_res; [|intros; eauto with footprint].
  destruct (bgs_test (bgd_spec b)) as [t|]; [|done].
  assert (forall k n, (k, n) ∈ test_objects b t -> P (ADelete k (Some ns) n)) as Ht.
  { intros k n Hk. apply Hd, elem_of_app. by right. }
  unfold delete_deployment, delete_service, delete_secret.
  footprint; apply fp_delete_resource, Ht; unfold test_objects; rewrite !elem_of_cons; auto.
Qed.

Lemma fp_cleanup_rollout b ns key :
  (forall k n, (k, n) ∈ generated_objects b -> P (ADelete k (Some ns) n)) ->
  P (ADelete KConfigMap (Some ns) (rollout_spec_snapshot_name b ns)) -> P (AStoreCleanup key) ->
  only P (cleanup_rollout b ns key).
Proof using HR.
  intros Hd Hs Hk. unfold cleanup_rollout, delete_rollout_spec_snapshot.
  apply only_bind_res; [by apply fp_cleanup_inception_resources|intros _].
  apply only_bind_res; [by apply fp_cleanup_test_resources|intros _]. footprint.
Qed.
End Writers.

#[export] Hint Resolve fp_resolve_current_green fp_apply_assignments fp_start_plugin_draining
  fp_apply_deployment_manifest fp_promote fp_bootstrap fp_apply_resource fp_ensure_rollout_spec_snapshot
  fp_ensure_inception_resources fp_update_status_progress fp_update_status_counts
  fp_update_drain_started_at fp_update_drains fp_ensure_rollout_generation
  fp_ensure_generated_candidate_name fp_initialize_splitter_traffic fp_delete_resource
  fp_cleanup_inception_resources fp_cleanup_test_resources fp_cleanup_rollout : footprint.

(** ** Rules for [always] *)

Section Always.
Context (ok : trace -> event -> Prop).

Lemma always_bind_res {A B} pre (p : M A) (f : A -> M B) Q :
  always ok pre p (fun tr r => match r with Ok a => always ok tr (f a) Q | Err e => Q tr (Err e) end) ->
  always ok pre (bind_res p f) Q.
Proof.
  intros H. apply always_bind. eapply always_weaken; [|intros tr r|exact H]; [done|].
  by destruct r.
Qed.

Lemma always_k8s {A} pre (p : prog (result kube_error A)) Q :
  always ok pre p (fun tr r => Q tr (map_err K8sErr r)) -> always ok pre (k8s p) Q.
Proof. intros Hq. apply always_bind. exact Hq. Qed.

Lemma always_in_store {A} pre (p : prog (result StoreError A)) Q :
  always ok pre p (fun tr r => Q tr (map_err (fun e => StateStoreErr (show_store_error e)) r)) ->
  always ok pre (in_store p) Q.
Proof. intros Hq. apply always_bind. exact Hq. Qed.

Lemma always_request pre act (Q : trace -> reply act -> Prop) :
  (forall r, ok pre (Ev act r) /\ Q (pre ++ [Ev act r]) r) -> always ok pre (request act) Q.
Proof. done. Qed.

Lemma always_post {A} pre (p : prog A) (Q Q' : trace -> A -> Prop) :
  (forall tr a, Q tr a -> Q' tr a) -> always ok pre p Q -> always ok pre p Q'.
Proof. intros H. by apply always_weaken. Qed.

(** A loop keeps an invariant of the trace and of its state. *)
Lemma always_fold_each {X S} (xs : list X) (I : list X -> trace -> S -> Prop) (body : S -> X -> M S) Q :
  (forall tr e, Q tr (Err e)) ->
  (forall done x tr s, x ∈ xs -> I done tr s ->
    always ok tr (body s x) (fun tr r => match r with Ok s => I (done ++ [x]) tr s | Err _ => True end)) ->
  (forall tr s, I xs tr s -> Q tr (Ok s)) ->
  forall pre s, I [] pre s -> always ok pre (fold_each xs s body) Q.
Proof.
  intros He Hb HQ. assert (forall todo done pre s, xs = done ++ todo -> I done pre s ->
    always ok pre (fold_each todo s body) Q) as Hgo.
  { induction todo as [|x todo IH]; intros done pre s Ex Hi; cbn [fold_each].
    - rewrite app_nil_r in Ex. subst done. by apply HQ.
    - apply always_bind_res. eapply always_post; [|apply Hb; [|exact Hi]].
      + intros tr [s'|e]; [|by intros; apply He]. intros Hs.
        apply (IH (done ++ [x])); [|done]. by rewrite <- app_assoc.
      + rewrite Ex, elem_of_app. right. left. }
  intros pre s. by apply Hgo.
Qed.

Lemma always_attempts {A} (I : trace -> Prop) (body : Z -> M (option A)) Q n :
  (forall tr e, Q tr (Err e)) -> (forall tr, I tr -> Q tr (Ok None)) ->
  (forall i tr, I tr -> always ok tr (body i) (fun tr r =>
    match r with Ok None => I tr | Ok (Some a) => Q tr (Ok (Some a)) | Err _ => True end)) ->
  forall pre k, I pre -> always ok pre (attempts n k body) Q.
Proof.
  intros He Hn Hb. induction n as [|n IH]; intros pre k Hi; cbn [attempts]; [by apply Hn|].
  apply always_bind_res. eapply always_post; [|by apply Hb].
  intros tr [[a|]|e]; [done| |by intros; apply He]. intros Hi'. by apply IH.
Qed.

(** A predicate of the trace that later requests cannot falsify. *)
Definition stable (I : trace -> Prop) : Prop := forall tr tr', I tr -> I (tr ++ tr').

Lemma always_frame {A} (P : action -> Prop) (I : trace -> Prop) pre (p : prog A) :
  only P p -> (forall tr act r, P act -> ok tr (Ev act r)) -> stable I -> I pre ->
  always ok pre p (fun tr _ => I tr).
Proof. intros Hp Hok Hs Hi. eapply always_only; [exact Hp|exact Hok|]. intros tr' _ _. by apply Hs. Qed.

(** What holds of the trace when a program starts may be used at each of its requests. *)
Lemma always_with {A} (ok' : trace -> event -> Prop) (I : trace -> Prop) pre (p : prog A) Q :
  stable I -> I pre -> (forall tr e, I tr -> ok' tr e -> ok tr e) -> always ok' pre p Q ->
  always ok pre p (fun tr a => I tr /\ Q tr a).
Proof.
  intros Hs Hi Hok. revert pre Hi. induction p as [a|act k IH]; intros pre Hi; cbn; [done|].
  intros H r. destruct (H r). split; [by apply Hok|]. apply IH; [by apply Hs|done].
Qed.

(** [p] may be run after any trace. *)
Definition everywhere {A} (p : prog A) : Prop := forall pre, always ok pre p (fun _ _ => True).

Lemma everywhere_bind {A B} (p : prog A) (f : A -> prog B) :
  everywhere p -> (forall a, everywhere (f a)) -> everywhere (bind_prog p f).
Proof.
  intros Hp Hf pre. apply always_bind. eapply always_post; [|apply Hp]. intros tr a _. apply Hf.
Qed.

Lemma everywhere_bind_res {A B} (p : M A) (f : A -> M B) :
  everywhere p -> (forall a, everywhere (f a)) -> everywhere (bind_res p f).
Proof. intros Hp Hf. apply everywhere_bind; [done|]. intros [a|e]; [apply Hf|done]. Qed.

Lemma everywhere_only {A} (P : action -> Prop) (p : prog A) :
  (forall tr act r, P act -> ok tr (Ev act r)) -> only P p -> everywhere p.
Proof. intros Hok Hp pre. by eapply always_only. Qed.
End Always.

(** ** Footprints of passes *)

Section Pass.
Context (P : action -> Prop) {HR : Reads P} `{Sha256, HC : Codecs}.
Context (may_replace : forall ns n d, P (AReplace KDeployment ns n d))
  (may_create : forall ns d, P (ACreate KDeployment ns d))
  (may_apply : forall k ns n o, k <> KLease -> P (AApply k ns n o))
  (may_delete : forall k ns n, k <> KLease -> P (ADelete k ns n))
  (may_patch : forall ns n fs, P (APatchStatus ns n fs))
  (may_replace_status : forall ns n b, P (AReplaceStatus ns n b))
  (may_finalize : forall ns n fs, P (APatchFinalizers ns n fs))
  (may_forget : forall key, P (AStoreCleanup key)).

Lemma fp_update_status_phase b ns p : only P (update_status_phase b ns p).
Proof using HR may_replace_status. unfold update_status_phase. footprint. Qed.
Lemma fp_update_deferred b ns : only P (update_status_update_deferred b ns).
Proof using HR may_replace_status. unfold update_status_update_deferred. footprint. Qed.
#[local] Hint Resolve fp_update_status_phase fp_update_deferred : footprint.

Lemma generated_objects_leaseless b k n : (k, n) ∈ generated_objects b -> k <> KLease.
Proof using.
  unfold generated_objects. rewrite elem_of_app. intros [Hin|Hin].
  - apply list_elem_of_In, in_concat in Hin as (l & Hl & Hin).
    apply in_map_iff in Hl as (ip & <- & _). cbn in Hin. naive_solver.
  - destruct (bgs_test _); [|by apply not_elem_of_nil in Hin].
    unfold test_objects in Hin. rewrite !elem_of_cons in Hin.
    destruct Hin as [[= -> _]|[[= -> _]|[[= -> _]|Hin]]]; try done. by apply not_elem_of_nil in Hin.
Qed.

Lemma may_delete_generated b ns k n : (k, n) ∈ generated_objects b -> P (ADelete k (Some ns) n).
Proof using may_delete. intros Hk%generated_objects_leaseless. by apply may_delete. Qed.
#[local] Hint Resolve may_delete_generated : footprint.

Lemma fp_pass_cleanup_rollout b ns key : only P (cleanup_rollout b ns key).
Proof using HR may_delete may_forget. apply fp_cleanup_rollout; eauto with footprint. Qed.
#[local] Hint Resolve fp_pass_cleanup_rollout : footprint.

Lemma fp_cleanup_deleted b : only P (cleanup_deleted_bgd b).
Proof using HR may_delete may_forget may_finalize. unfold cleanup_deleted_bgd, remove_finalizer. footprint. Qed.
Lemma fp_rollback b ns auth : only P (begin_draining_after_rollback b ns auth).
Proof using HR may_replace may_delete may_replace_status may_patch.
  unfold begin_draining_after_rollback, delete_deployment. footprint.
Qed.
Lemma fp_finalize b ns auth f : only P (finalize_draining b ns auth f).
Proof using HR may_replace may_delete may_replace_status may_patch may_forget.
  unfold finalize_draining. apply only_bind_res; [footprint|intros _].
  apply only_bind_res; [apply fp_cleanup_inception_resources; eauto with footprint|intros _].
  apply only_bind_res; [apply fp_cleanup_test_resources; eauto with footprint|intros _]. footprint.
Qed.
#[local] Hint Resolve fp_cleanup_deleted fp_rollback fp_finalize : footprint.

Lemma fp_reconcile_phase b ns auth key p : only P (reconcile_phase b ns auth key p).
Proof.
  unfold reconcile_phase, reconcile_pending, reconcile_observing, reconcile_promoting,
    begin_draining_after_promotion, delete_current_green, reconcile_draining, publish_drain_counts.
  footprint.
Qed.
#[local] Hint Resolve fp_reconcile_phase : footprint.

Lemma fp_reconcile_locked b auth : only P (reconcile_locked b auth).
Proof.
  unfold reconcile_locked, ensure_finalizer, reset_status_for_new_rollout, patch_status, rollout_bgd,
    start_force_replace_rollout.
  footprint.
Qed.
#[local] Hint Resolve fp_reconcile_locked : footprint.

Lemma fp_with_latest ns name body : (forall b, only P (body b)) -> only P (with_latest ns name body).
Proof using HR. intros Hb. unfold with_latest. footprint. Qed.

Lemma fp_publish_error b ns e : only P (publish_reconcile_error_status b ns e).
Proof using HR may_replace_status may_patch.
  unfold publish_reconcile_error_status, update_status_invalid, update_status_reconcile_failure,
    patch_status. footprint.
Qed.

Lemma fp_publishing {A} b ns (p : M A) : only P p -> only P (publishing b ns p).
Proof using HR may_replace_status may_patch.
  intros Hp. unfold publishing. apply only_bind; [done|]. intros [a|e]; [done|].
  apply only_bind; [apply fp_publish_error|done].
Qed.

Lemma fp_deleted b ns : only P (reconcile_deleted b ns).
Proof.
  unfold reconcile_deleted. destruct (meta_name _); [|done].
  apply fp_publishing, fp_with_latest. intros latest. footprint.
Qed.

Lemma fp_pass_body ns n c : only P (with_latest ns n (fun latest => reconcile_locked latest (ctx_auth c))).
Proof. apply fp_with_latest. intros latest. footprint. Qed.
#[local] Hint Resolve fp_pass_body : footprint.

Context (may_write_lease : forall ns n l, P (AReplace KLease ns n l))
  (may_create_lease : forall ns l, P (ACreate KLease ns l)).

Lemma fp_under_lease b ns c : only P (reconcile_under_lease b ns c).
Proof.
  unfold reconcile_under_lease. apply fp_publishing, only_bind_res; [|by intros].
  unfold run_with_bgd_lease, run_with_lease, try_acquire_lease, lease_can_be_acquired. footprint.
  apply only_select_lost; try apply read_ok; footprint.
Qed.
End Pass.
