(* ===== verification/Outcomes.v ===== *)
(** * What a pass has done when it succeeds

    The rules of [Footprint] bound what a pass may request; these lemmas say what it
    has requested, and was answered, by the time it returns without an error. *)

From S2P Require Import Prelude RustString Float64 Kube Crd StateStore Effects External.
From S2P Require Import Strategy Promotion Status Names Lease Auth Deployments Plugins.
From S2P Require Import Resources PluginLifecycle Phases Controller Footprint.

Notation reaches := (always (fun _ _ => True)).

Lemma mem_app (e : event) tr tr' : e ∈ tr -> e ∈ tr ++ tr'.
Proof. rewrite elem_of_app. by left. Qed.
Lemma mem_last (e : event) tr : e ∈ tr ++ [e].
Proof. rewrite elem_of_app, list_elem_of_singleton. by right. Qed.
Lemma stable_and (I J : trace -> Prop) : stable I -> stable J -> stable (fun tr => I tr /\ J tr).
Proof. intros HI HJ tr tr' []. split; auto. Qed.
Lemma stable_mem (e : event) : stable (fun tr => e ∈ tr).
Proof. intros tr tr'. apply mem_app. Qed.
#[export] Hint Resolve mem_app mem_last stable_and stable_mem : outcomes.

(** ** Rules *)

Lemma reaches_any {A} (I : trace -> Prop) pre (p : prog A) :
  stable I -> I pre -> reaches pre p (fun tr _ => I tr).
Proof.
  intros Hs. revert pre. induction p as [a|act k IH]; intros pre Hi; cbn; [done|].
  intros r. split; [done|]. apply IH. by apply Hs.
Qed.

(** An outcome of a part whose requests are all harmless. *)
Lemma reaches_only {A} ok (P : action -> Prop) pre (p : prog A) Q :
  only P p -> (forall tr act r, P act -> ok tr (Ev act r)) -> reaches pre p Q -> always ok pre p Q.
Proof.
  intros Hp Hok. revert pre. induction p as [a|act k IH]; intros pre; cbn; [done|].
  intros H r. destruct Hp as [HP Hk], (H r). split; [by apply Hok|]. by apply IH.
Qed.

Lemma always_reaches {A} ok pre (p : prog A) Q Q' :
  always ok pre p Q -> reaches pre p Q' -> always ok pre p (fun tr a => Q tr a /\ Q' tr a).
Proof.
  revert pre. induction p as [a|act k IH]; intros pre; cbn; [done|].
  intros H H' r. destruct (H r), (H' r). split; [done|]. by apply IH.
Qed.

(** A step whose answer does not matter to the outcome. *)
Lemma reaches_skip {A B} (I : trace -> Prop) pre (p : prog A) (f : A -> prog B) Q :
  stable I -> I pre -> (forall tr a, I tr -> reaches tr (f a) Q) -> reaches pre (bind_prog p f) Q.
Proof.
  intros Hs Hi Hf. apply always_bind. eapply always_post; [|by apply (reaches_any I)].
  cbn. intros tr a. apply Hf.
Qed.

Lemma reaches_skip_res {A B} (I : trace -> Prop) pre (p : M A) (f : A -> M B) Q :
  stable I -> I pre -> (forall tr e, Q tr (Err e)) -> (forall tr a, I tr -> reaches tr (f a) Q) ->
  reaches pre (bind_res p f) Q.
Proof.
  intros Hs Hi He Hf. apply always_bind_res. eapply always_post; [|by apply (reaches_any I)].
  cbn. intros tr [a|e] Ht; [by apply Hf|apply He].
Qed.

(** [ends tr r P]: [P] holds of the trace of a pass that did not fail. *)
Definition ends {A} (P : trace -> Prop) (tr : trace) (r : result ReconcileError A) : Prop :=
  match r with Ok _ => P tr | Err _ => True end.

Lemma reaches_for_each {X} (xs : list X) (I : list X -> trace -> Prop) (body : X -> M unit) :
  (forall done x tr, I done tr -> reaches tr (body x) (ends (I (done ++ [x])))) ->
  forall pre, I [] pre -> reaches pre (for_each xs body) (ends (I xs)).
Proof.
  intros Hb. assert (forall todo done pre, I done pre ->
    reaches pre (for_each todo body) (ends (I (done ++ todo)))) as Hgo.
  { induction todo as [|x todo IH]; intros done pre Hi; cbn [for_each].
    - by rewrite app_nil_r.
    - apply always_bind_res. eapply always_post; [|by apply Hb].
      intros tr [[]|e]; [|done]. cbn. intros Hx. specialize (IH (done ++ [x]) tr Hx).
      by rewrite <- app_assoc in IH. }
  intros pre. apply (Hgo xs []).
Qed.

(** ** Deletions *)

(** The API server has confirmed that the object is being deleted, or that there is none. *)
Definition gone (ns : string) (o : kind * string) (tr : trace) : Prop :=
  exists answer, Ev (ADelete o.1 (Some ns) o.2) answer ∈ tr
    /\ (answer = Ok tt \/ exists e, answer = Err e /\ is_not_found e = true).

Lemma stable_gone ns o : stable (gone ns o).
Proof. intros tr tr' (a & ? & ?). exists a. auto using mem_app. Qed.
(** [I] holds and every object of [l] is gone. *)
Definition and_gone (I : trace -> Prop) (ns : string) (l : list (kind * string)) (tr : trace) : Prop :=
  I tr /\ forall o, o ∈ l -> gone ns o tr.

Lemma stable_and_gone I ns l : stable I -> stable (and_gone I ns l).
Proof. intros Hs tr tr' [Hi Hl]. split; [by apply Hs|]. intros o Ho. by apply stable_gone, Hl. Qed.

Lemma and_gone_nil (I : trace -> Prop) ns tr : I tr -> and_gone I ns [] tr.
Proof. intros Hi. split; [done|]. intros o Ho. by apply elem_of_nil in Ho. Qed.

Lemma deleted_gone (ns : string) k n (answer : result kube_error unit) pre :
  match deleted answer with Ok _ => gone ns (k, n) (pre ++ [Ev (ADelete k (Some ns) n) answer]) | Err _ => True end.
Proof.
  destruct answer as [[]|e]; cbn.
  - exists (Ok tt). split; [apply mem_last|by left].
  - destruct (is_not_found e) eqn:E; [|done].
    exists (Err e). split; [apply mem_last|right; by exists e].
Qed.

Lemma reaches_delete I l k ns n pre :
  stable I -> and_gone I ns l pre ->
  reaches pre (delete_resource k (Some ns) n) (ends (and_gone I ns (l ++ [(k, n)]))).
Proof.
  intros Hs Hi. apply always_bind, always_request. intros answer. split; [done|].
  pose proof (deleted_gone ns k n answer pre) as Hd.
  destruct (deleted answer) as [[]|]; [|done]. cbn. split; [by apply Hs, Hi|].
  intros o [Ho| ->%list_elem_of_singleton]%elem_of_app; [|done]. by apply stable_gone, Hi.
Qed.

Lemma reaches_delete_then {B} I l k ns n pre (f : unit -> M B) P :
  stable I -> and_gone I ns l pre ->
  (forall tr, and_gone I ns (l ++ [(k, n)]) tr -> reaches tr (f tt) (ends P)) ->
  reaches pre (bind_res (delete_resource k (Some ns) n) f) (ends P).
Proof.
  intros Hs Hi Hf. apply always_bind_res. eapply always_post; [|by apply (reaches_delete I l)].
  intros tr [[]|e]; [apply Hf|done].
Qed.

(** A wait after the deletions keeps them. *)
Lemma reaches_wait {A} I l ns (p : M unit) (wait : M A) pre :
  stable I -> reaches pre p (ends (and_gone I ns l)) ->
  reaches pre (bind_res p (fun _ => wait)) (ends (and_gone I ns l)).
Proof.
  intros Hs Hp. apply always_bind_res. eapply always_post; [|exact Hp]. intros tr [[]|]; [|done].
  intros Hr. eapply always_post; [|by apply (reaches_any (and_gone I ns l)); [apply stable_and_gone|]].
  by intros tr' [a|e].
Qed.

Section Cleanup.
Context `{Sha256, HC : Codecs}.

Lemma inception_resources_gone I l b ns pre :
  stable I -> and_gone I ns l pre ->
  reaches pre (cleanup_inception_resources b ns)
    (ends (and_gone I ns (l ++ concat (map (inception_objects b) (bgs_inception_points (bgd_spec b)))))).
Proof.
  intros Hs Hi. unfold cleanup_inception_resources. apply reaches_wait; [done|].
  apply (reaches_for_each _ (fun done => and_gone I ns (l ++ concat (map (inception_objects b) done)))).
  - intros done ip tr Hj. unfold delete_deployment, delete_service, delete_config_map, delete_secret.
    do 3 (eapply reaches_delete_then; [done|exact Hj|]; clear tr Hj; intros tr Hj).
    eapply always_post; [|eapply reaches_delete; [done|exact Hj]].
    intros tr' r. rewrite map_app, concat_app. cbn. by rewrite <- !app_assoc.
  - cbn. by rewrite app_nil_r.
Qed.

Lemma test_resources_gone I l b ns pre :
  stable I -> and_gone I ns l pre ->
  reaches pre (cleanup_test_resources b ns)
    (ends (and_gone I ns (l ++ match bgs_test (bgd_spec b) with Some t => test_objects b t | None => [] end))).
Proof.
  intros Hs Hi. unfold cleanup_test_resources. apply reaches_wait; [done|].
  destruct (bgs_test (bgd_spec b)) as [t|]; [|cbn; by rewrite app_nil_r].
  unfold delete_deployment, delete_service, delete_secret. revert pre Hi. intros tr Hj.
  do 2 (eapply reaches_delete_then; [done|exact Hj|]; clear tr Hj; intros tr Hj).
  eapply always_post; [|eapply reaches_delete; [done|exact Hj]].
  intros tr' r. cbn. by rewrite <- !app_assoc.
Qed.
End Cleanup.

(** ** Phase updates *)

(** The phase was put to the API server: the status was read, and written with
    the phase when the transition was admitted. *)
Definition phase_requested (b : BlueGreenDeployment) (ns : string) (q : BGDPhase) (tr : trace) : Prop :=
  forall name, meta_name (bgd_metadata b) = Some name ->
  exists answer, Ev (AGetStatus ns name) answer ∈ tr
    /\ forall latest, answer = Ok latest ->
       phase_update_is_current latest q (current_rollout_generation b) = true ->
       exists b' w, bgd_phase b' = Some q /\ Ev (AReplaceStatus ns name b') w ∈ tr.

Lemma stable_phase_requested b ns q : stable (phase_requested b ns q).
Proof.
  intros tr tr' Hp name Hn. destruct (Hp name Hn) as (a & Ha & Hw). exists a. split; [by apply mem_app|].
  intros latest E Hc. destruct (Hw latest E Hc) as (b' & w & ? & ?). exists b', w. auto using mem_app.
Qed.
#[export] Hint Resolve stable_phase_requested : outcomes.

Lemma reaches_update_status_phase (I : trace -> Prop) b ns q pre :
  stable I -> I pre ->
  reaches pre (update_status_phase b ns q) (fun tr _ => I tr /\ phase_requested b ns q tr).
Proof.
  intros Hs Hi. unfold update_status_phase, if_named, phase_requested.
  destruct (meta_name (bgd_metadata b)) as [name|]; [|by split].
  apply always_bind, always_request. intros answer. split; [done|].
  destruct answer as [latest|e].
  - destruct (phase_update_is_current latest q (current_rollout_generation b)) eqn:Ec; cbn [negb].
    + apply always_bind, always_request. intros now. split; [done|].
      apply always_bind, always_request. intros w. split; [done|]. split; [by repeat apply Hs|].
      intros ? [= <-]. exists (Ok latest). split; [apply mem_app, mem_app, mem_last|].
      intros ? [= <-] _. eexists _, w. split; [|apply mem_last]. done.
    + split; [by apply Hs|]. intros ? [= <-]. exists (Ok latest). split; [apply mem_last|].
      intros ? [= <-]. by rewrite Ec.
  - split; [by apply Hs|]. intros ? [= <-]. exists (Err e). split; [apply mem_last|done].
Qed.
