(* ===== verification/ControllerTheorems.v ===== *)
(** * The phase machine of the reconciler

    What a pass can do to the phase, and what a phase update of
    [operator/src/controller/status.rs] can write, whatever other writers do to the object
    meanwhile. *)

From S2P Require Import Prelude RustString Float64 Kube Crd StateStore MemoryStore Effects External.
From S2P Require Import Strategy Promotion Status World Names Lease Auth Deployments Plugins.
From S2P Require Import Resources PluginLifecycle Phases Controller Footprint Outcomes.

(** ** A concrete rollout *)

Definition sample_auth : AuthConfig :=
  {| signing_secret_namespace := "fluidbg-system"; signing_secret_name := "signing";
     signing_secret_key := "key" |}.

Definition one_case : PromotionSpec :=
  hard_switch_promotion
    (Some {| dp_min_test_cases := Some 1; dp_success_rate := None; dp_timeout_seconds := None |}) None.

(** The sample deployment in a phase, with its candidate's name. *)
Definition in_phase (p : BGDPhase) : BlueGreenDeployment :=
  let b := sample_bgd (Some one_case) in
  with_status {| st_phase := Some p; st_generated_deployment_name := Some "orders-candidate";
     st_observed_generation := Some 1; st_rollout_generation := Some 1; st_test_cases_observed := None;
     st_test_cases_passed := None; st_test_cases_failed := None; st_test_cases_pending := None;
     st_test_cases_timed_out := None; st_current_success_rate := None;
     st_last_failure_message := None; st_current_traffic_percent := None; st_current_step := None;
     st_started_at := None; st_last_case_at := None; st_drain_started_at := None;
     st_inception_point_drains := []; st_conditions := [] |} b.

Definition sample_deployment (name : string) (ls : labels) : Deployment :=
  {| dep_metadata := named_meta name (Some "apps") (Some ls); dep_spec := Some empty_deployment_spec;
     dep_status := Some {| dst_observed_generation := None; dst_updated_replicas := Some 1;
                           dst_available_replicas := Some 1 |} |}.

(** A green deployment, the candidate, and one test case that failed or passed. *)
Definition rollout_world (p : BGDPhase) (passed : bool) : world :=
  let case := {| test_id := "t1"; blue_green_ref := "apps/orders"; triggered_at := 0;
                 source_inception_point := "ip"; timeout := 1000; status := Triggered; verdict := None;
                 verification_mode := Data; verify_url := "http://test"; verifier_auth_token := "";
                 retries_remaining := 0; failure_message := None |} in
  let s := (Memory.register case Memory.new).2 in
  let s := (Memory.set_verdict "apps/orders" "t1" passed None s).2 in
  set_store s
    (set_deployments
       {[("apps", "orders-green") := sample_deployment "orders-green" {["app" := "orders"; green_label := "true"]};
         ("apps", "orders-candidate") := sample_deployment "orders-candidate"
            {["app" := "orders"; green_label := "false"; ref_label := "orders"; uid_label := "uid-1"]}]}
       (set_bgds {[("apps", "orders") := in_phase p]} empty_world)).

(** The phases a trace writes. *)
Definition phase_writes (tr : trace) : list BGDPhase := omap (fun e => written_phase (act_of e)) tr.
(** The deployments a trace deletes. *)
Definition deployment_deletes (tr : trace) : list (scope * string) :=
  omap (fun e => match act_of e with ADelete KDeployment ns n => Some (ns, n) | _ => None end) tr.

(** ** Phase writes *)

(** The edges of the phase machine. *)
Definition rollout_edge (p q : BGDPhase) : bool :=
  match p, q with
  | Pending, (Observing | Completed) => true
  | Observing, (Promoting | Draining) => true
  | Promoting, Draining => true
  | Draining, (Completed | RolledBack) => true
  | _, _ => false
  end.

Definition phase_of (b : BlueGreenDeployment) : BGDPhase := unwrap_or Pending (bgd_phase b).

(** An active rollout of an older generation that its policy asks to replace. *)
Definition superseded (b : BlueGreenDeployment) : Prop :=
  bgs_update_policy (bgd_spec b) ≫= up_active_rollout = Some ForceReplace
  /\ 0 < rollout_generation_of b < generation_of b
  /\ phase_of b ∉ [Draining; Completed; RolledBack].

Lemma should_start_superseded b :
  should_start_force_replace_rollout b (phase_of b) = true <-> superseded b.
Proof.
  unfold should_start_force_replace_rollout, force_replace_active_rollout,
    active_rollout_has_new_spec_generation, superseded.
  rewrite !andb_true_iff, negb_true_iff, bool_decide_eq_false, !not_elem_of_cons.
  assert (match bgs_update_policy (bgd_spec b) ≫= up_active_rollout with Some ForceReplace => true | _ => false end
            = true <-> bgs_update_policy (bgd_spec b) ≫= up_active_rollout = Some ForceReplace) as ->
    by (destruct (bgs_update_policy (bgd_spec b) ≫= up_active_rollout) as [[]|]; naive_solver).
  assert (phase_of b ∉ []) by apply not_elem_of_nil.
  destruct (phase_of b); rewrite ?andb_true_iff, ?Z.ltb_lt; naive_solver.
Qed.

(** The phases a pass over [b] may ask for: the drain of a rollout that is being
    replaced, or an edge of the machine. *)
Definition next_phase (b : BlueGreenDeployment) (q : BGDPhase) : Prop :=
  (superseded b /\ q = Draining) \/ (~ superseded b /\ rollout_edge (phase_of b) q = true).

Lemma next_phase_if b q :
  (if should_start_force_replace_rollout b (phase_of b) then q = Draining
   else rollout_edge (phase_of b) q = true) -> next_phase b q.
Proof.
  unfold next_phase. rewrite <- should_start_superseded.
  destruct (should_start_force_replace_rollout b (phase_of b)); auto.
Qed.

(** What a pass over [b] may write to a status: a replacement of a status it has
    read before, resource version included, that keeps its phase or moves it along
    an edge the transition check admits; and patches that leave the phase alone,
    except for the reset to [Pending] when a terminal rollout restarts. *)
Definition status_write_ok (b : BlueGreenDeployment) (tr : trace) (e : event) : Prop :=
  match e with
  | Ev (AReplaceStatus ns name b') _ =>
      exists latest, Ev (AGetStatus ns name) (Ok latest) ∈ tr /\
        bgd_metadata b' = bgd_metadata latest /\ bgd_spec b' = bgd_spec latest /\
        (bgd_phase b' = bgd_phase latest \/
         exists q, bgd_phase b' = Some q /\ next_phase b q /\
           phase_update_is_current latest q (current_rollout_generation b) = true)
  | Ev (APatchStatus _ _ fields) _ =>
      forall q, field_phase fields = Some q ->
        q = Pending /\ phase_is_terminal (phase_of b) = true /\ observed_generation_of b < generation_of b
  | _ => True
  end.

Section Edges.
Context `{Sha256, HC : Codecs}.

#[local] Instance no_phase_write_reads : Reads no_phase_write.
Proof. by intros []. Qed.

Lemma no_phase_write_ok b tr act r : no_phase_write act -> status_write_ok b tr (Ev act r).
Proof. destruct act; cbn; try done. intros ->. done. Qed.

Notation keeps b p := (everywhere (status_write_ok b) p).

Lemma keeps_no_phase_write {A} b (p : prog A) : only no_phase_write p -> keeps b p.
Proof. apply everywhere_only. intros. by apply no_phase_write_ok. Qed.

Lemma keeps_update_status_phase b b' ns q :
  bgd_metadata b' = bgd_metadata b -> bgd_status b' = bgd_status b -> next_phase b q ->
  keeps b (update_status_phase b' ns q).
Proof.
  intros Hm Hs Hq pre. eapply always_weaken; [|done|apply (update_status_phase_writes b' ns q)].
  intros tr [act r]. destruct act; cbn -[phase_update_is_current]; try done; [|by intros ->].
  intros (latest & Hl & -> & Hn & Hc & ? & ? & ? & ?). exists latest. split_and!; try done.
  right. exists q. split_and!; try done. unfold current_rollout_generation in *. by rewrite <- Hm, <- Hs.
Qed.

Lemma keeps_update_deferred b b' ns : keeps b (update_status_update_deferred b' ns).
Proof.
  intros pre. unfold update_status_update_deferred, if_named. destruct (meta_name _) as [name|]; [|done].
  cbn. intros [latest|e]; split; try done. cbn. intros now. split; [done|]. intros r. split; [|done].
  exists latest. split_and!; try done.
  - rewrite !elem_of_app, !list_elem_of_singleton. auto.
  - left. unfold bgd_phase. cbn. unfold status_or_default. by destruct (bgd_status latest).
Qed.

Ltac keeps_step :=
  first
    [ solve [apply keeps_no_phase_write; footprint]
    | apply everywhere_bind_res; [|intros ?]
    | apply everywhere_bind; [|intros ?]
    | match goal with |- everywhere _ (match ?x with _ => _ end) => destruct x eqn:? end ].

Hint Extern 1 (no_phase_write _) => (exact I || assumption) : footprint.

(** What a snapshot gives back is the same object with another specification. *)
Definition same_object (b b' : BlueGreenDeployment) : Prop :=
  bgd_metadata b' = bgd_metadata b /\ bgd_status b' = bgd_status b.

Lemma load_same_object b b0 ns pre :
  always (status_write_ok b0) pre (load_rollout_spec_snapshot b ns)
    (fun _ r => match r with Ok b' => same_object b b' | Err _ => True end).
Proof.
  unfold load_rollout_spec_snapshot. intros [snapshot|e]; split; try done. cbn.
  destruct (cm_data snapshot ≫= _); cbn; [|done]. by destruct (spec_of_yaml _).
Qed.

Lemma keeps_start_force_replace b ns auth :
  should_start_force_replace_rollout b (phase_of b) = true ->
  keeps b (start_force_replace_rollout b ns auth).
Proof.
  intros Hf pre. unfold start_force_replace_rollout. apply always_bind.
  eapply always_post; [|apply load_same_object]. intros tr loaded Hl. cbv zeta beta in Hl |- *.
  set (b' := match loaded with Ok frozen => frozen | Err _ => b end).
  assert (same_object b b') as [Hm Hs] by (subst b'; destruct loaded; done).
  clearbody b'. revert tr Hl. intros tr _. revert tr.
  change (keeps b (do? begin_draining_after_rollback b' ns auth ;;
                   do! update_status_phase b' ns Draining ;;
                   do! update_drain_started_at b' ns ;; ok tt)).
  unfold begin_draining_after_rollback, delete_deployment.
  keeps_step; [keeps_step|]. keeps_step.
  { apply keeps_update_status_phase; [done|done|]. apply next_phase_if. by rewrite Hf. }
  keeps_step.
Qed.

Lemma keeps_rollout_bgd b ns auth pre :
  always (status_write_ok b) pre (rollout_bgd b ns auth (phase_of b))
    (fun _ r => match r with
                | Ok (Some b') => same_object b b' /\ should_start_force_replace_rollout b (phase_of b) = false
                | _ => True end).
Proof.
  unfold rollout_bgd.
  destruct (active_rollout_has_new_spec_generation b (phase_of b)) eqn:Ea.
  - destruct (should_start_force_replace_rollout b (phase_of b)) eqn:Ef.
    + apply always_bind_res. eapply always_post; [|by apply keeps_start_force_replace].
      by intros tr [].
    + apply always_bind. eapply (always_post _ _ _ (fun _ _ => True)).
      * intros tr _ _. apply always_bind_res. eapply always_post; [|apply load_same_object].
        intros tr' [b'|e] Hb; [|done]. done.
      * revert pre. change (keeps b (if force_replace_active_rollout b then Ret tt
                                     else update_status_update_deferred b ns)).
        destruct (force_replace_active_rollout b); [by intros pre|apply keeps_update_deferred].
  - cbn. split; [done|]. unfold should_start_force_replace_rollout. by rewrite Ea, andb_false_r.
Qed.

Lemma keeps_reconcile_phase b b' ns auth key :
  same_object b b' -> should_start_force_replace_rollout b (phase_of b) = false ->
  keeps b (reconcile_phase b' ns auth key (phase_of b)).
Proof.
  intros [Hm Hs] Hf.
  assert (forall q, rollout_edge (phase_of b) q = true -> keeps b (update_status_phase b' ns q)) as Hq.
  { intros q Hq. apply keeps_update_status_phase; [done|done|]. apply next_phase_if. by rewrite Hf. }
  unfold reconcile_phase. destruct (phase_of b) eqn:Ep; cbn [rollout_edge] in Hq.
  - unfold reconcile_pending. repeat first [by apply Hq | keeps_step].
  - unfold reconcile_observing, begin_draining_after_rollback, delete_deployment.
    repeat first [by apply Hq | keeps_step].
  - unfold reconcile_promoting, begin_draining_after_promotion, delete_current_green.
    repeat first [by apply Hq | keeps_step].
  - unfold reconcile_draining, publish_drain_counts, finalize_draining, final_phase.
    repeat first [apply Hq; by destruct (_ || _)%bool | keeps_step].
  - repeat keeps_step.
  - repeat keeps_step.
  - repeat keeps_step.
Qed.

Lemma needs_restart b :
  rollout_needs_restart b (phase_of b) = true ->
  phase_is_terminal (phase_of b) = true /\ observed_generation_of b < generation_of b.
Proof. unfold rollout_needs_restart. destruct (phase_of b); try done; intros ?; split; [done|lia|done|lia|done|lia]. Qed.

(** C1. The phase machine.  Whatever the API server, the plugins and the store
    answer, one pass over a [BlueGreenDeployment] never moves its phase except
    along the edges of the machine (Pending to Observing or Completed, Observing
    to Promoting or Draining, Promoting to Draining, Draining to Completed or
    RolledBack, or only to Draining when the policy replaces the active rollout of
    an older generation), always by
    replacing a status it has read, which the transition check admitted; the only
    other phase write is the reset to Pending of a terminal rollout whose
    specification has a newer generation. *)
Theorem phase_machine b auth tr r
    (He : exec (reconcile_locked b auth) tr r) :
  forall tr1 e tr2, tr = tr1 ++ e :: tr2 -> status_write_ok b tr1 e.
Proof.
  assert (keeps b (reconcile_locked b auth)) as Hk.
  { unfold reconcile_locked. keeps_step; [by intros pre|]. fold (phase_of b).
    destruct (is_some _); [unfold cleanup_deleted_bgd, remove_finalizer; repeat keeps_step|].
    destruct (negb _); [unfold ensure_finalizer; repeat keeps_step|].
    destruct (rollout_needs_restart b (phase_of b)) eqn:Er.
    - keeps_step; [keeps_step|]. apply everywhere_bind; [|intros _; keeps_step].
      unfold reset_status_for_new_rollout, if_named. destruct (meta_name _); [|by intros pre].
      intros pre. cbn. intros now. split; [done|]. intros answer. split; [|done].
      intros q [= <-]. split; [done|]. by apply needs_restart.
    - intros pre. apply always_bind_res. eapply always_post; [|apply keeps_rollout_bgd].
      intros tr' [[b'|]|e]; [|done|done]. intros [Hb Hf]. by apply keeps_reconcile_phase. }
  intros tr1 e tr2 Htr. destruct (always_sound _ _ _ [] tr r (Hk []) He) as [_ H2].
  by apply (H2 tr1 e tr2).
Qed.
End Edges.

Lemma phase_machine_witness :
  let p := @reconcile_locked sample_sha256 sample_codecs (in_phase Observing) sample_auth in
  let w := rollout_world Observing false in
  phase_writes (trace_in p w) = [Draining] /\
  forall tr1 e tr2, trace_in p w = tr1 ++ e :: tr2 -> status_write_ok (in_phase Observing) tr1 e.
Proof.
  intros p w. split; [vm_compute; reflexivity|].
  exact (@phase_machine sample_sha256 sample_codecs (in_phase Observing) sample_auth
           (trace_in p w) (result_in p w) (exec_in p w)).
Defined.

(** ** Status updates under concurrency *)

Definition is_status_write (e : event) : bool :=
  match act_of e with AReplaceStatus _ _ _ | APatchStatus _ _ _ => true | _ => false end.

Lemma update_status_phase_once bgd ns p tr :
  exec (update_status_phase bgd ns p) tr tt -> (length (List.filter is_status_write tr) <= 1)%nat.
Proof.
  unfold update_status_phase, if_named. destruct (meta_name (bgd_metadata bgd)) as [name|]; [|intros [-> _]; cbn; lia].
  rewrite exec_request. intros (r & tr1 & -> & H1). cbn [List.filter is_status_write act_of].
  destruct r as [latest|e]; [|destruct H1 as [-> _]; cbn; lia].
  destruct (negb _); [destruct H1 as [-> _]; cbn; lia|].
  apply exec_request in H1 as (now & tr2 & -> & H2). apply exec_request in H2 as (w & tr3 & -> & -> & _).
  cbn. lia.
Qed.

(** Whatever the API server answers, a phase update writes the status at most once, on top of the
    object it has just read (metadata with its resource version and spec unchanged), sets exactly
    the requested phase and the rollout's generation, and does so only when the transition from
    the phase and generation just read is admitted.  And it does write when the status was read
    and the transition is admitted. *)
Theorem update_status_phase_guarded (bgd : BlueGreenDeployment) (ns : string) (p : BGDPhase)
    (tr : trace) (He : exec (update_status_phase bgd ns p) tr tt) :
  (forall tr1 e tr2, tr = tr1 ++ e :: tr2 -> phase_write_ok bgd ns p tr1 e)
  /\ (length (List.filter is_status_write tr) <= 1)%nat
  /\ phase_requested bgd ns p tr.
Proof.
  split_and!; [|by eapply update_status_phase_once|].
  - exact (proj2 (always_sound _ _ _ [] tr tt (update_status_phase_writes bgd ns p []) He)).
  - assert (reaches [] (update_status_phase bgd ns p) (fun tr _ => True /\ phase_requested bgd ns p tr)) as Ha
      by (by apply (reaches_update_status_phase (fun _ => True))).
    exact (proj2 (proj1 (always_sound _ _ _ [] tr tt Ha He))).
Qed.

Definition sample_world : world :=
  set_bgds {[("apps", "orders") := sample_bgd None]} empty_world.

Lemma update_status_phase_guarded_witness :
  let tr := trace_in (update_status_phase (sample_bgd None) "apps" Observing) sample_world in
  length tr = 3%nat /\
  (forall tr1 e tr2, tr = tr1 ++ e :: tr2 -> phase_write_ok (sample_bgd None) "apps" Observing tr1 e) /\
  (length (List.filter is_status_write tr) <= 1)%nat /\
  phase_requested (sample_bgd None) "apps" Observing tr.
Proof.
  split; [vm_compute; reflexivity|].
  apply (update_status_phase_guarded (sample_bgd None) "apps" Observing).
  exact (exec_in (update_status_phase (sample_bgd None) "apps" Observing) sample_world).
Defined.
