(* ===== verification/LeaseExclusion.v ===== *)
(** * Operators exclude each other

    Any number of operators run passes and renewals against one lease, their
    requests interleaved in any order.  The API server and the clock are a parameter
    ([LeaseApi]) with the documented behaviour the code relies on ([LeaseApiLaws]):
    optimistic concurrency on the lease object, and one clock that does not run
    backwards.  The terms of two operators never overlap. *)

From S2P Require Import Prelude RustString Float64 Kube Crd StateStore Effects External Status.
From S2P Require Import World Names Lease Strategy Promotion Auth Deployments Plugins Resources.
From S2P Require Import PluginLifecycle Phases Controller Footprint LeaseTheorems.
From S2P Require Import ControllerTheorems.

Definition version (l : Lease) : option string := meta_resource_version (lease_metadata l).

(** [stamped h t d l]: the lease [l] is held by [h] since its renewal at [t], for [d] seconds. *)
Definition stamped (h : string) (t d : Z) (l : Lease) : Prop :=
  exists spec, lease_spec_of l = Some spec /\ ls_holder_identity spec = Some h
    /\ ls_renew_time spec = Some t /\ ls_duration_seconds spec = Some d.

(** ** The API server *)

Section OneLease.
Context (ns name : string).

(** The lease a request asks to store. *)
Definition lease_write (act : action) : option Lease :=
  match act with
  | AReplace KLease (Some ns') n l => if (String.eqb ns' ns && String.eqb n name)%bool then Some l else None
  | ACreate KLease (Some ns') l =>
      if (String.eqb ns' ns && bool_decide (meta_name (lease_metadata l) = Some name))%bool then Some l else None
  | _ => None
  end.
Definition is_create (act : action) : bool := match act with ACreate _ _ _ => true | _ => false end.

(** Requests that could remove or overwrite a lease without a version. *)
Definition destroys_lease (act : action) : Prop :=
  match act with ADelete KLease _ _ | AApply KLease _ _ _ => True | _ => False end.

Definition answered_ok (act : action) : reply act -> bool :=
  match act as a return reply a -> bool with
  | AReplace _ _ _ _ | ACreate _ _ _ => is_ok
  | _ => fun _ => false
  end.

Record LeaseApi := {
  srv : Type;
  stored : srv -> option Lease;
  clock : srv -> Z;
  (** the resource versions given out so far *)
  issued : srv -> string -> Prop;
  serve : srv -> forall act, reply act -> srv -> Prop }.

Section Api.
Context (api : LeaseApi).

(** A creation asks that there be no object, a replacement with a resource version
    that the object still have it; the object stored gets a new version. *)
Definition accepted (s : srv api) (act : action) (l : Lease) (s' : srv api) : Prop :=
  (if is_create act then stored api s = None
   else forall v, version l = Some v -> exists old, stored api s = Some old /\ version old = Some v)
  /\ exists new v, stored api s' = Some new /\ lease_spec_of new = lease_spec_of l
       /\ version new = Some v /\ ~ issued api s v /\ issued api s' v.

(** A write answered with an error may have been applied or not. *)
Class LeaseApiLaws : Prop := {
  clock_advances s act r s' : serve api s act r s' -> clock api s <= clock api s';
  clock_is_read s t s' : serve api s ANow t s' -> clock api s <= t <= clock api s';
  versions_kept s act r s' v : serve api s act r s' -> issued api s v -> issued api s' v;
  get_is_current s l s' : serve api s (AGet KLease (Some ns) name) (Ok l) s' -> stored api s = Some l;
  store_changes s act r s' : serve api s act r s' -> ~ destroys_lease act ->
    stored api s' = stored api s \/ exists l, lease_write act = Some l /\ accepted s act l s';
  write_answered s act r s' l : serve api s act r s' -> lease_write act = Some l ->
    answered_ok act r = true -> accepted s act l s' }.
End Api.

(** ** Programs that respect the lease *)

(** A lease is written on top of the lease read before, when that was free, and with the
    time read last. *)
Definition guarded_write (c : LeaseConfig) (tr : trace) (e : event) : Prop :=
  ~ destroys_lease (act_of e) /\
  forall l, lease_write (act_of e) = Some l ->
  exists transitions acquired now tr0,
    lease_spec_of l = Some (lease_spec c transitions acquired now)
    /\ if is_create (act_of e) then tr = tr0 ++ [Ev ANow now]
       else exists read checked,
         tr = tr0 ++ Ev (AGet KLease (Some ns) name) (Ok read) :: clock_read checked ++ [Ev ANow now]
         /\ version l = version read /\ free_for c checked read.

Definition respects_lease {A} (c : LeaseConfig) (p : prog A) : Prop :=
  forall pre, always (guarded_write c) pre p (fun _ _ => True).

Definition no_lease_write (act : action) : Prop := ~ destroys_lease act /\ lease_write act = None.

Lemma no_lease_write_guarded c tr act r : no_lease_write act -> guarded_write c tr (Ev act r).
Proof. intros [Hd Hw]. split; [done|]. cbn. by rewrite Hw. Qed.
Lemma now_guarded c tr now : guarded_write c tr (Ev ANow now).
Proof. apply no_lease_write_guarded. by split; [intros ?|]. Qed.
Lemma get_guarded c tr r : guarded_write c tr (Ev (AGet KLease (Some ns) name) r).
Proof. apply no_lease_write_guarded. by split; [intros ?|]. Qed.

Lemma free_check_respects c pre lease (Q : trace -> bool -> Prop) :
  (forall checked, free_for c checked lease -> Q (pre ++ clock_read checked) true) ->
  (forall tr, Q tr false) ->
  always (guarded_write c) pre (lease_can_be_acquired lease c) Q.
Proof.
  intros Ht Hf. assert (only (fun act => act = ANow) (lease_can_be_acquired lease c)) as Ho
    by (unfold lease_can_be_acquired; repeat case_match; cbn; auto).
  assert (forall tr r, exec (lease_can_be_acquired lease c) tr r -> Q (pre ++ tr) r) as Hq.
  { intros tr [] He; [|apply Hf]. apply can_be_acquired_free in He as (checked & Hfree & ->). by apply Ht. }
  clear Ht Hf. revert pre Hq. induction (lease_can_be_acquired lease c) as [a|act k IH]; intros pre Hq; cbn.
  - specialize (Hq [] a). rewrite app_nil_r in Hq. by apply Hq.
  - cbn in Ho. destruct Ho as [-> Ho]. intros r. split; [apply now_guarded|]. apply IH; [apply Ho|].
    intros tr a He. rewrite <- app_assoc. apply Hq. by exists r.
Qed.

Lemma acquire_respects owner c : respects_lease c (try_acquire_lease ns name owner c).
Proof.
  intros pre. unfold try_acquire_lease. apply always_bind, always_request.
  intros [read|e]; (split; [apply get_guarded|]).
  - apply always_bind. apply free_check_respects; [|done]. intros checked Hfree. cbn [negb].
    apply always_bind, always_request. intros now. split; [apply now_guarded|].
    apply always_bind, always_request. intros w. split; [|done]. split; [by intros ?|].
    cbn. rewrite !String.eqb_refl. intros l [= <-].
    eexists _, true, now, pre. split; [done|]. exists read, checked. split; [|done].
    by rewrite <- !app_assoc.
  - destruct (is_not_found e); [|done].
    apply always_bind, always_request. intros now. split; [apply now_guarded|].
    apply always_bind, always_request. intros w. split; [|done]. split; [by intros ?|].
    cbn. rewrite String.eqb_refl, bool_decide_eq_true_2 by done. intros l [= <-].
    by eexists _, true, now, _.
Qed.

Lemma renew_respects c : respects_lease c (renew_lease ns name c).
Proof.
  intros pre. unfold renew_lease. apply always_bind_res, always_k8s, always_request.
  intros [read|e]; (split; [apply get_guarded|]); [|done]. cbn [map_err].
  destruct (held_by read c) eqn:Eh; cbn [negb]; [|done].
  apply always_bind, always_request. intros now. split; [apply now_guarded|].
  apply always_bind_res, always_k8s, always_request. intros w. split; [|by destruct w].
  split; [by intros ?|]. cbn. rewrite !String.eqb_refl. intros l [= <-].
  eexists _, false, now, pre. split; [done|]. exists read, None. split; [by rewrite <- app_assoc|].
  split; [done|]. unfold free_for, held_by in *. apply bool_decide_eq_true in Eh.
  destruct (lease_spec_of read); [by left|done].
Qed.

(** A pass whose own requests leave leases alone. *)
Lemma run_with_lease_respects {A} owner c (future : M A) :
  only no_lease_write future -> respects_lease c (run_with_lease ns name owner c future).
Proof.
  intros Hf pre. unfold run_with_lease. apply always_bind_res.
  eapply always_post; [|apply acquire_respects]. intros tr [[]|e] _; [|done..]. cbn [negb].
  apply always_bind. eapply always_post; [|apply (always_only _ no_lease_write _ _ (fun _ _ => True));
    [|intros; by apply no_lease_write_guarded|done]]; [by intros tr' [[a|e]|] _|].
  apply only_select_lost; [by split; [intros ?|]..|done].
Qed.

(** ** The system of all operators *)

Lemma always_partial {A} ok pre (p : prog A) Q tr e :
  always ok pre p Q -> partial p (tr ++ [e]) -> ok (pre ++ tr) e.
Proof.
  revert pre p. induction tr as [|e' tr IH]; intros pre [a|act k] Ha Hp; try done.
  - destruct Hp as (r & -> & _). rewrite app_nil_r. by destruct (Ha r).
  - destruct Hp as (r & -> & Hp). destruct (Ha r) as [_ Hk].
    specialize (IH _ _ Hk Hp). by rewrite <- app_assoc in IH.
Qed.

Section System.
Context (api : LeaseApi) `{!LeaseApiLaws api}.

(** Each run is one pass, or one renewal, of the operator that [operator k] configures. *)
Context (operator : nat -> LeaseConfig) (runs : nat -> prog unit).

Record sys := { server : srv api; traces : nat -> trace }.

Definition serve_run (k : nat) (e : event) (s' : srv api) (s : sys) : sys :=
  {| server := s'; traces := fun k' => if Nat.eqb k' k then traces s k' ++ [e] else traces s k' |}.

(** Some run makes its next request. *)
Inductive step : sys -> sys -> Prop :=
| step_run s k act r s' :
    partial (runs k) (traces s k ++ [Ev act r]) -> serve api (server s) act r s' ->
    step s (serve_run k (Ev act r) s' s).

(** From an API server without the lease. *)
Inductive reachable : sys -> Prop :=
| reachable_init s0 : stored api s0 = None -> reachable {| server := s0; traces := fun _ => [] |}
| reachable_step s s' : reachable s -> step s s' -> reachable s'.

(** A write of the lease that the API server confirmed. *)
Definition wrote (tr : trace) (l : Lease) : Prop :=
  exists act r, Ev act r ∈ tr /\ lease_write act = Some l /\ answered_ok act r = true.

(** *** The invariant *)

(** [l'] may come after [l]: the same holder, or another one after the term of [l]. *)
Definition follows (l l' : Lease) : Prop :=
  forall h t d h' t' d', stamped h t d l -> stamped h' t' d' l' ->
    t <= t' /\ (h = h' \/ t + d * 1000 <= t').

(** A reading of the clock is not earlier than the readings and the leases before it. *)
Definition ordered (tr : trace) : Prop :=
  forall tr1 t tr2, tr = tr1 ++ Ev ANow t :: tr2 ->
    (forall t', Ev ANow t' ∈ tr1 -> t' <= t)
    /\ (forall l h t' d, Ev (AGet KLease (Some ns) name) (Ok l) ∈ tr1 -> stamped h t' d l -> t' <= t).

Record invariant (h : list Lease) (s : sys) : Prop := {
  inv_stored : stored api (server s) = last h;
  inv_issued l : l ∈ h -> exists v, version l = Some v /\ issued api (server s) v;
  inv_versions : NoDup (map version h);
  inv_stamp l : l ∈ h -> exists k t, stamped (holder_identity (operator k)) t
      (duration_seconds (lc_duration (operator k))) l /\ t <= clock api (server s);
  inv_chain i l l' : h !! i = Some l -> h !! S i = Some l' -> follows l l';
  inv_clock k t : Ev ANow t ∈ traces s k -> t <= clock api (server s);
  inv_ordered k : ordered (traces s k);
  inv_read k l : Ev (AGet KLease (Some ns) name) (Ok l) ∈ traces s k -> l ∈ h;
  inv_wrote k l : wrote (traces s k) l -> exists l', l' ∈ h /\ lease_spec_of l' = lease_spec_of l }.

Lemma stamped_fun h t d h' t' d' l : stamped h t d l -> stamped h' t' d' l -> h = h' /\ t = t' /\ d = d'.
Proof. intros (s & E & ? & ? & ?) (s' & E' & ? & ? & ?). rewrite E in E'. injection E' as <-. split_and!; congruence. Qed.

Lemma stamped_spec h t d l l' : lease_spec_of l = lease_spec_of l' -> stamped h t d l -> stamped h t d l'.
Proof. intros E (s & Hs & ?). exists s. by rewrite <- E. Qed.

Lemma ordered_snoc tr act r lo :
  ordered tr ->
  (forall t, Ev ANow t = Ev act r -> lo <= t) -> (forall t', Ev ANow t' ∈ tr -> t' <= lo) ->
  (forall l h t' d, Ev (AGet KLease (Some ns) name) (Ok l) ∈ tr -> stamped h t' d l -> t' <= lo) ->
  ordered (tr ++ [Ev act r]).
Proof.
  intros Ho Hr Hc Hl tr1 t tr2 E. destruct tr2 as [|e tr2] using rev_ind.
  - apply app_inj_tail in E as [<- E]. specialize (Hr t (eq_sym E)). split.
    + intros t' Ht'. specialize (Hc t' Ht'). lia.
    + intros l h t' d Hg Hs. specialize (Hl l h t' d Hg Hs). lia.
  - rewrite app_comm_cons, app_assoc in E. apply app_inj_tail in E as [E _]. by apply (Ho tr1 t tr2).
Qed.

Lemma in_serve_run k k' e e' s' s :
  e' ∈ traces (serve_run k e s' s) k' -> e' ∈ traces s k' \/ (k' = k /\ e' = e).
Proof.
  cbn. destruct (Nat.eqb_spec k' k) as [->|]; [|by left].
  rewrite elem_of_app, list_elem_of_singleton. intros [?| ->]; auto.
Qed.

(** What a request leaves true of the clock and of the traces. *)
Lemma clocks_kept h s k act r s' :
  invariant h s -> serve api (server s) act r s' ->
  (forall k' t, Ev ANow t ∈ traces (serve_run k (Ev act r) s' s) k' -> t <= clock api s')
  /\ (forall k', ordered (traces (serve_run k (Ev act r) s' s) k')).
Proof.
  intros Hi Hs. pose proof (clock_advances _ _ _ _ _ Hs) as Hclk.
  assert (forall t, Ev ANow t = Ev act r -> clock api (server s) <= t <= clock api s') as Hnow.
  { intros t E. pose proof (f_equal act_of E) as Ea. cbn in Ea. subst act.
    apply Ev_inj in E as <-. by apply clock_is_read. }
  split.
  - intros k' t [Ht|[-> Ht]]%in_serve_run; [apply (inv_clock _ _ Hi) in Ht; lia|].
    apply Hnow in Ht. lia.
  - intros k'. cbn. destruct (Nat.eqb_spec k' k) as [->|]; [|apply (inv_ordered _ _ Hi)].
    apply (ordered_snoc _ _ _ (clock api (server s))).
    + apply (inv_ordered _ _ Hi).
    + intros t Ht. apply Hnow in Ht. lia.
    + intros t. apply (inv_clock _ _ Hi).
    + intros l hd t' d Hl Hst. apply (inv_read _ _ Hi) in Hl.
      destruct (inv_stamp _ _ Hi _ Hl) as (k0 & t0 & H0 & Ht0).
      by destruct (stamped_fun _ _ _ _ _ _ _ Hst H0) as (_ & -> & _).
Qed.

Lemma reads_kept h s k act r s' k' l :
  invariant h s -> serve api (server s) act r s' ->
  Ev (AGet KLease (Some ns) name) (Ok l) ∈ traces (serve_run k (Ev act r) s' s) k' -> l ∈ h.
Proof.
  intros Hi Hs [Hl|[-> E]]%in_serve_run; [by apply (inv_read _ _ Hi) in Hl|].
  pose proof (f_equal act_of E) as Ea. cbn in Ea. subst act. apply Ev_inj in E as <-.
  pose proof (get_is_current _ _ _ _ Hs) as Hl. rewrite (inv_stored _ _ Hi) in Hl.
  by apply last_Some_elem_of in Hl.
Qed.

(** A request that leaves the stored lease as it is. *)
Lemma invariant_same h s k act r s' :
  invariant h s -> serve api (server s) act r s' -> stored api s' = stored api (server s) ->
  invariant h (serve_run k (Ev act r) s' s).
Proof.
  intros Hi Hs Est. destruct (clocks_kept h s k act r s' Hi Hs) as [Hc Ho].
  split; cbn [server serve_run]; try assumption.
  - by rewrite Est, (inv_stored _ _ Hi).
  - intros l Hl. destruct (inv_issued _ _ Hi l Hl) as (v & ? & ?). exists v.
    split; [done|]. by apply (versions_kept _ _ _ _ _ _ Hs).
  - apply (inv_versions _ _ Hi).
  - intros l Hl. destruct (inv_stamp _ _ Hi l Hl) as (k0 & t & ? & ?). exists k0, t.
    split; [done|]. pose proof (clock_advances _ _ _ _ _ Hs). lia.
  - apply (inv_chain _ _ Hi).
  - intros k' l. by eapply reads_kept.
  - intros k' l (act' & r' & Hin & Hw & Hok). apply in_serve_run in Hin as [Hin|[-> E]].
    { apply (inv_wrote _ _ Hi k'). by exists act', r'. }
    pose proof (f_equal act_of E) as Ea. cbn in Ea. subst act'. apply Ev_inj in E as ->.
    destruct (write_answered _ _ _ _ _ _ Hs Hw Hok) as (_ & new & v & Hn & Hsp & _).
    exists new. split; [|done]. rewrite Est, (inv_stored _ _ Hi) in Hn. by apply last_Some_elem_of in Hn.
Qed.

Lemma union_Some_l {A} (x : A) (o : option A) : union (Some x) o = Some x.
Proof. by destruct o. Qed.

Lemma version_unique h l l' :
  NoDup (map version h) -> l ∈ h -> l' ∈ h -> version l = version l' -> l = l'.
Proof.
  intros Hn [i Hi]%list_elem_of_lookup [j Hj]%list_elem_of_lookup E.
  assert (i = j) as ->; [|congruence].
  apply (NoDup_lookup _ i j (version l) Hn); rewrite list_lookup_fmap.
  - by rewrite Hi.
  - by rewrite Hj, E.
Qed.

(** The readings that allow a write order its stamp after the term of the lease read. *)
Lemma free_follows c checked now read l tr0 :
  free_for c checked read ->
  (exists k t, stamped (holder_identity (operator k)) t (duration_seconds (lc_duration (operator k))) read) ->
  stamped (holder_identity c) now (duration_seconds (lc_duration c)) l ->
  (forall t', Ev ANow t' ∈ tr0 ++ Ev (AGet KLease (Some ns) name) (Ok read) :: clock_read checked -> t' <= now) ->
  (forall l' h' t' d',
    Ev (AGet KLease (Some ns) name) (Ok l') ∈ tr0 ++ Ev (AGet KLease (Some ns) name) (Ok read) :: clock_read checked ->
    stamped h' t' d' l' -> t' <= now) ->
  follows read l.
Proof.
  intros Hfree (k & t0 & H0) Hl Hc Hr h t d h' t' d' Hs Hs'.
  destruct (stamped_fun _ _ _ _ _ _ _ Hs' Hl) as (-> & -> & ->).
  destruct (stamped_fun _ _ _ _ _ _ _ Hs H0) as (-> & -> & ->).
  split; [apply (Hr read _ _ _ ltac:(set_solver) Hs)|].
  destruct H0 as (spec & E & Hh & Ht & Hd). unfold free_for in Hfree. rewrite E, Hh, Hd, Ht in Hfree.
  rewrite union_Some_l in Hfree. destruct Hfree as [[= Eh]|[Hz|(t1 & -> & Hexp)]]; [by left|..].
  - pose proof (Z.le_max_r (if Z.leb (lc_duration (operator k)) i32_max then lc_duration (operator k) else i32_max) 1).
    unfold duration_seconds in Hz. cbn in Hz. lia.
  - right. cbn in Hexp. specialize (Hc t1 ltac:(cbn; set_solver)). lia.
Qed.

(** The lease a guarded write stores is stamped with a time that has passed, and may come
    after the lease stored now. *)
Lemma write_follows h s k act r s' l :
  invariant h s -> lease_write act = Some l -> accepted api (server s) act l s' ->
  guarded_write (operator k) (traces s k) (Ev act r) ->
  exists now, stamped (holder_identity (operator k)) now (duration_seconds (lc_duration (operator k))) l
    /\ now <= clock api (server s)
    /\ forall old, last h = Some old -> follows old l.
Proof.
  intros Hi Hw [Hacc _] [_ Hg]. destruct (Hg l Hw) as (transitions & acquired & now & tr0 & Hspec & Hg').
  cbn in Hg', Hg. exists now. assert (stamped (holder_identity (operator k)) now
    (duration_seconds (lc_duration (operator k))) l) as Hst by by eexists.
  split; [done|]. clear Hg. destruct (is_create act).
  - split; [apply (inv_clock _ _ Hi k); rewrite Hg'; set_solver|].
    intros old E. by rewrite (inv_stored _ _ Hi), E in Hacc.
  - destruct Hg' as (read & checked & Htr & Hv & Hfree).
    assert (Ev ANow now ∈ traces s k) as Hnow by (rewrite Htr; set_solver).
    split; [by apply (inv_clock _ _ Hi k)|]. intros old E.
    assert (read ∈ h) as Hread by (apply (inv_read _ _ Hi k); rewrite Htr; set_solver).
    assert (old = read) as ->.
    { destruct (inv_issued _ _ Hi _ Hread) as (v & Hvr & _).
      destruct (Hacc v) as (old' & Eo & Hvo); [by rewrite Hv|].
      rewrite (inv_stored _ _ Hi), E in Eo. injection Eo as <-.
      apply (version_unique h); [apply (inv_versions _ _ Hi)|by apply last_Some_elem_of|done|congruence]. }
    destruct (inv_ordered _ _ Hi k (tr0 ++ Ev (AGet KLease (Some ns) name) (Ok read) :: clock_read checked)
      now []) as [Hc Hr]; [by rewrite Htr, <- app_assoc|].
    destruct (inv_stamp _ _ Hi _ Hread) as (k0 & t0 & H0 & _).
    by apply (free_follows (operator k) checked now read l tr0); [|exists k0, t0|..].
Qed.

(** A request that stores a lease. *)
Lemma invariant_extend h s k act r s' l :
  invariant h s -> serve api (server s) act r s' -> lease_write act = Some l ->
  accepted api (server s) act l s' -> guarded_write (operator k) (traces s k) (Ev act r) ->
  exists new, invariant (h ++ [new]) (serve_run k (Ev act r) s' s).
Proof.
  intros Hi Hs Hw Hacc Hg. destruct (clocks_kept h s k act r s' Hi Hs) as [Hc Ho].
  destruct (write_follows h s k act r s' l Hi Hw Hacc Hg) as (now & Hst & Hnow & Hfol).
  pose proof (clock_advances _ _ _ _ _ Hs) as Hclk.
  destruct Hacc as (_ & new & v & Hnew & Hspec & Hv & Hfresh & Hiss).
  apply (stamped_spec _ _ _ _ new) in Hst; [|done].
  exists new. split; cbn [server serve_run]; try assumption.
  - by rewrite last_snoc.
  - intros l0 [Hl0|Hl0%list_elem_of_singleton]%elem_of_app; [|subst; by exists v].
    destruct (inv_issued _ _ Hi l0 Hl0) as (v0 & ? & ?). exists v0.
    split; [done|]. by apply (versions_kept _ _ _ _ _ _ Hs).
  - rewrite map_app. apply NoDup_app. split_and!; [apply (inv_versions _ _ Hi)| |apply NoDup_singleton].
    intros ov Hov Hin%list_elem_of_singleton. subst ov. apply list_elem_of_fmap in Hov as (l0 & E & Hl0).
    destruct (inv_issued _ _ Hi l0 Hl0) as (v0 & E0 & ?). apply Hfresh. congruence.
  - intros l0 [Hl0|Hl0%list_elem_of_singleton]%elem_of_app.
    + destruct (inv_stamp _ _ Hi l0 Hl0) as (k0 & t & ? & ?). exists k0, t. split; [done|lia].
    + subst. exists k, now. split; [done|lia].
  - intros i l0 l1 H0 H1. destruct (decide (S i < length h)%nat) as [Hlt|Hge].
    + rewrite !lookup_app_l in * by lia. by apply (inv_chain _ _ Hi i).
    + apply lookup_lt_Some in H1 as Hlen. rewrite length_app in Hlen. cbn in Hlen.
      rewrite lookup_app_l in H0 by lia. rewrite lookup_app_r in H1 by lia.
      replace (S i - length h)%nat with 0%nat in H1 by lia. injection H1 as <-.
      intros hh t d h' t' d' Hs0 Hs1. apply (stamped_spec _ _ _ _ l) in Hs1; [|done].
      refine (Hfol l0 _ _ _ _ _ _ _ Hs0 Hs1). rewrite last_lookup. by replace (pred (length h)) with i by lia.
  - intros k' l0 Hl0. apply elem_of_app. left. by eapply reads_kept.
  - intros k' l0 (act' & r' & Hin & Hw' & Hok). apply in_serve_run in Hin as [Hin|[-> E]].
    { destruct (inv_wrote _ _ Hi k' l0) as (l' & ? & ?); [by exists act', r'|].
      exists l'. split; [apply elem_of_app; by left|done]. }
    pose proof (f_equal act_of E) as Ea. cbn in Ea. subst act'. rewrite Hw in Hw'. injection Hw' as <-.
    exists new. split; [apply elem_of_app; right; by apply list_elem_of_singleton|done].
Qed.

Hypothesis Hruns : forall k, respects_lease (operator k) (runs k).

(** Every step is a guarded request. *)
Lemma invariant_step h s s' : invariant h s -> step s s' -> exists h', invariant h' s'.
Proof.
  intros Hi Hstep. destruct Hstep as [s0 k act r s1 Hp Hs].
  assert (guarded_write (operator k) (traces s0 k) (Ev act r)) as Hg.
  { apply (always_partial _ [] (runs k) (fun _ _ => True)); [apply Hruns|done]. }
  destruct (store_changes _ _ _ _ _ Hs (proj1 Hg)) as [E|(l & Hw & Hacc)].
  - exists h. by apply (invariant_same h s0 k act r s1).
  - destruct (invariant_extend h s0 k act r s1 l Hi Hs Hw Hacc Hg) as (new & ?). by eexists.
Qed.

Lemma invariant_reachable s : reachable s -> exists h, invariant h s.
Proof.
  induction 1 as [s0 E|s s' _ [h Hi] Hstep]; [|by eapply invariant_step].
  exists []. split; cbn; try (intros; set_solver); try done.
  - constructor.
  - intros _ tr1 t tr2 E'. by destruct tr1.
  - intros k l (act & r & Hin & _). by apply not_elem_of_nil in Hin.
Qed.

Hypothesis Hsame : forall k k', holder_identity (operator k) = holder_identity (operator k') ->
  lc_duration (operator k) = lc_duration (operator k').

(** Along the history of the lease, terms of different holders come one after the other. *)
Lemma history_ordered h s : invariant h s ->
  forall n i l l' hh t d h' t' d', h !! i = Some l -> h !! (i + n)%nat = Some l' ->
    stamped hh t d l -> stamped h' t' d' l' ->
    t <= t' /\ (hh = h' \/ t + d * 1000 <= t').
Proof.
  intros Hi. induction n as [|n IH]; intros i l l' hh t d h' t' d' Hl Hl' Hs Hs'.
  - rewrite Nat.add_0_r, Hl in Hl'. injection Hl' as <-.
    destruct (stamped_fun _ _ _ _ _ _ _ Hs Hs') as (-> & -> & _). split; [lia|by left].
  - rewrite Nat.add_succ_r in Hl'. destruct (h !! (i + n)%nat) as [m|] eqn:Hm;
      [|apply lookup_ge_None in Hm; apply lookup_lt_Some in Hl'; lia].
    destruct (inv_stamp _ _ Hi m) as (k & t0 & Hsm & _); [by eapply list_elem_of_lookup_2|].
    destruct (inv_stamp _ _ Hi l) as (k1 & t1 & Hsl & _); [by eapply list_elem_of_lookup_2|].
    destruct (stamped_fun _ _ _ _ _ _ _ Hsl Hs) as (<- & <- & <-).
    destruct (IH i l m _ _ _ _ _ _ Hl Hm Hs Hsm) as (Ht1 & Hd1).
    destruct (inv_chain _ _ Hi _ _ _ Hm Hl' _ _ _ _ _ _ Hsm Hs') as (Ht2 & Hd2).
    split; [lia|]. destruct Hd1 as [Eh|?]; [|right; lia].
    destruct Hd2 as [<-|?]; [by left|]. right. rewrite (Hsame _ _ Eh). lia.
Qed.

(** Confirmed writes are ordered by their terms. *)
Lemma writes_ordered s a b la lb ha ta da hb tb db :
  reachable s -> wrote (traces s a) la -> wrote (traces s b) lb ->
  stamped ha ta da la -> stamped hb tb db lb -> ha <> hb ->
  ta + da * 1000 <= tb \/ tb + db * 1000 <= ta.
Proof.
  intros [h Hi]%invariant_reachable Ha Hb Hsa Hsb Hne.
  destruct (inv_wrote _ _ Hi _ _ Ha) as (la' & [i Hla]%list_elem_of_lookup & Ea).
  destruct (inv_wrote _ _ Hi _ _ Hb) as (lb' & [j Hlb]%list_elem_of_lookup & Eb).
  apply (stamped_spec _ _ _ _ la') in Hsa; [|done]. apply (stamped_spec _ _ _ _ lb') in Hsb; [|done].
  destruct (decide (i <= j)%nat) as [Hij|Hij].
  - left. replace j with (i + (j - i))%nat in Hlb by lia.
    by destruct (history_ordered _ _ Hi _ _ _ _ _ _ _ _ _ _ Hla Hlb Hsa Hsb) as (_ & [?|?]).
  - right. replace i with (j + (i - j))%nat in Hla by lia.
    by destruct (history_ordered _ _ Hi _ _ _ _ _ _ _ _ _ _ Hlb Hla Hsb Hsa) as (_ & [?|?]).
Qed.

End System.
End OneLease.

(** ** The operators of one blue-green deployment *)

Section Operators.
Context `{Sha256, HC : Codecs}.
Context (ns bgd uid : string).

Definition reconcile_lease : string := lease_name "bgd" bgd uid.

(** What an operator runs: passes over the deployment, and the renewal task of each. *)
Inductive operator_run : LeaseConfig -> prog unit -> Prop :=
| run_pass b c :
    meta_namespace (bgd_metadata b) = Some ns -> meta_name (bgd_metadata b) = Some bgd ->
    meta_uid (bgd_metadata b) = Some uid ->
    operator_run (ctx_lease c) (let! _ := reconcile b c in Ret tt)
| run_renewals c rounds :
    operator_run c (let! _ := renew_until_stopped rounds ns reconcile_lease c in Ret tt).

Lemma no_lease_write_reads : Reads (no_lease_write ns reconcile_lease).
Proof. intros act Ha. destruct act; try done; (split; [by intros ?|done]). Qed.
#[local] Existing Instance no_lease_write_reads.

Ltac harmless := apply no_lease_write_guarded; by split; [intros ?|].

(** The writes of a pass, none of them of a lease. *)
Ltac leaseless_writes :=
  first [apply _ | intros []; intros; try done; (split; [by intros ?|done])
        | intros; (split; [by intros ?|done])].

Lemma leaseless {A} (p : prog A) c pre Q :
  only (no_lease_write ns reconcile_lease) p -> (forall tr a, Q tr a) ->
  always (guarded_write ns reconcile_lease c) pre p Q.
Proof.
  intros Hp HQ. eapply always_only; [done|intros; by apply no_lease_write_guarded|done].
Qed.

Lemma operator_respects_lease c p : operator_run c p -> respects_lease ns reconcile_lease c p.
Proof.
  intros [b c' Hns Hname Huid|c' rounds] pre; apply always_bind.
  - unfold reconcile. rewrite Hns. apply always_bind, always_request. intros locked.
    split; [harmless|]. destruct locked as [[|]|]; try done.
    assert (forall tr (r : result ReconcileError Action), always (guarded_write ns reconcile_lease (ctx_lease c')) tr
      (do! request (AUnlock (local_lock_key b)) ;; Ret r) (fun _ _ => True)) as Hend by (intros; split; [harmless|done]).
    apply always_bind. destruct (is_some _).
    { apply leaseless; [|exact Hend].
      apply fp_deleted; leaseless_writes. }
    unfold reconcile_under_lease, publishing, run_with_bgd_lease. rewrite Hname, Huid.
    apply always_bind, always_bind_res. eapply always_post; [|apply run_with_lease_respects].
    + intros tr [a|e] _; [exact (Hend tr (Ok (unwrap_or (Requeue 2) a)))|]. apply leaseless; [|exact Hend].
      apply only_bind; [|done]. apply fp_publish_error; leaseless_writes.
    + apply fp_pass_body; leaseless_writes.
  - revert pre. induction rounds as [|n IH]; intros pre; cbn [renew_until_stopped]; [done|].
    apply always_bind, always_request. intros []. split; [harmless|].
    apply always_bind. eapply always_post; [|apply renew_respects].
    intros tr [a|e] _; [apply IH|done].
Qed.
End Operators.

(** ** Passes and renewals of many operators *)

(** C5. Operators exclude each other.  Any number of reconcile passes and renewal tasks of any
    number of operators run against one blue-green deployment, their requests interleaved in any
    order, some writes answered with an error after they were applied, and every request a point
    where a run may stop.  Of any two confirmed writes of the lease by different holders, one is
    stamped no earlier than the end of the other's term: the terms do not overlap. *)
Theorem lease_mutual_exclusion `{Sha256, HC : Codecs} (ns bgd uid : string)
    (api : LeaseApi) (Hapi : LeaseApiLaws ns (reconcile_lease bgd uid) api)
    (operator : nat -> LeaseConfig) (runs : nat -> prog unit)
    (Hruns : forall k, operator_run ns bgd uid (operator k) (runs k))
    (Hsame : forall k k', holder_identity (operator k) = holder_identity (operator k') ->
       lc_duration (operator k) = lc_duration (operator k'))
    (s : sys api) (Hs : reachable api runs s) (a b : nat) (la lb : Lease)
    (ha hb : string) (ta da tb db : Z)
    (Ha : wrote ns (reconcile_lease bgd uid) (traces api s a) la)
    (Hb : wrote ns (reconcile_lease bgd uid) (traces api s b) lb)
    (Hla : stamped ha ta da la) (Hlb : stamped hb tb db lb) (Hne : ha <> hb) :
  ta + da * 1000 <= tb \/ tb + db * 1000 <= ta.
Proof.
  refine (writes_ordered ns (reconcile_lease bgd uid) api operator runs _ Hsame s a b la lb
            ha ta da hb tb db Hs Ha Hb Hla Hlb Hne).
  intros k. apply (operator_respects_lease ns bgd uid), Hruns.
Qed.

(** ** An API server with one lease *)

Section Server.
Context (ns name : string).

Record lease_server := { sv_lease : option Lease; sv_clock : Z; sv_version : N }.

(** A write stores the lease under the next resource version. *)
Definition put (l : Lease) (s : lease_server) : lease_server :=
  {| sv_lease := Some {| lease_metadata := with_resource_version (Some (pretty (sv_version s))) (lease_metadata l);
                         lease_spec_of := lease_spec_of l |};
     sv_clock := sv_clock s; sv_version := N.succ (sv_version s) |}.

Definition may_write (act : action) (l : Lease) (s : lease_server) : bool :=
  match sv_lease s with
  | None => is_create act
  | Some old => negb (is_create act) && match version l with
                                        | None => true
                                        | v => bool_decide (version old = v)
                                        end
  end.

Definition write (act : action) (s : lease_server) : option lease_server :=
  match lease_write ns name act with
  | Some l => if may_write act l s then Some (put l s) else None
  | None => Some s
  end.

(** Every look at the clock takes it 40 seconds on. *)
Definition handle (act : action) (s : lease_server) : reply act * lease_server :=
  match act return reply act * lease_server with
  | AGet KLease (Some ns') n =>
      (if (String.eqb ns' ns && String.eqb n name)%bool then found (sv_lease s) else Err not_found, s)
  | ACreate k ns' o => match write (ACreate k ns' o) s with
                       | Some s' => (Ok o, s') | None => (Err (KubeApi 409 "conflict"), s) end
  | AReplace k ns' n o => match write (AReplace k ns' n o) s with
                          | Some s' => (Ok o, s') | None => (Err (KubeApi 409 "conflict"), s) end
  | ANow => (sv_clock s, {| sv_lease := sv_lease s; sv_clock := sv_clock s + 40000; sv_version := sv_version s |})
  | act => ((World.serve act empty_world).1, s)
  end.

Definition one_lease_api : LeaseApi :=
  {| srv := lease_server; stored := sv_lease; clock := sv_clock;
     issued s v := exists n, (n < sv_version s)%N /\ v = pretty n;
     serve s act r s' := handle act s = (r, s') |}.

(** A request writes the lease, reads the clock, or leaves the server as it is. *)
Inductive handled (s : lease_server) (e : event) (s' : lease_server) : Prop :=
| handled_write l : lease_write ns name (act_of e) = Some l -> may_write (act_of e) l s = true ->
    s' = put l s -> handled s e s'
| handled_now : e = Ev ANow (sv_clock s) ->
    s' = {| sv_lease := sv_lease s; sv_clock := sv_clock s + 40000; sv_version := sv_version s |} ->
    handled s e s'
| handled_other : (forall t, e <> Ev ANow t) ->
    (forall act r l, e = Ev act r -> lease_write ns name act = Some l -> answered_ok act r = false) ->
    (forall l, e = Ev (AGet KLease (Some ns) name) (Ok l) -> sv_lease s = Some l) ->
    s' = s -> handled s e s'.

Lemma found_Ok {A} (o : option A) a : found o = Ok a -> o = Some a.
Proof. destruct o; cbn; congruence. Qed.

Lemma get_is_read act r l :
  Ev act r = Ev (AGet KLease (Some ns) name) (Ok l) -> act = AGet KLease (Some ns) name.
Proof. intros E. exact (f_equal act_of E). Qed.

Lemma handled_refused act s r :
  act <> AGet KLease (Some ns) name -> act <> ANow ->
  (lease_write ns name act = None \/ answered_ok act r = false) -> handled s (Ev act r) s.
Proof.
  intros Hg Hn Ha. apply handled_other; [| | |done].
  - intros t E. apply Hn. exact (f_equal act_of E).
  - intros act' r' l E Hl. pose proof (f_equal act_of E) as Ea. cbn in Ea. subst act'.
    apply Ev_inj in E as <-. by destruct Ha; [congruence|].
  - intros l E. by apply get_is_read in E.
Qed.

Lemma handle_handled act s : handled s (Ev act (handle act s).1) (handle act s).2.
Proof.
  destruct act; try (apply handled_refused; [done|done|by left]).
  - destruct k; try (apply handled_refused; [done|done|by left]).
    destruct ns0 as [ns'|]; [|apply handled_refused; [done|done|by left]]. cbn.
    apply handled_other; [done| |intros l E|done].
    { intros act r l E. pose proof (f_equal act_of E) as Ea. cbn in Ea. by subst act. }
    pose proof (get_is_read _ _ _ E) as [= -> ->].
    rewrite !String.eqb_refl in E. apply Ev_inj in E. by apply found_Ok.
  - cbn [handle]. unfold write. destruct (lease_write ns name (ACreate k ns0 o)) as [l|] eqn:Ew.
    + destruct (may_write _ l s) eqn:Em; [by eapply handled_write|]. apply handled_refused; [done|done|by right].
    + apply handled_refused; [done|done|by left].
  - cbn [handle]. unfold write. destruct (lease_write ns name (AReplace k ns0 name0 o)) as [l|] eqn:Ew.
    + destruct (may_write _ l s) eqn:Em; [by eapply handled_write|]. apply handled_refused; [done|done|by right].
    + apply handled_refused; [done|done|by left].
  - by apply handled_now.
Qed.

Lemma may_write_accepts act l s :
  lease_write ns name act = Some l -> may_write act l s = true ->
  accepted one_lease_api s act l (put l s).
Proof.
  intros Hw Hm. unfold may_write in Hm. split.
  - cbn. destruct (is_create act).
    + by destruct (sv_lease s).
    + intros v Hv. rewrite Hv in Hm. destruct (sv_lease s) as [old|]; [|done].
      apply bool_decide_eq_true in Hm. by exists old.
  - exists {| lease_metadata := with_resource_version (Some (pretty (sv_version s))) (lease_metadata l);
              lease_spec_of := lease_spec_of l |}, (pretty (sv_version s)).
    split_and!; [done..| |].
    + intros (n & Hn & E). apply (inj pretty) in E. lia.
    + exists (sv_version s). split; [cbn; lia|done].
Qed.

#[export] Instance one_lease_laws : LeaseApiLaws ns name one_lease_api.
Proof.
  assert (forall s act r s', serve one_lease_api s act r s' -> handled s (Ev act r) s') as Hh.
  { intros s act r s' E. pose proof (handle_handled act s) as Hh. cbn in E. by rewrite E in Hh. }
  split.
  - intros s act r s' H. destruct (Hh _ _ _ _ H); subst; cbn; lia.
  - intros s t s' H. destruct (Hh _ _ _ _ H) as [l Hl| E |Ht]; [done| |by destruct (Ht t)].
    apply Ev_inj in E. subst. cbn. lia.
  - intros s act r s' v H (n & ? & ->). exists n. split; [|done].
    destruct (Hh _ _ _ _ H); subst; cbn; lia.
  - intros s l s' H. destruct (Hh _ _ _ _ H) as [l' Hl| E |Ht Ha Hg]; [done| |by apply Hg].
    by apply (f_equal act_of) in E.
  - intros s act r s' H _. destruct (Hh _ _ _ _ H) as [l Hl Hm ->| E -> |? ? ? ->]; [right|by left..].
    exists l. split; [done|]. by apply may_write_accepts.
  - intros s act r s' l H Hl Hok. destruct (Hh _ _ _ _ H) as [l' Hw Hm ->| E -> |? Ha ? ->].
    + cbn in Hw. rewrite Hw in Hl. injection Hl as <-. by apply may_write_accepts.
    + apply (f_equal act_of) in E. cbn in E. by subst act.
    + by rewrite (Ha _ _ _ eq_refl Hl) in Hok.
Qed.

End Server.

(** The first [n] requests of a program, answered by the server. *)
Fixpoint play {A} (ns name : string) (n : nat) (p : prog A) (s : lease_server) : trace * lease_server :=
  match n, p with
  | S n, Vis act k =>
      let '(r, s') := handle ns name act s in
      let '(tr, s'') := play ns name n (k r) s' in (Ev act r :: tr, s'')
  | _, _ => ([], s)
  end.

Lemma reachable_play ns name (runs : nat -> prog unit) i n :
  forall (p : prog unit) s, reachable (one_lease_api ns name) runs s ->
  (forall tr, partial p tr -> partial (runs i) (traces _ s i ++ tr)) ->
  exists s', reachable (one_lease_api ns name) runs s'
    /\ server _ s' = (play ns name n p (server _ s)).2
    /\ traces _ s' i = traces _ s i ++ (play ns name n p (server _ s)).1
    /\ forall j, j <> i -> traces _ s' j = traces _ s j.
Proof.
  induction n as [|n IH]; intros [a|act f] s Hs Hp;
    try (exists s; cbn; rewrite app_nil_r; by auto).
  cbn [play]. destruct (handle ns name act (server _ s)) as [r s1] eqn:Eh.
  set (s2 := serve_run (one_lease_api ns name) i (Ev act r) s1 s).
  assert (reachable (one_lease_api ns name) runs s2) as Hs2.
  { eapply reachable_step; [exact Hs|]. apply step_run; [|exact Eh]. apply Hp. by exists r. }
  assert (traces _ s2 i = traces _ s i ++ [Ev act r]) as E2 by (cbn; by rewrite Nat.eqb_refl).
  destruct (IH (f r) s2 Hs2) as (s' & Hs' & Hserv & Htr & Hoth).
  { intros tr Htr. rewrite E2, <- app_assoc. apply Hp. by exists r. }
  exists s'. cbn in Hserv. destruct (play ns name n (f r) s1) as [tr s3] eqn:Ep.
  split_and!; [done|by rewrite Hserv| |].
  - rewrite Htr, E2, <- app_assoc. cbn [server s2 serve_run]. by rewrite Ep.
  - intros j Hj. rewrite Hoth by done. cbn. by destruct (Nat.eqb_spec j i).
Qed.

(** Two operators on one deployment: the second pass starts when the first term is over. *)
Definition pass_of (c : LeaseConfig) : prog unit :=
  let! _ := @reconcile sample_sha256 sample_codecs (in_phase Pending)
              {| ctx_auth := sample_auth; ctx_lease := c |} in Ret tt.
Definition two_operators (k : nat) : LeaseConfig :=
  match k with O => other_config | S _ => this_config end.
Definition two_passes (k : nat) : prog unit := pass_of (two_operators k).
Definition sample_lease_name : string := @reconcile_lease sample_sha256 "orders" "uid-1".
Definition no_lease_yet : lease_server := {| sv_lease := None; sv_clock := 0; sv_version := 1 |}.

Lemma wrote_at ns name tr i l :
  match tr !! i with
  | Some (Ev act r) => lease_write ns name act = Some l /\ answered_ok act r = true
  | None => False
  end -> wrote ns name tr l.
Proof.
  destruct (tr !! i) as [[act r]|] eqn:E; [|done]. intros [? ?]. exists act, r.
  split; [by eapply list_elem_of_lookup_2|done].
Qed.

Lemma lease_mutual_exclusion_witness :
  exists s la lb,
    reachable (one_lease_api "apps" sample_lease_name) two_passes s
    /\ wrote "apps" sample_lease_name (traces _ s 0%nat) la
    /\ wrote "apps" sample_lease_name (traces _ s 1%nat) lb
    /\ stamped "operator-a" 0 30 la /\ stamped "operator-b" 80000 30 lb
    /\ (0 + 30 * 1000 <= 80000 \/ 80000 + 30 * 1000 <= 0).
Proof.
  set (s0 := Build_sys (one_lease_api "apps" sample_lease_name) no_lease_yet (fun _ => [])).
  assert (reachable (one_lease_api "apps" sample_lease_name) two_passes s0) as H0 by by apply reachable_init.
  destruct (reachable_play _ _ two_passes 0 4 (two_passes 0) s0 H0 ltac:(done))
    as (s1 & H1 & E1 & T1 & O1).
  destruct (reachable_play _ _ two_passes 1 5 (two_passes 1) s1 H1) as (s2 & H2 & E2 & T2 & O2).
  { by rewrite O1. }
  rewrite O1 in T2 by done. rewrite E1 in T2. rewrite <- (O2 0%nat) in T1 by done.
  assert (exists la, wrote "apps" sample_lease_name (traces _ s2 0%nat) la /\ stamped "operator-a" 0 30 la)
    as (la & Ha & Hla).
  { eexists. split.
    - apply (wrote_at _ _ _ 3). rewrite T1. vm_compute. split; reflexivity.
    - eexists. by split_and!. }
  assert (exists lb, wrote "apps" sample_lease_name (traces _ s2 1%nat) lb /\ stamped "operator-b" 80000 30 lb)
    as (lb & Hb & Hlb).
  { eexists. split.
    - apply (wrote_at _ _ _ 4). rewrite T2. vm_compute. split; reflexivity.
    - eexists. by split_and!. }
  exists s2, la, lb. split_and!; try done.
  refine (@lease_mutual_exclusion sample_sha256 sample_codecs "apps" "orders" "uid-1" _
    (one_lease_laws "apps" sample_lease_name) two_operators two_passes _ _ s2 H2 0%nat 1%nat la lb
    "operator-a" "operator-b" 0 30 80000 30 Ha Hb Hla Hlb ltac:(discriminate)).
  - intros k. by apply (@run_pass sample_sha256 sample_codecs "apps" "orders" "uid-1" (in_phase Pending)
      {| ctx_auth := sample_auth; ctx_lease := two_operators k |}).
  - by intros [] [].
Defined.
