(* ===== verification/ResourcesTheorems.v ===== *)
(** * What the generated manifests carry, and how patches merge *)

From S2P Require Import Prelude RustString Float64 Kube Crd StateStore Effects External Promotion.
From S2P Require Import Status Names Auth Deployments Plugins Resources.

(** ** Labels of a manifest *)

Definition own_labels (d : Deployment) : labels := labels_of (dep_metadata d).
Definition template_labels (d : Deployment) : labels :=
  match template_metadata d with Some m => labels_of m | None => ∅ end.
Definition selector_labels (d : Deployment) : labels :=
  match dep_spec d with Some s => default ∅ (sel_match_labels (ds_selector s)) | None => ∅ end.

Lemma update_template_labels_ok f d d' :
  update_template_labels f d = Ok d' ->
  template_labels d' = f (template_labels d) /\ dep_metadata d' = dep_metadata d
  /\ selector_labels d' = selector_labels d /\ is_some (template_metadata d') = true.
Proof.
  unfold update_template_labels, template_labels, template_metadata, selector_labels.
  destruct (dep_spec d) as [s|]; [|done]. cbn.
  destruct (tpl_metadata (ds_template s)) as [m|]; [|done]. by intros [= <-].
Qed.

Lemma update_both_ok f g d d' :
  update_template_labels f (update_own_labels g d) = Ok d' ->
  own_labels d' = g (own_labels d) /\ template_labels d' = f (template_labels d)
  /\ selector_labels d' = selector_labels d
  /\ meta_name (dep_metadata d') = meta_name (dep_metadata d)
  /\ meta_namespace (dep_metadata d') = meta_namespace (dep_metadata d).
Proof.
  intros (Ht & Hm & Hs & _)%update_template_labels_ok. unfold own_labels. by rewrite Ht, Hm, Hs.
Qed.

(** The labels of a deployment that belongs to a family and is, or is not, green. *)
Definition rollout_labels (b : BlueGreenDeployment) (is_green : bool) (ls : labels) : Prop :=
  ls !! green_label = Some (if is_green then "true" else "false")
  /\ ls !! ref_label = (if is_green then None else Some (bgd_name_or "" b))
  /\ ls !! uid_label = (if is_green then None else Some (bgd_uid_or "" b)).

Lemma rollout_labels_set b is_green ls :
  rollout_labels b is_green
    ((if is_green then fun ls => delete uid_label (delete ref_label ls)
      else fun ls => <[uid_label := bgd_uid_or "" b]> (<[ref_label := bgd_name_or "" b]> ls))
       (<[green_label := if is_green then "true" else "false"]> ls)).
Proof.
  unfold rollout_labels. destruct is_green.
  - rewrite lookup_delete_eq, !(lookup_delete_ne _ uid_label), lookup_delete_eq, lookup_delete_ne,
      lookup_insert_eq by done. done.
  - rewrite lookup_insert_eq, !(lookup_insert_ne _ uid_label), lookup_insert_eq, lookup_insert_ne,
      lookup_insert_eq by done. done.
Qed.

Lemma rollout_labels_other b is_green name ls k :
  k <> green_label -> k <> ref_label -> k <> uid_label ->
  ((if is_green : bool then fun ls => delete uid_label (delete ref_label ls)
    else fun ls => <[uid_label := bgd_uid_or "" b]> (<[ref_label := bgd_name_or "" b]> ls))
     (<[green_label := name]> ls) : labels) !! k = ls !! k.
Proof. intros. destruct is_green; by simplify_map_eq. Qed.

Lemma clear_candidate_ok d d' :
  clear_rollout_candidate_labels d = Ok d' ->
  own_labels d' = delete uid_label (delete ref_label (own_labels d))
  /\ template_labels d' = delete uid_label (delete ref_label (template_labels d))
  /\ selector_labels d' = selector_labels d
  /\ meta_name (dep_metadata d') = meta_name (dep_metadata d)
  /\ meta_namespace (dep_metadata d') = meta_namespace (dep_metadata d).
Proof.
  unfold clear_rollout_candidate_labels. intros (Ht & Hm & Hs & _)%update_template_labels_ok.
  unfold own_labels, labels_of. rewrite Ht, Hm, Hs.
  destruct (meta_labels (dep_metadata d)) eqn:E; cbn; [done|]. rewrite E. cbn.
  by rewrite !delete_empty.
Qed.

Lemma family_labels_ok d fam d' :
  apply_family_labels_to_deployment d fam = Ok d' ->
  own_labels d' = fam ∪ own_labels d /\ template_labels d' = fam ∪ template_labels d
  /\ selector_labels d' = selector_labels d
  /\ meta_name (dep_metadata d') = meta_name (dep_metadata d)
  /\ meta_namespace (dep_metadata d') = meta_namespace (dep_metadata d).
Proof.
  unfold apply_family_labels_to_deployment. case_bool_decide; [done|]. apply update_both_ok.
Qed.

Lemma identity_selector_ok d name d' :
  apply_runtime_identity_selector d name = Ok d' ->
  own_labels d' = own_labels d
  /\ template_labels d' = <[deployment_label := name]> (template_labels d)
  /\ selector_labels d' = <[deployment_label := name]> (selector_labels d)
  /\ meta_name (dep_metadata d') = meta_name (dep_metadata d)
  /\ meta_namespace (dep_metadata d') = meta_namespace (dep_metadata d).
Proof.
  unfold apply_runtime_identity_selector. destruct (dep_spec d) as [s|] eqn:Es; [|done].
  intros (Ht & Hm & Hs & _)%update_template_labels_ok. unfold own_labels. rewrite Ht, Hm, Hs.
  cbn. unfold selector_labels, template_labels, template_metadata. by rewrite Es.
Qed.

(** The labels the two steps after the family labels leave. *)
Lemma green_then_role_ok b (is_green : bool) d d1 d2 :
  set_green_label d is_green = Ok d1 ->
  (if is_green then clear_rollout_candidate_labels d1 else apply_rollout_candidate_labels d1 b) = Ok d2 ->
  exists f, own_labels d2 = f (own_labels d) /\ template_labels d2 = f (template_labels d)
    /\ selector_labels d2 = selector_labels d
    /\ meta_name (dep_metadata d2) = meta_name (dep_metadata d)
    /\ meta_namespace (dep_metadata d2) = meta_namespace (dep_metadata d)
    /\ (forall ls, rollout_labels b is_green (f ls))
    /\ (forall ls k, k <> green_label -> k <> ref_label -> k <> uid_label -> f ls !! k = ls !! k).
Proof.
  intros (E1 & E2 & E3 & E4 & E5)%update_both_ok H2.
  assert (own_labels d2 = (if is_green then fun ls => delete uid_label (delete ref_label ls)
      else fun ls => <[uid_label := bgd_uid_or "" b]> (<[ref_label := bgd_name_or "" b]> ls)) (own_labels d1)
    /\ template_labels d2 = (if is_green then fun ls => delete uid_label (delete ref_label ls)
      else fun ls => <[uid_label := bgd_uid_or "" b]> (<[ref_label := bgd_name_or "" b]> ls)) (template_labels d1)
    /\ selector_labels d2 = selector_labels d1
    /\ meta_name (dep_metadata d2) = meta_name (dep_metadata d1)
    /\ meta_namespace (dep_metadata d2) = meta_namespace (dep_metadata d1)) as (F1 & F2 & F3 & F4 & F5).
  { destruct is_green; [by apply clear_candidate_ok in H2|].
    unfold apply_rollout_candidate_labels in H2. by apply update_both_ok in H2. }
  eexists (fun ls => _ (<[green_label := if is_green then "true" else "false"]> ls)).
  rewrite F1, F2, F3, F4, F5, E1, E2, E3, E4, E5. split_and!; try reflexivity.
  - intros ls. apply rollout_labels_set.
  - intros ls k. apply rollout_labels_other.
Qed.

Section Manifest.
Context `{Sha256, HC : Codecs}.

(** How a manifest is built: [f] is what the green mark and the candidate's
    reference make of the labels, own and template alike. *)
Lemma deployment_manifest_ok b ns spec fam is_green assignments d :
  deployment_manifest b ns spec fam is_green assignments = Ok d ->
  let name := dr_name (candidate_ref b) in
  exists f own tpl,
    own_labels d = f (fam ∪ own)
    /\ template_labels d = <[deployment_label := name]> (f (fam ∪ tpl))
    /\ selector_labels d !! deployment_label = Some name
    /\ meta_name (dep_metadata d) = Some name
    /\ meta_namespace (dep_metadata d) = Some (deployment_namespace_spec spec ns)
    /\ (forall ls, rollout_labels b is_green (f ls))
    /\ (forall ls k, k <> green_label -> k <> ref_label -> k <> uid_label -> f ls !! k = ls !! k).
Proof.
  intros Hd name. unfold deployment_manifest in Hd.
  apply result_bind_ok in Hd as (s & _ & Hd). apply result_bind_ok in Hd as (d0 & H0 & Hd).
  apply result_bind_ok in Hd as (d1 & H1 & Hd). apply result_bind_ok in Hd as (d2 & H2 & H3).
  apply family_labels_ok in H0 as (A1 & A2 & A3 & A4 & A5).
  destruct (green_then_role_ok _ _ _ _ _ H1 H2) as (f & B1 & B2 & B3 & B4 & B5 & Hr & Ho).
  apply identity_selector_ok in H3 as (C1 & C2 & C3 & C4 & C5).
  eexists f, _, _. rewrite C4, C5, B4, B5, A4, A5, C1, C2, C3, B1, B2, A1, A2. cbn.
  rewrite lookup_insert_eq. split_and!; try reflexivity; done.
Qed.

(** The two roles, on the deployment and on its pod template. *)
Lemma deployment_manifest_roles b ns spec fam is_green assignments d :
  deployment_manifest b ns spec fam is_green assignments = Ok d ->
  rollout_labels b is_green (own_labels d) /\ rollout_labels b is_green (template_labels d).
Proof.
  intros (f & own & tpl & -> & -> & _ & _ & _ & Hr & _)%deployment_manifest_ok.
  split; [done|]. destruct (Hr (fam ∪ tpl)) as (? & ? & ?).
  unfold rollout_labels. by rewrite !lookup_insert_ne.
Qed.

(** The manifest of a rollout's deployment.  It is named after the candidate;
    its own labels and its pod template's labels agree on the rollout: the green
    manifest is marked green and carries no reference to a blue-green deployment
    (so no cleanup by reference can ever select the promoted deployment), the
    candidate's is marked not green and refers to its blue-green deployment; both
    keep the labels of their family; and the selector and the pod template carry
    the deployment's identity, which keeps the pods of candidate and green apart. *)
Theorem manifest_labels b ns spec fam is_green assignments d
    (Hd : deployment_manifest b ns spec fam is_green assignments = Ok d) :
  meta_name (dep_metadata d) = Some (dr_name (candidate_ref b))
  /\ meta_namespace (dep_metadata d) = Some (deployment_namespace_spec spec ns)
  /\ rollout_labels b is_green (own_labels d) /\ rollout_labels b is_green (template_labels d)
  /\ (forall k v, fam !! k = Some v ->
        k <> green_label -> k <> ref_label -> k <> uid_label ->
        own_labels d !! k = Some v /\ (k <> deployment_label -> template_labels d !! k = Some v))
  /\ template_labels d !! deployment_label = Some (dr_name (candidate_ref b))
  /\ selector_labels d !! deployment_label = Some (dr_name (candidate_ref b)).
Proof.
  destruct (deployment_manifest_roles _ _ _ _ _ _ _ Hd) as [Ho Ht].
  apply deployment_manifest_ok in Hd as (f & own & tpl & Eo & Et & Hs & Hn & Hns & Hr & Hk).
  split_and!; try done.
  - intros k v Hf Hg Hre Hu. rewrite Eo, Et. split; [|intros Hne; rewrite lookup_insert_ne by congruence];
      rewrite Hk by done; by apply lookup_union_Some_l.
  - rewrite Et. apply lookup_insert_eq.
  Qed.
End Manifest.

Lemma manifest_labels_witness :
  let run := @deployment_manifest sample_codecs (sample_bgd None) "apps"
               {| mds_namespace := None; mds_spec := empty_deployment_spec |} {["app" := "orders"]} true [] in
  exists d, run = Ok d /\ own_labels d !! ref_label = None /\ own_labels d !! "app" = Some "orders".
Proof.
  intros run. assert (exists d, run = Ok d) as [d Hd] by (eexists; reflexivity).
  exists d. split; [exact Hd|].
  destruct (@manifest_labels sample_codecs (sample_bgd None) "apps" _ _ _ _ d Hd)
    as (_ & _ & (_ & Hr & _) & _ & Hf & _).
  split; [exact Hr|]. apply (Hf "app" "orders"); [reflexivity|discriminate..].
Defined.
