(* ===== verification/PhasesTheorems.v ===== *)
(** * What the phases guarantee

    Deletions are the irreversible steps of a rollout; each theorem says what has
    been observed, in the same pass, before one is requested. *)

From S2P Require Import Prelude RustString Float64 Kube Crd StateStore MemoryStore Effects External.
From S2P Require Import Strategy Promotion Status World Names Lease Auth Deployments Plugins.
From S2P Require Import Resources PluginLifecycle Phases Controller Footprint ResourcesTheorems.
From S2P Require Import ControllerTheorems Outcomes.

(** ** The previous green *)

Lemma green_names_ok l names :
  green_names l = Ok names <-> map (fun d => meta_name (dep_metadata d)) l = map Some names.
Proof.
  revert names. induction l as [|d l IH]; intros names; cbn [green_names fold_right].
  - split; [by intros [= <-]|by destruct names].
  - fold (green_names l). rewrite result_bind_ok. unfold named. cbn [map]. split.
    + intros (n & Hn & (ns & Hns & [= <-])%result_bind_ok). apply IH in Hns. cbn.
      destruct (meta_name (dep_metadata d)); cbn in Hn; [|done]. injection Hn as ->. by rewrite Hns.
    + destruct names as [|n names]; [done|]. intros [= -> Hl]. exists n. split; [done|].
      apply result_bind_ok. exists names. split; [by apply IH|done].
Qed.

(** The names of the green deployments other than the candidate. *)
Definition other_greens (green_namespace : string) (candidate : DeploymentRef) (ns : string)
    (names : list string) : list string :=
  List.filter (fun n => negb (bool_decide (n = dr_name candidate)
                              && bool_decide (green_namespace = deployment_namespace candidate ns))%bool) names.

Lemma is_candidate_eqb (gns name : string) (c : DeploymentRef) (ns : string) :
  (String.eqb name (dr_name c) && String.eqb gns (deployment_namespace c ns))%bool
  = (bool_decide (name = dr_name c) && bool_decide (gns = deployment_namespace c ns))%bool.
Proof.
  destruct (String.eqb_spec name (dr_name c)), (String.eqb_spec gns (deployment_namespace c ns));
    repeat case_bool_decide; done.
Qed.

Lemma select_previous_green_inv gns l c ns g :
  select_previous_green_for_promotion gns l c ns = Ok g ->
  exists names, green_names l = Ok names /\
    ((exists n, other_greens gns c ns names = [n] /\ g = {| dr_name := n; dr_namespace := Some gns |})
     \/ (other_greens gns c ns names = [] /\ g = c /\ dr_name c ∈ names)).
Proof.
  unfold select_previous_green_for_promotion. intros (names & Hn & Hs)%result_bind_ok.
  exists names. split; [done|]. unfold other_greens.
  rewrite <- (filter_ext _ _ (fun n => f_equal negb (is_candidate_eqb gns n c ns))).
  set (seen := existsb _ names) in Hs. set (others := List.filter _ names) in *.
  destruct others as [|n [|n' rest]]; cbn in Hs.
  - right. destruct seen eqn:Eseen; [|done]. injection Hs as <-. split_and!; try done.
    subst seen. apply existsb_exists in Eseen as (x & Hx & [Ex%String.eqb_eq _]%andb_true_iff).
    subst x. by apply list_elem_of_In.
  - left. exists n. split; [done|]. by destruct seen; injection Hs as <-.
  - by destruct seen.
Qed.

(** ** Promotion *)

Section Promotion.
Context `{Sha256, HC : Codecs}.

Definition candidate_namespace (b : BlueGreenDeployment) (ns : string) : string :=
  deployment_namespace (candidate_ref b) ns.
Definition green_namespace_of (b : BlueGreenDeployment) (ns : string) : string :=
  unwrap_or ns (dsel_namespace (bgs_selector (bgd_spec b))).

(** The candidate was written with the green mark and was then seen ready. *)
Definition candidate_is_green (b : BlueGreenDeployment) (ns : string) (tr : trace) : Prop :=
  exists d, rollout_labels b true (own_labels d) /\ rollout_labels b true (template_labels d) /\
    ((exists w, Ev (AReplace KDeployment (Some (candidate_namespace b ns)) (dr_name (candidate_ref b)) d) (Ok w) ∈ tr)
     \/ (exists w, Ev (ACreate KDeployment (Some (candidate_namespace b ns)) d) (Ok w) ∈ tr)).
Definition candidate_seen_ready (b : BlueGreenDeployment) (ns : string) (tr : trace) : Prop :=
  exists d, Ev (AGet KDeployment (Some (candidate_namespace b ns)) (dr_name (candidate_ref b))) (Ok d) ∈ tr
    /\ deployment_is_ready d = true.

(** The API server listed [others] as the green deployments of the family besides
    the candidate. *)
Definition greens_besides (b : BlueGreenDeployment) (ns : string) (others : list string) (tr : trace) : Prop :=
  exists l names, Ev (AList KDeployment (Some (green_namespace_of b ns))
      (label_selector (<[green_label := "true"]> (dsel_match_labels (bgs_selector (bgd_spec b)))))) (Ok l) ∈ tr
    /\ green_names l = Ok names
    /\ other_greens (green_namespace_of b ns) (candidate_ref b) ns names = others.

Definition promotion_delete_ok (b : BlueGreenDeployment) (ns : string) (tr : trace) (e : event) : Prop :=
  match e with
  | Ev (ADelete k s n) _ =>
      k = KDeployment /\ s = Some (green_namespace_of b ns)
      /\ (n, green_namespace_of b ns) <> (dr_name (candidate_ref b), candidate_namespace b ns)
      /\ greens_besides b ns [n] tr /\ candidate_is_green b ns tr /\ candidate_seen_ready b ns tr
  | _ => True
  end.

(** What a successful promotion pass has done: the candidate is the green
    deployment, alone, and the phase Draining was put to the API server. *)
Definition green_in_place (b : BlueGreenDeployment) (ns : string) (tr : trace) : Prop :=
  candidate_is_green b ns tr /\ candidate_seen_ready b ns tr
  /\ (greens_besides b ns [] tr
      \/ exists n, greens_besides b ns [n] tr /\ gone (green_namespace_of b ns) (KDeployment, n) tr).
Definition promoted (b : BlueGreenDeployment) (ns : string) (tr : trace) : Prop :=
  green_in_place b ns tr /\ phase_requested b ns Draining tr.

Definition no_delete (act : action) : Prop := match act with ADelete _ _ _ => False | _ => True end.
#[local] Instance no_delete_reads : Reads no_delete.
Proof. by intros []. Qed.
#[local] Hint Extern 1 (no_delete _) => exact I : footprint.

Lemma no_delete_ok b ns tr act r : no_delete act -> promotion_delete_ok b ns tr (Ev act r).
Proof. by destruct act. Qed.

Notation promoting b ns := (always (promotion_delete_ok b ns)).

Lemma promoting_frame {A} b ns I pre (p : prog A) :
  only no_delete p -> stable I -> I pre -> promoting b ns pre p (fun tr _ => I tr).
Proof. intros. eapply always_frame; [done| |done|done]. intros. by apply no_delete_ok. Qed.

Lemma stable_greens b ns others : stable (greens_besides b ns others).
Proof. intros tr tr' (l & names & ? & ?). exists l, names. split; [by apply mem_app|done]. Qed.
Lemma stable_green b ns : stable (candidate_is_green b ns).
Proof.
  intros tr tr' (d & Ho & Ht & Hw). exists d. split_and!; [done|done|].
  destruct Hw as [[w Hw]|[w Hw]]; [left|right]; exists w; by apply mem_app.
Qed.
Lemma stable_ready b ns : stable (candidate_seen_ready b ns).
Proof. intros tr tr' (d & ? & ?). exists d. split; [by apply mem_app|done]. Qed.
(** What the first step of a promotion chose. *)
Definition chosen (b : BlueGreenDeployment) (ns : string) (g : DeploymentRef) (tr : trace) : Prop :=
  (g = candidate_ref b /\ greens_besides b ns [] tr) \/
  exists n, g = {| dr_name := n; dr_namespace := Some (green_namespace_of b ns) |}
            /\ greens_besides b ns [n] tr.

Lemma stable_chosen b ns g : stable (chosen b ns g).
Proof.
  intros tr tr' [[? ?]|(n & ? & ?)]; [left|right].
  - split; [done|]. by apply stable_greens.
  - exists n. split; [done|]. by apply stable_greens.
Qed.

Lemma resolve_chosen b ns pre :
  promoting b ns pre (resolve_previous_green_for_promotion ns (bgs_selector (bgd_spec b)) (candidate_ref b))
    (fun tr r => match r with Ok g => chosen b ns g tr | Err _ => True end).
Proof.
  unfold resolve_previous_green_for_promotion. case_bool_decide; [done|].
  apply always_bind_res, always_k8s, always_request. intros [l|e]; split; try done. cbn.
  destruct (select_previous_green_for_promotion _ l (candidate_ref b) ns) as [g|e] eqn:Es; [|done].
  apply select_previous_green_inv in Es as (names & Hn & [(n & Ho & ->)|(Ho & -> & _)]); [right|left].
  - exists n. split; [done|]. exists l, names. split; [apply mem_last|done].
  - split; [done|]. exists l, names. split; [apply mem_last|done].
Qed.

Lemma manifest_makes_green b ns I pre :
  stable I -> I pre ->
  promoting b ns pre (apply_bgd_manifest b ns true [])
    (fun tr r => match r with
                 | Ok i => I tr /\ candidate_is_green b ns tr
                           /\ i = {| di_namespace := candidate_namespace b ns; di_name := dr_name (candidate_ref b) |}
                 | Err _ => True end).
Proof.
  intros Hs Hi. unfold apply_bgd_manifest, apply_deployment_manifest. apply always_bind_res.
  destruct (deployment_manifest b ns (bgs_deployment (bgd_spec b)) _ true []) as [d|e] eqn:Ed; [|done].
  cbn [lift always].
  apply deployment_manifest_roles in Ed as [Ho Ht].
  apply always_bind, always_request. intros [existing|e]; split; try done.
  - apply always_bind_res, always_k8s, always_request. intros [w|e]; split; try done. cbn.
    split_and!; [by apply Hs, Hs| |done].
    exists (with_dep_metadata (with_resource_version (meta_resource_version (dep_metadata existing))
              (dep_metadata d)) d). split_and!; [exact Ho|exact Ht|]. left. exists w. apply mem_last.
  - destruct (is_not_found e); [|done].
    apply always_bind_res, always_k8s, always_request. intros [w|e']; split; try done. cbn.
    split_and!; [by apply Hs, Hs| |done].
    exists d. split_and!; [done|done|]. right. exists w. apply mem_last.
Qed.

Lemma wait_sees_ready b ns I pre :
  stable I -> I pre ->
  promoting b ns pre (wait_for_deployments_ready
      [{| di_namespace := candidate_namespace b ns; di_name := dr_name (candidate_ref b) |}])
    (fun tr r => match r with Ok _ => I tr /\ candidate_seen_ready b ns tr | Err _ => True end).
Proof.
  intros Hs Hi. unfold wait_for_deployments_ready. cbn [for_each]. apply always_bind_res.
  unfold wait_for_deployment_ready. apply always_bind_res.
  eapply always_post; [|eapply (always_attempts _ I _
    (fun tr r => match r with Ok (Some _) => I tr /\ candidate_seen_ready b ns tr | _ => True end));
    [done|done| |done]].
  - intros tr [[[]|]|e] Ht; [|done..]. exact Ht.
  - intros i tr Ht. apply always_bind_res, always_k8s, always_request.
    intros [d|e]; split; try done. cbn. destruct (deployment_is_ready d) eqn:Ed; cbn.
    + split; [by apply Hs|]. exists d. split; [apply mem_last|done].
    + intros ?. split; [done|]. by apply Hs, Hs.
Qed.

(** The previous green is another deployment than the candidate. *)
Lemma previous_is_other b ns n tr :
  greens_besides b ns [n] tr ->
  (n, green_namespace_of b ns) <> (dr_name (candidate_ref b), candidate_namespace b ns).
Proof.
  intros (l & names & _ & _ & Ho) [= E1 E2].
  assert (In n (other_greens (green_namespace_of b ns) (candidate_ref b) ns names)) as Hi by (rewrite Ho; by left).
  unfold other_greens in Hi. apply filter_In in Hi as [_ Hi]. unfold candidate_namespace in E2.
  by rewrite !bool_decide_eq_true_2 in Hi.
Qed.

Lemma delete_previous b ns g pre :
  chosen b ns g pre -> candidate_is_green b ns pre -> candidate_seen_ready b ns pre ->
  promoting b ns pre (delete_current_green ns (candidate_ref b) g)
    (ends (green_in_place b ns)).
Proof.
  intros Hg Hgr Hr. unfold delete_current_green. destruct Hg as [[-> Hg]|(n & -> & Hn)].
  - rewrite !String.eqb_refl. cbn. unfold green_in_place. auto.
  - pose proof (previous_is_other _ _ _ _ Hn) as Hne. cbn [dr_name].
    change (deployment_namespace {| dr_name := n; dr_namespace := Some (green_namespace_of b ns) |} ns)
      with (green_namespace_of b ns).
    destruct (_ && _)%bool eqn:E.
    { exfalso. apply andb_true_iff in E as [E1%String.eqb_eq E2%String.eqb_eq]. apply Hne. by rewrite <- E1, <- E2. }
    apply always_bind, always_request. intros a. split; [by split_and!|].
    pose proof (deleted_gone (green_namespace_of b ns) KDeployment n a pre) as Hd.
    destruct (deleted a) as [[]|]; [|done]. cbn.
    split_and!; [by apply stable_green|by apply stable_ready|right; exists n].
    split; [by apply stable_greens|done].
Qed.

Lemma stable_in_place b ns : stable (green_in_place b ns).
Proof.
  intros tr tr' (Hg & Hr & Ho). split_and!; [by apply stable_green|by apply stable_ready|].
  destruct Ho as [Hl|(n & Hl & Hd)]; [left|right; exists n].
  - by apply stable_greens.
  - split; [by apply stable_greens|by apply stable_gone].
Qed.

Lemma promoted_end b ns tr :
  green_in_place b ns tr ->
  promoting b ns tr (do! update_status_phase b ns Draining ;; do! update_drain_started_at b ns ;; ok (Requeue 5))
    (ends (promoted b ns)).
Proof.
  intros Hi. apply (reaches_only _ no_delete); [unfold update_status_phase; footprint|by intros; apply no_delete_ok|].
  apply always_bind.
  eapply always_post; [|apply (reaches_update_status_phase (green_in_place b ns)); [apply stable_in_place|done]].
  intros tr' u Ht. apply (reaches_skip (promoted b ns)); [|exact Ht|by intros].
  apply stable_and; [apply stable_in_place|apply stable_phase_requested].
Qed.

(** C2. Promotion keeps capacity.  In a promotion pass the only deletion ever
    requested is that of one deployment: the one the API server had listed, in
    the same pass, as the only green deployment of the family other than the
    candidate.  Before it is requested the candidate has been written with the
    green mark (and without a reference to its blue-green deployment) and has
    been seen ready; the candidate itself is never deleted.  And a pass that
    succeeds has done it all: the candidate is green and was seen ready, the
    previous green (if there was one) is gone, and the phase Draining was put to
    the API server. *)
Theorem promotion_keeps_capacity b ns auth tr r
    (He : exec (reconcile_promoting b ns auth) tr r) :
  (forall tr1 e tr2, tr = tr1 ++ e :: tr2 -> promotion_delete_ok b ns tr1 e)
  /\ (forall action, r = Ok action -> promoted b ns tr).
Proof.
  assert (promoting b ns [] (reconcile_promoting b ns auth) (ends (promoted b ns))) as Ha.
  { unfold reconcile_promoting, promote. apply always_bind_res, always_bind_res.
    eapply always_post; [|apply resolve_chosen]. intros tr1 [g|e]; [|done]. intros Hg.
    apply always_bind_res.
    eapply always_post; [|apply (manifest_makes_green b ns (chosen b ns g)); [apply stable_chosen|done]].
    intros tr2 [i|e]; [|done]. intros (Hg2 & Hgr & ->). apply always_bind_res.
    eapply always_post; [|apply (wait_sees_ready b ns (fun tr => chosen b ns g tr /\ candidate_is_green b ns tr));
      [apply stable_and; [apply stable_chosen|apply stable_green]|done]].
    intros tr3 [_|e]; [|done]. intros [[Hg3 Hgr3] Hr]. cbn.
    apply always_bind_res. unfold begin_draining_after_promotion. apply always_bind_res.
    eapply always_post; [|apply (promoting_frame b ns (fun tr => (chosen b ns g tr /\ candidate_is_green b ns tr)
                                    /\ candidate_seen_ready b ns tr)); [footprint| |done]].
    - intros tr4 [_|e]; [|done]. intros [[??]?]. eapply always_post; [|by apply delete_previous].
      intros tr5 [[]|e]; [|done]. apply promoted_end.
    - repeat apply stable_and; auto using stable_chosen, stable_green, stable_ready. }
  destruct (always_sound _ _ _ [] tr r Ha He) as [H1 H2]. split; [exact H2|].
  intros action ->. exact H1.
Qed.
End Promotion.

Lemma promotion_keeps_capacity_witness :
  let b := in_phase Promoting in
  let p := @reconcile_promoting sample_sha256 sample_codecs b "apps" sample_auth in
  let w := rollout_world Promoting true in
  deployment_deletes (trace_in p w) = [(Some "apps", "orders-green")] /\
  (forall tr1 e tr2, trace_in p w = tr1 ++ e :: tr2 -> promotion_delete_ok b "apps" tr1 e) /\
  promoted b "apps" (trace_in p w).
Proof.
  intros b p w. split; [vm_compute; reflexivity|].
  destruct (@promotion_keeps_capacity sample_sha256 sample_codecs b "apps" sample_auth
           (trace_in p w) (result_in p w) (exec_in p w)) as [Hs Hd].
  split; [exact Hs|]. apply (Hd (Requeue 5)). vm_compute. reflexivity.
Defined.

(** ** Observation *)

Section Observation.
Context `{Sha256, HC : Codecs}.

(** The decision of the pass: what [decide_promotion_action] gives for the
    counters the store answered. *)
Definition decided (b : BlueGreenDeployment) (key : string) (a : PromotionAction) (tr : trace) : Prop :=
  exists data custom,
    Ev (AStoreCountsForMode key Data) (Ok data) ∈ tr /\ Ev (AStoreCountsForMode key Custom) (Ok custom) ∈ tr
    /\ decide_promotion_action b data custom (bgd_status b ≫= st_current_step) = Ok a.

Definition observing_ok (b : BlueGreenDeployment) (ns key : string) (tr : trace) (e : event) : Prop :=
  match e with
  | Ev (ADelete k s n) _ =>
      k = KDeployment /\ s = Some (candidate_namespace b ns) /\ n = dr_name (candidate_ref b)
      /\ decided b key Rollback tr
  | Ev (AReplaceStatus _ _ b') _ =>
      (bgd_phase b' = Some Promoting /\ decided b key Promote tr)
      \/ (bgd_phase b' = Some Draining /\ decided b key Rollback tr)
  | Ev (APatchStatus _ _ fields) _ => field_phase fields = None
  | _ => True
  end.

(** Neither a deletion nor a write of a phase. *)
Definition harmless (act : action) : Prop := no_phase_write act /\ no_delete act.
#[local] Instance harmless_reads : Reads harmless.
Proof. by intros []. Qed.
#[local] Hint Extern 1 (harmless _) => (split; (exact I || assumption)) : footprint.

Lemma harmless_ok b ns key tr act r : harmless act -> observing_ok b ns key tr (Ev act r).
Proof. intros []. by destruct act. Qed.

Lemma stable_decided b key a : stable (decided b key a).
Proof. intros tr tr' (d & c & ? & ? & ?). exists d, c. split_and!; [by apply mem_app..|done]. Qed.

Notation observing b ns key := (always (observing_ok b ns key)).

Lemma observing_frame {A} b ns key I pre (p : prog A) :
  only harmless p -> stable I -> I pre -> observing b ns key pre p (fun tr _ => I tr).
Proof. intros. eapply always_frame; [done| |done|done]. intros. by apply harmless_ok. Qed.

Lemma observing_phase b ns key q a pre :
  decided b key a pre -> (q = Promoting /\ a = Promote) \/ (q = Draining /\ a = Rollback) ->
  observing b ns key pre (update_status_phase b ns q) (fun tr _ => decided b key a tr).
Proof.
  intros Hd Hq. unfold update_status_phase, if_named. destruct (meta_name _) as [name|]; [|done].
  apply always_bind, always_request. intros [latest|e]; (split; [done|]); [|by apply stable_decided].
  destruct (negb _); [by apply stable_decided|].
  apply always_bind, always_request. intros now. split; [done|].
  apply always_bind, always_request. intros w. split; [|by repeat apply stable_decided].
  destruct Hq as [[-> ->]|[-> ->]]; [left|right]; split; try done; by repeat apply stable_decided.
Qed.

(** What a pass that succeeds has done about its decision. *)
Definition carried_out (b : BlueGreenDeployment) (ns : string) (a : PromotionAction) (tr : trace) : Prop :=
  match a with
  | ContinueObserving => True
  | Promote => phase_requested b ns Promoting tr
  | Rollback => gone (candidate_namespace b ns) (KDeployment, dr_name (candidate_ref b)) tr
                /\ phase_requested b ns Draining tr
  | AdvanceStep step percent => forall name, meta_name (bgd_metadata b) = Some name ->
      exists w, Ev (APatchStatus ns name [FStep (Some step); FTrafficPercent (Some percent)]) w ∈ tr
  end.
Definition acted (b : BlueGreenDeployment) (ns key : string) (a : PromotionAction) (tr : trace) : Prop :=
  decided b key a tr /\ carried_out b ns a tr.

Lemma promote_acted b ns key tr :
  decided b key Promote tr ->
  observing b ns key tr (do! update_status_phase b ns Promoting ;; ok tt) (ends (acted b ns key Promote)).
Proof.
  intros Hd. apply always_bind. eapply always_post; [|apply always_reaches;
    [apply (observing_phase _ _ _ _ Promote); auto|
     apply (reaches_update_status_phase (decided b key Promote)); [apply stable_decided|done]]].
  intros tr' u [_ Ha]. exact Ha.
Qed.

Lemma rollback_acted b ns key auth tr :
  decided b key Rollback tr ->
  observing b ns key tr
    (do? begin_draining_after_rollback b ns auth ;;
     do! update_status_phase b ns Draining ;; do! update_drain_started_at b ns ;; ok tt)
    (ends (acted b ns key Rollback)).
Proof.
  intros Hd. unfold begin_draining_after_rollback. apply always_bind_res, always_bind_res.
  eapply always_post; [|apply (observing_frame b ns key (decided b key Rollback));
    [footprint|apply stable_decided|done]].
  intros tr2 [u0|e] Hd2; [|done]. apply always_bind, always_request. intros answer. split; [done|].
  pose proof (deleted_gone (candidate_namespace b ns) KDeployment (dr_name (candidate_ref b)) answer tr2) as Hg.
  destruct (deleted answer) as [u1|e]; [|done]. cbn [lift always].
  apply (stable_decided b key Rollback tr2 [Ev (ADelete KDeployment
    (Some (candidate_namespace b ns)) (dr_name (candidate_ref b))) answer]) in Hd2.
  set (I tr := decided b key Rollback tr
    /\ gone (candidate_namespace b ns) (KDeployment, dr_name (candidate_ref b)) tr).
  assert (stable I) as HI by (apply stable_and; [apply stable_decided|apply stable_gone]).
  apply always_bind. eapply always_post; [|apply always_reaches;
    [by apply (observing_phase _ _ _ _ Rollback); auto|by apply (reaches_update_status_phase I)]].
  intros tr3 u [_ [[Hd3 Hg3] Hp3]]. apply (reaches_only _ harmless);
    [footprint|by intros; apply harmless_ok|].
  apply (reaches_skip (acted b ns key Rollback)); [|by split_and!|by intros].
  apply stable_and; [apply stable_decided|]. apply stable_and; [apply stable_gone|apply stable_phase_requested].
Qed.

Lemma advance_acted b ns key auth step percent tr :
  decided b key (AdvanceStep step percent) tr ->
  observing b ns key tr
    (do? apply_splitter_traffic_percent b ns auth percent ;;
     do! update_status_progress b ns step percent ;; ok tt)
    (ends (acted b ns key (AdvanceStep step percent))).
Proof.
  intros Hd. apply (reaches_only _ harmless); [footprint|by intros; apply harmless_ok|].
  eapply reaches_skip_res; [apply stable_decided|exact Hd|done|]. intros tr1 u H1.
  unfold update_status_progress, if_named, patch_status, acted, carried_out.
  destruct (meta_name (bgd_metadata b)) as [name|]; [|by split].
  apply always_bind, always_bind, always_request. intros w. split; [done|].
  cbn. split; [by apply stable_decided|]. intros ? [= <-]. exists w. apply mem_last.
Qed.

(** C4. Observation acts on its decision only.  While a rollout is observed, the
    candidate is the only thing deleted, and only after the promotion decision for
    the counters read in this pass was to roll back; the phase is set to Promoting
    only when that decision was to promote, to Draining only when it was to roll
    back, and to nothing else.  And a pass that succeeds has carried its decision
    out: a promotion and a rollback were put to the API server as the phase, the
    rollback after the candidate was gone, and a step was published. *)
Theorem observation_follows_decision b ns auth key tr r
    (He : exec (reconcile_observing b ns auth key) tr r) :
  (forall tr1 e tr2, tr = tr1 ++ e :: tr2 -> observing_ok b ns key tr1 e)
  /\ (forall action, r = Ok action -> exists a, decided b key a tr /\ carried_out b ns a tr).
Proof.
  assert (observing b ns key [] (reconcile_observing b ns auth key)
            (ends (fun tr => exists a, acted b ns key a tr))) as Ha.
  { unfold reconcile_observing. apply always_bind_res. cbn [lift always].
    destruct (validate_test_configuration b) as [_|e]; [|done].
    apply always_bind_res, always_in_store, always_request. intros [c|e]; split; try done. cbn [map_err].
    apply always_bind_res, always_in_store, always_request. intros [data|e]; split; try done. cbn [map_err].
    apply always_bind_res, always_in_store, always_request. intros [custom|e]; split; try done.
    cbn [map_err].
    apply always_bind_res, always_in_store, always_request. intros [msg|e]; split; try done. cbn [map_err].
    set (seen (tr : trace) := Ev (AStoreCountsForMode key Data) (Ok data) ∈ tr
                    /\ Ev (AStoreCountsForMode key Custom) (Ok custom) ∈ tr).
    apply always_bind. eapply always_post; [|apply (observing_frame b ns key seen)].
    - intros tr1 _ [Hd Hc]. apply always_bind_res. cbn [lift always].
      destruct (decide_promotion_action b data custom _) as [a|e] eqn:Ea; [|done].
      assert (decided b key a tr1) as Hdec by (exists data, custom; done).
      apply always_bind_res. eapply (always_post _ _ _ (ends (acted b ns key a))).
      + intros tr2 [[]|e]; [|done]. by exists a.
      + destruct a; [by split|by apply promote_acted|by apply rollback_acted|by apply advance_acted].
    - footprint.
    - subst seen. apply stable_and; intros ? ?; apply mem_app.
    - subst seen. cbn. rewrite !elem_of_cons. auto. }
  destruct (always_sound _ _ _ [] tr r Ha He) as [H1 H2]. split; [exact H2|]. intros action ->. exact H1.
Qed.
End Observation.

Lemma observation_follows_decision_witness :
  let b := in_phase Observing in
  let p := @reconcile_observing sample_sha256 sample_codecs b "apps" sample_auth "apps/orders" in
  let w := rollout_world Observing false in
  deployment_deletes (trace_in p w) = [(Some "apps", "orders-candidate")] /\
  (forall tr1 e tr2, trace_in p w = tr1 ++ e :: tr2 -> observing_ok b "apps" "apps/orders" tr1 e) /\
  exists a, decided b "apps/orders" a (trace_in p w) /\ carried_out b "apps" a (trace_in p w).
Proof.
  intros b p w. split; [vm_compute; reflexivity|].
  destruct (@observation_follows_decision sample_sha256 sample_codecs b "apps" sample_auth "apps/orders"
           (trace_in p w) (result_in p w) (exec_in p w)) as [Hs Hd].
  split; [exact Hs|]. apply (Hd (Requeue 5)). vm_compute. reflexivity.
Defined.

(** ** Draining *)

Section Draining.
Context `{Sha256, HC : Codecs}.

(** Every inception point's drain was published as final, and the store answered
    [c] with no test case pending. *)
Definition drained (b : BlueGreenDeployment) (ns name key : string) (c : Counts) (tr : trace) : Prop :=
  Ev (AStoreCounts key) (Ok c) ∈ tr /\ pending c <= 0
  /\ exists statuses r, Ev (APatchStatus ns name [FDrains statuses]) r ∈ tr
       /\ map ids_name statuses = map ip_name (bgs_inception_points (bgd_spec b))
       /\ Forall (fun s => drain_is_final (ids_phase s) = true) statuses.

Definition has_failures (c : Counts) : bool := (Z.ltb 0 (failed c) || Z.ltb 0 (timed_out c))%bool.

Definition outcome (b : BlueGreenDeployment) (c : Counts) : BGDPhase :=
  if (force_replace_interrupted_rollout b || has_failures c)%bool then RolledBack else Completed.

Definition draining_ok (b : BlueGreenDeployment) (ns name key : string) (tr : trace) (e : event) : Prop :=
  match e with
  | Ev (ADelete k s n) _ =>
      s = Some ns /\ (k, n) ∈ generated_objects b /\ exists c, drained b ns name key c tr
  | Ev (AReplaceStatus _ _ b') _ =>
      exists c, drained b ns name key c tr /\ bgd_phase b' = Some (outcome b c)
  | Ev (APatchStatus _ _ fields) _ => field_phase fields = None
  | _ => True
  end.

(** How a draining pass that succeeds ends: still waiting for a plugin, or for a test
    case, or with everything generated for the rollout gone and its outcome put to
    the API server. *)
Definition waits_or_finished (b : BlueGreenDeployment) (ns name key : string) (tr : trace) : Prop :=
  (exists statuses w, Ev (APatchStatus ns name [FDrains statuses]) w ∈ tr
     /\ Exists (fun s => drain_is_final (ids_phase s) = false) statuses)
  \/ (exists c, Ev (AStoreCounts key) (Ok c) ∈ tr /\ 0 < pending c)
  \/ (exists c, drained b ns name key c tr
      /\ (forall o, o ∈ generated_objects b -> gone ns o tr) /\ phase_requested b ns (outcome b c) tr).

#[local] Instance harmless_reads' : Reads harmless.
Proof. by intros []. Qed.
#[local] Hint Extern 1 (harmless _) => (split; (exact I || assumption)) : footprint.

Lemma draining_harmless b ns name key tr act r : harmless act -> draining_ok b ns name key tr (Ev act r).
Proof. intros []. by destruct act. Qed.

Lemma stable_drained b ns name key c : stable (drained b ns name key c).
Proof.
  intros tr tr' (? & ? & l & r & ? & ?). split_and!; [by apply mem_app|done|].
  exists l, r. split; [by apply mem_app|done].
Qed.

Notation draining b ns name key := (always (draining_ok b ns name key)).

Lemma draining_frame {A} b ns name key I pre (p : prog A) :
  only harmless p -> stable I -> I pre -> draining b ns name key pre p (fun tr _ => I tr).
Proof. intros. eapply always_frame; [done| |done|done]. intros. by apply draining_harmless. Qed.

Lemma drain_point_name ok b ns auth e ip pre :
  (forall tr act r, harmless act -> ok tr (Ev act r)) ->
  always ok pre (drain_inception_point b ns auth e ip)
    (fun _ r => match r with Ok s => ids_name s = ip_name ip | Err _ => True end).
Proof.
  intros Hok. unfold drain_inception_point. destruct (final_drain_of _ _) as [s|] eqn:Ef.
  - cbn. unfold final_drain_of in Ef. apply find_some in Ef as [_ Ef].
    apply andb_true_iff in Ef as [Ef _]. by apply String.eqb_eq in Ef.
  - destruct (Z.leb _ _); [intros now; split; [by apply Hok|done]|].
    apply always_bind_res, always_k8s, always_request. intros [plugin|err]; (split; [by apply Hok|]); [|done].
    apply always_bind_res. eapply always_post; [|eapply (always_frame ok harmless (fun _ => True));
      [footprint|done|done|done]].
    intros tr [[s|]|err'] _; [|by intros now; split; [apply Hok|]|done].
    destruct (pds_drained s); [intros now; split; [by apply Hok|done]|done].
Qed.

Lemma drain_statuses_names b ns name key auth e pre Q :
  (forall tr err, Q tr (Err err)) ->
  (forall tr l, map ids_name l = map ip_name (bgs_inception_points (bgd_spec b)) -> Q tr (Ok l)) ->
  draining b ns name key pre
    (fold_each (bgs_inception_points (bgd_spec b)) [] (fun acc ip =>
       let? s := drain_inception_point b ns auth e ip in ok (acc ++ [s]))) Q.
Proof.
  intros He HQ. apply (always_fold_each _ _ (fun seen _ acc => map ids_name acc = map ip_name seen)).
  - exact He.
  - intros seen ip tr acc _ Hacc. apply always_bind_res.
    eapply always_post; [|apply drain_point_name; intros; by apply draining_harmless].
    intros tr' [s|err]; [|done]. cbn. intros Hs. by rewrite !map_app, Hacc; cbn; rewrite Hs.
  - intros tr l. apply HQ.
  - done.
Qed.

Lemma not_pending_final l :
  any_drain_pending l = false -> Forall (fun s => drain_is_final (ids_phase s) = true) l.
Proof.
  unfold any_drain_pending. induction l as [|s l IH]; cbn; [constructor|].
  destruct (ids_phase s) eqn:E; [done|..]; cbn; intros; constructor; auto; by rewrite E.
Qed.

Lemma pending_not_final l :
  any_drain_pending l = true -> Exists (fun s => drain_is_final (ids_phase s) = false) l.
Proof.
  unfold any_drain_pending. intros (s & Hs & Hp)%existsb_exists. apply list.Exists_exists.
  exists s. split; [by apply list_elem_of_In|]. by destruct (ids_phase s).
Qed.

(** Deletions and the final phase write happen once everything is drained. *)
Lemma finalize_after_drained b ns name key auth c pre :
  drained b ns name key c pre ->
  draining b ns name key pre (finalize_draining b ns auth (has_failures c)) (fun _ _ => True).
Proof.
  intros Hd. set (P act := match act with
      | ADelete k s n => s = Some ns /\ (k, n) ∈ generated_objects b | _ => harmless act end).
  assert (Reads P) as HP by (by intros []).
  assert (forall {A} tr (p : prog A), only P p -> drained b ns name key c tr ->
    draining b ns name key tr p (fun tr _ => drained b ns name key c tr)) as Hf.
  { intros A tr p Hp Ht. eapply always_post; [|apply (always_with _ (fun _ e => P (act_of e)) (drained b ns name key c) _ _ (fun _ _ => True));
      [apply stable_drained|done| |]]; [by intros ? ? []| |].
    - intros tr' [act r] Ht' Hact. destruct act; try by apply draining_harmless.
      destruct Hact. split_and!; [done..|by exists c].
    - eapply (always_only _ P); [done|done|done]. }
  unfold finalize_draining. apply always_bind_res. eapply always_post; [|apply (Hf _ pre); [footprint|done]].
  intros tr1 [_|e] H1; [|done]. apply always_bind_res.
  eapply always_post; [|apply (Hf _ tr1); [apply fp_cleanup_inception_resources; [done|by intros]|done]].
  intros tr2 [_|e] H2; [|done]. apply always_bind_res.
  eapply always_post; [|apply (Hf _ tr2); [apply fp_cleanup_test_resources; [done|by intros]|done]].
  intros tr3 [_|e] H3; [|done]. apply always_bind. unfold update_status_phase, if_named.
  destruct (meta_name _); [|done]. apply always_bind, always_request.
  intros [latest|e]; (split; [done|]); [|done]. destruct (negb _); [done|].
  apply always_bind, always_request. intros now. split; [done|].
  apply always_bind, always_request. intros w. split; [|done].
  exists c. split; [by repeat apply stable_drained|done].
Qed.

(** And they have happened when the finalization succeeds. *)
Lemma finalize_finishes b ns name key auth c pre :
  drained b ns name key c pre ->
  reaches pre (finalize_draining b ns auth (has_failures c)) (ends (waits_or_finished b ns name key)).
Proof.
  intros Hd. pose proof (stable_drained b ns name key c) as Hs. unfold finalize_draining.
  eapply reaches_skip_res; [exact Hs|exact Hd|done|]. intros tr1 u H1. apply always_bind_res.
  eapply always_post; [|apply (inception_resources_gone (drained b ns name key c) []); [exact Hs|by apply and_gone_nil]].
  intros tr2 [[]|e]; [|done]. cbn [app]. intros H2. apply always_bind_res.
  eapply always_post; [|eapply test_resources_gone; [exact Hs|exact H2]].
  intros tr3 [[]|e]; [|done]. fold (generated_objects b). intros H3. apply always_bind.
  eapply always_post; [|apply (reaches_update_status_phase
    (and_gone (drained b ns name key c) ns (generated_objects b))); [by apply stable_and_gone|exact H3]].
  intros tr4 u4 [[H4 Hg] Hp]. right. right. by exists c.
Qed.

(** C3. Cleanup waits for the drain.  While a rollout drains, nothing is deleted
    and no phase is written until every inception point's drain has been published
    as final in this pass and the store has answered that no test case is pending;
    what is then deleted is among the objects generated for the rollout's inception
    points and test, and the final phase is RolledBack exactly when those counters
    show a failed or timed-out case or a forced replacement interrupted the
    rollout, and Completed otherwise.  And a pass that succeeds has either found a
    drain or a test case that is not final, or has seen all of these objects gone
    and put the final phase to the API server. *)
Theorem cleanup_waits_for_drain b ns auth key name tr r
    (Hn : meta_name (bgd_metadata b) = Some name)
    (He : exec (reconcile_draining b ns auth key) tr r) :
  (forall tr1 e tr2, tr = tr1 ++ e :: tr2 -> draining_ok b ns name key tr1 e)
  /\ (r = Ok tt -> waits_or_finished b ns name key tr).
Proof.
  assert (draining b ns name key [] (reconcile_draining b ns auth key)
            (ends (waits_or_finished b ns name key))) as Ha.
  { unfold reconcile_draining. apply always_bind.
    eapply always_post; [|apply (draining_frame _ _ _ _ (fun _ => True)); [footprint|done|done]].
    intros tr1 elapsed _. apply always_bind_res. apply drain_statuses_names; [done|].
    intros tr2 statuses Hst. unfold update_inception_point_drain_statuses, if_named, patch_status. rewrite Hn.
    apply always_bind, always_bind, always_request. intros w. split; [done|]. cbn [always].
    destruct (any_drain_pending statuses) eqn:Ep.
    { left. exists statuses, w. split; [apply mem_last|by apply pending_not_final]. }
    apply always_bind_res. unfold publish_drain_counts.
    apply always_bind_res, always_in_store, always_request. intros [c|e]; split; try done. cbn [map_err].
    apply always_bind_res, always_in_store, always_request. intros [msg|e]; split; try done. cbn [map_err].
    apply always_bind. eapply always_post; [|apply (draining_frame _ _ _ _ (fun tr =>
      Ev (APatchStatus ns name [FDrains statuses]) w ∈ tr /\ Ev (AStoreCounts key) (Ok c) ∈ tr))].
    - intros tr3 u [Hp Hc]. cbn [always ok]. destruct (Z.ltb_spec 0 (pending c)); [right; left; by exists c|].
      assert (drained b ns name key c tr3) as Hd.
      { split_and!; [done|lia|]. exists statuses, w. split_and!; [done|done|by apply not_pending_final]. }
      eapply always_post; [|apply always_reaches;
        [by apply finalize_after_drained|by apply (finalize_finishes b ns name key)]]. by intros tr4 a [].
    - footprint.
    - apply stable_and; intros ? ?; apply mem_app.
    - split; repeat first [apply mem_last | apply mem_app]. }
  destruct (always_sound _ _ _ [] tr r Ha He) as [H1 H2]. split; [exact H2|]. intros ->. exact H1.
Qed.

(** A plugin cannot hold a rollout in draining.  Once an inception point's
    maximum drain wait has elapsed, or its drain was final before, its status is
    final without any request to the plugin, whatever it would answer. *)
Theorem drain_time_limit b ns auth elapsed ip tr r
    (He : exec (drain_inception_point b ns auth elapsed ip) tr r)
    (Hl : drain_max_wait ip <= elapsed
          \/ exists s, bgd_status b = Some s /\
               Exists (fun d => ids_name d = ip_name ip /\ drain_is_final (ids_phase d) = true)
                 (st_inception_point_drains s)) :
  (exists s, r = Ok s /\ ids_name s = ip_name ip /\ drain_is_final (ids_phase s) = true)
  /\ forall e, e ∈ tr -> act_of e = ANow.
Proof.
  unfold drain_inception_point in He. destruct (final_drain_of _ _) as [s|] eqn:Ef.
  - destruct He as [-> ->]. split; [|by intros e Hin; apply elem_of_nil in Hin].
    unfold final_drain_of in Ef. apply find_some in Ef as [_ [E1 E2]%andb_true_iff].
    apply String.eqb_eq in E1. by exists s.
  - destruct Hl as [Hl|(s & Hs & Hx)].
    + destruct (Z.leb_spec (drain_max_wait ip) elapsed); [|lia].
      apply exec_request in He as (now & tr' & -> & -> & ->). split; [by eexists|].
      intros e Hin. apply elem_of_cons in Hin as [->|Hin]; [done|by apply elem_of_nil in Hin].
    + exfalso. rewrite Hs in Ef. apply list.Exists_exists in Hx as (d & Hd & E1 & E2).
      unfold final_drain_of in Ef. eapply find_none in Ef; [|by apply list_elem_of_In].
      cbn in Ef. by rewrite E1, String.eqb_refl, E2 in Ef.
Qed.
End Draining.

Lemma cleanup_waits_for_drain_witness :
  let b := in_phase Draining in
  let p := @reconcile_draining sample_sha256 sample_codecs b "apps" sample_auth "apps/orders" in
  let w := rollout_world Draining false in
  phase_writes (trace_in p w) = [RolledBack] /\
  (forall tr1 e tr2, trace_in p w = tr1 ++ e :: tr2 ->
     @draining_ok sample_sha256 b "apps" "orders" "apps/orders" tr1 e) /\
  @waits_or_finished sample_sha256 b "apps" "orders" "apps/orders" (trace_in p w).
Proof.
  intros b p w. split; [vm_compute; reflexivity|].
  destruct (@cleanup_waits_for_drain sample_sha256 sample_codecs b "apps" sample_auth "apps/orders" "orders"
           (trace_in p w) (result_in p w) eq_refl (exec_in p w)) as [Hs Hd].
  split; [exact Hs|]. apply Hd. vm_compute. reflexivity.
Defined.

Lemma drain_time_limit_witness :
  let ip := {| ip_name := "calls"; ip_plugin_ref := "http"; ip_roles := [Observer]; ip_config := JNull;
               ip_drain := None |} in
  let p := @drain_inception_point sample_sha256 sample_codecs (in_phase Draining) "apps" sample_auth 60 ip in
  exists s, result_in p empty_world = Ok s /\ ids_name s = "calls" /\ drain_is_final (ids_phase s) = true.
Proof.
  intros ip p.
  refine (proj1 (@drain_time_limit sample_sha256 sample_codecs (in_phase Draining) "apps" sample_auth 60 ip
                   (trace_in p empty_world) (result_in p empty_world) (exec_in p empty_world) _)).
  left. vm_compute. discriminate.
Defined.
