(* ===== verification/PassTheorems.v ===== *)
(** * A pass as a whole: the in-process lock, finalizers and orphans *)

From S2P Require Import Prelude RustString Float64 Kube Crd StateStore MemoryStore Effects External.
From S2P Require Import Strategy Promotion Status World Names Lease Auth Deployments Plugins.
From S2P Require Import Resources PluginLifecycle Phases Controller Footprint.
From S2P Require Import ControllerTheorems.

(** ** The in-process lock *)

Definition no_lock (act : action) : Prop := match act with ALock _ | AUnlock _ => False | _ => True end.
#[local] Instance no_lock_reads : Reads no_lock.
Proof. by intros []. Qed.
#[local] Hint Extern 1 (no_lock _) => exact I : footprint.

Section Pass.
Context `{Sha256, HC : Codecs}.

Lemma no_lock_pass b c ns :
  only no_lock (if is_some (meta_deletion_timestamp (bgd_metadata b))
                then reconcile_deleted b ns else reconcile_under_lease b ns c).
Proof. destruct (is_some _); [apply fp_deleted|apply fp_under_lease]; first [apply _ | by intros]. Qed.

(** C7. The in-process lock.  A pass over a namespaced object starts by asking for
    the lock of that object.  Refused, it makes no other request and asks to be
    run again; granted, it holds the lock until its very last request, which
    releases it, on every path: success, error, lost lease or deleted object. *)
Theorem lock_discipline b c ns tr r
    (Hns : meta_namespace (bgd_metadata b) = Some ns) (He : exec (reconcile b c) tr r) :
  (exists answer, answer <> Some true /\ tr = [Ev (ALock (local_lock_key b)) answer] /\ r = Ok (Requeue 1))
  \/ exists body, tr = Ev (ALock (local_lock_key b)) (Some true) :: body ++ [Ev (AUnlock (local_lock_key b)) tt]
       /\ forall e, e ∈ body -> no_lock (act_of e).
Proof.
  unfold reconcile in He. rewrite Hns in He. apply exec_request in He as (locked & tr' & -> & He).
  destruct locked as [[|]|]; [right|left; destruct He as [-> ->]; eexists; (split; [|by split]); done..].
  apply exec_bind in He as (tr1 & tr2 & x & -> & H1 & H2).
  apply exec_request in H2 as ([] & tr3 & -> & -> & _). exists tr1. split; [done|].
  intros [act a] Hin. cbn. eapply only_exec; [|exact H1|exact Hin].
  apply no_lock_pass.
Qed.
End Pass.

Lemma lock_discipline_witness :
  let p := @reconcile sample_sha256 sample_codecs (in_phase Observing)
             {| ctx_auth := sample_auth;
                ctx_lease := {| holder_identity := "me"; lc_duration := 30; lc_renew_interval := 10 |} |} in
  let w := rollout_world Observing true in
  phase_writes (trace_in p w) = [Promoting] /\
  ((exists answer, answer <> Some true /\ trace_in p w = [Ev (ALock "apps/uid-1") answer] /\ result_in p w = Ok (Requeue 1))
   \/ exists body, trace_in p w = Ev (ALock "apps/uid-1") (Some true) :: body ++ [Ev (AUnlock "apps/uid-1") tt]
        /\ forall e, e ∈ body -> no_lock (act_of e)).
Proof.
  intros p w. split; [vm_compute; reflexivity|].
  exact (@lock_discipline sample_sha256 sample_codecs (in_phase Observing) _ "apps" (trace_in p w)
           (result_in p w) eq_refl (exec_in p w)).
Defined.

(** ** Orphans *)

Section Orphans.
Context `{Sha256, HC : Codecs}.

(** The API server's list of all blue-green deployments does not have the key. *)
Definition is_orphan (key : string) (tr : trace) : Prop :=
  exists bgds, Ev (AList KBgd None "") (Ok bgds) ∈ tr
    /\ forall b ns name, b ∈ bgds -> meta_namespace (bgd_metadata b) = Some ns ->
         meta_name (bgd_metadata b) = Some name -> key <> ns +:+ "/" +:+ name.

Definition orphan_ok (tr : trace) (e : event) : Prop :=
  match e with
  | Ev (AStoreCleanup key) _ => is_orphan key tr
  | Ev (ADelete k s n) _ =>
      exists ns ref items item, s = Some ns /\ is_orphan (blue_green_state_key ns ref) tr
        /\ Ev (AList k (Some ns) (blue_green_ref_selector ref)) (Ok items) ∈ tr
        /\ item ∈ items /\ n = name_any (meta_of k item)
  | _ => True
  end.

Definition incl_trace (tr tr' : trace) : Prop := forall e, e ∈ tr -> e ∈ tr'.

Lemma orphan_ok_mono tr tr' e : incl_trace tr tr' -> orphan_ok tr e -> orphan_ok tr' e.
Proof.
  intros Hi. assert (forall key, is_orphan key tr -> is_orphan key tr') as Ho
    by (intros key (l & Hl & ?); exists l; split; [by apply Hi|done]).
  destruct e as [[] r]; cbn; auto.
  intros (ns' & ref & items & item & ? & ? & ? & ?). exists ns', ref, items, item.
  split_and!; naive_solver.
Qed.

(** A program under a lease does what the program does, between the steps of the runtime. *)
Lemma always_select_lost {A} l (p : prog A) pre pre' :
  always orphan_ok pre p (fun _ _ => True) -> incl_trace pre pre' ->
  always orphan_ok pre' (select_lost l p) (fun _ _ => True).
Proof.
  assert (forall tr tr' e, incl_trace tr tr' -> incl_trace tr (tr' ++ [e])) as Hmore
    by (intros tr tr' e Hi x Hx; apply elem_of_app; left; by apply Hi).
  set (fine tr (q : prog (option A)) := forall tr', incl_trace tr tr' -> always orphan_ok tr' q (fun _ _ => True)).
  assert (forall tr q, fine tr q -> fine tr (look l q)) as Hlook.
  { intros tr q Hq tr' Hi. cbn. intros []; (split; [done|]); [done|]. by apply Hq, Hmore. }
  assert (forall tr body, (forall b, fine tr (body b)) -> fine tr (next_poll l body)) as Hnext.
  { intros tr body Hb tr' Hi. cbn [next_poll always]. intros []; (split; [done|]).
    - apply (Hlook tr); [by apply Hb|by apply Hmore].
    - by apply Hb, Hmore. }
  enough (forall tr, always orphan_ok tr p (fun _ _ => True) -> forall looked, fine tr (poll_body l looked p)) as Hbody.
  { intros Hp Hi. apply (Hnext pre); [|done]. intros b. by apply Hbody. }
  induction p as [a|act k IH]; intros tr Hp looked tr' Hi; [done|].
  cbn [poll_body always]. intros r. destruct (Hp r) as [Hok Hk]. split; [by eapply orphan_ok_mono|].
  assert (incl_trace (tr ++ [Ev act r]) (tr' ++ [Ev act r])) as Hi'
    by (intros e [He|He]%elem_of_app; apply elem_of_app; [left; by apply Hi|by right]).
  assert (fine (tr ++ [Ev act r]) (suspended l looked (fun b => poll_body l b (k r)))) as Hsus
    by (unfold suspended; destruct looked; [|apply Hlook]; apply Hnext; intros b; by apply IH).
  destruct (over_network act r); [by apply Hsus|]. cbn [always]. intros pended. split; [done|].
  destruct pended; [by apply Hsus, Hmore|]. exact (IH r _ Hk looked _ (Hmore _ _ _ Hi')).
Qed.

Definition no_cleanup (act : action) : Prop :=
  match act with AStoreCleanup _ | ADelete _ _ _ => False | _ => True end.
#[local] Instance no_cleanup_reads : Reads no_cleanup.
Proof. by intros []. Qed.
#[local] Hint Extern 1 (no_cleanup _) => exact I : footprint.

Lemma orphan_frame {A} I pre (p : prog A) :
  only no_cleanup p -> stable I -> I pre -> always orphan_ok pre p (fun tr _ => I tr).
Proof. intros. eapply always_frame; [done| |done|done]. intros tr act r Ha. by destruct act. Qed.

Lemma stable_orphan key : stable (is_orphan key).
Proof. intros tr tr' (l & ? & ?). exists l. split; [apply elem_of_app; by left|done]. Qed.

Lemma delete_labeled_ok k ns ref pre :
  is_orphan (blue_green_state_key ns ref) pre ->
  always orphan_ok pre (delete_labeled_resources k ns (blue_green_ref_selector ref))
    (fun tr _ => is_orphan (blue_green_state_key ns ref) tr).
Proof.
  intros Ho. unfold delete_labeled_resources. apply always_bind_res, always_k8s, always_request.
  intros [items|e]; (split; [done|]); [|by apply stable_orphan]. cbn [map_err].
  set (listed (tr : trace) := Ev (AList k (Some ns) (blue_green_ref_selector ref)) (Ok items) ∈ tr).
  assert (forall todo tr, (forall x, x ∈ todo -> x ∈ items) ->
    is_orphan (blue_green_state_key ns ref) tr -> listed tr ->
    always orphan_ok tr (for_each todo (fun item => delete_resource k (Some ns) (name_any (meta_of k item))))
      (fun tr _ => is_orphan (blue_green_state_key ns ref) tr)) as Hloop.
  { induction todo as [|x todo IH]; intros tr Hsub Htr Hl; [done|]. cbn [for_each].
    apply always_bind_res. unfold delete_resource. apply always_bind, always_request. intros r. split.
    - exists ns, ref, items, x. split_and!; try done. apply Hsub. left.
    - cbn. destruct (deleted r) as [_|e]; [|by apply stable_orphan].
      apply IH; [intros y Hy; apply Hsub; by right|by apply stable_orphan|apply elem_of_app; by left]. }
  apply Hloop; [done|by apply stable_orphan|].
  subst listed. cbn. rewrite elem_of_app, list_elem_of_singleton. by right.
Qed.

Lemma single_orphan_ok key pre :
  is_orphan key pre -> always orphan_ok pre (cleanup_single_orphaned_blue_green_ref key) (fun _ _ => True).
Proof.
  intros Ho. unfold cleanup_single_orphaned_blue_green_ref, split_blue_green_state_key.
  apply always_bind_res. cbn [lift always].
  destruct (split_once "/" key) as [[ns ref]|] eqn:Es; cbn [ok_or]; [|done].
  apply split_once_Some in Es as [-> _]. cbn [fst snd].
  change (is_orphan (blue_green_state_key ns ref) pre) in Ho.
  set (J := is_orphan (blue_green_state_key ns ref)) in *.
  apply always_bind_res. unfold cleanup_orphaned_blue_green_resources.
  eapply (always_post _ _ _ (fun tr _ => J tr)).
  - intros tr [_|e] Ht; [|done]. apply always_bind_res, always_in_store, always_request.
    intros [n|e]; split; done.
  - assert (forall ks tr, J tr -> always orphan_ok tr (for_each ks (fun k =>
      delete_labeled_resources k ns (blue_green_ref_selector ref))) (fun tr _ => J tr)) as Hks.
    { induction ks as [|k ks IH]; intros tr Ht; [done|]. cbn [for_each]. apply always_bind_res.
      eapply always_post; [|by apply delete_labeled_ok]. intros tr' [_|e] Ht'; [by apply IH|done]. }
    apply always_bind_res. eapply always_post; [|by apply Hks].
    intros tr [_|e] Ht; [|done]. apply orphan_frame; [|apply stable_orphan|done].
    unfold wait_for_blue_green_resources_deleted. footprint.
Qed.

Lemma cleanup_orphan_ok c bgds ref cleaned pre :
  Ev (AList KBgd None "") (Ok bgds) ∈ pre ->
  always orphan_ok pre (cleanup_orphan c (list_to_set (omap existing_key bgds)) cleaned ref)
    (fun tr _ => Ev (AList KBgd None "") (Ok bgds) ∈ tr).
Proof.
  intros Hl. eapply always_post; [|eapply (always_with _ orphan_ok
    (fun tr => Ev (AList KBgd None "") (Ok bgds) ∈ tr) _ _ (fun _ _ => True));
    [intros ? ? ?; apply elem_of_app; by left|done|done|]]; [by intros ? ? []|].
  unfold cleanup_orphan. case_bool_decide as Hin; [done|].
  assert (is_orphan ref pre) as Ho.
  { exists bgds. split; [done|]. intros b ns name Hb Hns Hn ->. apply Hin. apply elem_of_list_to_set.
    apply list_elem_of_omap. exists b. split; [done|]. unfold existing_key. by rewrite Hns, Hn. }
  apply always_bind_res. eapply (always_post _ _ _ (fun _ _ => True)); [by intros ? []|].
  unfold run_with_orphan_lease, run_with_lease. apply always_bind_res.
  eapply always_post; [|apply (orphan_frame (is_orphan ref)); [|apply stable_orphan|done]].
  - intros tr [[]|e] Ht; try done. cbn [negb]. apply always_bind.
    eapply always_post; [|eapply always_select_lost; [by apply single_orphan_ok|by intros ?]].
    by intros ? [[]|].
  - unfold try_acquire_lease, lease_can_be_acquired. footprint.
Qed.

(** C17. Orphan cleanup never touches a live deployment.  A turn of the orphan
    cleanup removes test cases, or requests the deletion of an object, only for a
    key (namespace and name) that the API server's list of all blue-green
    deployments, fetched earlier in the same turn, does not have; and an object it
    deletes is one the API server had just listed in that namespace under the
    label of that missing deployment. *)
Theorem orphan_cleanup_spares_the_living c tr r
    (He : exec (cleanup_orphaned_blue_green_refs c) tr r) :
  forall tr1 e tr2, tr = tr1 ++ e :: tr2 -> orphan_ok tr1 e.
Proof.
  assert (always orphan_ok [] (cleanup_orphaned_blue_green_refs c) (fun _ _ => True)) as Ha.
  { unfold cleanup_orphaned_blue_green_refs, existing_blue_green_keys. apply always_bind_res, always_bind_res.
    apply always_k8s, always_request. intros [bgds|e]; (split; [done|]); [|done]. cbn [map_err ok always].
    apply always_bind_res, always_in_store, always_request. intros [refs|e]; (split; [done|]); [|done].
    cbn [map_err]. apply always_bind_res.
    eapply always_post; [|apply (orphan_frame (fun tr => Ev (AList KBgd None "") (Ok bgds) ∈ tr))].
    - intros tr' [owned|e] Hl; [|done].
      apply (always_fold_each _ _ (fun _ tr _ => Ev (AList KBgd None "") (Ok bgds) ∈ tr)); [done| |done|done].
      intros seen ref tr1 n _ H1. eapply always_post; [|by apply cleanup_orphan_ok]. by intros ? [].
    - unfold blue_green_refs_from_owned_resources_all, blue_green_refs_from_owned_resources,
        collect_blue_green_refs. footprint.
    - intros ? ? ?. apply elem_of_app. by left.
    - cbn. rewrite !elem_of_cons. auto. }
  intros tr1 e tr2 Htr. destruct (always_sound _ _ _ [] tr r Ha He) as [_ H2]. by apply (H2 tr1 e tr2).
Qed.
End Orphans.

(** A cluster without the deployment "orders" but with test cases of it. *)
Definition orphan_world : world := set_bgds ∅ (rollout_world Completed true).
Definition sample_lease_config : LeaseConfig :=
  {| holder_identity := "me"; lc_duration := 30; lc_renew_interval := 10 |}.

Lemma orphan_cleanup_spares_the_living_witness :
  let p := @cleanup_orphaned_blue_green_refs sample_sha256 sample_lease_config in
  deployment_deletes (trace_in p orphan_world) = [(Some "apps", "orders-candidate")] /\
  forall tr1 e tr2, trace_in p orphan_world = tr1 ++ e :: tr2 -> orphan_ok tr1 e.
Proof.
  intros p. split; [vm_compute; reflexivity|].
  exact (@orphan_cleanup_spares_the_living sample_sha256 sample_lease_config
           (trace_in p orphan_world) (result_in p orphan_world) (exec_in p orphan_world)).
Defined.
