(* ===== verification/HttpApi.v ===== *)
(** * The operator's HTTP API

    [operator/src/http_api.rs].  A handler is a program from the request's
    [authorization] header and body to a status code and a response; a panic,
    which aborts the process, is [None]. *)

From S2P Require Import Prelude RustString Float64 Kube Crd StateStore Effects External Status.
From S2P Require Import Names Auth Deployments Plugins Resources PluginLifecycle.

Record RegisterTestCaseResponse := { rtr_test_id : string; rtr_status : string }.
Record VerdictRequest := {
  vr_test_id : string; vr_blue_green_ref : option string; vr_passed : bool }.
Record VerdictResponse := { vres_test_id : string; vres_status : string }.
Record CountsResponse := { cres_blue_green_ref : string; cres_counts : Counts }.

Definition CREATED : Z := 201.
Definition OK_200 : Z := 200.
Definition BAD_REQUEST : Z := 400.
Definition UNAUTHORIZED : Z := 401.
Definition NOT_FOUND : Z := 404.
Definition GONE : Z := 410.
Definition INTERNAL_SERVER_ERROR : Z := 500.

(** [chrono::Duration::seconds]: milliseconds; it panics beyond 2^63 - 1 of them. *)
Definition duration_of_seconds (secs : Z) : option Z :=
  if Z.leb (Z.abs secs) (i64_max / 1000) then Some (secs * 1000) else None.

Definition claims_match_request (claims : PluginAuthClaims) (req : RegisterTestCaseRequest) : bool :=
  (String.eqb (cl_blue_green_ref claims) (rtc_blue_green_ref req)
   && String.eqb (cl_inception_point claims) (rtc_inception_point req))%bool.

Definition verdict_authorized (header_value : option string) (record : TestCaseRecord) : bool :=
  bearer_matches header_value (Some (verifier_auth_token record)).

Definition state_key_for_authorized_ref (claims : PluginAuthClaims) (requested_ref : string)
    : option string :=
  let state_key := blue_green_state_key (cl_namespace claims) (cl_blue_green_ref claims) in
  if (String.eqb requested_ref (cl_blue_green_ref claims) || String.eqb requested_ref state_key)%bool
  then Some state_key else None.

(** The registration of a test case is refused for these deployments. *)
Definition registration_closed (b : BlueGreenDeployment) : bool :=
  (is_some (meta_deletion_timestamp (bgd_metadata b))
   || match bgd_phase b with Some Completed | Some RolledBack => true | _ => false end)%bool.

Definition validate_registration_bgd (claims : PluginAuthClaims) (req : RegisterTestCaseRequest)
    : prog (result (Z * string) unit) :=
  match cl_blue_green_uid claims with
  | None => Ret (Err (UNAUTHORIZED, "Unauthorized"))
  | Some claim_uid =>
      if is_empty claim_uid then Ret (Err (UNAUTHORIZED, "Unauthorized"))
      else
        let! r := request (AGet KBgd (Some (cl_namespace claims)) (rtc_blue_green_ref req)) in
        Ret match r with
            | Err e => Err (if is_not_found e then (GONE, "BlueGreenDeploymentGone")
                            else (INTERNAL_SERVER_ERROR,
                                  "BlueGreenDeploymentLookupFailed: " +:+ show_kube_error e))
            | Ok b =>
                if negb (bool_decide (meta_uid (bgd_metadata b) = Some claim_uid))
                then Err (UNAUTHORIZED, "Unauthorized")
                else if registration_closed b then Err (GONE, "BlueGreenDeploymentTerminal")
                else Ok tt
            end
  end.

Section Handlers.
Context `{Sha256, HC : Codecs} (auth : AuthConfig).

Definition registered_case (claims : PluginAuthClaims) (req : RegisterTestCaseRequest)
    (auth_header : option string) (triggered timeout : Z) : TestCaseRecord :=
  {| test_id := rtc_test_id req;
     blue_green_ref := blue_green_state_key (cl_namespace claims) (rtc_blue_green_ref req);
     triggered_at := triggered;
     source_inception_point := rtc_inception_point req;
     timeout := timeout;
     status := Triggered; verdict := None; verification_mode := Data;
     verify_url := unwrap_or "" (rtc_verify_url req);
     verifier_auth_token := unwrap_or "" (auth_header ≫= bearer_token);
     retries_remaining := 0; failure_message := None |}.

Definition register_test_case (auth_header : option string) (req : RegisterTestCaseRequest)
    : prog (option (Z * RegisterTestCaseResponse)) :=
  let answer code text := Ret (Some (code, {| rtr_test_id := rtc_test_id req; rtr_status := text |})) in
  let! checked := validate_plugin_auth auth auth_header in
  match checked with
  | Ok (Some claims) =>
      if negb (claims_match_request claims req) then answer UNAUTHORIZED "Unauthorized"
      else
        let! valid := validate_registration_bgd claims req in
        match valid with
        | Err e => answer e.1 e.2
        | Ok _ =>
            let! triggered := match rtc_triggered_at req with
                              | Some t => Ret t | None => request ANow end in
            match duration_of_seconds (unwrap_or 60 (rtc_timeout_seconds req)) with
            | None => Ret None
            | Some timeout =>
                let! r := request (AStoreRegister (registered_case claims req auth_header triggered timeout)) in
                match r with
                | Ok _ => answer CREATED "Triggered"
                | Err e => answer INTERNAL_SERVER_ERROR ("error: " +:+ show_store_error e)
                end
            end
        end
  | Ok None | Err _ => answer UNAUTHORIZED "Unauthorized"
  end.

Definition set_verdict (auth_header : option string) (req : VerdictRequest)
    : prog (Z * VerdictResponse) :=
  let answer code text := Ret (code, {| vres_test_id := vr_test_id req; vres_status := text |}) in
  match vr_blue_green_ref req with
  | None => answer BAD_REQUEST "error: blue_green_ref is required"
  | Some ref =>
      let! checked := validate_plugin_auth auth auth_header in
      match checked with
      | Ok (Some claims) =>
          match state_key_for_authorized_ref claims ref with
          | None => answer UNAUTHORIZED "Unauthorized"
          | Some state_key =>
              let! got := request (AStoreGet state_key (vr_test_id req)) in
              match got with
              | Ok None => answer NOT_FOUND "error: test case not found"
              | Err e => answer INTERNAL_SERVER_ERROR ("error: " +:+ show_store_error e)
              | Ok (Some record) =>
                  if negb (verdict_authorized auth_header record)
                  then answer UNAUTHORIZED "Unauthorized"
                  else
                    let! r := request (AStoreSetVerdict state_key (vr_test_id req) (vr_passed req) None) in
                    match r with
                    | Ok _ => answer OK_200 (if vr_passed req then "Passed" else "Failed")
                    | Err e => answer NOT_FOUND ("error: " +:+ show_store_error e)
                    end
              end
          end
      | Ok None | Err _ => answer UNAUTHORIZED "Unauthorized"
      end
  end.

Definition get_counts (auth_header : option string) (bg_ref : string) : prog (Z * CountsResponse) :=
  let answer code ref c := Ret (code, {| cres_blue_green_ref := ref; cres_counts := c |}) in
  let! checked := validate_plugin_auth auth auth_header in
  match checked with
  | Ok (Some claims) =>
      match state_key_for_authorized_ref claims bg_ref with
      | None => answer UNAUTHORIZED bg_ref default_counts
      | Some state_key =>
          let! r := request (AStoreCounts state_key) in
          match r with
          | Ok c => answer OK_200 state_key c
          | Err _ => answer INTERNAL_SERVER_ERROR state_key default_counts
          end
      end
  | Ok None | Err _ => answer UNAUTHORIZED bg_ref default_counts
  end.
End Handlers.
