(* ===== verification/Tracker.v ===== *)
(** * The tracker of pending test cases

    [operator/src/inception.rs] [InceptionTracker]: one tick of the poll of the
    verifiers and one of the timeout check.  The client is built with the
    library's defaults.  The two ticks of [run] never overlap: it awaits each. *)

From S2P Require Import Prelude RustString Float64 Kube Crd StateStore Effects External Auth.

(** A loop whose body does not fail. *)
Fixpoint for_all {X} (xs : list X) (body : X -> prog unit) : prog unit :=
  match xs with
  | [] => Ret tt
  | x :: xs' => do! body x ;; for_all xs' body
  end.

Definition retries_exhausted : string := "custom verification retries exhausted".

(** No header is sent for a case without a token. *)
Definition poll_request (c : TestCaseRecord) : http_request :=
  {| hr_method := GET; hr_url := verify_url c;
     hr_authorization := if is_empty (verifier_auth_token c) then None
                         else Some (bearer_value (verifier_auth_token c));
     hr_body := NoBody |}.

Section Tracker.
Context `{HC : Codecs}.

Definition poll_case (c : TestCaseRecord) : prog unit :=
  let! sent := request (AHttp false None (poll_request c)) in
  match sent with
  | Err _ => Ret tt
  | Ok response =>
      match (j ← resp_json response; test_result_of_json j) with
      | Ok body =>
          match trr_passed body with
          | Some passed =>
              do! request (AStoreSetVerdict (blue_green_ref c) (test_id c) passed (trr_error_message body)) ;;
              Ret tt
          | None => Ret tt
          end
      | Err _ =>
          match verification_mode c with
          | Custom =>
              let! r := request (AStoreDecrement (blue_green_ref c) (test_id c)) in
              match r with
              | Ok (Some _) => Ret tt
              | Ok None =>
                  do! request (AStoreSetVerdict (blue_green_ref c) (test_id c) false (Some retries_exhausted)) ;;
                  Ret tt
              | Err _ => Ret tt
              end
          | Data => Ret tt
          end
      end
  end.

Definition poll_pending : prog (result StoreError unit) :=
  let! pending := request AStoreListPending in
  match pending with
  | Err e => Ret (Err e)
  | Ok cases => do! for_all cases poll_case ;; Ret (Ok tt)
  end.

Definition check_case (now : Z) (c : TestCaseRecord) : prog unit :=
  if Z.ltb (expires_at c) now
  then do! request (AStoreMarkTimedOut (blue_green_ref c) (test_id c)) ;; Ret tt
  else Ret tt.

Definition check_timeouts : prog (result StoreError unit) :=
  let! pending := request AStoreListPending in
  match pending with
  | Err e => Ret (Err e)
  | Ok cases =>
      let! now := request ANow in
      do! for_all cases (check_case now) ;; Ret (Ok tt)
  end.
End Tracker.
