(* ===== verification/HttpTheorems.v ===== *)
(** * Who may register a test case, report a verdict or time a case out *)

From S2P Require Import Prelude RustString Float64 Kube Crd StateStore MemoryStore Effects External.
From S2P Require Import Strategy Promotion Status World Names Auth Deployments Plugins Resources.
From S2P Require Import PluginLifecycle Phases Controller Footprint ControllerTheorems HttpApi.
From S2P Require Import Tracker.

Section Api.
Context `{Sha256, HC : Codecs}.

(** The header carries a token signed with the key the operator's secret held
    when it was read. *)
Definition presented (auth : AuthConfig) (header : option string) (claims : PluginAuthClaims)
    (tr : trace) : Prop :=
  exists token secret data value,
    header = Some (bearer_value token)
    /\ Ev (AGet KSecret (Some (signing_secret_namespace auth)) (signing_secret_name auth)) (Ok secret) ∈ tr
    /\ sec_data secret = Some data /\ data !! signing_secret_key auth = Some value /\ value <> ""
    /\ verify_plugin_auth_token token (bytes value) = Ok claims.

Lemma stable_presented auth header claims : stable (presented auth header claims).
Proof.
  intros tr tr' (t & s & d & v & ? & ? & ?). exists t, s, d, v. split; [done|].
  split; [apply elem_of_app; by left|done].
Qed.

Lemma bearer_token_value h t : bearer_token h = Some t -> h = bearer_value t.
Proof. apply strip_prefix_Some. Qed.

Lemma validate_presented ok auth header pre :
  (forall tr act r, is_read act = true -> ok tr (Ev act r)) ->
  always ok pre (validate_plugin_auth auth header)
    (fun tr r => match r with Ok (Some claims) => presented auth header claims tr | _ => True end).
Proof.
  intros Hok. unfold validate_plugin_auth, validate_inception_auth_token. apply always_bind.
  destruct header as [h|]; [|done]. cbn [mbind option_bind].
  destruct (bearer_token h) as [token|] eqn:Et; [|done]. apply bearer_token_value in Et as ->.
  apply always_bind_res. unfold signing_key, read_operator_signing_key.
  apply always_bind_res, always_k8s, always_request. intros [secret|e]; (split; [by apply Hok|]); [|done].
  cbn [map_err]. destruct (sec_data secret) as [data|] eqn:Ed; [|done]. cbn [mbind option_bind].
  destruct (data !! signing_secret_key auth) as [value|] eqn:Ev'; [|done].
  destruct (is_empty value) eqn:Ee; [done|]. cbn.
  destruct (verify_plugin_auth_token token (bytes value)) as [claims|e] eqn:Ec; [|done].
  exists token, secret, data, value. split_and!; try done.
  - apply elem_of_app. right. by apply list_elem_of_singleton.
  - intros ->. done.
Qed.

(** The deployment a registration is for: read live, the one the token was issued
    for, and still in a phase that takes test cases. *)
Definition accepts (claims : PluginAuthClaims) (ref : string) (tr : trace) : Prop :=
  exists b uid, Ev (AGet KBgd (Some (cl_namespace claims)) ref) (Ok b) ∈ tr
    /\ cl_blue_green_uid claims = Some uid /\ uid <> "" /\ meta_uid (bgd_metadata b) = Some uid
    /\ meta_deletion_timestamp (bgd_metadata b) = None
    /\ bgd_phase b <> Some Completed /\ bgd_phase b <> Some RolledBack.

Lemma open_registration b :
  registration_closed b = false ->
  meta_deletion_timestamp (bgd_metadata b) = None
  /\ bgd_phase b <> Some Completed /\ bgd_phase b <> Some RolledBack.
Proof.
  unfold registration_closed. intros [Hd Hp]%orb_false_iff.
  destruct (meta_deletion_timestamp (bgd_metadata b)); [done|].
  by destruct (bgd_phase b) as [[]|].
Qed.

Definition registration_ok (auth : AuthConfig) (header : option string) (req : RegisterTestCaseRequest)
    (tr : trace) (e : event) : Prop :=
  match e with
  | Ev (AStoreRegister c) _ =>
      exists claims token,
        presented auth header claims tr /\ header = Some (bearer_value token)
        /\ cl_blue_green_ref claims = rtc_blue_green_ref req
        /\ cl_inception_point claims = rtc_inception_point req
        /\ accepts claims (rtc_blue_green_ref req) tr
        /\ blue_green_ref c = blue_green_state_key (cl_namespace claims) (cl_blue_green_ref claims)
        /\ test_id c = rtc_test_id req /\ source_inception_point c = rtc_inception_point req
        /\ verifier_auth_token c = token /\ verify_url c = default "" (rtc_verify_url req)
        /\ status c = Triggered /\ verdict c = None
        /\ verification_mode c = Data /\ retries_remaining c = 0
  | Ev act _ => is_read act = true
  end.

(** The outcome of a registration handler. *)
Definition registered (tr : trace) : Prop := exists c, Ev (AStoreRegister c) (Ok tt) ∈ tr.

Lemma validate_accepts auth header claims req pre :
  presented auth header claims pre ->
  always (registration_ok auth header req) pre (validate_registration_bgd claims req)
    (fun tr r => presented auth header claims tr /\
       match r with Ok _ => accepts claims (rtc_blue_green_ref req) tr | Err (code, _) => code <> CREATED end).
Proof.
  intros Hp. unfold validate_registration_bgd.
  destruct (cl_blue_green_uid claims) as [uid|] eqn:Eu; [|done].
  destruct (is_empty uid) eqn:Ee; [done|]. apply always_bind, always_request.
  intros [b|e]; (split; [done|]); cbn; (split; [by apply stable_presented|]); [|by destruct (is_not_found e)].
  case_bool_decide as Hm; cbn; [|done]. destruct (registration_closed b) eqn:Ec; [done|].
  apply open_registration in Ec as (? & ? & ?). exists b, uid. split_and!; try done; [apply elem_of_app; right; by apply list_elem_of_singleton|by intros ->].
Qed.

(** C8. Only authenticated, matching and live registrations reach the store.  A
    request stores a test case only when its bearer token verifies against the
    operator's current signing key, the token was issued for the blue-green
    deployment and the inception point the body names, and that deployment, read
    in the same request, has the uid of the token, is not being deleted and has
    not completed or been rolled back.  The case is stored under the namespaced
    key of that deployment, undecided, for data verification without retries and
    with the presented token as the verifier's, and the answer is 201 only when the
    store took it. *)
Theorem registration_is_authorized auth header req tr r
    (He : exec (register_test_case auth header req) tr r) :
  (forall tr1 e tr2, tr = tr1 ++ e :: tr2 -> registration_ok auth header req tr1 e)
  /\ (forall answer, r = Some (CREATED, answer) -> registered tr).
Proof.
  assert (always (registration_ok auth header req) [] (register_test_case auth header req)
    (fun tr r => forall answer, r = Some (CREATED, answer) -> registered tr)) as Ha.
  { unfold register_test_case. apply always_bind.
    eapply always_post; [|apply validate_presented; by intros ? []].
    intros tr1 [[claims|]|e] Hp; [|done..].
    destruct (claims_match_request claims req) eqn:Em; [|done]. cbn [negb].
    apply andb_true_iff in Em as [Er%String.eqb_eq Ei%String.eqb_eq].
    apply always_bind. eapply always_post; [|by apply validate_accepts].
    intros tr2 [_|[code text]] [Hp2 Hv]; [|intros ? Hans; injection Hans as Hc _; by destruct Hv]. apply always_bind.
    set (J tr := presented auth header claims tr /\ accepts claims (rtc_blue_green_ref req) tr).
    assert (stable J) as HJ.
    { intros t t' [Ht (b & u & ? & ?)]. split; [by apply stable_presented|]. exists b, u.
      split; [apply elem_of_app; by left|done]. }
    eapply (always_post _ _ _ (fun tr _ => J tr)).
    - intros tr3 triggered [Hp3 Ha3]. destruct (duration_of_seconds _) as [timeout|]; [|done].
      apply always_bind, always_request. intros answer. split.
      + pose proof Hp3 as (token & _ & _ & _ & Hh & _).
        exists claims, token. rewrite Hh in *. split_and!; try done. cbn. by rewrite Er.
      + destruct answer as [[]|e]; [|done]. intros ? _. eexists.
        apply elem_of_app. right. by apply list_elem_of_singleton.
    - destruct (rtc_triggered_at req); [done|]. intros now. split; [done|]. by apply HJ. }
  destruct (always_sound _ _ _ [] tr r Ha He) as [H1 H2]. split; [|exact H1].
  intros tr1 e tr2 Htr. by apply (H2 tr1 e tr2).
Qed.

Definition verdict_ok (auth : AuthConfig) (header : option string) (req : VerdictRequest)
    (tr : trace) (e : event) : Prop :=
  match e with
  | Ev (AStoreSetVerdict key id p m) _ =>
      exists claims record,
        presented auth header claims tr
        /\ key = blue_green_state_key (cl_namespace claims) (cl_blue_green_ref claims)
        /\ id = vr_test_id req /\ p = vr_passed req /\ m = None
        /\ Ev (AStoreGet key id) (Ok (Some record)) ∈ tr
        /\ verifier_auth_token record <> ""
        /\ header = Some (bearer_value (verifier_auth_token record))
  | Ev act _ => is_read act = true
  end.

(** C9. Only the case's own token decides it.  A verdict reaches the store only for
    a case of the deployment the presented token was issued for, after that token
    verified against the operator's signing key and the stored case was read with
    exactly that token, which is not empty; and the answer is 200 only when the
    store took the verdict. *)
Theorem verdict_is_authorized auth header req tr r
    (He : exec (set_verdict auth header req) tr r) :
  (forall tr1 e tr2, tr = tr1 ++ e :: tr2 -> verdict_ok auth header req tr1 e)
  /\ (r.1 = OK_200 -> exists key, Ev (AStoreSetVerdict key (vr_test_id req) (vr_passed req) None) (Ok tt) ∈ tr).
Proof.
  assert (always (verdict_ok auth header req) [] (set_verdict auth header req) (fun tr r =>
    r.1 = OK_200 -> exists key, Ev (AStoreSetVerdict key (vr_test_id req) (vr_passed req) None) (Ok tt) ∈ tr)) as Ha.
  { unfold set_verdict. destruct (vr_blue_green_ref req) as [ref|]; [|done]. apply always_bind.
    eapply always_post; [|apply validate_presented; by intros ? []].
    intros tr1 [[claims|]|e] Hp; [|done..].
    destruct (state_key_for_authorized_ref claims ref) as [key|] eqn:Ek; [|done].
    assert (key = blue_green_state_key (cl_namespace claims) (cl_blue_green_ref claims)) as Hkey.
    { unfold state_key_for_authorized_ref in Ek. destruct (_ || _)%bool in Ek; [|done]. by injection Ek. }
    apply always_bind, always_request. intros [[record|]|e]; (split; [done|]); [|done..].
    destruct (verdict_authorized header record) eqn:Ev'; cbn [negb]; [|done].
    unfold verdict_authorized in Ev'. apply bearer_matches_spec in Ev' as (token & [= <-] & Hne & Hh).
    apply always_bind, always_request. intros answer. split.
    - exists claims, record. split_and!; try done; [by apply stable_presented|].
      apply elem_of_app. right. by apply list_elem_of_singleton.
    - destruct answer as [[]|e]; [|done]. intros _. exists key.
      apply elem_of_app. right. by apply list_elem_of_singleton. }
  destruct (always_sound _ _ _ [] tr r Ha He) as [H1 H2]. split; [|exact H1].
  intros tr1 e tr2 Htr. by apply (H2 tr1 e tr2).
Qed.
End Api.

(** ** A concrete deployment under test *)

Definition signing_secret : Secret :=
  {| sec_metadata := named_meta "signing" (Some "fluidbg-system") None;
     sec_data := Some {["key" := "signing-key"]} |}.

Definition sample_registration : RegisterTestCaseRequest :=
  {| rtc_test_id := "case-1"; rtc_blue_green_ref := "orders"; rtc_inception_point := "incoming";
     rtc_triggered_at := Some 0; rtc_timeout_seconds := None; rtc_verify_url := Some "http://test/case-1" |}.
Definition sample_verdict : VerdictRequest :=
  {| vr_test_id := "case-1"; vr_blue_green_ref := Some "orders"; vr_passed := true |}.
Definition sample_header : option string := Some (bearer_value sample_token).

Definition api_world : world :=
  set_secrets {[("fluidbg-system", "signing") := signing_secret]} (rollout_world Observing true).

Lemma registration_is_authorized_witness :
  let p := @register_test_case sample_sha256 sample_codecs sample_auth sample_header sample_registration in
  let tr := trace_in p api_world in
  (exists answer, result_in p api_world = Some (CREATED, answer)) /\
  (forall tr1 e tr2, tr = tr1 ++ e :: tr2 ->
     @registration_ok sample_sha256 sample_codecs sample_auth sample_header sample_registration tr1 e) /\
  (forall answer, result_in p api_world = Some (CREATED, answer) -> registered tr).
Proof.
  intros p tr. split; [eexists; vm_compute; reflexivity|].
  exact (@registration_is_authorized sample_sha256 sample_codecs sample_auth sample_header
           sample_registration tr (result_in p api_world) (exec_in p api_world)).
Defined.

Lemma verdict_is_authorized_witness :
  let r := @register_test_case sample_sha256 sample_codecs sample_auth sample_header sample_registration in
  let w := after_in r api_world in
  let p := @set_verdict sample_sha256 sample_codecs sample_auth sample_header sample_verdict in
  let tr := trace_in p w in
  (result_in p w).1 = OK_200 /\
  (forall tr1 e tr2, tr = tr1 ++ e :: tr2 ->
     @verdict_ok sample_sha256 sample_codecs sample_auth sample_header sample_verdict tr1 e) /\
  ((result_in p w).1 = OK_200 ->
     exists key, Ev (AStoreSetVerdict key "case-1" true None) (Ok tt) ∈ tr).
Proof.
  intros r w p tr. split; [vm_compute; reflexivity|].
  exact (@verdict_is_authorized sample_sha256 sample_codecs sample_auth sample_header sample_verdict
           tr (result_in p w) (exec_in p w)).
Defined.
