(* ===== verification/TrackerTheorems.v ===== *)
(** * What the tracker does to pending cases *)

From S2P Require Import Prelude RustString Float64 Kube Crd StateStore MemoryStore Effects External.
From S2P Require Import World Auth Footprint ControllerTheorems HttpApi HttpTheorems Tracker.

Lemma exec_for_all {X} (xs : list X) (body : X -> prog unit) tr :
  exec (for_all xs body) tr tt <-> exists trs, tr = concat trs /\ Forall2 (fun x t => exec (body x) t tt) xs trs.
Proof.
  revert tr. induction xs as [|x xs IH]; intros tr; cbn [for_all].
  - split; [intros [-> _]; by exists []|]. intros (trs & -> & H). by inversion H.
  - rewrite exec_bind. split.
    + intros (t1 & t2 & [] & -> & H1 & (trs & -> & H2)%IH). exists (t1 :: trs). split; [done|by constructor].
    + intros (trs & -> & H). inversion H as [|? t ? trs' H1 H2]; subst.
      exists t, (concat trs'), tt. split_and!; [done|done|]. apply IH. by exists trs'.
Qed.

Definition is_expired (now : Z) (c : TestCaseRecord) : bool := Z.ltb (expires_at c) now.
Definition mark (c : TestCaseRecord) : action := AStoreMarkTimedOut (blue_green_ref c) (test_id c).

(** The timeout check times out exactly the expired cases.  Of the cases the
      store lists as pending, one tick marks those whose expiry lies before the time
      of the tick, each once and in the order of the list, and makes no other
      request; a case that cannot be marked does not keep the others from it. *)
Theorem timeouts_are_exact tr r (He : exec check_timeouts tr r) :
  (exists e, tr = [Ev AStoreListPending (Err e)] /\ r = Err e)
  \/ exists cases now rest, tr = Ev AStoreListPending (Ok cases) :: Ev ANow now :: rest /\ r = Ok tt
       /\ map act_of rest = map mark (List.filter (is_expired now) cases).
Proof.
  unfold check_timeouts in He. apply exec_request in He as (pending & tr1 & -> & He).
  destruct pending as [cases|e]; [right|left; destruct He as [-> ->]; by exists e].
  apply exec_request in He as (now & tr2 & -> & He).
  apply exec_bind in He as (rest & tr3 & [] & -> & He & [-> ->]). rewrite app_nil_r.
  exists cases, now, rest. split_and!; [done|done|].
  apply exec_for_all in He as (trs & -> & H). induction H as [|c t cases trs Hc _ IH]; [done|].
  cbn [concat List.filter]. rewrite map_app, IH. unfold check_case in Hc. fold (is_expired now c) in Hc.
  destruct (is_expired now c); [|by destruct Hc as [-> _]].
  apply exec_request in Hc as (a & t' & -> & -> & _). done.
Qed.

Section Poll.
Context `{HC : Codecs}.

(** What a verifier's response says. *)
Definition verdict_of (response : http_response) : result string TestResultResponse :=
  j ← resp_json response; test_result_of_json j.

Definition polled_verdict (c : TestCaseRecord) (response : http_response) (p : bool)
    (m : option string) (tr : trace) : Prop :=
  (exists body, verdict_of response = Ok body /\ trr_passed body = Some p /\ m = trr_error_message body)
  \/ (verification_mode c = Custom /\ is_ok (verdict_of response) = false /\ p = false
      /\ m = Some retries_exhausted
      /\ Ev (AStoreDecrement (blue_green_ref c) (test_id c)) (Ok None) ∈ tr).

Definition poll_ok (tr : trace) (e : event) : Prop :=
  match e with
  | Ev (AStoreSetVerdict key id p m) _ =>
      exists cases c response, Ev AStoreListPending (Ok cases) ∈ tr /\ c ∈ cases
        /\ key = blue_green_ref c /\ id = test_id c
        /\ Ev (AHttp false None (poll_request c)) (Ok response) ∈ tr
        /\ polled_verdict c response p m tr
  | Ev (AStoreDecrement key id) _ =>
      exists cases c, Ev AStoreListPending (Ok cases) ∈ tr /\ c ∈ cases
        /\ key = blue_green_ref c /\ id = test_id c /\ verification_mode c = Custom
  | Ev act _ => is_read act = true
  end.

(** The polls of a trace. *)
Definition polls (tr : trace) : list http_request :=
  omap (fun e => match act_of e with AHttp _ _ r => Some r | _ => None end) tr.

Lemma polls_app tr tr' : polls (tr ++ tr') = polls tr ++ polls tr'.
Proof. apply omap_app. Qed.

Lemma poll_case_ok cases c pre :
  c ∈ cases -> Ev AStoreListPending (Ok cases) ∈ pre ->
  always poll_ok pre (poll_case c) (fun tr _ =>
    Ev AStoreListPending (Ok cases) ∈ tr /\ polls tr = polls pre ++ [poll_request c]).
Proof.
  intros Hc Hl. unfold poll_case. apply always_bind, always_request. intros sent. split; [done|].
  assert (Ev AStoreListPending (Ok cases) ∈ pre ++ [Ev (AHttp false None (poll_request c)) sent]) as Hl1
    by (apply elem_of_app; by left).
  assert (polls (pre ++ [Ev (AHttp false None (poll_request c)) sent]) = polls pre ++ [poll_request c]) as Hp1
    by (by rewrite polls_app).
  destruct sent as [response|e]; [|done].
  assert (Ev (AHttp false None (poll_request c)) (Ok response)
          ∈ pre ++ [Ev (AHttp false None (poll_request c)) (Ok response)]) as Hr
    by (apply elem_of_app; right; by apply list_elem_of_singleton).
  revert Hl1 Hp1 Hr. generalize (pre ++ [Ev (AHttp false None (poll_request c)) (Ok response)]) as tr.
  intros tr Hl1 Hp1 Hr. fold (verdict_of response).
  destruct (verdict_of response) as [body|err] eqn:Ed.
  - destruct (trr_passed body) as [p|] eqn:Ep; [|done]. apply always_bind, always_request.
    intros a. split.
    + exists cases, c, response. split_and!; try done. left. by exists body.
    + cbn. rewrite polls_app, app_nil_r. split; [apply elem_of_app; by left|done].
  - destruct (verification_mode c) eqn:Em; [done|]. apply always_bind, always_request.
    intros a. split; [by exists cases, c|]. destruct a as [[n|]|e'].
    1, 3: cbn; rewrite polls_app, app_nil_r; split; [apply elem_of_app; by left|done].
    apply always_bind, always_request. intros a. split.
    + exists cases, c, response. split_and!; try done; try (apply elem_of_app; by left). right.
      split_and!; try done; [by rewrite Ed|]. apply elem_of_app. right. by apply list_elem_of_singleton.
    + cbn. rewrite !polls_app, !app_nil_r. split; [|done]. apply elem_of_app. left. apply elem_of_app. by left.
Qed.

(** C18. A verdict comes from the case's own verifier.  One tick polls every pending
    case exactly once, in the order of the store's list, whatever the others
    answer.  It reports a verdict only for a case the store listed: either the one
    its verifier's response states, or a failure of a custom case whose verifier
    gave no readable response and whose retries the store said were exhausted. *)
Theorem poll_reports_own_verdicts tr r (He : exec poll_pending tr r) :
  (forall tr1 e tr2, tr = tr1 ++ e :: tr2 -> poll_ok tr1 e)
  /\ match r with
     | Ok _ => exists cases, Ev AStoreListPending (Ok cases) ∈ tr /\ polls tr = map poll_request cases
     | Err _ => polls tr = []
     end.
Proof.
  assert (always poll_ok [] poll_pending (fun tr r => match r with
     | Ok _ => exists cases, Ev AStoreListPending (Ok cases) ∈ tr /\ polls tr = map poll_request cases
     | Err _ => polls tr = [] end)) as Ha.
  { unfold poll_pending. apply always_bind, always_request. intros [cases|e]; (split; [done|]); [|done].
    apply always_bind. eapply (always_post _ _ _ (fun tr _ => Ev AStoreListPending (Ok cases) ∈ tr
      /\ polls tr = map poll_request cases)); [intros tr' _ [? ?]; by exists cases|].
    assert (forall todo seen pre, cases = seen ++ todo -> Ev AStoreListPending (Ok cases) ∈ pre ->
      polls pre = map poll_request seen ->
      always poll_ok pre (for_all todo poll_case) (fun tr _ => Ev AStoreListPending (Ok cases) ∈ tr
        /\ polls tr = map poll_request cases)) as Hgo.
    { induction todo as [|c todo IH]; intros seen pre Ec Hl Hp; cbn [for_all].
      - rewrite app_nil_r in Ec. subst seen. done.
      - apply always_bind. eapply always_post; [|apply (poll_case_ok cases c); [|done]].
        + intros tr' _ [Hl' Hp']. apply (IH (seen ++ [c])); [by rewrite <- app_assoc|done|].
          by rewrite Hp', Hp, map_app.
        + rewrite Ec, elem_of_app. right. left. }
    apply (Hgo cases []); [done| |done]. apply list_elem_of_singleton. done. }
  destruct (always_sound _ _ _ [] tr r Ha He) as [H1 H2]. split; [|exact H1].
  intros tr1 e tr2 Htr. by apply (H2 tr1 e tr2).
Qed.
End Poll.

(** The cluster of [HttpTheorems] with a registered case whose verifier passes it. *)
Definition polled_world : world :=
  let w := after_in (@register_test_case External.sample_sha256 sample_codecs sample_auth sample_header
                       sample_registration) api_world in
  {| w_deployments := w_deployments w; w_services := w_services w; w_config_maps := w_config_maps w;
     w_secrets := w_secrets w; w_leases := w_leases w; w_bgds := w_bgds w; w_plugins := w_plugins w;
     w_endpoints := w_endpoints w; w_store := w_store w; w_clock := 100000; w_version := w_version w;
     w_http := Ok {| resp_status := 200; resp_json := Ok (JBool true) |}; w_locks := w_locks w |}.

Lemma poll_reports_own_verdicts_witness :
  let tr := trace_in (@poll_pending sample_codecs) polled_world in
  map hr_url (polls tr) = ["http://test/case-1"] /\
  (forall tr1 e tr2, tr = tr1 ++ e :: tr2 -> @poll_ok sample_codecs tr1 e) /\
  match result_in (@poll_pending sample_codecs) polled_world with
  | Ok _ => exists cases, Ev AStoreListPending (Ok cases) ∈ tr /\ polls tr = map poll_request cases
  | Err _ => polls tr = []
  end.
Proof.
  intros tr. split; [vm_compute; reflexivity|].
  exact (@poll_reports_own_verdicts sample_codecs tr (result_in (@poll_pending sample_codecs) polled_world)
           (exec_in (@poll_pending sample_codecs) polled_world)).
Defined.

Lemma timeouts_are_exact_witness :
  let tr := trace_in check_timeouts polled_world in
  length tr = 3%nat /\
  ((exists e, tr = [Ev AStoreListPending (Err e)] /\ result_in check_timeouts polled_world = Err e)
   \/ exists cases now rest, tr = Ev AStoreListPending (Ok cases) :: Ev ANow now :: rest
        /\ result_in check_timeouts polled_world = Ok tt
        /\ map act_of rest = map mark (List.filter (is_expired now) cases)).
Proof.
  intros tr. split; [vm_compute; reflexivity|].
  exact (timeouts_are_exact tr (result_in check_timeouts polled_world) (exec_in check_timeouts polled_world)).
Defined.
