(* ===== verification/HttpPluginTheorems.v ===== *)
(** * What the HTTP plugin guarantees

    Theorems about [HttpPlugin]: a drain that was reported is final, who the proxy calls and
    with which headers, when it registers a test case, and that the path without a buffer
    makes the requests of the one with a buffer. *)

From S2P Require Import Prelude RustString Float64 Kube Crd StateStore InceptorEffects Effects.
From S2P Require Import World External Names SipHash Auth Plugins Sdk SdkTheorems HttpPlugin.
From S2P Require Import SharedCells Footprint Outcomes.

(** ** Draining *)

Inductive http_reply :=
| RProxy (r : AxumResponse)
| RWrite (r : Z * string)
| RLifecycle (r : result Z PluginLifecycleResponse)
| RDrainStatus (r : result Z PluginDrainStatusResponse)
| RTraffic (r : result Z TrafficShiftResponse)
| RDropped.

Definition says_drained (r : http_reply) : Prop :=
  match r with RDrainStatus (Ok d) => pds_drained d = true | _ => False end.

Definition not_active (m : Z) : Prop := from_u8 m <> Active.

(** What is left of a handler whose client is gone. *)
Definition dropped_handler : prog http_reply := do! cell (AddActive (-1)) ;; Ret RDropped.

Ltac destruct_op := match goal with o : inceptor_op |- _ => destruct o end.

Section Handlers.
Context `{Regexes, JsonText}.
Context (state : AppState).

(** The requests the routers hand to a handler. *)
Inductive arrives : prog http_reply -> Prop :=
| arrives_proxy req : arrives (let! r := proxy_handler state req in Ret (RProxy r))
| arrives_write headers req : arrives (let! r := write_handler state headers req in Ret (RWrite r))
| arrives_prepare headers : arrives (let! r := prepare_handler state headers in Ret (RLifecycle r))
| arrives_activate headers : arrives (let! r := activate_handler state headers in Ret (RLifecycle r))
| arrives_drain headers : arrives (let! r := drain_handler state headers in Ret (RLifecycle r))
| arrives_cleanup headers : arrives (let! r := cleanup_handler state headers in Ret (RLifecycle r))
| arrives_drain_status headers : arrives (let! r := drain_status state headers in Ret (RDrainStatus r))
| arrives_traffic headers req : arrives (let! r := traffic_shift_handler state headers req in Ret (RTraffic r)).

(** *** What a handler does between admission and its end *)

Definition uncounted (act : action) : Prop :=
  match act with AInceptor (AddActive _) => False | _ => True end.

Lemma credit_bind {A B} (p : prog A) (f : A -> prog B) :
  only uncounted p -> (forall a, credit not_active 1 (f a)) -> credit not_active 1 (bind_prog p f).
Proof.
  intros Hp Hf. induction p as [a|act k IH]; [apply Hf|]. destruct Hp as [Hu Hk].
  cbn [bind_prog credit]. split_and!; [lia|lia|done|done|].
  destruct act; try (intros ?; by apply IH). destruct_op; try (intros ?; by apply IH). done.
Qed.

Lemma credit_bind2 {A B C} (p : prog A) (g : A -> prog B) (f : B -> prog C) :
  only uncounted p -> (forall a, credit not_active 1 (bind_prog (g a) f)) ->
  credit not_active 1 (bind_prog (bind_prog p g) f).
Proof.
  intros Hp Hf. induction p as [a|act k IH]; [apply Hf|]. destruct Hp as [Hu Hk].
  cbn [bind_prog credit]. split_and!; [lia|lia|done|done|].
  destruct act; try (intros ?; by apply IH). destruct_op; try (intros ?; by apply IH). done.
Qed.

(** A handler behind the guard is counted while it runs. *)
Lemma credit_guard {A B} (refused : A) (body : prog A) (wrap : A -> B) :
  only uncounted body -> credit not_active 0 (let! r := with_guard refused body in Ret (wrap r)).
Proof.
  intros Hb. cbn [with_guard try_new runtime_mode cell request bind_prog credit].
  split_and!; [lia|lia|by cbn| |].
  - intros _. cbn [silent]. intros m Hm. by rewrite bool_decide_eq_false_2.
  - intros m. destruct (bool_decide (from_u8 m = Active)) eqn:Em; [|done].
    split_and!; [lia|lia|by cbn| |].
    + intros _. cbn [silent]. intros _ m' Hm'. by rewrite bool_decide_eq_false_2.
    + split_and!; [lia|lia|by cbn|done|]. intros m'. cbn [bind_prog].
      destruct (bool_decide (from_u8 m' = Active)); cbn [negb bind_prog].
      * apply credit_bind2; [done|]. intros a. cbn. split_and!; (lia || done).
      * cbn. split_and!; (lia || done).
Qed.

(** A handler outside the guard. *)
Lemma credit_free {A B} (p : prog A) (wrap : A -> B) :
  only (fun act => match act with
                   | AInceptor (AddActive _) | AInceptor (ICall _) | ASleep _ => False
                   | _ => True
                   end) p ->
  credit not_active 0 (let! r := p in Ret (wrap r)).
Proof.
  intros Hp. assert (forall q : prog A, only (fun act => match act with
                   | AInceptor (AddActive _) | AInceptor (ICall _) | ASleep _ => False
                   | _ => True
                   end) q -> silent not_active (let! r := q in Ret (wrap r))) as Hsil.
  { clear p Hp. intros q Hq. induction q as [a|act k IH]; [done|]. destruct Hq as [Ha Hk].
    cbn [bind_prog silent]. destruct act; try (intros ?; by apply IH). destruct_op; try (intros ?; by apply IH).
    - done.
    - intros m _. by apply IH. }
  induction p as [a|act k IH]; [done|]. pose proof (Hsil _ Hp) as Hs. destruct Hp as [Ha Hk].
  cbn [bind_prog credit]. split_and!; [lia|lia|destruct act; try done; by destruct_op|by intros|].
  destruct act; try (intros ?; by apply IH). destruct_op; try (intros ?; by apply IH). done.
Qed.

Ltac uncounted :=
  repeat (cbn [only bind_prog request cell uncounted];
          match goal with
          | |- only _ (Ret _) => exact I
          | |- only _ (bind_prog _ _) => apply only_bind; [|intros ?]
          | |- only _ (match ?x with _ => _ end) => destruct x
          | |- _ /\ _ => split
          | |- forall _, _ => intros ?
          | |- True => exact I
          end).

Lemma streaming_uncounted req : only uncounted (proxy_streaming state req).
Proof.
  unfold proxy_streaming, forward_mock_streaming_request, routed_proxy_target, resolve_option,
    verifier_url, verifier_base_url, forward_streaming_request, forward_raw_request,
    resolve_runtime_endpoint, env.
  cbv zeta. uncounted.
Qed.
Lemma buffered_uncounted req : only uncounted (proxy_buffered state req).
Proof.
  unfold proxy_buffered, observe, notify_observer_with_client, forward_mock_request, routed_proxy_target,
    resolve_option, verifier_url, verifier_base_url, forward_raw_request, resolve_runtime_endpoint, env,
    register_test_case.
  cbv zeta. uncounted; by apply retry_only.
Qed.
Lemma proxy_credit req :
  credit not_active 0 (let! r := proxy_handler state req in Ret (RProxy r)).
Proof.
  unfold proxy_handler. case_match; [done|]. apply credit_guard.
  case_match; [apply streaming_uncounted|apply buffered_uncounted].
Qed.
Lemma write_credit headers req :
  credit not_active 0 (let! r := write_handler state headers req in Ret (RWrite r)).
Proof.
  unfold write_handler. case_match; [|done]. case_match; [done|]. apply credit_guard.
  unfold write_target, resolve_option, resolve_runtime_endpoint, env. cbv zeta. uncounted.
Qed.

Lemma handlers_credit p : arrives p -> credit not_active 0 p.
Proof.
  intros []; [apply proxy_credit|apply write_credit|..]; apply credit_free;
    unfold prepare_handler, activate_handler, drain_handler, cleanup_handler, change_mode,
      drain_status, traffic_shift_handler; case_match; try done; cbn; try by split.
  case_match; cbn; [done|]. by split.
Qed.

(** *** Reports *)

Lemma founded_bind {A} (p : prog A) (f : A -> prog http_reply) :
  (forall a, ~ unfounded says_drained (f a)) -> ~ unfounded says_drained (bind_prog p f).
Proof.
  intros Hf. induction p as [a|act k IH]; [apply Hf|]. cbn [bind_prog unfounded]. intros Hu.
  destruct act; try (destruct Hu as [? Hu]; by apply IH in Hu).
  destruct_op; try (destruct Hu as [? Hu]; by apply IH in Hu).
  destruct Hu as (n & _ & Hu). by apply IH in Hu.
Qed.

Lemma handlers_founded p : arrives p -> ~ unfounded says_drained p.
Proof.
  intros []; try solve [apply founded_bind; intros ? []].
  unfold drain_status. case_match; [|intros []]. cbn [bind_prog cell request unfounded]. intros (n & Hn & m & Hu).
  cbn in Hu. apply andb_true_iff in Hu as [_ Hz%Z.eqb_eq]. done.
Qed.

(** C31. Once the plugin left its active mode, a drain status of [drained] that a later request was
    answered is final: whatever requests arrive and however the tasks interleave, no task calls the
    service, the verifier or the operator again until the plugin is activated. *)
Theorem http_drain_report_is_final (s0 s s' : tasks http_reply) (i : nat) (d : PluginDrainStatusResponse) :
  reachable arrives dropped_handler s0 ->
  steps_in arrives dropped_handler (fun c => from_u8 (c_mode c) <> Active) s0 s ->
  Z.of_nat (length (threads s)) < 2 ^ 64 ->
  (length (threads s0) <= i)%nat -> threads s !! i = Some (Ret (RDrainStatus (Ok d))) -> pds_drained d = true ->
  steps_in arrives dropped_handler (fun c => from_u8 (c_mode c) <> Active) s s' ->
  Forall (fun p => ~ calling p) (threads s').
Proof.
  intros Hr Hs Hlen Hi Hret Hd Hs'.
  apply (report_is_final arrives dropped_handler not_active handlers_credit ltac:(cbn; split_and!; (lia || done))
    says_drained handlers_founded ltac:(cbn; naive_solver) ltac:(done) s0 s i (RDrainStatus (Ok d)) s'); done.
Qed.
End Handlers.

(** ** Who the proxy calls *)

Section Calls.
Context `{Regexes, JsonText}.
Context (state : AppState).

(** The endpoint a configured one stands for, with the environment as it was read. *)
Definition resolved (tr : trace) (endpoint url : string) : Prop :=
  exists v, Ev (AEnv "FLUIDBG_TEST_CONTAINER_URL") v ∈ tr
    /\ url = resolve_runtime_endpoint_with endpoint (unwrap_or "" v).

(** A base URL of the verifier. *)
Definition verifier_base (tr : trace) (base : string) : Prop :=
  match cfg_verifier_endpoint (st_config state) with
  | None => base = rt_test_container_url (st_runtime state)
  | Some e => resolved tr e base
  end.

Definition to_service (req : http_in) (tr : trace) (c : http_call) : Prop :=
  exists route endpoint url, proxy_target (st_config state) route = Some endpoint /\ resolved tr endpoint url
    /\ call_url c = join_target_url url (rq_path_and_query req)
    /\ call_method c = rq_method req /\ call_headers c = forwarded_headers (rq_headers req) [].
Definition to_verifier (tr : trace) (c : http_call) : Prop :=
  exists base path, verifier_base tr base /\ call_url c = trim_end_matches "/" base +:+ path.

(** A verifier was told of the test case, with a route that is registered. *)
Definition notified (tr : trace) (test_id : string) : Prop :=
  exists c resp n, Ev (AInceptor (ICall c)) (Ok resp) ∈ tr /\ to_verifier tr c
    /\ call_payload c = NotificationPayload n
    /\ on_test_id n = test_id /\ on_route n = "blue" /\ is_error_status (cr_status resp) = false.

(** The splitter sent the request to blue. *)
Definition routed_blue (req : http_in) (tr : trace) : Prop :=
  exists percent, Ev (AInceptor LoadPercent) percent ∈ tr
    /\ routes_to_blue (unwrap_or_default (to_bytes (rq_body req) body_limit)) (Z.min percent 100) = true.

Definition to_operator (req : http_in) (tr : trace) (c : http_call) : Prop :=
  exists r, call_url c = rt_testcase_registration_url (st_runtime state)
    /\ call_payload c = RegistrationPayload r /\ notified tr (rtc_test_id r)
    /\ (has state Splitter = true -> routed_blue req tr).

Definition proxy_call (req : http_in) (tr : trace) (e : event) : Prop :=
  match e with
  | Ev (AInceptor (ICall c)) _ => to_service req tr c \/ to_verifier tr c \/ to_operator req tr c
  | _ => True
  end.

Lemma stable_resolved e u : stable (fun tr => resolved tr e u).
Proof. intros tr tr' (v & ? & ?). exists v. split; [by apply mem_app|done]. Qed.
Lemma stable_verifier_base base : stable (fun tr => verifier_base tr base).
Proof. unfold verifier_base. intros tr tr'. case_match; [apply stable_resolved|done]. Qed.
Lemma stable_to_verifier c : stable (fun tr => to_verifier tr c).
Proof. intros tr tr' (b & p & ? & ?). exists b, p. split; [by apply stable_verifier_base|done]. Qed.
Lemma stable_notified id : stable (fun tr => notified tr id).
Proof.
  intros tr tr' (c & resp & n & ? & ? & ?). exists c, resp, n.
  split_and!; try naive_solver; [by apply mem_app|by apply stable_to_verifier].
Qed.
Lemma stable_routed req : stable (routed_blue req).
Proof. intros tr tr' (p & ? & ?). exists p. split; [by apply mem_app|done]. Qed.

(** Steps that make no call. *)
Lemma ok_env req tr n v : proxy_call req tr (Ev (AEnv n) v).
Proof. done. Qed.

Lemma resolve_ok req pre e (Q : trace -> string -> Prop) :
  (forall v, Q (pre ++ [Ev (AEnv "FLUIDBG_TEST_CONTAINER_URL") v]) (resolve_runtime_endpoint_with e (unwrap_or "" v))) ->
  always (proxy_call req) pre (resolve_runtime_endpoint e) Q.
Proof. intros HQ. apply always_bind, always_request. intros v. split; [done|]. apply HQ. Qed.

Lemma target_ok req pre route (Q : trace -> option string -> Prop) :
  Q pre None ->
  (forall ext endpoint url, proxy_target (st_config state) route = Some endpoint ->
     resolved (pre ++ ext) endpoint url -> Q (pre ++ ext) (Some url)) ->
  always (proxy_call req) pre (routed_proxy_target (st_config state) route) Q.
Proof.
  intros Hn Hs. unfold routed_proxy_target, resolve_option.
  destruct (proxy_target (st_config state) route) as [e|] eqn:Ee; [|exact Hn].
  apply always_bind, resolve_ok. intros v. eapply Hs; [done|]. exists v. split; [apply mem_last|done].
Qed.

Lemma verifier_url_ok req pre template id (Q : trace -> string -> Prop) :
  (forall ext base path, verifier_base (pre ++ ext) base -> Q (pre ++ ext) (trim_end_matches "/" base +:+ path)) ->
  always (proxy_call req) pre (verifier_url state template id) Q.
Proof.
  intros HQ. unfold verifier_url, verifier_base_url. apply always_bind.
  destruct (cfg_verifier_endpoint (st_config state)) as [e|] eqn:Ee.
  - apply resolve_ok. intros v. apply HQ. unfold verifier_base. rewrite Ee. exists v. split; [apply mem_last|done].
  - cbn. rewrite <- (app_nil_r pre). apply HQ. unfold verifier_base. by rewrite Ee.
Qed.

Lemma forward_ok req pre client method url headers body extra :
  (forall c, call_url c = url -> call_method c = method -> call_headers c = forwarded_headers headers extra ->
     proxy_call req pre (Ev (AInceptor (ICall c)) (Err ""))) ->
  always (proxy_call req) pre (forward_raw_request client method url headers body extra) (fun _ _ => True).
Proof.
  intros Hok. unfold forward_raw_request. apply always_bind, always_request. intros r. split; [|done].
  by apply Hok.
Qed.

Lemma to_service_ok req tr route endpoint url c r :
  proxy_target (st_config state) route = Some endpoint -> resolved tr endpoint url ->
  call_url c = join_target_url url (rq_path_and_query req) -> call_method c = rq_method req ->
  call_headers c = forwarded_headers (rq_headers req) [] -> proxy_call req tr (Ev (AInceptor (ICall c)) r).
Proof. intros. left. by exists route, endpoint, url. Qed.
Lemma to_verifier_ok req tr base path c r :
  verifier_base tr base -> call_url c = trim_end_matches "/" base +:+ path ->
  proxy_call req tr (Ev (AInceptor (ICall c)) r).
Proof. intros. right. left. by exists base, path. Qed.

Lemma forward_to_service_ok req pre route client body :
  always (proxy_call req) pre
    (let! target := routed_proxy_target (st_config state) route in
     match target with
     | None => Ret no_real_endpoint
     | Some real_endpoint =>
         forward_raw_request client (rq_method req)
           (join_target_url real_endpoint (rq_path_and_query req)) (rq_headers req) body []
     end) (fun _ _ => True).
Proof.
  apply always_bind, target_ok; [done|]. intros ext endpoint url He Hr.
  apply forward_ok. intros c Hu Hm Hh. by eapply to_service_ok.
Qed.

Lemma streaming_calls req pre : always (proxy_call req) pre (proxy_streaming state req) (fun _ _ => True).
Proof.
  unfold proxy_streaming. cbv zeta. case_match; [|apply forward_to_service_ok].
  unfold forward_mock_streaming_request. cbv zeta. case_match; [|done].
  apply always_bind, verifier_url_ok. intros ext base path Hb.
  apply forward_ok. intros c Hu _ _. by eapply to_verifier_ok.
Qed.

Lemma registration_ok req pre id :
  notified pre id -> (has state Splitter = true -> routed_blue req pre) ->
  always (proxy_call req) pre (register_test_case (st_runtime state) id) (fun _ _ => True).
Proof.
  intros Hn Hs. unfold register_test_case. cbv zeta. apply always_bind, always_request. intros now. split; [done|].
  match goal with |- always _ _ (retry_status_request _ _ ?c) _ => set (call := c) end.
  assert (forall tr, notified tr id -> (has state Splitter = true -> routed_blue req tr) ->
    to_operator req tr call) as Hcall.
  { intros tr Ht Hr. by eexists. }
  assert (notified (pre ++ [Ev ANow now]) id) as Hn' by by apply stable_notified.
  assert (has state Splitter = true -> routed_blue req (pre ++ [Ev ANow now])) as Hs'
    by (intros; apply stable_routed; auto).
  clearbody call. clear Hn Hs. revert Hn' Hs'. generalize (pre ++ [Ev ANow now]) as tr. clear pre.
  generalize (@None string) as last. induction DELIVERY_ATTEMPTS as [|n IH]; intros last tr Hn Hs; [done|].
  cbn [retry_status_request]. apply always_bind, always_request. intros r.
  split; [right; right; by apply Hcall|].
  assert (forall e, always (proxy_call req) (tr ++ [Ev (AInceptor (ICall call)) r])
    (do! match n with O => Ret tt | S _ => request (ASleep DELIVERY_RETRY_DELAY) end ;;
     retry_status_request n (Some e) call) (fun _ _ => True)) as Hagain.
  { intros e. apply always_bind. destruct n as [|n].
    - apply IH; [by apply stable_notified|intros; apply stable_routed; auto].
    - apply always_request. intros u. split; [done|].
      apply IH; [by do 2 apply stable_notified|intros; do 2 apply stable_routed; auto]. }
  destruct r as [response|e]; [|apply Hagain]. cbn [bind_prog].
  destruct (is_success _); [done|]. destruct (negb _); [done|apply Hagain].
Qed.

Lemma observe_calls req pre matched_filter id body route :
  (has state Splitter = true -> route = RouteBlue -> routed_blue req pre) ->
  (route = RouteBlue \/ route = RouteGreen) ->
  always (proxy_call req) pre (observe state matched_filter id body route) (fun _ _ => True).
Proof.
  intros Hs Hroute. unfold observe. apply always_bind.
  destruct (matched_filter ≫= nf_notify_path) as [notify_path|]; [|done].
  apply always_bind. unfold notify_observer_with_client. apply always_bind, verifier_url_ok.
  intros ext base path Hb. apply always_bind, always_request. intros r.
  split; [by eapply to_verifier_ok|]. cbn [always].
  destruct (is_ok _ && should_register_case route)%bool eqn:Ereg; [|done].
  apply andb_true_iff in Ereg as [Hok Hreg].
  apply always_bind. eapply always_post; [|apply registration_ok]; [done| |].
  - destruct r as [response|e]; [|done]. destruct (is_error_status (cr_status response)) eqn:Ee; [done|].
    eexists _, response, _. split_and!; [apply mem_last| |done|done| |done].
    + apply stable_to_verifier. by exists base, path.
    + by destruct Hroute as [->| ->].
  - intros Hsp. apply stable_routed. rewrite <- (app_nil_r (pre ++ ext)). do 2 apply stable_routed.
    destruct Hroute as [->| ->]; [by apply Hs|done].
Qed.

Lemma buffered_calls req pre : always (proxy_call req) pre (proxy_buffered state req) (fun _ _ => True).
Proof.
  unfold proxy_buffered. cbv zeta. apply always_bind.
  apply (always_post _ _ _ (fun tr route =>
    (has state Splitter = true -> route = RouteBlue -> routed_blue req tr)
    /\ (route = RouteBlue \/ route = RouteGreen))).
  - intros tr route [Hs Hr]. apply always_bind.
    apply (always_post _ _ _ (fun _ _ => True)).
    + intros tr' _ _. case_match; [|apply forward_to_service_ok].
      unfold forward_mock_request. case_match; [|done]. cbv zeta. apply always_bind, verifier_url_ok.
      intros ext base path Hb. apply forward_ok. intros c Hu _ _. by eapply to_verifier_ok.
    + case_match; [|done]. case_match; [|done]. by apply observe_calls.
  - destruct (has state Splitter) eqn:Es; [|by split; [|left]].
    apply always_bind, always_request. intros p. split; [done|]. cbn [always].
    destruct (routes_to_blue _ _) eqn:Er; (split; [|by auto]); [|done].
    intros _ _. exists p. split; [apply mem_last|done].
Qed.

(** C32. The proxy calls the configured service with the request's own headers (hop-by-hop headers, the
    host and the length left out, nothing added), the verifier, or the operator; it registers a test
    case only after a verifier was told of it, and only for a request that goes to blue. *)
Theorem http_proxy_calls (req : http_in) (tr1 : trace) (e : event) (tr2 : trace) (r : AxumResponse) :
  exec (proxy_handler state req) (tr1 ++ e :: tr2) r ->
  match e with
  | Ev (AInceptor (ICall c)) _ => to_service req tr1 c \/ to_verifier tr1 c \/ to_operator req tr1 c
  | _ => True
  end.
Proof.
  intros He. assert (always (proxy_call req) [] (proxy_handler state req) (fun _ _ => True)) as Ha.
  { unfold proxy_handler. case_match; [done|]. unfold with_guard. apply always_bind.
    apply (always_only _ (fun act => match act with AInceptor (ICall _) => False | _ => True end)).
    - unfold try_new, runtime_mode, cell. cbn. split; [done|]. intros m. case_match; [done|]. cbn.
      split; [done|]. intros _. split; [done|]. intros m'. by case_match; cbn.
    - intros tr act rep Hn. destruct act; try done. by destruct_op.
    - intros tr [] _; [|done]. apply always_bind.
      apply (always_post _ _ _ (fun _ _ => True)); [by intros; cbn|].
      case_match; [apply streaming_calls|apply buffered_calls]. }
  apply (always_sound _ _ _ _ _ _ Ha) in He as [_ He]. exact (He tr1 e tr2 eq_refl).
Qed.

(** No header that names the connection, the host or the length is forwarded, and the
    client's own credentials go to the verifier only when the plugin has none. *)
Lemma forwarded_headers_spec headers extra n v :
  (n, v) ∈ forwarded_headers headers extra <->
  (n, v) ∈ extra \/
  ((n, v) ∈ headers /\ should_forward_request_header n = true
   /\ (is_authorization n = true -> forall n' v', (n', v') ∈ extra -> is_authorization n' = false)).
Proof.
  unfold forwarded_headers. rewrite elem_of_app, (list_elem_of_In (List.filter _ _)), filter_In, <- list_elem_of_In.
  cbn [fst]. rewrite andb_true_iff, negb_true_iff, andb_false_iff.
  assert (existsb (fun h : string * string => is_authorization h.1) extra = false <->
    forall n' v', (n', v') ∈ extra -> is_authorization n' = false) as ->.
  { rewrite <- not_true_iff_false, existsb_exists. split.
    - intros Hn n' v' Hin. apply not_true_iff_false. intros Ha. apply Hn. exists (n', v').
      split; [by apply list_elem_of_In|done].
    - intros Hn ([n' v'] & Hin & Ha). change (is_authorization n' = true) in Ha. rewrite (Hn n' v') in Ha; [done|by apply list_elem_of_In]. }
  destruct (is_authorization n); naive_solver.
Qed.
End Calls.

(** *** A concrete plugin *)

Definition no_regexes : Regexes := {| regex_new _ := None; regex_escape s := s |}.
Definition no_json_text : JsonText := {| json_of_bytes _ := None; json_to_bytes _ := "" |}.

Definition sample_runtime (roles : list PluginRole) : PluginInceptorRuntime :=
  {| rt_client := "runtime"; rt_roles := roles;
     rt_testcase_registration_url := "http://operator/testcases";
     rt_test_container_url := "http://verifier"; rt_testcase_verify_path_template := None;
     rt_inception_point := "calls"; rt_blue_green_ref := "orders"; rt_auth_token := Some "token" |}.
Definition sample_config : Config :=
  {| cfg_port := None; cfg_proxy_protocol := None; cfg_write_protocol := None;
     cfg_real_endpoint := Some "http://payments"; cfg_target_url := None; cfg_green_endpoint := None;
     cfg_blue_endpoint := None; cfg_env_var_name := None; cfg_write_env_var := None;
     cfg_verifier_endpoint := None; cfg_mock_path := None; cfg_test_id := None; cfg_match := [];
     cfg_filters := []; cfg_ingress := None; cfg_egress := None;
     cfg_tls := {| tls_inbound := {| itc_enabled := false; itc_port := None; itc_cert_path := None;
                                     itc_key_path := None |} |};
     cfg_client_tls := {| ctc_ca_cert_path := None; ctc_insecure_skip_verify := false |} |}.
Definition sample_state (roles : list PluginRole) : AppState :=
  {| st_config := sample_config; st_runtime := sample_runtime roles; st_client := "http" |}.
Definition operator_headers : HeaderMap := [("authorization", "Bearer token")].
Definition sample_request (body : result string string) : http_in :=
  {| rq_method := "POST"; rq_path_and_query := "/charge?x=1"; rq_headers := []; rq_body := body |}.

Definition mock_arrives := @arrives no_regexes no_json_text (sample_state [Mock]).
Definition cells_at (mode : RuntimeMode) : cells :=
  {| c_mode := mode_code mode; c_percent := 100; c_active := 0; c_ready := 0 |}.
Definition one_request : prog http_reply :=
  let! r := @proxy_handler no_regexes no_json_text (sample_state [Mock]) (sample_request (Ok "")) in
  Ret (RProxy r).
Definition one_drain_status : prog http_reply :=
  let! r := drain_status (sample_state [Mock]) operator_headers in Ret (RDrainStatus r).
Definition one_drain : prog http_reply :=
  let! r := drain_handler (sample_state [Mock]) operator_headers in Ret (RLifecycle r).

Definition thread_calls (s : tasks http_reply) (i : nat) : bool :=
  match threads s !! i with Some (Vis (AInceptor (ICall _)) _) => true | _ => false end.
Definition thread_drained (s : tasks http_reply) (i : nat) : bool :=
  match threads s !! i with Some (Ret (RDrainStatus (Ok d))) => pds_drained d | _ => false end.

(** A schedule from the start: its moves, and the state they lead to. *)
Definition idle_tasks (mode : RuntimeMode) : tasks http_reply := {| shared := cells_at mode; threads := [] |}.
Definition played (ms : list (move http_reply)) (s : tasks http_reply) : tasks http_reply :=
  default s (play_moves s ms).

Ltac arriving := repeat (constructor;
  [first [exact I|apply arrives_drain_status|apply arrives_proxy|apply arrives_drain]|]); constructor.

(** Without that order the report can be wrong: a drain status that reads the counter before a
    request is admitted, and the mode after a drain, reports [drained] while the request is about to
    be forwarded. *)
Theorem http_drain_status_race :
  exists s : tasks http_reply, reachable mock_arrives dropped_handler s
  /\ thread_drained s 0 = true /\ thread_calls s 1 = true.
Proof.
  set (ms := [Arrive one_drain_status; Arrive one_request; Arrive one_drain;
              Serve 0%nat; Serve 1%nat; Serve 1%nat; Serve 1%nat; Serve 1%nat; Serve 2%nat; Serve 0%nat]).
  exists (played ms (idle_tasks Active)). split_and!; [|vm_compute; reflexivity..].
  apply (play_moves_reachable mock_arrives dropped_handler ms (idle_tasks Active)); [arriving| |].
  - by apply reachable_init.
  - vm_compute. reflexivity.
Qed.

Definition in_drain : tasks http_reply := played [Arrive one_drain; Serve 0%nat] (idle_tasks Active).
Definition reported : tasks http_reply := played [Arrive one_drain_status; Serve 1%nat; Serve 1%nat] in_drain.
Definition later : tasks http_reply := played [Arrive one_request; Serve 2%nat] reported.

Lemma http_drain_report_is_final_witness :
  reachable mock_arrives dropped_handler in_drain /\ thread_drained reported 1 = true
  /\ length (threads later) = 3%nat /\ Forall (fun p => ~ calling p) (threads later).
Proof.
  assert (Hr : reachable mock_arrives dropped_handler in_drain).
  { eapply play_moves_reachable; [|by apply (reachable_init _ _ (idle_tasks Active))|].
    2: { unfold in_drain, played. instantiate (1 := [Arrive one_drain; Serve 0%nat]). vm_compute. reflexivity. }
    arriving. }
  split_and!; [done|vm_compute; reflexivity..|].
  refine (@http_drain_report_is_final no_regexes no_json_text (sample_state [Mock]) in_drain reported later 1
    {| pds_drained := true;
       pds_message := Some "http plugin is draining and has no admitted proxy/write requests" |}
    Hr _ ltac:(vm_compute; reflexivity) ltac:(vm_compute; lia) ltac:(vm_compute; reflexivity) eq_refl _).
  - eapply (play_moves_in _ _ (fun c => Z.eqb (c_mode c) 1));
      [| |instantiate (1 := [Arrive one_drain_status; Serve 1%nat; Serve 1%nat]); vm_compute; reflexivity
       |vm_compute; reflexivity]; [|arriving].
    intros c E%Z.eqb_eq. by rewrite E.
  - eapply (play_moves_in _ _ (fun c => Z.eqb (c_mode c) 1));
      [| |instantiate (1 := [Arrive one_request; Serve 2%nat]); vm_compute; reflexivity
       |vm_compute; reflexivity]; [|arriving].
    intros c E%Z.eqb_eq. by rewrite E.
Defined.

(** A plugin that observes, and peers that answer. *)
Definition observing_config : Config :=
  {| cfg_port := None; cfg_proxy_protocol := None; cfg_write_protocol := None;
     cfg_real_endpoint := Some "http://payments"; cfg_target_url := None; cfg_green_endpoint := None;
     cfg_blue_endpoint := None; cfg_env_var_name := None; cfg_write_env_var := None;
     cfg_verifier_endpoint := None; cfg_mock_path := None;
     cfg_test_id := Some {| tis_field := Some "http.path"; tis_json_path := None; tis_path_segment := Some 1;
                            tis_value := None |};
     cfg_match := [];
     cfg_filters := [{| nf_match := []; nf_notify_path := Some "/observe/{testId}"; nf_mock_path := None;
                        nf_payload := None |}];
     cfg_ingress := None; cfg_egress := None; cfg_tls := cfg_tls sample_config;
     cfg_client_tls := cfg_client_tls sample_config |}.
Definition observing_state : AppState :=
  {| st_config := observing_config; st_runtime := sample_runtime [Splitter; Observer]; st_client := "http" |}.

Definition good_response : call_response :=
  {| cr_status := 200; cr_headers := []; cr_body := "done"; cr_json := Ok JNull |}.
Definition good_reply (op : inceptor_op) : inceptor_reply op :=
  match op as o return inceptor_reply o with
  | ICall _ => Ok good_response
  | o => (cell_reply o (cells_at Active)).1
  end.
Definition good_peers (act : action) (w : world) : reply act * world :=
  match act as a return reply a * world with
  | AInceptor op => (good_reply op, w)
  | a => serve a w
  end.

Definition observed_run : AxumResponse * trace * world :=
  run good_peers (@proxy_handler no_regexes no_json_text observing_state (sample_request (Ok "{}"))) empty_world.

Definition call_at (tr : trace) (i : nat) : option http_call :=
  match tr !! i with Some (Ev (AInceptor (ICall c)) _) => Some c | _ => None end.

Lemma http_proxy_calls_witness :
  exists c, call_at observed_run.1.2 6 = Some c /\ call_url c = "http://operator/testcases"
  /\ (to_service observing_state (sample_request (Ok "{}")) (take 6 observed_run.1.2) c
      \/ to_verifier observing_state (take 6 observed_run.1.2) c
      \/ to_operator observing_state (sample_request (Ok "{}")) (take 6 observed_run.1.2) c).
Proof.
  destruct (observed_run.1.2 !! 6%nat) as [e|] eqn:E; [|vm_compute in E; discriminate].
  pose proof (run_exec good_peers (@proxy_handler no_regexes no_json_text observing_state
    (sample_request (Ok "{}"))) empty_world) as He.
  fold observed_run in He. rewrite <- (take_drop_middle _ _ _ E) in He at 1.
  apply (@http_proxy_calls no_regexes no_json_text observing_state) in He.
  vm_compute in E. injection E as <-. eexists. split_and!; [vm_compute; reflexivity|reflexivity|exact He].
Defined.

(** ** The path without a buffer *)

(** The request with its body read. *)
Definition buffer_call (data : string) (c : http_call) : http_call :=
  {| call_client := call_client c; call_method := call_method c; call_url := call_url c;
     call_headers := call_headers c; call_basic_auth := call_basic_auth c;
     call_payload := match call_payload c with StreamedPayload => BytesPayload data | p => p end |}.

(** The program that makes the calls [f c] where [p] makes the calls [c]. *)
Fixpoint map_calls {A} (f : http_call -> http_call) (p : prog A) : prog A :=
  match p with
  | Ret a => Ret a
  | Vis act k =>
      match act as a return (reply a -> prog A) -> prog A with
      | AInceptor op =>
          match op as o return (inceptor_reply o -> prog A) -> prog A with
          | ICall c => fun k => Vis (AInceptor (ICall (f c))) k
          | o => fun k => Vis (AInceptor o) k
          end
      | a => fun k => Vis a k
      end (fun r => map_calls f (k r))
  end.

Section Streaming.
Context `{Regexes, JsonText}.
Context (state : AppState).

Lemma resolve_body_free c method path body headers :
  String.eqb (fc_field c) "http.body" = false ->
  resolve_http_field c method path body headers = resolve_http_field c method path JNull headers.
Proof. intros E. unfold resolve_http_field. by rewrite E. Qed.

Lemma matches_body_free conditions method path headers body :
  conditions_use_body conditions = false ->
  matches_filter conditions method path headers body = matches_filter conditions method path headers JNull.
Proof.
  intros E. unfold matches_filter, match_conditions. destruct conditions as [|c0 l]; [done|].
  revert E. generalize (c0 :: l) as cs. clear c0 l. induction cs as [|c cs IH]; [done|].
  cbn. intros [Hc Hcs]%orb_false_iff. unfold resolve_field at 1 3. rewrite resolve_body_free by done.
  f_equal. by apply IH.
Qed.

Lemma filter_body_free fs method path headers body :
  existsb filter_uses_body fs = false ->
  List.find (fun f => matches_filter (nf_match f) method path headers body) fs
  = List.find (fun f => matches_filter (nf_match f) method path headers JNull) fs.
Proof.
  induction fs as [|f fs IH]; [done|]. cbn. intros [Hf Hfs]%orb_false_iff.
  rewrite matches_body_free by done. by rewrite IH.
Qed.

Lemma config_body_free method path headers body :
  config_uses_body (st_config state) = false ->
  matches_filter (cfg_match (st_config state)) method path headers body
    = matches_filter (cfg_match (st_config state)) method path headers JNull
  /\ matching_filter (st_config state) method path headers body
     = matching_filter (st_config state) method path headers JNull
  /\ forall sel, cfg_test_id (st_config state) = Some sel ->
       extract_test_id sel body path headers = extract_test_id sel JNull path headers.
Proof.
  unfold config_uses_body. rewrite !orb_false_iff. intros [[[[Hs Hm] Hf] Hi] He]. split_and!.
  - by apply matches_body_free.
  - apply filter_body_free. by rewrite !existsb_app, Hf, Hi, He.
  - intros sel Es. rewrite Es in Hs. unfold extract_test_id, extract_http_test_id.
    unfold selector_uses_body in Hs. cbn in Hs.
    destruct (tis_value sel); [done|]. destruct (tis_field sel); [|done]. by rewrite Hs.
Qed.

(** C33. When nothing needs the body, the proxy streams it; apart from the body it sends as a stream, the
    run is the run of the path that reads the body first, against every environment. *)
Theorem http_streaming_is_buffering {W} (h : forall act : action, W -> reply act * W) (w : W)
    (req : http_in) (data : string) :
  request_requires_buffer state = false -> to_bytes (rq_body req) body_limit = Ok data ->
  run h (map_calls (buffer_call data) (proxy_streaming state req)) w = run h (proxy_buffered state req) w.
Proof.
  unfold request_requires_buffer. rewrite !orb_false_iff. intros [[Hs Ho] Hb] Hd.
  unfold proxy_streaming, proxy_buffered, matches_without_body. rewrite Hd, Hs, Ho. cbv zeta.
  cbn [unwrap_or_default bind_prog]. set (j := unwrap_or JNull (json_of_bytes data)).
  destruct (config_body_free (rq_method req) (rq_path_and_query req) (rq_headers req) j Hb)
    as (Em & Ef & Et).
  rewrite Em, Ef, andb_false_r.
  assert ((cfg_test_id (st_config state)
           ≫= fun sel => extract_test_id sel j (rq_path_and_query req) (rq_headers req))
          = (cfg_test_id (st_config state)
             ≫= fun sel => extract_test_id sel JNull (rq_path_and_query req) (rq_headers req))) as ->
    by (destruct (cfg_test_id (st_config state)); cbn; auto).
  set (test_id := mbind _ _).
  replace (match test_id with Some _ => Ret tt | None => Ret tt end) with (Ret tt) by by destruct test_id.
  cbn [bind_prog].
  set (f := matching_filter _ _ _ _ _). set (b := andb _ _). destruct b.
  - unfold forward_mock_streaming_request, forward_mock_request. cbv zeta. fold f. fold test_id.
    destruct (filter_mock_path (st_config state) f) as [mock_path|]; [|done].
    unfold verifier_url, verifier_base_url, resolve_runtime_endpoint, env, forward_streaming_request,
      forward_raw_request.
    destruct (cfg_verifier_endpoint (st_config state)); cbn; repeat (destruct (h _ _)); reflexivity.
  - unfold routed_proxy_target, resolve_option, resolve_runtime_endpoint, env, forward_streaming_request,
      forward_raw_request.
    destruct (proxy_target (st_config state) RouteBlue); cbn; repeat (destruct (h _ _)); reflexivity.
Qed.

(** *** Bodies that cannot be read *)

Definition payload_is (data : string) (act : action) : Prop :=
  match act with
  | AInceptor (ICall c) => match call_payload c with BytesPayload d => d = data | _ => True end
  | _ => True
  end.

Lemma forward_payload client method url headers body extra :
  only (payload_is body) (forward_raw_request client method url headers (Buffered body) extra).
Proof. unfold forward_raw_request. by split. Qed.

Lemma buffered_payload req :
  only (payload_is (unwrap_or_default (to_bytes (rq_body req) body_limit))) (proxy_buffered state req).
Proof.
  unfold proxy_buffered. cbv zeta. set (data := unwrap_or_default _).
  assert (forall e, only (payload_is data) (resolve_runtime_endpoint e)) as Hr by by intros e; split.
  assert (forall t id, only (payload_is data) (verifier_url state t id)) as Hv.
  { intros t id. unfold verifier_url, verifier_base_url. apply only_bind; [|by intros].
    case_match; [apply Hr|done]. }
  apply only_bind; [by case_match|]. intros route.
  apply only_bind; [|intros _].
  - case_match; [|done]. case_match; [|done]. unfold observe. apply only_bind.
    + case_match; [|done]. apply only_bind; [|by intros]. unfold notify_observer_with_client.
      apply only_bind; [apply Hv|]. intros url. by split.
    + intros notified'. case_match; [|done]. apply only_bind; [|by intros].
      unfold register_test_case. cbv zeta. split; [done|]. intros now.
      by apply retry_only.
  - case_match.
    + unfold forward_mock_request. case_match; [|done]. cbv zeta. apply only_bind; [apply Hv|].
      intros url. apply forward_payload.
    + unfold routed_proxy_target, resolve_option. apply only_bind.
      { case_match; [|done]. apply only_bind; [apply Hr|by intros]. }
      intros [url|]; [apply forward_payload|done].
Qed.

(** The proxy that reads the body forwards an empty body when reading fails or the body is longer
    than ten mebibytes: the request is not refused, its body is dropped. *)
Theorem http_unread_body_is_dropped (req : http_in) (tr : trace) (r : AxumResponse) (c : http_call)
    (rep : result string call_response) (data : string) :
  (forall d, rq_body req = Ok d -> body_limit < Z.of_nat (String.length d)) ->
  exec (proxy_buffered state req) tr r -> Ev (AInceptor (ICall c)) rep ∈ tr ->
  call_payload c = BytesPayload data -> data = "".
Proof.
  intros Hbody He Hc Hp.
  assert (unwrap_or_default (to_bytes (rq_body req) body_limit) = "") as E.
  { destruct (rq_body req) as [d|e]; [|done]. specialize (Hbody d eq_refl). cbn -[body_limit].
    destruct (Z.leb_spec (Z.of_nat (String.length d)) body_limit); [lia|done]. }
  pose proof (only_exec _ _ _ _ (buffered_payload req) He _ _ Hc) as Hd. rewrite E in Hd.
  cbn in Hd. by rewrite Hp in Hd.
Qed.
End Streaming.

Lemma http_streaming_is_buffering_witness :
  run good_peers (map_calls (buffer_call "hello")
    (@proxy_streaming no_regexes (sample_state [Mock]) (sample_request (Ok "hello")))) empty_world
  = run good_peers (@proxy_buffered no_regexes no_json_text (sample_state [Mock]) (sample_request (Ok "hello")))
      empty_world.
Proof. apply http_streaming_is_buffering; reflexivity. Defined.

Definition cut_off_run : AxumResponse * trace * world :=
  run good_peers (@proxy_buffered no_regexes no_json_text observing_state
                    (sample_request (Err "connection reset"))) empty_world.

Lemma http_unread_body_is_dropped_witness :
  exists c rep data, Ev (AInceptor (ICall c)) rep ∈ cut_off_run.1.2 /\ call_payload c = BytesPayload data
  /\ data = "".
Proof.
  destruct (last cut_off_run.1.2) as [e|] eqn:E; [|vm_compute in E; discriminate].
  pose proof (last_Some_elem_of _ _ E) as Hin. vm_compute in E. injection E as <-.
  eexists _, _, _. split_and!; [exact Hin|reflexivity|].
  eapply (@http_unread_body_is_dropped no_regexes no_json_text observing_state
    (sample_request (Err "connection reset")) cut_off_run.1.2 cut_off_run.1.1);
    [done|apply run_exec|exact Hin|reflexivity].
Defined.
