(* ===== verification/QueueTheorems.v ===== *)
(** * Reasoning about the queue plugins

    What the theorems about the message broker plugins share: programs all of whose requests
    are allowed, the requests of a client's operations, runs against a world, and the members
    of a rewritten configuration.  And for the managers of RabbitMQ and Azure Service Bus: the
    temporary queues of a rewritten configuration have names derived from an identity,
    whatever the configuration said. *)

From S2P Require Import Prelude RustString Float64 Kube Crd StateStore InceptorEffects Effects World.
From S2P Require Import External Promotion Status Names NamesTheorems SipHash Auth Plugins Sdk.
From S2P Require Import SdkNames SdkTheorems JsonDecode HttpPlugin QueuePlugins Footprint Outcomes.
From S2P Require Import HttpPluginTheorems QueueManagers.

(** ** Programs all of whose requests are allowed *)

Section Safe.
Context (ok : trace -> event -> Prop).

Definition safe {A} (p : prog A) : Prop := forall pre, always ok pre p (fun _ _ => True).

Lemma safe_Ret {A} (a : A) : safe (Ret a).
Proof. by intros pre. Qed.
Lemma safe_bind {A B} (p : prog A) (f : A -> prog B) : safe p -> (forall a, safe (f a)) -> safe (bind_prog p f).
Proof. intros Hp Hf pre. apply always_bind. eapply always_post; [|apply Hp]. intros tr a _. apply Hf. Qed.
Lemma safe_request act : (forall tr r, ok tr (Ev act r)) -> safe (request act).
Proof. intros Hok pre. apply always_request. by split. Qed.
Lemma safe_bind_err {E A B} (p : prog (result E A)) (f : A -> prog (result E B)) :
  safe p -> (forall a, safe (f a)) -> safe (bind_err p f).
Proof. intros Hp Hf. apply safe_bind; [done|]. intros [a|e]; [apply Hf|apply safe_Ret]. Qed.
Lemma safe_bind_loop {A B} (p : prog (option A)) (f : A -> prog (option B)) :
  safe p -> (forall a, safe (f a)) -> safe (bind_loop p f).
Proof. intros Hp Hf. apply safe_bind; [done|]. intros [a|]; [apply Hf|apply safe_Ret]. Qed.
Lemma safe_bind_loop_err {E A B} (p : prog (option (result E A))) (f : A -> prog (option (result E B))) :
  safe p -> (forall a, safe (f a)) -> safe (bind_loop_err p f).
Proof. intros Hp Hf. apply safe_bind_loop; [done|]. intros [a|e]; [apply Hf|apply safe_Ret]. Qed.
Lemma safe_loop {S A} n (s : S) (turn : S -> prog (S + A)) : (forall s, safe (turn s)) -> safe (loop n s turn).
Proof.
  intros Ht. revert s. induction n as [|n IH]; intros s; [apply safe_Ret|].
  apply safe_bind; [apply Ht|]. intros [s'|a]; [apply IH|apply safe_Ret].
Qed.
Lemma safe_loop_of_loops {S A} n (s : S) (turn : S -> prog (option (S + A))) :
  (forall s, safe (turn s)) -> safe (loop_of_loops n s turn).
Proof.
  intros Ht. revert s. induction n as [|n IH]; intros s; [apply safe_Ret|].
  apply safe_bind_loop; [apply Ht|]. intros [s'|a]; [apply IH|apply safe_Ret].
Qed.
Lemma safe_each {X E} (xs : list X) (body : X -> prog (result E unit)) :
  (forall x, x ∈ xs -> safe (body x)) -> safe (each xs body).
Proof.
  induction xs as [|x xs IH]; intros Hb; [apply safe_Ret|]. cbn [each].
  apply safe_bind_err; [apply Hb; left|]. intros _. apply IH. intros y Hy. apply Hb. by right.
Qed.
Lemma safe_only {A} (P : action -> Prop) (p : prog A) :
  only P p -> (forall tr act r, P act -> ok tr (Ev act r)) -> safe p.
Proof. intros Hp Hok pre. by apply (always_only _ P). Qed.
Lemma safe_exec {A} (p : prog A) tr1 e tr2 a : safe p -> exec p (tr1 ++ e :: tr2) a -> ok tr1 e.
Proof. intros Hs He. destruct (always_sound _ _ _ _ _ _ (Hs []) He) as [_ H]. by apply (H tr1 e tr2). Qed.

(** A part whose requests are all allowed, by what its executions are. *)
Lemma always_exec {A} (P : action -> Prop) (p : prog A) (Q : trace -> A -> Prop) pre :
  only P p -> (forall tr act r, P act -> ok tr (Ev act r)) ->
  (forall tr a, exec p tr a -> Q (pre ++ tr) a) -> always ok pre p Q.
Proof.
  intros Hp Hok. revert pre. induction p as [a|act k IH]; intros pre HQ; cbn.
  - rewrite <- (app_nil_r pre). by apply HQ.
  - intros r. destruct Hp as [HP Hk]. split; [by apply Hok|]. apply IH; [apply Hk|].
    intros tr a He. rewrite <- app_assoc. apply HQ. cbn. by exists r.
Qed.
End Safe.

Create HintDb safe.
#[export] Hint Resolve safe_Ret : safe.

(** Takes a program apart along its structure; what remains are the requests in question. *)
Ltac safe_step :=
  match goal with
  | |- safe _ (Ret _) => apply safe_Ret
  | |- safe _ (ended _) => apply safe_Ret
  | |- safe _ (bind_err _ _) => apply safe_bind_err; [|intros ?]
  | |- safe _ (bind_loop_err _ _) => apply safe_bind_loop_err; [|intros ?]
  | |- safe _ (bind_loop _ _) => apply safe_bind_loop; [|intros ?]
  | |- safe _ (whole _) => apply safe_bind; [|intros ?]
  | |- safe _ (with_error _ _) => apply safe_bind; [|intros ?]
  | |- safe _ (loop _ _ _) => apply safe_loop; intros ?
  | |- safe _ (loop_of_loops _ _ _) => apply safe_loop_of_loops; intros ?
  | |- safe _ (bind_prog _ _) => apply safe_bind; [|intros ?]
  | |- safe _ (request _) => apply safe_request; intros ? ?
  | |- safe _ (cell _) => apply safe_request; intros ? ?
  | |- safe _ (match ?x with _ => _ end) => destruct x eqn:?
  end.
Ltac safe := repeat (cbv zeta; cbn beta iota; first [solve [eauto 2 with safe] | safe_step]).

(** ** The requests of the handlers *)

Section Programs.
Context (P : action -> Prop).

Lemma only_bind_err {E A B} (p : prog (result E A)) (f : A -> prog (result E B)) :
  only P p -> (forall a, only P (f a)) -> only P (bind_err p f).
Proof. intros Hp Hf. apply only_bind; [done|]. intros [a|e]; [apply Hf|done]. Qed.
Lemma only_with_error {E F A} (e : F) (p : prog (result E A)) : only P p -> only P (with_error e p).
Proof. intros Hp. by apply only_bind. Qed.
Lemma only_each {X E} (xs : list X) (body : X -> prog (result E unit)) :
  (forall x, x ∈ xs -> only P (body x)) -> only P (each xs body).
Proof.
  induction xs as [|x xs IH]; intros Hb; [done|]. cbn [each].
  apply only_bind_err; [apply Hb; left|]. intros _. apply IH. intros y Hy. apply Hb. by right.
Qed.
End Programs.

(** What any client does to connect. *)
Definition connects (act : action) : bool :=
  match act with
  | AInceptor (QConnect _ _) | AInceptor (QChannel _) | AInceptor (INats (NConnect _ _ _)) | AEnv _ | AReadFile _ | AParseCert _ | ABuildClient
  | ASleep _ => true
  | _ => false
  end.
Class Connects (P : action -> Prop) := connect_ok : forall act, connects act = true -> P act.

Ltac only_step :=
  match goal with
  | |- only _ (Ret _) => exact I
  | |- only _ (bind_err _ _) => apply only_bind_err; [|intros ?]
  | |- only _ (with_error _ _) => apply only_with_error
  | |- only _ (each _ _) => apply only_each; intros ? ?
  | |- only _ (bind_prog _ _) => apply only_bind; [|intros ?]
  | |- only _ (request _) => apply only_request
  | |- only _ (cell _) => apply only_request
  | |- only _ (match ?x with _ => _ end) => destruct x eqn:?
  | |- _ => solve [apply connect_ok; reflexivity | eauto 3 with footprint]
  end.
Ltac only_requests := repeat (cbv zeta; cbn beta iota; only_step).

(** *** Runs that succeed *)

Lemma exec_bind_err {E A B} (p : prog (result E A)) (f : A -> prog (result E B)) tr b :
  exec (bind_err p f) tr (Ok b) ->
  exists tr1 tr2 a, tr = tr1 ++ tr2 /\ exec p tr1 (Ok a) /\ exec (f a) tr2 (Ok b).
Proof.
  intros He. apply exec_bind in He as (tr1 & tr2 & [a|e] & -> & H1 & H2).
  - by exists tr1, tr2, a.
  - by destruct H2 as [_ ?].
Qed.
Lemma exec_with_error {E F A} (e : F) (p : prog (result E A)) tr a :
  exec (with_error e p) tr (Ok a) -> exec p tr (Ok a).
Proof.
  intros He. apply exec_bind in He as (tr1 & tr2 & [x|x] & -> & H1 & [-> H2]); [|discriminate H2].
  injection H2 as ->. by rewrite app_nil_r.
Qed.
Lemma exec_each {X E} (xs : list X) (body : X -> prog (result E unit)) tr x :
  exec (each xs body) tr (Ok tt) -> x ∈ xs ->
  exists tr1 trx tr2, tr = tr1 ++ trx ++ tr2 /\ exec (body x) trx (Ok tt).
Proof.
  revert tr. induction xs as [|y xs IH]; intros tr He Hin; [by apply not_elem_of_nil in Hin|]. cbn [each] in He.
  apply exec_bind_err in He as (tr1 & tr2 & [] & -> & H1 & H2).
  apply elem_of_cons in Hin as [->|Hin]; [by exists [], tr1, tr2|].
  destruct (IH tr2 H2 Hin) as (t1 & tx & t2 & -> & Hx). exists (tr1 ++ t1), tx, t2. by rewrite <- !app_assoc.
Qed.

(** ** Runs against a world *)

Lemma run_bind {A B W} (h : forall act : action, W -> reply act * W) (p : prog A) (f : A -> prog B) w :
  run h (bind_prog p f) w
  = let '(a, tr, w') := run h p w in let '(b, tr', w'') := run h (f a) w' in (b, tr ++ tr', w'').
Proof.
  revert w. induction p as [a|act k IH]; intros w; cbn [bind_prog run].
  - by destruct (run h (f a) w) as [[b tr] w'].
  - destruct (h act w) as [r w']. rewrite IH. destruct (run h (k r) w') as [[a tr] w1].
    by destruct (run h (f a) w1) as [[b tr'] w2].
Qed.

Lemma run_loop {S A W} (h : forall act : action, W -> reply act * W) n (s : S) (turn : S -> prog (S + A)) w :
  run h (loop (Datatypes.S n) s turn) w
  = let '(t, tr, w') := run h (turn s) w in
    match t with
    | inl s' => let '(r, tr', w'') := run h (loop n s' turn) w' in (r, tr ++ tr', w'')
    | inr a => (Some a, tr, w')
    end.
Proof.
  cbn [loop]. rewrite run_bind. destruct (run h (turn s) w) as [[[s'|a] tr] w']; [done|].
  cbn [run]. by rewrite app_nil_r.
Qed.

Lemma run_bind_loop_err {E A B W} (h : forall act : action, W -> reply act * W)
    (p : prog (option (result E A))) (f : A -> prog (option (result E B))) w a tr w' :
  run h p w = (Some (Ok a), tr, w') ->
  run h (bind_loop_err p f) w = let '(b, tr', w'') := run h (f a) w' in (b, tr ++ tr', w'').
Proof. intros E1. unfold bind_loop_err, bind_loop. by rewrite run_bind, E1. Qed.

(** [runs h p w a w']: against the world [w] the program returns [a] and leaves [w']. *)
Definition runs {A W} (h : forall act : action, W -> reply act * W) (p : prog A) (w : W) (a : A) (w' : W) : Prop :=
  exists tr, run h p w = (a, tr, w').

Lemma runs_Ret {A W} (h : forall act : action, W -> reply act * W) (a : A) w : runs h (Ret a) w a w.
Proof. by exists []. Qed.
Lemma runs_request {W} (h : forall act : action, W -> reply act * W) act w r w' :
  h act w = (r, w') -> runs h (request act) w r w'.
Proof. intros E. unfold runs, request. cbn [run]. rewrite E. by eexists. Qed.
Lemma runs_bind {A B W} (h : forall act : action, W -> reply act * W) (p : prog A) (f : A -> prog B) w a w1 b w2 :
  runs h p w a w1 -> runs h (f a) w1 b w2 -> runs h (bind_prog p f) w b w2.
Proof. intros [tr1 E1] [tr2 E2]. unfold runs. rewrite run_bind, E1, E2. by eexists. Qed.
Lemma runs_bind_err {E A B W} (h : forall act : action, W -> reply act * W) (p : prog (result E A))
    (f : A -> prog (result E B)) w a w1 b w2 :
  runs h p w (Ok a) w1 -> runs h (f a) w1 b w2 -> runs h (bind_err p f) w b w2.
Proof. intros H1 H2. by eapply runs_bind. Qed.

(** What is answered in a run is an answer of the world. *)
Lemma run_answers {A W} (h : forall act : action, W -> reply act * W) (p : prog A) w act r :
  Ev act r ∈ (run h p w).1.2 -> exists w', r = (h act w').1.
Proof.
  revert w. induction p as [a|act' k IH]; intros w; cbn [run]; [by intros ?%not_elem_of_nil|].
  destruct (h act' w) as [r' w1] eqn:E. specialize (IH r' w1). destruct (run h (k r') w1) as [[a tr] w2].
  cbn. intros [Hin|Hin]%elem_of_cons; [|by apply IH].
  injection Hin as -> Er. apply Eqdep.EqdepTheory.inj_pair2 in Er as ->. exists w. by rewrite E.
Qed.

(** Names that are pairwise different. *)
Ltac all_different :=
  repeat match goal with
    | H : NoDup (_ :: _) |- _ => apply NoDup_cons in H as [? H]
    | H : _ ∉ _ :: _ |- _ => apply not_elem_of_cons in H as [? ?]
    end.
Ltac distinct :=
  all_different;
  repeat match goal with
    | |- NoDup (_ :: _) => apply NoDup_cons; split
    | |- NoDup [] => apply NoDup_nil_2
    | |- _ ∉ _ :: _ => apply not_elem_of_cons; split
    | |- _ ∉ [] => apply not_elem_of_nil
    end; congruence.

(** ** Members of an object *)

Lemma lookup_insert k v fields : json_lookup k (json_insert k v fields) = Some v.
Proof.
  induction fields as [|[k' v'] fields IH]; cbn [json_insert json_lookup]; [by rewrite String.eqb_refl|].
  destruct (String.compare k k') eqn:E; cbn [json_lookup]; rewrite ?String.eqb_refl; [done..|].
  destruct (String.eqb_spec k' k) as [->|]; [|done]. pose proof (String.compare_antisym k k) as Ha. by rewrite E in Ha.
Qed.
Lemma lookup_insert_other k k' v fields :
  k' <> k -> json_lookup k (json_insert k' v fields) = json_lookup k fields.
Proof.
  intros Hne. induction fields as [|[k1 v1] fields IH]; cbn [json_insert json_lookup].
  - by rewrite (proj2 (String.eqb_neq _ _) Hne).
  - destruct (String.compare k' k1) eqn:E; cbn [json_lookup].
    + apply String.compare_eq_iff in E as ->. by rewrite (proj2 (String.eqb_neq _ _) Hne).
    + by rewrite (proj2 (String.eqb_neq _ _) Hne).
    + by rewrite IH.
Qed.
Lemma lookup_replace k k' v fields :
  json_lookup k (json_replace k' v fields)
  = if String.eqb k' k then (if json_lookup k fields then Some v else None) else json_lookup k fields.
Proof.
  induction fields as [|[k1 v1] fields IH]; cbn [json_replace json_lookup]; [by case_match|].
  destruct (String.eqb_spec k1 k') as [->|Hne]; cbn [json_lookup].
  - by destruct (String.eqb k' k).
  - rewrite IH. destruct (String.eqb_spec k' k) as [->|]; [|done].
    by rewrite (proj2 (String.eqb_neq _ _) Hne).
Qed.

(** The block [role] of a configuration with [field] set in it. *)
Definition with_field (field : string) (v : json) (block : json) : json :=
  match block with JObj fields => JObj (json_insert field v fields) | j => j end.

Lemma get_set_nested role role' field v config :
  json_get role (set_nested_string config [role'; field] v)
  = if String.eqb role' role then with_field field (JStr v) <$> json_get role config else json_get role config.
Proof.
  destruct config as [| | | | |fields]; try by destruct (String.eqb role' role).
  cbn [set_nested_string json_get]. destruct (json_lookup role' fields) as [next|] eqn:E; cbn [json_get].
  - rewrite lookup_replace. destruct (String.eqb_spec role' role) as [<-|]; [|done]. rewrite E.
    by destruct next.
  - destruct (String.eqb_spec role' role) as [<-|]; [|done]. by rewrite E.
Qed.

(** A block after fields of it were set one after the other. *)
Lemma get_rewritten_fields (fields : list (string * string * string)) (name : string -> string -> string) role :
  forall config,
  json_get role (fold_left (fun value f => let '(r, field, logical) := f in
                   set_nested_string value [r; field] (name r logical)) fields config)
  = fold_left (fun block f => let '(r, field, logical) := f in
      if String.eqb r role then with_field field (JStr (name r logical)) <$> block else block)
    fields (json_get role config).
Proof.
  induction fields as [|[[r field] logical] fields IH]; intros config; [done|]. cbn [fold_left].
  by rewrite IH, get_set_nested.
Qed.

Lemma decoded_block {A} (d : decoder A) k fields (x : A) :
  opt_member d k fields = Some (Some x) -> exists j, json_lookup k fields = Some j /\ d j = Some x.
Proof.
  unfold opt_member. destruct (json_lookup k fields) as [j|]; [|done]. intros Hd. exists j. split; [done|].
  destruct j; cbn in Hd; try done; by destruct (d _) as [y|]; [injection Hd as ->|discriminate Hd].
Qed.

Lemma opt_string_inserted k k' v fields x :
  opt_member d_string k (json_insert k' (JStr v) fields) = Some x ->
  if String.eqb k' k then x = Some v else opt_member d_string k fields = Some x.
Proof.
  unfold opt_member. destruct (String.eqb_spec k' k) as [->|Hne].
  - rewrite lookup_insert. cbn. by intros [= <-].
  - by rewrite lookup_insert_other.
Qed.

Lemma queues_of_block {A} (block : option A) (h : bool) f (q : string) :
  q ∈ omap id (match block with Some b => if h then f b else [] | None => [] end) ->
  exists b, block = Some b /\ q ∈ omap id (f b).
Proof. destruct block as [b|], h; intros Hin; try by apply not_elem_of_nil in Hin. by exists b. Qed.
Lemma queue_of_two (a b q : string) : q ∈ omap id [Some a; Some b] -> q = a \/ q = b.
Proof. cbn. rewrite !elem_of_cons. intros [->|[->|[]%not_elem_of_nil]]; auto. Qed.

Lemma not_member u l : existsb (String.eqb u) l = false -> u ∉ l.
Proof.
  intros E Hin. apply not_true_iff_false in E. apply E, existsb_exists. exists u.
  split; [by apply list_elem_of_In|apply String.eqb_refl].
Qed.

(** ** Inventories *)

(** [a] is the inventory's entry of the inception point that [req] prepares. *)
Definition inventories (a : ActiveInception) (claims : PluginAuthClaims) (req : PluginManagerLifecycleRequest)
    : Prop :=
  ai_namespace a = cl_namespace claims /\ ai_blue_green_ref a = cl_blue_green_ref claims
  /\ unwrap_or "" (ai_blue_green_uid a) = unwrap_or "" (cl_blue_green_uid claims)
  /\ ai_inception_point a = cl_inception_point claims
  /\ ai_config a = pml_config req /\ ai_roles a = pml_roles req.

(** ** Concrete tokens *)

Definition signed_header (claims : PluginAuthClaims) : HeaderMap :=
  match @sign_plugin_auth_token sample_sha256 sample_codecs claims sample_key with
  | Ok token => [("authorization", bearer_value token)]
  | Err _ => []
  end.
Definition sync_claims (plugin : string) : PluginAuthClaims :=
  new_with_uid "fluidbg" "__manager_sync__" "" "__manager_sync__" plugin.

(** ** Managers *)

Section Names.
Context `{Sha256}.

(** The name of a temporary queue of an inception point. *)
Definition temp_name (ns ref uid ip : string) (config : json) (role logical : string) : string :=
  derived_temp_queue_name_with_uid_and_identifier ns ref uid ip role logical
    (temporary_queue_identifier config role).

(** A block after the rewriting: two fields of it are set. *)
Lemma get_rewritten config ns ref uid ip role :
  let name := temp_name ns ref uid ip config role in
  json_get role (rewrite_queue_temp_names config ns ref uid ip)
  = (if (String.eqb role "duplicator" || String.eqb role "splitter")%bool
     then with_field "blueInputQueue" (JStr (name "blue-input"))
          ∘ with_field "greenInputQueue" (JStr (name "green-input"))
     else if String.eqb role "combiner"
     then with_field "blueOutputQueue" (JStr (name "blue-output"))
          ∘ with_field "greenOutputQueue" (JStr (name "green-output"))
     else id) <$> json_get role config.
Proof.
  cbv zeta. unfold rewrite_queue_temp_names, temp_queue_fields. cbn [fold_left]. rewrite !get_set_nested.
  rewrite !(String.eqb_sym _ role).
  destruct (String.eqb_spec role "duplicator") as [->|]; [by destruct (json_get _ config)|].
  destruct (String.eqb_spec role "splitter") as [->|]; [by destruct (json_get _ config)|].
  destruct (String.eqb_spec role "combiner") as [->|]; by destruct (json_get _ config).
Qed.

Ltac rewritten_fields :=
  intros Hd; repeat (apply bind_Some in Hd as (? & ? & Hd)); injection Hd as <-; cbn;
  repeat match goal with
  | H : opt_member d_string _ (json_insert _ _ _) = Some _ |- _ => apply opt_string_inserted in H; cbn in H
  end; by subst.
Lemma splitter_rewritten b g l d :
  decode_splitter (with_field "blueInputQueue" (JStr l) (with_field "greenInputQueue" (JStr g) b)) = Some d ->
  in_green_queue d = Some g /\ in_blue_queue d = Some l.
Proof. destruct b; try done. unfold decode_splitter. cbn [with_field d_fields mbind option_bind]. rewritten_fields. Qed.
Lemma combiner_rewritten b g l d :
  decode_combiner (with_field "blueOutputQueue" (JStr l) (with_field "greenOutputQueue" (JStr g) b)) = Some d ->
  cb_green_queue d = Some g /\ cb_blue_queue d = Some l.
Proof. destruct b; try done. unfold decode_combiner. cbn [with_field d_fields mbind option_bind]. rewritten_fields. Qed.

(** Blocks that are those of a text. *)
Definition blocks_of (j : json) (duplicator splitter : option SplitterConfig) (combiner : option CombinerConfig)
    : Prop :=
  (forall d, duplicator = Some d -> exists b, json_get "duplicator" j = Some b /\ decode_splitter b = Some d)
  /\ (forall d, splitter = Some d -> exists b, json_get "splitter" j = Some b /\ decode_splitter b = Some d)
  /\ (forall d, combiner = Some d -> exists b, json_get "combiner" j = Some b /\ decode_combiner b = Some d).

Ltac rewritten_field :=
  first [eapply (list_elem_of_lookup_2 _ 0%nat); reflexivity | eapply (list_elem_of_lookup_2 _ 1%nat); reflexivity
        |eapply (list_elem_of_lookup_2 _ 2%nat); reflexivity | eapply (list_elem_of_lookup_2 _ 3%nat); reflexivity
        |eapply (list_elem_of_lookup_2 _ 4%nat); reflexivity | eapply (list_elem_of_lookup_2 _ 5%nat); reflexivity].

Lemma temp_names_derived config ns ref uid ip roles duplicator splitter combiner q :
  blocks_of (rewrite_queue_temp_names config ns ref uid ip) duplicator splitter combiner ->
  q ∈ temp_queue_names roles duplicator splitter combiner ->
  exists role field logical, (role, field, logical) ∈ temp_queue_fields
  /\ q = temp_name ns ref uid ip config role logical.
Proof.
  intros (Hdup & Hspl & Hcmb). rewrite !get_rewritten in Hdup, Hspl, Hcmb.
  cbn [String.eqb Ascii.eqb Bool.eqb orb] in Hdup, Hspl, Hcmb.
  assert (forall block d, (with_field "blueInputQueue" (JStr (temp_name ns ref uid ip config block "blue-input"))
            ∘ with_field "greenInputQueue" (JStr (temp_name ns ref uid ip config block "green-input")))
            <$> json_get block config = Some d -> forall s, decode_splitter d = Some s ->
     in_green_queue s = Some (temp_name ns ref uid ip config block "green-input")
     /\ in_blue_queue s = Some (temp_name ns ref uid ip config block "blue-input")) as Hsp.
  { intros block d Hb s Hs. destruct (json_get block config) as [j|]; [|done]. injection Hb as <-.
    by apply splitter_rewritten in Hs. }
  unfold temp_queue_names, of_role. cbn [omap]. rewrite !omap_app, !elem_of_app.
  intros [Hin|[Hin|Hin]]; apply queues_of_block in Hin as (d & Ec & Hin).
  - destruct (Hdup d Ec) as (b & Hb & Hs). destruct (Hsp _ _ Hb _ Hs) as [Eg El]. rewrite Eg, El in Hin.
    apply queue_of_two in Hin as [->| ->]; eexists "duplicator", _, _; (split; [|reflexivity]);
      rewritten_field.
  - destruct (Hspl d Ec) as (b & Hb & Hs). destruct (Hsp _ _ Hb _ Hs) as [Eg El]. rewrite Eg, El in Hin.
    apply queue_of_two in Hin as [->| ->]; eexists "splitter", _, _; (split; [|reflexivity]);
      rewritten_field.
  - destruct (Hcmb d Ec) as (b & Hb & Hs). destruct (json_get "combiner" config) as [j|]; [|done].
    injection Hb as <-. apply combiner_rewritten in Hs as [Eg El]. rewrite Eg, El in Hin.
    apply queue_of_two in Hin as [->| ->]; eexists "combiner", _, _; (split; [|reflexivity]);
      rewritten_field.
Qed.

(** A queue whose name is derived from the identity in the claims, or the shadow of one. *)
Definition own_queue (claims : PluginAuthClaims) (config : json) (q : string) : Prop :=
  exists role field logical, (role, field, logical) ∈ temp_queue_fields
  /\ let name := temp_name (cl_namespace claims) (cl_blue_green_ref claims)
                   (unwrap_or "" (cl_blue_green_uid claims)) (cl_inception_point claims) config role logical in
     q = name \/ exists suffix, q = derived_shadow_queue_name name suffix.

(** Names that are derived, and their shadows. *)
Lemma own_with_shadows claims config managed (shadow : string -> option string) q :
  (forall m, m ∈ managed -> exists role field logical, (role, field, logical) ∈ temp_queue_fields
     /\ m = temp_name (cl_namespace claims) (cl_blue_green_ref claims)
              (unwrap_or "" (cl_blue_green_uid claims)) (cl_inception_point claims) config role logical) ->
  (forall m s, shadow m = Some s -> exists suffix, s = derived_shadow_queue_name m suffix) ->
  q ∈ managed ++ omap shadow managed -> own_queue claims config q.
Proof.
  intros Hm Hs. rewrite elem_of_app, list_elem_of_omap. intros [Hin|(m & Hin & Eq)].
  - destruct (Hm _ Hin) as (role & field & logical & Hf & ->). exists role, field, logical. auto.
  - destruct (Hm _ Hin) as (role & field & logical & Hf & ->). exists role, field, logical. split; [done|].
    right. by eapply Hs.
Qed.

(** An entry of the inventory has the configuration of the request it is about. *)
Lemma inventoried_claimed a claims req : inventories a claims req ->
  inventoried_config a = claimed_config claims (pml_config req) /\ ai_roles a = pml_roles req.
Proof.
  intros (Hn & Hr & Hu & Hi & Hc & Hro). unfold inventoried_config, claimed_config.
  by rewrite Hn, Hr, Hu, Hi, Hc.
Qed.
End Names.

(** ** Concrete requests *)

Definition splitter_text : json :=
  JObj [("shadowQueue", JObj [("suffix", JStr "-dlq")]);
        ("splitter", JObj [("greenInputQueue", JStr "victim"); ("inputQueue", JStr "orders")])].
Definition sample_request_of (claims : PluginAuthClaims) (active : list ActiveInception)
    : PluginManagerLifecycleRequest :=
  {| pml_namespace := cl_namespace claims; pml_blue_green_ref := cl_blue_green_ref claims;
     pml_blue_green_uid := cl_blue_green_uid claims; pml_inception_point := cl_inception_point claims;
     pml_plugin := cl_plugin claims; pml_roles := ["splitter"]; pml_config := splitter_text;
     pml_active_inceptions := active |}.
Definition sample_active : ActiveInception :=
  {| ai_namespace := cl_namespace sample_claims; ai_blue_green_ref := cl_blue_green_ref sample_claims;
     ai_blue_green_uid := cl_blue_green_uid sample_claims; ai_inception_point := cl_inception_point sample_claims;
     ai_plugin := cl_plugin sample_claims; ai_roles := ["splitter"]; ai_config := splitter_text |}.
