(* ===== verification/NatsTheorems.v ===== *)
(** * What the NATS plugin guarantees: messages

    Theorems about [Nats], [NatsWorkers] and [NatsLifecycle] over JetStream: a message is
    acknowledged only after it is stored wherever it has to go and its test case is settled; a
    move takes a batch and loses nothing; a drain is reported only when the consumer of every
    temporary subject said it has nothing left; streams have valid names. *)

From S2P Require Import Prelude RustString Float64 Kube Crd StateStore InceptorEffects Effects.
From S2P Require Import World External Promotion Status Names NamesTheorems SipHash Auth Plugins Sdk.
From S2P Require Import SdkNames SdkTheorems JsonDecode HttpPlugin QueuePlugins Nats NatsWorkers NatsLifecycle.
From S2P Require Import Footprint Outcomes HttpPluginTheorems QueueTheorems.

(** ** Streams have the characters the server takes *)

Lemma hex_byte_stream b : all_bytes stream_char (hex_byte b) = true.
Proof. destruct b as [[] [] [] [] [] [] [] []]; reflexivity. Qed.
Lemma hex_string_stream l : all_bytes stream_char (hex_string l) = true.
Proof.
  unfold hex_string. induction l as [|b l IH]; [done|]. cbn [map]. rewrite concat_cons_nil, all_bytes_app.
  by rewrite hex_byte_stream, IH.
Qed.
Lemma filter_all (p : ascii -> bool) l : forallb p (List.filter p l) = true.
Proof. apply forallb_forall. intros x [_ Hx]%filter_In. exact Hx. Qed.
Lemma hint_chars subject : all_bytes stream_char (subject_hint subject) = true.
Proof. unfold subject_hint. rewrite all_bytes_of_bytes. apply forallb_take, filter_all. Qed.
Lemma stream_name_chars subject : all_bytes stream_char (stream_name subject) = true.
Proof. unfold stream_name. rewrite !all_bytes_app, hint_chars. apply hex_string_stream. Qed.

(** ** Acknowledgements *)

(** The stream of a subject has confirmed a message. *)
Definition stored_in (tr : trace) (subject data : string) : Prop :=
  exists client, Ev (AInceptor (INats (NPublish client subject data))) (Ok tt) ∈ tr.

Lemma stored_in_app_l tr tr' subject data : stored_in tr subject data -> stored_in (tr ++ tr') subject data.
Proof. intros [client Hin]. exists client. apply elem_of_app. by left. Qed.
Lemma stored_in_app_r tr tr' subject data : stored_in tr' subject data -> stored_in (tr ++ tr') subject data.
Proof. intros [client Hin]. exists client. apply elem_of_app. by right. Qed.

Lemma http_calls_app tr tr' : http_calls (tr ++ tr') = http_calls tr ++ http_calls tr'.
Proof. apply omap_app. Qed.

Definition no_nats_ack (act : action) : Prop :=
  match act with AInceptor (INats (NAck _)) => False | _ => True end.

(** Where an acknowledged message comes from, and what was done since it was fetched. *)
Definition acked_after (settled : string -> string -> option Z -> jet_message -> trace -> Prop)
    (tr : trace) (e : event) : Prop :=
  match e with
  | Ev (AInceptor (INats (NAck m))) _ =>
      exists before client subject durable timeout since,
        tr = before ++ Ev (AInceptor (INats (NFetch client (stream_name subject) durable timeout))) (Ok (Some m))
             :: since
        /\ settled subject durable timeout m since
  | _ => True
  end.

Lemma no_nats_ack_ok settled tr act r : no_nats_ack act -> acked_after settled tr (Ev act r).
Proof.
  destruct act; try done. match goal with o : inceptor_op |- _ => destruct o; try done end.
  match goal with o : nats_op |- _ => by destruct o end.
Qed.

Section Acks.
Context (settled : string -> string -> option Z -> jet_message -> trace -> Prop).
Notation ok := (acked_after settled).

Lemma mode_ok : safe ok runtime_mode.
Proof. unfold runtime_mode. safe; done. Qed.
Lemma nats_ok (op : nats_op) : no_nats_ack (AInceptor (INats op)) -> safe ok (nats op).
Proof. intros Hn. unfold nats. safe. by apply no_nats_ack_ok. Qed.
Lemma connect_ok_acks url : safe ok (connect url).
Proof. unfold connect, env_flag, optional_env, env, nats. safe; done. Qed.
Lemma pause_ok millis : safe ok (pause millis).
Proof. unfold pause. safe; done. Qed.
#[local] Hint Resolve mode_ok connect_ok_acks pause_ok : safe.

(** A fetch and what is done with the message. *)
Lemma fetch_ok {B} client subject durable timeout policy (f : result string (option jet_message) -> prog B) Q pre :
  (forall tr e, always ok tr (f (Err e)) Q) -> (forall tr, always ok tr (f (Ok None)) Q) ->
  (forall before m, always ok
     (before ++ [Ev (AInceptor (INats (NFetch client (stream_name subject) durable timeout))) (Ok (Some m))])
     (f (Ok (Some m))) Q) ->
  always ok pre (bind_prog (next_message_inner client subject durable timeout policy) f) Q.
Proof.
  intros He Hn Hm. unfold next_message_inner, subject_consumer, nats, cell.
  apply always_bind, always_bind, always_bind. apply always_request. intros [[]|e]; (split; [done|]); [|apply He].
  apply always_request. intros [[]|e]; (split; [done|]); [|apply He].
  apply always_request. intros [[m|]|e]; (split; [done|]); [apply Hm|apply Hn|apply He].
Qed.

(** The acknowledgement of the message fetched last. *)
Lemma ack_ok client subject durable timeout before m since Q :
  settled subject durable timeout m since -> (forall tr r, Q tr r) ->
  always ok (before ++ Ev (AInceptor (INats (NFetch client (stream_name subject) durable timeout))) (Ok (Some m))
                    :: since) (nats (NAck m)) Q.
Proof.
  intros Hs HQ. unfold nats, cell. apply always_request. intros r. split; [|apply HQ].
  by exists before, client, subject, durable, timeout, since.
Qed.

(** A move settles each message by storing it in the target. *)
Lemma move_ok max client source target durable moved :
  (forall m since, stored_in since target (jm_payload m) -> settled source durable (Some 250) m since) ->
  safe ok (move_messages max client source target durable moved).
Proof.
  intros Hset. revert moved. induction max as [|max IH]; intros moved pre; [done|]. cbn [move_messages].
  unfold bind_err at 1. unfold next_message_for_drain. apply fetch_ok; [done..|]. intros before m.
  unfold publish, nats, cell. apply always_bind, always_request. intros [[]|e]; (split; [done|]); [|done].
  apply always_bind. rewrite <- app_assoc. cbn [app].
  apply ack_ok; [|intros tr [|]; [apply IH|done]]. apply Hset. exists client. left.
Qed.
End Acks.
#[export] Hint Resolve mode_ok connect_ok_acks pause_ok : safe.

(** *** What is settled for a message *)

Section Settled.
Context `{Regexes, JsonText}.
Context (state : NatsState).

(** The path the verifier is notified at and the test case, when the observer has the message. *)
Definition observed_case (body : json) : option (string * string) :=
  match nc_observer (ns_config state) with
  | Some o =>
      if (active state Observer && matches_filter (ob_match o) body)%bool then
        match ob_test_id o ≫= fun selector => extract_test_id selector body, ob_notify_path o with
        | Some test_id, Some path => Some (path, test_id)
        | _, _ => None
        end
      else None
  | None => None
  end.

Definition notification (path test_id : string) (body : json) (route : TrafficRoute) : http_call :=
  let rt := ns_runtime state in
  post (rt_client rt) (trim_end_matches "/" (rt_test_container_url rt) +:+ render_path path test_id (rt_inception_point rt))
    (rt_auth_token rt)
    (NotificationPayload {| on_test_id := test_id; on_inception_point := rt_inception_point rt;
                            on_route := route_text route; on_payload := body |}).
Definition registration (test_id : string) (now : Z) : http_call :=
  let rt := ns_runtime state in
  post (rt_client rt) (rt_testcase_registration_url rt) (rt_auth_token rt)
    (RegistrationPayload
       {| rtc_test_id := test_id; rtc_blue_green_ref := rt_blue_green_ref rt;
          rtc_inception_point := rt_inception_point rt; rtc_triggered_at := Some now;
          rtc_timeout_seconds := Some 120;
          rtc_verify_url := (fun path => trim_end_matches "/" (rt_test_container_url rt)
            +:+ render_path path test_id (rt_inception_point rt)) <$> rt_testcase_verify_path_template rt |}).

(** The calls that settle the test case of a message: the verifier is notified with retries; when
    it was, and the route is one that is registered, the operator has taken the registration. *)
Definition case_settled (body : json) (route : TrafficRoute)
    (calls : list (http_call * result string call_response)) : Prop :=
  match observed_case body with
  | None => calls = []
  | Some (path, test_id) =>
      exists answers notified rest,
        delivered DELIVERY_ATTEMPTS answers notified
        /\ calls = map (pair (notification path test_id body route)) answers ++ rest
        /\ if (notified && should_register_case route)%bool
           then exists answers' now, delivered DELIVERY_ATTEMPTS answers' true
                  /\ rest = map (pair (registration test_id now)) answers'
           else rest = []
  end.

Lemma observe_exec body route tr r :
  exec (observe_payload state body route) tr r -> is_ok r = true -> case_settled body route (http_calls tr).
Proof.
  unfold observe_payload, case_settled, observed_case. intros He Hr.
  destruct (nc_observer (ns_config state)) as [o|]; [|by destruct He as [-> _]].
  destruct (active state Observer && matches_filter (ob_match o) body)%bool; [|by destruct He as [-> _]].
  destruct (ob_test_id o ≫= _) as [test_id|]; [|by destruct He as [-> _]].
  unfold notify_observer in He. destruct (ob_notify_path o) as [path|].
  - apply exec_bind in He as (tr1 & tr2 & notified & -> & Hn & He).
    apply exec_bind in Hn as (u1 & u2 & sent & -> & Hn & [-> ->]). rewrite app_nil_r.
    unfold Sdk.notify_observer in Hn. cbv zeta in Hn. apply retry_outcome in Hn as (answers & Ea & Hd).
    exists answers, (is_ok sent), (http_calls tr2). split; [exact Hd|]. split.
    { rewrite http_calls_app. f_equal. exact Ea. }
    destruct (is_ok sent && should_register_case route)%bool; [|by destruct He as [-> _]].
    apply register_delivery in He as (answers' & now & Hd' & Ec). rewrite Hr in Hd'. by exists answers', now.
  - apply exec_bind in He as (tr1 & tr2 & notified & -> & [-> ->] & He). by destruct He as [-> _].
Qed.

(** The subjects a message must reach, given the percentage it was routed with, and its route. *)
Definition chosen_subject (c : InputConfig) (percent : Z) (body : string) : option string :=
  if routes_to_blue body percent then ic_blue_subject c else ic_green_subject c.
Definition input_targets (percent : Z) (body : string) : list string :=
  if active state Duplicator then
    match nc_duplicator (ns_config state) with
    | Some c => omap id [ic_green_subject c; ic_blue_subject c] | None => [] end
  else if active state Splitter then
    match nc_splitter (ns_config state) with Some c => omap id [chosen_subject c percent body] | None => [] end
  else [].
Definition input_route (percent : Z) (body : string) : TrafficRoute :=
  if active state Duplicator then RouteBoth
  else if active state Splitter then
    if routes_to_blue body percent then RouteBlue
    else match nc_splitter (ns_config state) ≫= ic_green_subject with Some _ => RouteGreen | None => RouteUnknown end
  else RouteUnknown.

Context (jet_stream : nc_mode (ns_config state) = JetStream).

Lemma not_core : core_mode state = false.
Proof using jet_stream. unfold core_mode. by rewrite jet_stream. Qed.

Lemma publish_exec client subject body tr :
  exec (publish_to_subject state client subject body) tr (Ok tt) ->
  stored_in tr subject body /\ http_calls tr = [].
Proof using jet_stream.
  unfold publish_to_subject. rewrite not_core. unfold publish, nats, cell. intros He.
  destruct tr as [|e [|]]; cbn in He; try done; destruct He as (r & -> & He); [|by destruct He].
  destruct He as [_ <-]. split; [|done]. exists client. left.
Qed.
Lemma publish_optional_exec client subject body tr :
  exec (publish_optional state client subject body) tr (Ok tt) ->
  (forall s, subject = Some s -> stored_in tr s body) /\ http_calls tr = [].
Proof using jet_stream.
  destruct subject as [s|]; cbn [publish_optional]; [|by intros [-> _]].
  intros [Hs Hc]%publish_exec. split; [|exact Hc]. by intros ? [= <-].
Qed.

(** What forwarding has done when it succeeds. *)
Lemma forward_exec client body tr route :
  exec (forward_message state client body) tr (Ok route) ->
  exists percent,
    (active state Duplicator = false -> active state Splitter = true -> Ev (AInceptor LoadPercent) percent ∈ tr)
    /\ (forall target, target ∈ input_targets percent body -> stored_in tr target body)
    /\ route = input_route percent body /\ http_calls tr = [].
Proof using jet_stream.
  unfold forward_message, input_targets, input_route. destruct (active state Duplicator) eqn:Ed.
  - unfold duplicator_config. destruct (nc_duplicator (ns_config state)) as [c|]; [|by intros [_ [=]]]. cbn [ok_or].
    intros (tr1 & tr2 & [] & -> & [Hg Eg]%publish_optional_exec & He)%exec_bind_err.
    apply exec_bind_err in He as (tr3 & tr4 & [] & -> & [Hb Eb]%publish_optional_exec & [-> [= ->]]).
    rewrite app_nil_r, http_calls_app, Eg, Eb. exists 0. split_and!; [done| |done..].
    intros target Hin. apply list_elem_of_omap in Hin as (o & Ho & Eo). cbn in Eo. subst o.
    rewrite !elem_of_cons in Ho. destruct Ho as [Ho|[Ho|[]%not_elem_of_nil]].
    + by apply stored_in_app_l, Hg.
    + by apply stored_in_app_r, Hb.
  - destruct (active state Splitter) eqn:Es.
    + unfold splitter_config. destruct (nc_splitter (ns_config state)) as [c|]; [|by intros [_ [=]]]. cbn [ok_or].
      unfold traffic_percent, cell. intros (percent & tr' & -> & He)%exec_request. exists percent.
      split; [intros _ _; left|]. unfold chosen_subject. cbn [mbind option_bind].
      destruct (routes_to_blue body percent).
      * apply exec_bind_err in He as (tr1 & tr2 & [] & -> & [Hb Eb]%publish_optional_exec & [-> [= ->]]).
        rewrite app_nil_r. split_and!; [|done|exact Eb].
        intros target Hin. apply list_elem_of_omap in Hin as (o & Ho%list_elem_of_singleton & Eo).
        cbn in Eo. subst o. apply (stored_in_app_r [_]). auto.
      * destruct (ic_green_subject c) as [g|]; [|destruct He as [-> [= ->]]; split_and!; try done;
          by intros ? ?%not_elem_of_nil].
        apply exec_bind_err in He as (tr1 & tr2 & [] & -> & [Hb Eb]%publish_exec & [-> [= ->]]).
        rewrite app_nil_r. split_and!; [|done|exact Eb].
        intros target Hin%list_elem_of_singleton. subst target. by apply (stored_in_app_r [_]).
    + intros [-> [= ->]]. exists 0. split_and!; try done. by intros ? ?%not_elem_of_nil.
Qed.

(** *** The input worker *)

#[local] Instance no_nats_ack_connects : Connects no_nats_ack.
Proof.
  intros act E. destruct act; try done. match goal with o : inceptor_op |- _ => destruct o; try done end.
  match goal with o : nats_op |- _ => by destruct o end.
Qed.

Lemma observe_only body route : only no_nats_ack (observe_payload state body route).
Proof using Type.
  unfold observe_payload. repeat (case_match; try done). apply only_bind.
  - unfold notify_observer. case_match; [|done]. apply only_bind; [|done].
    unfold Sdk.notify_observer. by apply retry_only.
  - intros notified. case_match; [|done]. unfold register_test_case. cbv zeta.
    apply only_bind; [done|]. intros now. by apply retry_only.
Qed.
Lemma publish_only client subject body : only no_nats_ack (publish_to_subject state client subject body).
Proof using Type. unfold publish_to_subject, publish_core, publish, nats. only_requests; done. Qed.
Lemma payload_only client body : only no_nats_ack (process_input_payload state client body).
Proof using Type.
  unfold process_input_payload, forward_message, publish_optional, traffic_percent.
  apply only_bind_err; [|intros; apply observe_only].
  only_requests; try apply publish_only; done.
Qed.

(** What is settled for a message of the input subject. *)
Definition message_settled (m : jet_message) (since : trace) : Prop :=
  exists percent,
    (active state Duplicator = false -> active state Splitter = true -> Ev (AInceptor LoadPercent) percent ∈ since)
    /\ (forall target, target ∈ input_targets percent (jm_payload m) -> stored_in since target (jm_payload m))
    /\ case_settled (body_of_bytes (jm_payload m)) (input_route percent (jm_payload m)) (http_calls since).
Definition input_settled (subject durable : string) (timeout : option Z) (m : jet_message) (since : trace) : Prop :=
  (input_source_subject (ns_config state) (ns_roles state) = Ok subject /\ timeout = None /\ message_settled m since)
  \/ (exists base green blue, input_drain_targets state = Ok (base, green, blue)
      /\ ((subject, durable) = green \/ (subject, durable) = blue) /\ timeout = Some 250
      /\ stored_in since base (jm_payload m)).

Lemma payload_settles client m tr :
  exec (process_input_payload state client (jm_payload m)) tr (Ok tt) -> message_settled m tr.
Proof using jet_stream.
  unfold process_input_payload.
  intros (tr1 & tr2 & route & -> & (percent & Hp & Ht & -> & Ec)%forward_exec & Ho)%exec_bind_err.
  apply observe_exec in Ho; [|done]. exists percent. split_and!.
  - intros Hd Hs. apply elem_of_app. left. auto.
  - intros target Hin. by apply stored_in_app_l, Ht.
  - by rewrite http_calls_app, Ec.
Qed.

Lemma message_ok client subject durable before m Q :
  input_source_subject (ns_config state) (ns_roles state) = Ok subject -> (forall tr r, Q tr r) ->
  always (acked_after input_settled)
    (before ++ [Ev (AInceptor (INats (NFetch client (stream_name subject) durable None))) (Ok (Some m))])
    (process_input_message state client m) Q.
Proof using jet_stream.
  intros Hsub HQ. unfold process_input_message. apply always_bind.
  apply (always_exec _ no_nats_ack); [apply payload_only|by intros; apply no_nats_ack_ok|].
  intros tr [[]|e] He; [|apply HQ]. rewrite <- app_assoc. cbn [app].
  apply ack_ok; [|done]. left. split_and!; [done..|]. by apply (payload_settles client).
Qed.

Lemma drain_input_ok : safe (acked_after input_settled) (drain_input_subjects state).
Proof using jet_stream.
  unfold drain_input_subjects. destruct (core_mode state); [done|]. case_match; [done|].
  destruct (input_drain_targets state) as [[[base green] blue]|e] eqn:Et; [|done].
  apply safe_bind_err; [apply connect_ok_acks|]. intros client. apply safe_each.
  intros target Hin. apply safe_bind_err; [|intros; apply safe_Ret]. apply move_ok.
  intros m since Hs. right. exists base, green, blue. split_and!; [done| |done..].
  rewrite <- surjective_pairing. rewrite !elem_of_cons in Hin. destruct Hin as [->|[->|[]%not_elem_of_nil]]; auto.
Qed.

Lemma input_turn_ok client subject u :
  input_source_subject (ns_config state) (ns_roles state) = Ok subject ->
  safe (acked_after input_settled) (input_turn state client subject u).
Proof using jet_stream.
  intros Hsub. unfold input_turn. apply safe_bind; [apply mode_ok|]. intros [].
  - destruct (input_source_durable _ _ subject) as [d|e]; [|apply safe_Ret].
    assert (forall durable policy pre, always (acked_after input_settled) pre
      (let! next := next_message_inner client subject durable None policy in
       match next with
       | Ok (Some message) =>
           let! processed := process_input_message state client message in
           Ret match processed with Ok _ => inl tt | Err _ => inr None end
       | Ok None => do! pause 200 ;; Ret (inl tt)
       | Err _ => Ret (inr None)
       end : prog (unit + option string)) (fun _ _ => True)) as Hnext.
    { intros durable policy pre. apply fetch_ok; [done|by split|].
      intros before m. apply always_bind. by apply message_ok. }
    intros pre. unfold next_input. repeat case_match; apply Hnext.
  - apply safe_bind; [apply drain_input_ok|]. intros _. safe.
  - safe.
Qed.

Lemma pipeline_ok n : safe (acked_after input_settled) (run_input_pipeline state n).
Proof using jet_stream.
  unfold run_input_pipeline. rewrite not_core. unfold pipeline_turn. safe; by apply input_turn_ok.
Qed.

(** C27. Over JetStream the input worker acknowledges a message only when it is settled.  A message of the
    input subject: since it was fetched, the streams of all subjects it must reach (both of a
    duplicator, the one of a splitter that the percentage read for it selects) have confirmed it; when
    the observer has it, either the verifier was notified and, when the route is one that is registered,
    the operator has taken the registration, or every attempt to notify the verifier failed, and then
    nothing was registered: the message is acknowledged all the same.  A message a drain fetched from
    green or blue: the base subject's stream has confirmed it since.  Whatever fails, nothing is
    acknowledged earlier. *)
Theorem nats_input_acks (n : nat) (tr1 tr2 : trace) (m : jet_message) (r : result string unit)
    (res : option (result string unit)) :
  exec (run_input_pipeline state n) (tr1 ++ Ev (AInceptor (INats (NAck m))) r :: tr2) res ->
  exists before client subject durable timeout since,
    tr1 = before ++ Ev (AInceptor (INats (NFetch client (stream_name subject) durable timeout))) (Ok (Some m))
          :: since
    /\ ((input_source_subject (ns_config state) (ns_roles state) = Ok subject /\ timeout = None
         /\ message_settled m since)
        \/ (exists base green blue, input_drain_targets state = Ok (base, green, blue)
            /\ ((subject, durable) = green \/ (subject, durable) = blue) /\ timeout = Some 250
            /\ stored_in since base (jm_payload m))).
Proof using jet_stream. apply (safe_exec (acked_after input_settled)). apply pipeline_ok. Qed.

(** *** The combiner *)

Definition output_settled (source target subject durable : string) (timeout : option Z) (m : jet_message)
    (since : trace) : Prop :=
  subject = source /\ durable = combiner_durable source /\ stored_in since target (jm_payload m)
  /\ (timeout = Some 250
      \/ timeout = None /\ exists c, nc_combiner (ns_config state) = Some c
         /\ case_settled (body_of_bytes (jm_payload m)) (route_from_output_source c source) (http_calls since)).

Lemma output_only client source target body : only no_nats_ack (process_output state client source target body).
Proof using Type.
  unfold process_output. case_match; [|done]. apply only_bind_err; [apply publish_only|].
  intros; apply observe_only.
Qed.

Lemma output_settles client source target m tr :
  exec (process_output state client source target (jm_payload m)) tr (Ok tt) ->
  output_settled source target source (combiner_durable source) None m tr.
Proof using jet_stream.
  unfold process_output, combiner_config. destruct (nc_combiner (ns_config state)) as [c|] eqn:Ec; [|by intros [_ [=]]].
  cbn [ok_or]. intros (tr1 & tr2 & [] & -> & [Hp Ep]%publish_exec & Ho)%exec_bind_err.
  apply observe_exec in Ho; [|done]. split_and!; [done..|by apply stored_in_app_l|]. right. split; [done|].
  exists c. split; [done|]. by rewrite http_calls_app, Ep.
Qed.

Lemma combine_turn_ok source target u :
  safe (acked_after (output_settled source target)) (combine_turn state source target u).
Proof using jet_stream.
  unfold combine_turn. apply safe_bind; [apply mode_ok|]. intros mode. case_match; [safe|].
  apply safe_bind; [apply connect_ok_acks|]. intros [client|e]; [|safe].
  apply safe_bind; [apply mode_ok|]. intros mode'. case_match.
  - apply safe_bind; [|intros [|]; safe]. unfold drain_output_subject.
    apply safe_bind_err; [apply connect_ok_acks|]. intros client'.
    apply safe_bind_err; [|intros; apply safe_Ret]. apply move_ok. intros m since Hs.
    split_and!; [done..|]. by left.
  - intros pre. apply fetch_ok; [by split|by split|].
    intros before m. apply always_bind, always_bind.
    apply (always_exec _ no_nats_ack); [apply output_only|by intros; apply no_nats_ack_ok|].
    intros tr [[]|e] He; [|done]. rewrite <- app_assoc. cbn [app]. apply ack_ok; [|by intros].
    by apply (output_settles client).
Qed.

(** Over JetStream the combiner acknowledges an output message only after the stream of the output
    subject has confirmed it since it was fetched, and (in the active mode) its test case is settled:
    the verifier was notified and, when it took it and the route is one that is registered, the
    operator has taken the registration. *)
Theorem nats_combiner_acks (n : nat) (source target : string) (tr1 tr2 : trace) (m : jet_message)
    (r : result string unit) (res : option (result string unit)) :
  exec (run_combine_loop state n source target) (tr1 ++ Ev (AInceptor (INats (NAck m))) r :: tr2) res ->
  exists before client timeout since,
    tr1 = before ++ Ev (AInceptor (INats (NFetch client (stream_name source) (combiner_durable source) timeout)))
                       (Ok (Some m)) :: since
    /\ stored_in since target (jm_payload m)
    /\ (timeout = Some 250
        \/ timeout = None /\ exists c, nc_combiner (ns_config state) = Some c
           /\ case_settled (body_of_bytes (jm_payload m)) (route_from_output_source c source) (http_calls since)).
Proof using jet_stream.
  intros He. assert (safe (acked_after (output_settled source target)) (run_combine_loop state n source target)) as Hs.
  { unfold run_combine_loop. apply safe_loop. apply combine_turn_ok. }
  destruct (safe_exec _ _ _ _ _ _ Hs He) as (before & client & subject & durable & timeout & since & -> & -> & -> & Ht).
  by exists before, client, timeout, since.
Qed.
End Settled.

(** ** Moving messages on a server that works *)

(** A JetStream server with nobody else at it: what a subject's stream has stored, what a consumer has
    still to be handed (all of the stream when there is no such consumer yet), how many messages it
    was handed and has not acknowledged; and the mode of the inceptor. *)
Class JetServer := {
  server : Type;
  log : server -> string -> list string;
  backlog : server -> string -> string -> list string;
  unacked : server -> string -> string -> Z;
  server_mode : server -> Z;
  origin : jet_message -> string * string;
  serve_jet : forall act : action, server -> reply act * server }.

Definition unchanged `{JetServer} (b b' : server) : Prop :=
  (forall q, log b' q = log b q) /\ (forall s d, backlog b' s d = backlog b s d)
  /\ (forall s d, unacked b' s d = unacked b s d) /\ server_mode b' = server_mode b.
Definition answers_and_keeps `{JetServer} (act : action) (b : server) (answer : reply act -> Prop) : Prop :=
  answer (serve_jet act b).1 /\ unchanged b (serve_jet act b).2.

(** A subject is stored by its own stream only. *)
Class JetLaws `{JetServer} : Prop := {
  environment name b : answers_and_keeps (AEnv name) b (fun _ => True);
  connects_to url tls ca b : answers_and_keeps (AInceptor (INats (NConnect url tls ca))) b (fun r => is_ok r = true);
  has_stream client spec b : answers_and_keeps (AInceptor (INats (NStream client spec))) b (fun r => r = Ok tt);
  has_consumer client s d b :
    answers_and_keeps (AInceptor (INats (NConsumer client s d DeliverAll))) b (fun r => r = Ok tt);
  informs client s d b :
    answers_and_keeps (AInceptor (INats (NInfo client s d))) b
      (fun r => r = Ok (Z.of_nat (length (backlog b s d)), unacked b s d));
  has_mode b : answers_and_keeps (AInceptor LoadMode) b (fun r => r = server_mode b);
  fetches_nothing client subject d timeout b : backlog b (stream_name subject) d = [] ->
    answers_and_keeps (AInceptor (INats (NFetch client (stream_name subject) d timeout))) b (fun r => r = Ok None);
  fetches_first client subject d timeout b x xs : backlog b (stream_name subject) d = x :: xs ->
    let '(r, b') := serve_jet (AInceptor (INats (NFetch client (stream_name subject) d timeout))) b in
    (exists m, r = Ok (Some m) /\ jm_payload m = x /\ origin m = (stream_name subject, d))
    /\ (forall q, log b' q = log b q) /\ server_mode b' = server_mode b
    /\ (forall s' d', backlog b' s' d' = if decide ((s', d') = (stream_name subject, d)) then xs else backlog b s' d')
    /\ (forall s' d', unacked b' s' d' = unacked b s' d' + if decide ((s', d') = (stream_name subject, d)) then 1 else 0);
  stores client subject data b :
    let '(r, b') := serve_jet (AInceptor (INats (NPublish client subject data))) b in
    r = Ok tt /\ (forall q, log b' q = log b q ++ if decide (q = subject) then [data] else [])
    /\ server_mode b' = server_mode b
    /\ (forall s d, s <> stream_name subject -> backlog b' s d = backlog b s d)
    /\ (forall s d, unacked b' s d = unacked b s d);
  acknowledges m b :
    let '(r, b') := serve_jet (AInceptor (INats (NAck m))) b in
    r = Ok tt /\ (forall q, log b' q = log b q) /\ server_mode b' = server_mode b
    /\ (forall s d, backlog b' s d = backlog b s d)
    /\ (forall s d, unacked b' s d = unacked b s d - if decide ((s, d) = origin m) then 1 else 0) }.

Section Moves.
Context `{HS : JetServer} {HL : @JetLaws HS}.

Lemma unchanged_refl b : unchanged b b.
Proof. by split_and!. Qed.
Lemma unchanged_trans b b1 b2 : unchanged b b1 -> unchanged b1 b2 -> unchanged b b2.
Proof.
  intros (L & B & U & M) (L' & B' & U' & M'). unfold unchanged.
  split_and!; intros; by rewrite ?L', ?B', ?U', ?M'.
Qed.

(** A request that changes nothing. *)
Lemma runs_kept act b answer :
  answers_and_keeps act b answer -> exists r b', answer r /\ unchanged b b' /\ runs serve_jet (request act) b r b'.
Proof.
  intros [Ha Hu]. exists (serve_jet act b).1, (serve_jet act b).2. split_and!; [done..|]. apply runs_request.
  by destruct (serve_jet act b).
Qed.

(** What a move of [n] messages changes. *)
Definition moved_batch (b b' : server) (source target durable : string) (n : nat) : Prop :=
  (forall q, log b' q = log b q ++ if decide (q = target) then take n (backlog b (stream_name source) durable) else [])
  /\ (forall s d, s <> stream_name target ->
        backlog b' s d = if decide ((s, d) = (stream_name source, durable)) then drop n (backlog b s d) else backlog b s d)
  /\ (forall s d, unacked b' s d = unacked b s d) /\ server_mode b' = server_mode b.

Lemma consumer_runs client subject durable b :
  exists b', unchanged b b' /\ runs serve_jet (subject_consumer client subject durable DeliverAll) b (Ok tt) b'.
Proof.
  destruct (runs_kept _ b _ (has_stream client (default_stream subject) b)) as (r & b1 & -> & H1' & R1).
  destruct (runs_kept _ b1 _ (has_consumer client (stream_name subject) durable b1)) as (r & b2 & -> & H2' & R2).
  exists b2. split; [by eapply unchanged_trans|]. unfold subject_consumer, nats, cell. by eapply runs_bind_err.
Qed.

Lemma fetch_none client source durable b : backlog b (stream_name source) durable = [] ->
  exists b', unchanged b b' /\ runs serve_jet (next_message_for_drain client source durable) b (Ok None) b'.
Proof.
  intros E. destruct (consumer_runs client source durable b) as (b1 & H1' & R1).
  assert (backlog b1 (stream_name source) durable = []) as E1 by (rewrite <- E; apply H1').
  destruct (runs_kept _ b1 _ (fetches_nothing client source durable (Some 250) b1 E1)) as (r & b2 & -> & H2' & R2).
  exists b2. split; [by eapply unchanged_trans|]. by eapply runs_bind_err.
Qed.

(** The first message of a consumer, from the fetch to its acknowledgement. *)
Definition one_moved (b b' : server) (source target durable x : string) : Prop :=
  (forall q, log b' q = log b q ++ if decide (q = target) then [x] else [])
  /\ server_mode b' = server_mode b
  /\ (forall s d, s <> stream_name target ->
        backlog b' s d = if decide ((s, d) = (stream_name source, durable)) then tail (backlog b s d) else backlog b s d)
  /\ (forall s d, unacked b' s d = unacked b s d).

Lemma settle_one client source target durable b x xs :
  stream_name source <> stream_name target -> backlog b (stream_name source) durable = x :: xs ->
  exists m b1 b2 b', runs serve_jet (next_message_for_drain client source durable) b (Ok (Some m)) b1
  /\ runs serve_jet (publish client target (jm_payload m)) b1 (Ok tt) b2
  /\ runs serve_jet (nats (NAck m)) b2 (Ok tt) b' /\ one_moved b b' source target durable x.
Proof.
  intros Hne E. destruct (consumer_runs client source durable b) as (b0 & (L0 & B0 & U0 & M0) & R0).
  assert (backlog b0 (stream_name source) durable = x :: xs) as E0 by (rewrite <- E; apply B0).
  pose proof (fetches_first client source durable (Some 250) b0 x xs E0) as Hf.
  destruct (serve_jet (AInceptor (INats (NFetch client (stream_name source) durable (Some 250)))) b0) as [rf b1] eqn:Ef.
  destruct Hf as ((m & -> & Hm & Ho) & L1 & M1 & B1 & U1).
  pose proof (stores client target (jm_payload m) b1) as Hp.
  destruct (serve_jet (AInceptor (INats (NPublish client target (jm_payload m)))) b1) as [rp b2] eqn:Ep.
  destruct Hp as (-> & L2 & M2 & B2 & U2). pose proof (acknowledges m b2) as Ha.
  destruct (serve_jet (AInceptor (INats (NAck m))) b2) as [ra b3] eqn:Ea.
  destruct Ha as (-> & L3 & M3 & B3 & U3). exists m, b1, b2, b3. split_and!.
  - eapply runs_bind_err; [exact R0|]. exact (runs_request _ _ _ _ _ Ef).
  - exact (runs_request _ _ _ _ _ Ep).
  - exact (runs_request _ _ _ _ _ Ea).
  - unfold one_moved. split_and!.
    + intros q. by rewrite L3, L2, L1, L0, Hm.
    + by rewrite M3, M2, M1, M0.
    + intros s d Hs. rewrite B3, B2, B1, B0 by done. case_decide as Hsd; [|done]. injection Hsd as -> ->. by rewrite E.
    + intros s d. rewrite U3, U2, U1, U0, Ho. lia.
Qed.

Lemma move_runs max client source target durable : stream_name source <> stream_name target ->
  forall b count, 0 <= count -> count + Z.of_nat max < 2 ^ 64 ->
  exists b', moved_batch b b' source target durable max
  /\ runs serve_jet (move_messages max client source target durable count) b
       (Ok (count + Z.of_nat (Nat.min max (length (backlog b (stream_name source) durable))))) b'.
Proof.
  intros Hne. induction max as [|max IH]; intros b count H0' Hb.
  { exists b. split; [|rewrite Nat.min_0_l, Z.add_0_r; apply runs_Ret]. unfold moved_batch.
    split_and!; [|by intros; case_decide|done..]. intros q. by case_decide; rewrite app_nil_r. }
  cbn [move_messages]. destruct (backlog b (stream_name source) durable) as [|x xs] eqn:E.
  - destruct (fetch_none client source durable b E) as (b' & (L & B & U & M) & R). exists b'. split.
    + unfold moved_batch. rewrite E. split_and!; [| |done..].
      * intros q. rewrite L. by case_decide; rewrite app_nil_r.
      * intros s d _. rewrite B. case_decide as Hsd; [|done]. injection Hsd as -> ->. by rewrite E.
    + cbn [length]. rewrite Nat.min_0_r, Z.add_0_r. eapply runs_bind_err; [exact R|]. apply runs_Ret.
  - destruct (settle_one client source target durable b x xs Hne E) as (m & b1 & b2 & b3 & R1 & R2 & R3 & L & M & B & U).
    assert (wrap_u64 (count + 1) = count + 1) as Hw by (unfold wrap_u64; apply Z.mod_small; lia).
    assert (backlog b3 (stream_name source) durable = xs) as E3.
    { rewrite B by done. rewrite decide_True by done. by rewrite E. }
    destruct (IH b3 (count + 1)) as (b' & (L' & B' & U' & M') & R'); [lia..|]. rewrite E3 in L', R'. exists b'. split.
    + unfold moved_batch. rewrite E. split_and!.
      * intros q. rewrite L', L. case_decide; [|by rewrite !app_nil_r]. by rewrite <- app_assoc.
      * intros s d Hs. rewrite B', B by done. case_decide as Hsd; [|done]. by destruct (backlog b s d); [destruct max|].
      * intros s d. by rewrite U', U.
      * by rewrite M', M.
    + eapply runs_bind_err; [exact R1|]. eapply runs_bind_err; [exact R2|]. eapply runs_bind_err; [exact R3|].
      rewrite Hw. cbn [length]. rewrite <- Nat.succ_min_distr, Nat2Z.inj_succ.
      replace (count + Z.succ (Z.of_nat (Nat.min max (length xs)))) with (count + 1 + Z.of_nat (Nat.min max (length xs))) by lia.
      exact R'.
Qed.

(** On a server that works and with nobody else at the consumer, a move takes a batch: it ends, and
    the first [max] messages the consumer had still to be handed (all when there are fewer) are
    stored in the target, after what it had and in their order; the consumer has the others still to
    be handed, none is left unacknowledged, nothing else is stored, and the number is reported. *)
Theorem nats_move_batch (client : Z) (source target durable : string) (max : nat) (b : server) :
  stream_name source <> stream_name target -> Z.of_nat max < 2 ^ 64 ->
  exists tr b', run serve_jet (move_subject_messages client source target durable max) b
    = (Ok (Z.of_nat (Nat.min max (length (backlog b (stream_name source) durable)))), tr, b')
  /\ log b' target = log b target ++ take max (backlog b (stream_name source) durable)
  /\ backlog b' (stream_name source) durable = drop max (backlog b (stream_name source) durable)
  /\ unacked b' (stream_name source) durable = unacked b (stream_name source) durable
  /\ forall q, q <> target -> log b' q = log b q.
Proof.
  intros Hne Hmax. destruct (move_runs max client source target durable Hne b 0) as (b' & (L & B & U & M) & [tr R]);
    [lia..|]. exists tr, b'. rewrite Z.add_0_l in R. split_and!; [exact R| | |apply U|].
  - rewrite L. by rewrite decide_True.
  - rewrite B by done. by rewrite decide_True.
  - intros q Hq. rewrite L. rewrite decide_False by done. apply app_nil_r.
Qed.

(** *** A drain *)

Lemma connect_runs url b : exists c b', unchanged b b' /\ runs serve_jet (connect url) b (Ok c) b'.
Proof.
  destruct (runs_kept _ b _ (environment "FLUIDBG_NATS_REQUIRE_TLS" b)) as (v & b1 & _ & H1' & R1).
  destruct (runs_kept _ b1 _ (environment "FLUIDBG_NATS_CA_CERT_PATH" b1)) as (w & b2 & _ & H2' & R2).
  destruct (runs_kept _ b2 _ (connects_to url (flag_is_set v) (non_empty w) b2)) as (r & b3 & Hok & H3' & R3).
  destruct r as [c|e]; [|discriminate Hok]. exists c, b3. split; [eauto using unchanged_trans|].
  unfold connect, env_flag, optional_env, env. eapply runs_bind; [eapply runs_bind; [exact R1|apply runs_Ret]|].
  eapply runs_bind; [eapply runs_bind; [exact R2|apply runs_Ret]|]. exact R3.
Qed.

Lemma backlog_runs client subject durable b :
  exists b', unchanged b b' /\ runs serve_jet (consumer_backlog client subject durable) b
    (Ok {| bl_pending := Z.of_nat (length (backlog b (stream_name subject) durable));
           bl_ack_pending := unacked b (stream_name subject) durable |}) b'.
Proof.
  destruct (consumer_runs client subject durable b) as (b1 & H1' & R1).
  destruct (runs_kept _ b1 _ (informs client (stream_name subject) durable b1)) as (r & b2 & -> & H2' & R2).
  exists b2. split; [by eapply unchanged_trans|]. destruct H1' as (_ & B & U & _).
  eapply runs_bind_err; [exact R1|]. eapply runs_bind_err; [exact R2|]. cbn [fst snd]. rewrite B, U. apply runs_Ret.
Qed.

Section Drain.
Context `{Regexes, JsonText}.
Context (state : NatsState) (jet_stream : nc_mode (ns_config state) = JetStream).
Context (base green gd blue bd : string).
Context (input_role : (active state Duplicator || active state Splitter)%bool = true).
Context (targets : input_drain_targets state = Ok (base, (green, gd), (blue, bd))).
Context (different : NoDup [stream_name base; stream_name green; stream_name blue]).

Lemma drain_runs b :
  (length (backlog b (stream_name green) gd) <= DRAIN_BATCH)%nat ->
  (length (backlog b (stream_name blue) bd) <= DRAIN_BATCH)%nat ->
  exists b', runs serve_jet (drain_input_subjects state) b (Ok tt) b'
  /\ log b' base = log b base ++ backlog b (stream_name green) gd ++ backlog b (stream_name blue) bd
  /\ backlog b' (stream_name green) gd = [] /\ backlog b' (stream_name blue) bd = []
  /\ (forall s d, unacked b' s d = unacked b s d) /\ server_mode b' = server_mode b.
Proof using jet_stream input_role targets different HL.
  intros Hg Hb. destruct (connect_runs (ns_nats_url state) b) as (c & b0 & (L0 & B0 & U0 & M0) & R0).
  assert (Z.of_nat DRAIN_BATCH < 2 ^ 64) as Hbatch by (unfold DRAIN_BATCH; lia). all_different.
  destruct (move_runs DRAIN_BATCH c green base gd ltac:(congruence) b0 0) as (b1 & (L1 & B1 & U1 & M1) & R1); [lia..|].
  destruct (move_runs DRAIN_BATCH c blue base bd ltac:(congruence) b1 0) as (b2 & (L2 & B2 & U2 & M2) & R2); [lia..|].
  rewrite (B0 (stream_name green)) in L1.
  assert (backlog b1 (stream_name blue) bd = backlog b (stream_name blue) bd) as Eb.
  { rewrite B1, decide_False, B0 by congruence. done. }
  assert (backlog b1 (stream_name green) gd = []) as Eg.
  { rewrite B1, decide_True, B0 by congruence. by apply drop_ge. }
  rewrite Eb in L2. exists b2. split_and!.
  - unfold drain_input_subjects. rewrite (not_core state jet_stream), targets.
    destruct (negb (active state Duplicator) && negb (active state Splitter))%bool eqn:En.
    { exfalso. revert input_role En. by destruct (active state Duplicator), (active state Splitter). }
    eapply runs_bind_err; [exact R0|]. cbn [each].
    eapply runs_bind_err; [eapply runs_bind_err; [exact R1|apply runs_Ret]|].
    eapply runs_bind_err; [eapply runs_bind_err; [exact R2|apply runs_Ret]|apply runs_Ret].
  - rewrite L2, L1, L0, !decide_True by done. rewrite !take_ge by done. by rewrite app_assoc.
  - rewrite B2, decide_False by congruence. exact Eg.
  - rewrite B2, decide_True, Eb by congruence. by apply drop_ge.
  - intros s d. by rewrite U2, U1, U0.
  - by rewrite M2, M1, M0.
Qed.

(** C29. A drain comes to its end: on a server that works, once no application holds a message of green or
    blue unacknowledged and neither has more than a batch still to be handed out, the next drain
    status of a draining input inceptor moves the rest back to the base subject, all of it and in
    order, and reports that it has drained. *)
Theorem nats_drain_completes (b : server) :
  active state Combiner = false -> from_u8 (server_mode b) = Draining ->
  (length (backlog b (stream_name green) gd) <= DRAIN_BATCH)%nat ->
  (length (backlog b (stream_name blue) bd) <= DRAIN_BATCH)%nat ->
  unacked b (stream_name green) gd = 0 -> unacked b (stream_name blue) bd = 0 ->
  exists tr b' s, run serve_jet (compute_drain_status state) b = (Ok s, tr, b') /\ pds_drained s = true
  /\ log b' base = log b base ++ backlog b (stream_name green) gd ++ backlog b (stream_name blue) bd
  /\ backlog b' (stream_name green) gd = [] /\ backlog b' (stream_name blue) bd = [].
Proof using jet_stream input_role targets different HL.
  intros Hc Hm Hg Hb Ug Ub. destruct (runs_kept _ b _ (has_mode b)) as (m & b0 & -> & (L0 & B0 & U0 & M0) & R0).
  destruct (drain_runs b0) as (b1 & R1 & L1 & G1 & K1 & U1 & M1); [by rewrite B0..|].
  destruct (connect_runs (ns_nats_url state) b1) as (c & b2 & (L2 & B2 & U2 & M2) & R2).
  destruct (backlog_runs c green gd b2) as (b3 & (L3 & B3 & U3 & M3) & R3).
  destruct (backlog_runs c blue bd b3) as (b4 & (L4 & B4 & U4 & M4) & R4).
  rewrite B2, G1, U2, U1, U0, Ug in R3. rewrite B3, B2, K1, U3, U2, U1, U0, Ub in R4.
  assert (runs serve_jet (compute_drain_status state) b
    (Ok {| pds_drained := true; pds_message := Some "temporary NATS consumers have no pending messages" |}) b4) as [tr R].
  { unfold compute_drain_status. rewrite (not_core state jet_stream).
    eapply runs_bind; [eapply runs_bind; [exact R0|apply runs_Ret]|]. rewrite Hm, bool_decide_true by done.
    eapply runs_bind_err.
    { eapply runs_bind_err; [exact R1|]. unfold drain_output_subjects. rewrite (not_core state jet_stream), Hc.
      apply runs_Ret. }
    eapply runs_bind_err; [exact R2|]. unfold drain_backlog_targets, append, of_role.
    rewrite input_role, targets, Hc. cbn [mbind result_bind app].
    eapply (runs_bind_err _ _ _ _ (0, 0) b4); [|apply runs_Ret]. cbn [sum_backlogs].
    eapply runs_bind_err; [exact R3|]. eapply runs_bind_err; [exact R4|]. apply runs_Ret. }
  eexists tr, b4, _. split_and!; [exact R|done| | |].
  - by rewrite L4, L3, L2, L1, L0, !B0.
  - by rewrite B4, B3, B2, G1.
  - by rewrite B4, B3, B2, K1.
Qed.
End Drain.
End Moves.

(** ** What a drain report says *)

Section Report.
Context `{Regexes, JsonText}.
Context (state : NatsState) (jet_stream : nc_mode (ns_config state) = JetStream).

Definition info_of (tr : trace) (subject durable : string) (pending ack_pending : Z) : Prop :=
  exists client, Ev (AInceptor (INats (NInfo client (stream_name subject) durable))) (Ok (pending, ack_pending)) ∈ tr.
(** Counts far from the end of their range. *)
Definition counts_fit (tr : trace) : Prop :=
  forall client stream durable p a,
    Ev (AInceptor (INats (NInfo client stream durable))) (Ok (p, a)) ∈ tr -> 0 <= p < 2 ^ 60 /\ 0 <= a < 2 ^ 60.

Lemma info_of_app_l tr tr' s d p a : info_of tr s d p a -> info_of (tr ++ tr') s d p a.
Proof. intros [c Hin]. exists c. apply elem_of_app. by left. Qed.
Lemma info_of_app_r tr tr' s d p a : info_of tr' s d p a -> info_of (tr ++ tr') s d p a.
Proof. intros [c Hin]. exists c. apply elem_of_app. by right. Qed.

Lemma consumer_backlog_exec client subject durable tr backlog :
  exec (consumer_backlog client subject durable) tr (Ok backlog) ->
  info_of tr subject durable (bl_pending backlog) (bl_ack_pending backlog).
Proof.
  unfold consumer_backlog. intros (tr1 & tr2 & [] & -> & _ & He)%exec_bind_err.
  unfold nats, cell in He. apply exec_bind_err in He as (tr3 & tr4 & [p a] & -> & Hi & [-> [= ->]]).
  apply info_of_app_r. rewrite app_nil_r. destruct tr3 as [|e [|]]; cbn in Hi; try done; destruct Hi as (r & -> & Hi);
    [|by destruct Hi]. destruct Hi as [_ <-]. exists client. left.
Qed.

Lemma sums_exec client targets : forall r a tr R A,
  0 <= r -> 0 <= a -> r + 2 ^ 60 * Z.of_nat (length targets) <= 2 ^ 63 ->
  a + 2 ^ 60 * Z.of_nat (length targets) <= 2 ^ 63 -> counts_fit tr ->
  exec (sum_backlogs client targets r a) tr (Ok (R, A)) ->
  r <= R /\ a <= A /\ (R = 0 -> A = 0 -> forall t, t ∈ targets -> info_of tr t.1 t.2 0 0).
Proof.
  induction targets as [|[subject durable] targets IH]; intros r a tr R A Hr Ha Hrb Hab Hf; cbn [sum_backlogs].
  - intros [_ [= -> ->]]. split_and!; [lia..|]. by intros _ _ t ?%not_elem_of_nil.
  - intros (tr1 & tr2 & backlog & -> & Hi%consumer_backlog_exec & He)%exec_bind_err.
    assert (0 <= bl_pending backlog < 2 ^ 60 /\ 0 <= bl_ack_pending backlog < 2 ^ 60) as [Hp Hq].
    { destruct Hi as [c Hin]. apply (Hf c (stream_name subject) durable). apply elem_of_app. by left. }
    cbn [length] in Hrb, Hab. unfold wrap_u64 in He. rewrite !Z.mod_small in He by lia.
    apply IH in He as (HR & HA & Hall); [|lia..|by intros c s d p q Hin; eapply Hf, elem_of_app; right].
    split_and!; [lia..|]. intros -> -> t [->|Ht]%elem_of_cons; [|by apply info_of_app_r, Hall]. cbn [fst snd].
    apply info_of_app_l. by replace (bl_pending backlog) with 0 in Hi by lia;
      replace (bl_ack_pending backlog) with 0 in Hi by lia.
Qed.

Lemma targets_bounded targets : drain_backlog_targets state = Ok targets -> (length targets <= 4)%nat.
Proof using Type.
  unfold drain_backlog_targets, append, of_role, output_pair.
  intros (l & Hl & (l' & Hl' & [= <-])%result_bind_ok)%result_bind_ok. rewrite length_app.
  assert (length l <= 2)%nat.
  { destruct (active state Duplicator || active state Splitter)%bool; [|by injection Hl as <-; cbn; lia].
    apply result_bind_ok in Hl as ([[b g] bl] & _ & [= <-]). cbn. lia. }
  assert (length l' <= 2)%nat; [|lia].
  destruct (active state Combiner); [|injection Hl' as <-; cbn; lia].
  apply result_bind_ok in Hl' as (c & _ & Hl'). apply result_bind_ok in Hl' as (subjects & Hs & [= <-]).
  apply result_bind_ok in Hs as (g & _ & (bl & _ & [= <-])%result_bind_ok). cbn. lia.
Qed.

(** The consumers of temporary subjects, from the configuration: the subjects of green and blue of the
    input (of the duplicator, where that role is active), each read by the application in its queue group
    and drained, where there is no group, by a consumer of the plugin's own; and the output subjects of
    green and blue, read by the combiner. *)
Definition read_in_group (own group : option string) (subject : string) : string :=
  match own with
  | Some g => stream_name (g +:+ "_" +:+ subject)
  | None => match group with
            | Some g => stream_name (g +:+ "_" +:+ subject)
            | None => stream_name ("drain_" +:+ subject)
            end
  end.
Inductive input_consumer (c : InputConfig) : string -> string -> Prop :=
| green_input subject : ic_green_subject c = Some subject ->
    input_consumer c subject (read_in_group (ic_green_group c) (ic_queue_group c) subject)
| blue_input subject : ic_blue_subject c = Some subject ->
    input_consumer c subject (read_in_group (ic_blue_group c) (ic_queue_group c) subject).
Inductive temporary_consumer : string -> string -> Prop :=
| of_duplicator c subject durable : Duplicator ∈ ns_roles state -> nc_duplicator (ns_config state) = Some c ->
    input_consumer c subject durable -> temporary_consumer subject durable
| of_splitter c subject durable : Duplicator ∉ ns_roles state -> Splitter ∈ ns_roles state ->
    nc_splitter (ns_config state) = Some c -> input_consumer c subject durable -> temporary_consumer subject durable
| of_green_output c subject : Combiner ∈ ns_roles state -> nc_combiner (ns_config state) = Some c ->
    oc_green_subject c = Some subject -> temporary_consumer subject (stream_name ("combiner_" +:+ subject))
| of_blue_output c subject : Combiner ∈ ns_roles state -> nc_combiner (ns_config state) = Some c ->
    oc_blue_subject c = Some subject -> temporary_consumer subject (stream_name ("combiner_" +:+ subject)).

Lemma active_spec r : active state r = true <-> r ∈ ns_roles state.
Proof using Type.
  unfold active, has_role, has_role_in. rewrite existsb_exists. split.
  - intros (r' & Hin & E%bool_decide_eq_true). subst r'. by apply list_elem_of_In.
  - intros Hin. exists r. split; [by apply list_elem_of_In|]. by apply bool_decide_eq_true.
Qed.
Lemma input_targets_listed block c base green blue subject durable :
  drain_targets_of block c = Ok (base, green, blue) -> input_consumer c subject durable ->
  (subject, durable) ∈ [green; blue].
Proof using Type.
  unfold drain_targets_of, required. intros (b & _ & (g & Hg & (bl & Hb & [= <- <- <-])%result_bind_ok)%result_bind_ok)%result_bind_ok.
  assert (forall own group s, input_consumer_durable (or_else own group) s = read_in_group own group s) as Er
    by by intros [] [].
  intros [s Hs|s Hs]; rewrite Hs in *; [injection Hg as <-; rewrite Er; left|injection Hb as <-; rewrite !Er; right; left].
Qed.
Lemma consumers_listed targets subject durable :
  drain_backlog_targets state = Ok targets -> temporary_consumer subject durable -> (subject, durable) ∈ targets.
Proof using Type.
  unfold drain_backlog_targets, append, of_role, output_pair, input_drain_targets.
  intros (l & Hl & (l' & Hl' & [= <-])%result_bind_ok)%result_bind_ok Hc.
  destruct Hc as [c s d Hr Hb Hi|c s d Hnr Hr Hb Hi|c s Hr Hb Hs|c s Hr Hb Hs]; apply elem_of_app; [left|left|right|right].
  - apply active_spec in Hr. rewrite Hr in Hl. cbn [orb] in Hl. unfold duplicator_config in Hl. rewrite Hb in Hl.
    apply result_bind_ok in Hl as ([[b g] bl] & Ht & [= <-]). cbn [ok_or mbind result_bind] in Ht.
    by eapply input_targets_listed.
  - assert (active state Duplicator = false) as Hd by (apply not_true_is_false; by rewrite active_spec).
    apply active_spec in Hr. rewrite Hd, Hr in Hl. cbn [orb] in Hl. unfold splitter_config in Hl. rewrite Hb in Hl.
    apply result_bind_ok in Hl as ([[b g] bl] & Ht & [= <-]). cbn [ok_or mbind result_bind] in Ht.
    by eapply input_targets_listed.
  - apply active_spec in Hr. rewrite Hr in Hl'. unfold combiner_config in Hl'. rewrite Hb in Hl'. cbn [ok_or mbind result_bind] in Hl'.
    apply result_bind_ok in Hl' as (subjects & Ho & [= <-]). unfold required in Ho. rewrite Hs in Ho.
    cbn [ok_or mbind result_bind] in Ho. apply result_bind_ok in Ho as (bl & _ & [= <-]). left.
  - apply active_spec in Hr. rewrite Hr in Hl'. unfold combiner_config in Hl'. rewrite Hb in Hl'. cbn [ok_or mbind result_bind] in Hl'.
    apply result_bind_ok in Hl' as (subjects & Ho & [= <-]). unfold required in Ho. rewrite Hs in Ho.
    apply result_bind_ok in Ho as (g & _ & Ho). injection Ho as <-. right. left.
Qed.

(** C28. A drain is reported only when it is over: over JetStream a drain status of drained has, since the
    request came in, asked every consumer of a temporary subject of an active role (the subjects of green
    and blue of the input with the queue group the application reads them in, or the plugin's own consumer
    where there is none, and the output subjects with the combiner's), and each has answered that it has
    nothing pending and nothing unacknowledged.  The counts answered are below 2^60, so their sum does not
    wrap around. *)
Theorem nats_drained_means_empty (tr : trace) (s : PluginDrainStatusResponse) :
  exec (compute_drain_status state) tr (Ok s) -> pds_drained s = true -> counts_fit tr ->
  forall subject durable, temporary_consumer subject durable -> info_of tr subject durable 0 0.
Proof using jet_stream.
  unfold compute_drain_status. rewrite (not_core state jet_stream).
  intros (tr1 & tr2 & mode & -> & _ & He)%exec_bind Hd Hf.
  apply exec_bind_err in He as (tr3 & tr4 & [] & -> & _ & He).
  apply exec_bind_err in He as (tr5 & tr6 & client & -> & _ & He).
  destruct (drain_backlog_targets state) as [targets|e] eqn:Et; [|by destruct He].
  apply exec_bind_err in He as (tr7 & tr8 & [R A] & -> & Hs & [-> [= ->]]). cbn [pds_drained] in Hd.
  apply andb_true_iff in Hd as [->%Z.eqb_eq ->%Z.eqb_eq].
  intros subject durable Hin%(consumers_listed targets); [|done]. apply targets_bounded in Et.
  eapply sums_exec in Hs as (_ & _ & Hall); [|lia..|].
  - do 3 apply info_of_app_r. rewrite app_nil_r. by apply (Hall eq_refl eq_refl (subject, durable)).
  - intros c st d p a Hi. eapply Hf. rewrite !elem_of_app. eauto 8.
Qed.
End Report.
