(* ===== verification/NatsServer.v ===== *)
(** * A JetStream server in memory

    The laws of [JetServer] hold of a concrete server, and the theorems of [NatsTheorems] at
    concrete inceptors that talk to it. *)

From S2P Require Import Prelude RustString Float64 Kube Crd StateStore InceptorEffects Effects.
From S2P Require Import World External Promotion Status Names SipHash Auth Plugins Sdk.
From S2P Require Import SdkNames JsonDecode HttpPlugin QueuePlugins Nats NatsWorkers NatsLifecycle.
From S2P Require Import Footprint Outcomes HttpPluginTheorems QueueTheorems NatsTheorems.

(** What the streams have stored, what each consumer has still to be handed, what it has not
    acknowledged. *)
Record jet_memory := {
  jet_log : string -> list string;
  jet_backlog : string -> string -> list string;
  jet_unacked : string -> string -> Z;
  jet_mode : Z }.

Definition reply_of (stream durable : string) : string := stream +:+ " " +:+ durable.
Definition origin_of (m : jet_message) : string * string := unwrap_or ("", "") (split_once " " (jm_reply m)).

Definition count_unacked (b : jet_memory) (at_consumer : string * string) (d : Z) : string -> string -> Z :=
  fun s' d' => jet_unacked b s' d' + if decide ((s', d') = at_consumer) then d else 0.

Definition jet_nats (op : nats_op) (b : jet_memory) : nats_reply op * jet_memory :=
  match op as o return nats_reply o * jet_memory with
  | NFetch _ stream durable _ =>
      match jet_backlog b stream durable with
      | [] => (Ok None, b)
      | x :: xs =>
          (Ok (Some {| jm_reply := reply_of stream durable; jm_payload := x |}),
           {| jet_log := jet_log b;
              jet_backlog s d := if decide ((s, d) = (stream, durable)) then xs else jet_backlog b s d;
              jet_unacked := count_unacked b (stream, durable) 1; jet_mode := jet_mode b |})
      end
  | NPublish _ subject data =>
      (Ok tt,
       {| jet_log q := jet_log b q ++ if decide (q = subject) then [data] else [];
          jet_backlog s d := if decide (s = stream_name subject) then jet_backlog b s d ++ [data] else jet_backlog b s d;
          jet_unacked := jet_unacked b; jet_mode := jet_mode b |})
  | NAck m =>
      (Ok tt,
       {| jet_log := jet_log b; jet_backlog := jet_backlog b; jet_unacked := count_unacked b (origin_of m) (-1);
          jet_mode := jet_mode b |})
  | NInfo _ stream durable =>
      (Ok (Z.of_nat (length (jet_backlog b stream durable)), jet_unacked b stream durable), b)
  | NConnect _ _ _ => (Ok 1, b)
  | NSubscribe _ _ _ => (Ok 1, b)
  | NPublishCore _ _ _ => (Ok tt, b)
  | NFlush _ => (Ok tt, b)
  | NNext _ _ => (CoreTimeout, b)
  | NStream _ _ => (Ok tt, b)
  | NDeleteStream _ _ => (Ok tt, b)
  | NConsumer _ _ _ _ => (Ok tt, b)
  | NStreamNames _ => (Ok ["fbg_fluidbg-left-behind_0011223344556677"; "fbg_orders_0011223344556677"], b)
  end.
Definition jet_serve (act : action) (b : jet_memory) : reply act * jet_memory :=
  match act as a return reply a * jet_memory with
  | AInceptor (INats op) => jet_nats op b
  | AInceptor LoadMode => (jet_mode b, b)
  | AInceptor LoadPercent => (100, b)
  | AInceptor (ICall _) => (Ok good_response, b)
  | a => ((serve a empty_world).1, b)
  end.
Definition memory_server : JetServer :=
  {| server := jet_memory; log := jet_log; backlog := jet_backlog; unacked := jet_unacked;
     server_mode := jet_mode; origin := origin_of; serve_jet := jet_serve |}.

Lemma no_space s : all_bytes stream_char s = true -> contains " " s = false.
Proof.
  unfold all_bytes, contains. intros Ha. apply not_true_is_false. intros (c & Hin & Hc%Ascii.eqb_eq)%existsb_exists.
  rewrite forallb_forall in Ha. apply Ha in Hin. by subst c.
Qed.
Lemma origin_reply subject d x :
  origin_of {| jm_reply := reply_of (stream_name subject) d; jm_payload := x |} = (stream_name subject, d).
Proof.
  unfold origin_of, reply_of. cbn [jm_reply]. change (" " +:+ d) with (String " " d). rewrite split_once_app; [done|].
  apply no_space, stream_name_chars.
Qed.

Lemma memory_server_laws : @JetLaws memory_server.
Proof.
  split; try (intros; by split_and!); unfold answers_and_keeps, unchanged; cbn.
  - intros client subject d timeout b E. by rewrite E.
  - intros client subject d timeout b x xs E. rewrite E. cbn. split_and!; [|done..].
    eexists. split_and!; [done|done|apply origin_reply].
  - intros client subject data b. split_and!; [done..| |done]. intros s d Hne. cbn. by rewrite decide_False.
  - intros m b. split_and!; [done..|]. intros s d. unfold count_unacked. case_decide; lia.
Qed.

Definition jet_of (mode : RuntimeMode) (logs backlogs : list (string * list string)) : jet_memory :=
  {| jet_log q := default [] ((list_to_map logs : gmap string (list string)) !! q);
     jet_backlog s d := default [] ((list_to_map backlogs : gmap string (list string)) !! reply_of s d);
     jet_unacked _ _ := 0; jet_mode := mode_code mode |}.

(** ** Concrete inceptors *)

Definition work_subjects : InputConfig :=
  {| ic_input_subject := Some "orders"; ic_queue_group := Some "workers"; ic_green_subject := Some "orders.green";
     ic_blue_subject := Some "orders.blue"; ic_green_subject_env := None; ic_blue_subject_env := None;
     ic_green_group := None; ic_blue_group := None; ic_green_group_env := None; ic_blue_group_env := None;
     ic_identifier := None |}.
Definition result_subjects : OutputConfig :=
  {| oc_output_subject := Some "results"; oc_green_subject := Some "results.green";
     oc_blue_subject := Some "results.blue"; oc_green_subject_env := None; oc_blue_subject_env := None;
     oc_identifier := None |}.
(** Every message is a case with a fixed name. *)
Definition any_case : ObserverConfig :=
  {| ob_test_id := Some {| tis_value := Some "case-1"; tis_field := None; tis_json_path := None;
                            tis_path_segment := None |}; ob_match := [];
     ob_notify_path := Some "/notify" |}.
Definition sample_nats (roles : list PluginRole) : NatsState :=
  {| ns_config :=
       {| nc_mode := JetStream; nc_stream := default_stream_config; nc_duplicator := Some work_subjects;
          nc_splitter := Some work_subjects; nc_combiner := Some result_subjects; nc_writer := None;
          nc_consumer := None; nc_observer := Some any_case |};
     ns_roles := roles; ns_nats_url := "nats://nats"; ns_runtime := sample_runtime roles |}.

Definition workers_durable (subject : string) : string := queue_group_durable "workers" subject.
Definition at_worker (subject : string) : string := reply_of (stream_name subject) (workers_durable subject).

Definition nats_acked_at (tr : trace) (i : nat) : option jet_message :=
  match tr !! i with Some (Ev (AInceptor (INats (NAck m))) _) => Some m | _ => None end.

(** The duplicator, which observes too, takes one message. *)
Definition jet_duplicating : option (result string unit) * trace * jet_memory :=
  run jet_serve (@run_input_pipeline no_regexes no_json_text (sample_nats [Duplicator; Observer]) 1)
    (jet_of Active [] [(at_worker "orders", ["1"])]).

Definition jet_combining : option (result string unit) * trace * jet_memory :=
  run jet_serve (@run_combine_loop no_regexes no_json_text (sample_nats [Combiner; Observer]) 1 "results.blue" "results")
    (jet_of Active [] [(reply_of (stream_name "results.blue") (combiner_durable "results.blue"), ["1"])]).
(** The message acknowledged at a position was fetched before it, and settled since. *)
Lemma nats_input_acks_witness :
  exists m before client subject durable timeout since, nats_acked_at jet_duplicating.1.2 13 = Some m
  /\ jm_payload m = "1"
  /\ take 13 jet_duplicating.1.2
     = before ++ Ev (AInceptor (INats (NFetch client (stream_name subject) durable timeout))) (Ok (Some m)) :: since
  /\ @input_settled no_regexes no_json_text (sample_nats [Duplicator; Observer]) subject durable timeout m since.
Proof.
  destruct (jet_duplicating.1.2 !! 13%nat) as [e|] eqn:E; [|vm_compute in E; discriminate].
  pose proof (run_exec jet_serve (@run_input_pipeline no_regexes no_json_text (sample_nats [Duplicator; Observer]) 1)
    (jet_of Active [] [(at_worker "orders", ["1"])])) as He.
  fold jet_duplicating in He. rewrite <- (take_drop_middle _ _ _ E) in He at 1.
  unfold nats_acked_at. rewrite E. vm_compute in E. injection E as <-.
  destruct (@nats_input_acks no_regexes no_json_text (sample_nats [Duplicator; Observer]) eq_refl _ _ _ _ _ _ He)
    as (before & client & subject & durable & timeout & since & Et & Hs).
  eexists _, before, client, subject, durable, timeout, since. split_and!; [reflexivity|reflexivity|exact Et|exact Hs].
Defined.

Lemma nats_combiner_acks_witness :
  exists m before client timeout since, nats_acked_at jet_combining.1.2 12 = Some m
  /\ take 12 jet_combining.1.2
     = before ++ Ev (AInceptor (INats (NFetch client (stream_name "results.blue") (combiner_durable "results.blue")
                                         timeout))) (Ok (Some m)) :: since
  /\ stored_in since "results" (jm_payload m).
Proof.
  destruct (jet_combining.1.2 !! 12%nat) as [e|] eqn:E; [|vm_compute in E; discriminate].
  pose proof (run_exec jet_serve (@run_combine_loop no_regexes no_json_text (sample_nats [Combiner; Observer]) 1
    "results.blue" "results")
    (jet_of Active [] [(reply_of (stream_name "results.blue") (combiner_durable "results.blue"), ["1"])])) as He.
  fold jet_combining in He. rewrite <- (take_drop_middle _ _ _ E) in He at 1.
  unfold nats_acked_at. rewrite E. vm_compute in E. injection E as <-.
  destruct (@nats_combiner_acks no_regexes no_json_text (sample_nats [Combiner; Observer]) eq_refl _ _ _ _ _ _ _ _ He)
    as (before & client & timeout & since & Et & Hs & _).
  eexists _, before, client, timeout, since. split_and!; [reflexivity|exact Et|exact Hs].
Defined.

Definition three_left : jet_memory :=
  jet_of Draining [("orders", ["0"])]
    [(at_worker "orders.green", ["1"; "2"]); (at_worker "orders.blue", ["3"])].

Lemma nats_move_batch_witness :
  exists tr b', run jet_serve (move_subject_messages 1 "orders.green" "orders" (workers_durable "orders.green") 1)
    three_left = (Ok 1, tr, b')
  /\ jet_log b' "orders" = ["0"; "1"]
  /\ jet_backlog b' (stream_name "orders.green") (workers_durable "orders.green") = ["2"].
Proof.
  destruct (@nats_move_batch memory_server memory_server_laws 1 "orders.green" "orders"
    (workers_durable "orders.green") 1 three_left) as (tr & b' & Er & Hl & Hb & _);
    [vm_compute; discriminate|lia|].
  exists tr, b'. split_and!; [exact Er|exact Hl|exact Hb].
Defined.

Lemma batch_fits (l : list string) : (length l <= 100)%nat -> (length l <= DRAIN_BATCH)%nat.
Proof. unfold DRAIN_BATCH. lia. Qed.

Lemma nats_drain_completes_witness :
  exists tr b' s, run jet_serve (compute_drain_status (sample_nats [Splitter])) three_left = (Ok s, tr, b')
  /\ pds_drained s = true /\ jet_log b' "orders" = ["0"; "1"; "2"; "3"].
Proof.
  destruct (@nats_drain_completes memory_server memory_server_laws (sample_nats [Splitter]) eq_refl
    "orders" "orders.green" (workers_durable "orders.green") "orders.blue" (workers_durable "orders.blue")
    eq_refl eq_refl) with (b := three_left) as (tr & b' & s & Er & Hd & Hl & _).
  - apply (bool_decide_unpack _). vm_compute. exact I.
  - reflexivity.
  - reflexivity.
  - apply batch_fits. apply (bool_decide_unpack _). vm_compute. exact I.
  - apply batch_fits. apply (bool_decide_unpack _). vm_compute. exact I.
  - reflexivity.
  - reflexivity.
  - exists tr, b', s. split_and!; [exact Er|exact Hd|exact Hl].
Defined.

Definition nothing_left : result string PluginDrainStatusResponse * trace * jet_memory :=
  run jet_serve (compute_drain_status (sample_nats [Splitter; Combiner])) (jet_of Active [] []).

Definition in_bounds (z : Z) : bool := (Z.leb 0 z && Z.ltb z (2 ^ 60))%bool.
Definition count_fits (e : event) : bool :=
  match e with
  | Ev (AInceptor (INats (NInfo _ _ _))) (Ok (p, a)) => (in_bounds p && in_bounds a)%bool
  | _ => true
  end.
Lemma counts_fit_spec tr : forallb count_fits tr = true -> counts_fit tr.
Proof.
  intros Ha client stream durable p a Hin. rewrite forallb_forall in Ha. apply list_elem_of_In, Ha in Hin. cbn in Hin.
  unfold in_bounds in Hin. lia.
Qed.

Lemma nats_drained_means_empty_witness :
  (pds_drained <$> match nothing_left.1.1 with Ok s => Some s | Err _ => None end) = Some true
  /\ info_of nothing_left.1.2 "orders.green" (workers_durable "orders.green") 0 0
  /\ info_of nothing_left.1.2 "results.blue" (combiner_durable "results.blue") 0 0.
Proof.
  pose proof (run_exec jet_serve (compute_drain_status (sample_nats [Splitter; Combiner])) (jet_of Active [] [])) as He.
  fold nothing_left in He. assert (exists s, nothing_left.1.1 = Ok s /\ pds_drained s = true) as (s & Es & Hd).
  { eexists. split; vm_compute; reflexivity. }
  rewrite Es in He. pose proof (@nats_drained_means_empty (sample_nats [Splitter; Combiner]) eq_refl _ s He Hd) as Hall.
  specialize (Hall ltac:(apply counts_fit_spec; vm_compute; reflexivity)).
  split_and!; [rewrite Es; cbn; by rewrite Hd| |]; apply Hall.
  - eapply of_splitter; [|left|reflexivity|exact (green_input work_subjects "orders.green" eq_refl)].
    intros [[=]|[[=]|[]%not_elem_of_nil]%elem_of_cons]%elem_of_cons.
  - by eapply (of_blue_output _ _ "results.blue"); [right; left|reflexivity|].
Defined.
