(* ===== verification/NatsManagerTheorems.v ===== *)
(** * What the NATS plugin guarantees: streams

    Theorems about [Nats] and [NatsManager]: streams have valid names of bounded length; a
    cleanup deletes the temporary streams of the inception point its token was issued for, all of
    them; the garbage collection spares what a preparation of an active inception created. *)

From S2P Require Import Prelude RustString Float64 Kube Crd StateStore InceptorEffects Effects.
From S2P Require Import World External Promotion Status Names NamesTheorems SipHash Auth Plugins Sdk.
From S2P Require Import SdkNames SdkTheorems JsonDecode HttpPlugin QueuePlugins Nats NatsManager.
From S2P Require Import Footprint Outcomes HttpPluginTheorems QueueTheorems NatsTheorems NatsServer.

(** ** Names of streams *)

Lemma hint_length subject : (String.length (subject_hint subject) <= 24)%nat.
Proof. unfold subject_hint. rewrite length_of_bytes, length_take. lia. Qed.
Lemma hex_u64_length z : String.length (hex_u64 z) = 16%nat.
Proof. unfold hex_u64. by rewrite hex_string_length, length_rev, length_le_bytes. Qed.

Lemma subject_hash_range subject : 0 <= subject_hash subject < 2 ^ 64.
Proof.
  unfold subject_hash. assert (forall l h, 0 <= h < 2 ^ 64 -> 0 <= fold_left hash_step l h < 2 ^ 64) as Hl.
  { induction l as [|b l IH]; intros h Hh; [done|]. cbn [fold_left]. apply IH. unfold hash_step.
    apply Z.mod_pos_bound. lia. }
  apply Hl. lia.
Qed.
Lemma hex_u64_inj z z' : 0 <= z < 2 ^ 64 -> 0 <= z' < 2 ^ 64 -> hex_u64 z = hex_u64 z' -> z = z'.
Proof.
  intros Hz Hz' E. apply hex_string_inj in E; [|by rewrite !length_rev, !length_le_bytes].
  apply (f_equal (@rev _)) in E. rewrite !rev_involutive in E. by apply le_bytes_inj in E.
Qed.

Lemma temp_stream_prefix `{Sha256} ns ref uid ip role logical ident :
  starts_with "fbg_fluidbg" (stream_name (temp_subject ns ref uid ip role logical ident)) = true.
Proof.
  destruct (temp_queue_name_shape ns ref uid ip role logical ident) as (mid & _ & _ & E).
  unfold temp_subject. rewrite E. unfold stream_name, subject_hint at 1. rewrite bytes_app. reflexivity.
Qed.

(** A stream has a name the server takes: letters, digits, [-] and [_], at most 45 of them; two
    subjects share a stream only when their hashes collide at all 64 bits and the first 24 characters
    that are kept are the same; and every temporary subject's stream is among those that the garbage
    collection looks at. *)
Theorem nats_stream_names `{Sha256} (subject subject' ns ref uid ip role logical : string) (ident : option string) :
  all_bytes stream_char (stream_name subject) = true /\ (String.length (stream_name subject) <= 45)%nat
  /\ (stream_name subject = stream_name subject' ->
      subject_hash subject = subject_hash subject' /\ subject_hint subject = subject_hint subject')
  /\ starts_with "fbg_fluidbg" (stream_name (temp_subject ns ref uid ip role logical ident)) = true.
Proof.
  split_and!; [| | |apply temp_stream_prefix]; unfold stream_name.
  - apply stream_name_chars.
  - rewrite !length_sapp, hex_u64_length. pose proof (hint_length subject). cbn [String.length]. lia.
  - intros E. apply sapp_inv_l in E. rewrite <- !(sapp_assoc (subject_hint _) "_") in E. apply sapp_inj_suffix in E as E'; [|by rewrite !hex_u64_length].
    split; [apply hex_u64_inj; auto using subject_hash_range|]. rewrite E' in E.
    apply (f_equal bytes) in E. rewrite !bytes_app, <- !app_assoc in E. apply app_inj_2 in E as [E _]; [|done].
    by apply bytes_inj.
Qed.

(** ** Rewritten configurations *)

Section Names.
Context `{Sha256}.

(** The name of a temporary subject of an inception point. *)
Definition temp_name (ns ref uid ip : string) (config : json) (role logical : string) : string :=
  temp_subject ns ref uid ip role logical (temporary_subject_identifier config role).

Lemma get_rewritten_subjects config ns ref uid ip role :
  json_get role (rewrite_temp_subjects config ns ref uid ip)
  = fold_left (fun block f => let '(r, field, logical) := f in
      if String.eqb r role then with_field field (JStr (temp_name ns ref uid ip config r logical)) <$> block
      else block) temp_subject_fields (json_get role config).
Proof. apply (get_rewritten_fields _ (temp_name ns ref uid ip config)). Qed.

(** The blocks of a configuration are those of its text. *)
Lemma nats_config_blocks j c : decode_nats_config j = Some c ->
  (forall d, nc_duplicator c = Some d -> exists b, json_get "duplicator" j = Some b /\ decode_input b = Some d)
  /\ (forall d, nc_splitter c = Some d -> exists b, json_get "splitter" j = Some b /\ decode_input b = Some d)
  /\ (forall d, nc_combiner c = Some d -> exists b, json_get "combiner" j = Some b /\ decode_output b = Some d).
Proof.
  unfold decode_nats_config. intros Hd. apply bind_Some in Hd as (fields & Hf & Hd).
  destruct j; cbn in Hf; try discriminate Hf. injection Hf as ->. destruct (negb _); [discriminate Hd|].
  repeat (apply bind_Some in Hd as (? & ? & Hd)). injection Hd as <-. cbn.
  split_and!; intros d ->; eapply decoded_block; eassumption.
Qed.

(** Decodes a block two fields of which were set. *)
Ltac decode_set :=
  match goal with b : json |- _ => destruct b; try done end; cbn [with_field];
  intros Hd; repeat (apply bind_Some in Hd as (? & ? & Hd)); injection Hd as <-; cbn [d_fields] in *; simplify_eq;
  repeat match goal with
  | H : opt_member d_string _ (json_insert _ _ _) = Some _ |- _ => apply opt_string_inserted in H; cbn in H
  end; by subst.

Lemma input_rewritten b g l d :
  decode_input (with_field "blueInputSubject" (JStr l) (with_field "greenInputSubject" (JStr g) b)) = Some d ->
  ic_green_subject d = Some g /\ ic_blue_subject d = Some l.
Proof. unfold decode_input. decode_set. Qed.
Lemma output_rewritten b g l d :
  decode_output (with_field "blueOutputSubject" (JStr l) (with_field "greenOutputSubject" (JStr g) b)) = Some d ->
  oc_green_subject d = Some g /\ oc_blue_subject d = Some l.
Proof. unfold decode_output. decode_set. Qed.

(** A name of the rewriting, for a role of the configuration. *)
Definition derived_name (ns ref uid ip : string) (config : json) (q : string) : Prop :=
  exists role field logical, (role, field, logical) ∈ temp_subject_fields
  /\ q = temp_name ns ref uid ip config role logical.

Lemma derived_at i ns ref uid ip config role field logical :
  temp_subject_fields !! i = Some (role, field, logical) ->
  derived_name ns ref uid ip config (temp_name ns ref uid ip config role logical).
Proof. intros Hi. exists role, field, logical. split; [by eapply list_elem_of_lookup_2|done]. Qed.

(** The temporary subjects of a rewritten configuration have derived names, whatever the
    configuration said. *)
Lemma temporary_subjects_derived config ns ref uid ip roles q :
  q ∈ temporary_subjects roles
        (unwrap_or default_nats_config (decode_nats_config (rewrite_temp_subjects config ns ref uid ip))) ->
  derived_name ns ref uid ip config q.
Proof.
  destruct (decode_nats_config _) as [c|] eqn:Ed; [|by cbn; intros ?%not_elem_of_nil].
  cbn [unwrap_or from_option]. unfold id.
  destruct (nats_config_blocks _ _ Ed) as (Hdup & Hspl & Hcmb). rewrite !get_rewritten_subjects in Hdup, Hspl, Hcmb.
  cbn [temp_subject_fields fold_left String.eqb Ascii.eqb Bool.eqb] in Hdup, Hspl, Hcmb.
  unfold temporary_subjects, block_subjects. rewrite !omap_app, !elem_of_app.
  intros [Hin|[Hin|Hin]]; apply queues_of_block in Hin as (d & Ec & Hin).
  - destruct (Hdup d Ec) as (b & Hb & Hs). destruct (json_get "duplicator" config) as [j|]; [|done]. injection Hb as <-.
    apply input_rewritten in Hs as [Eg El]. rewrite Eg, El in Hin.
    apply queue_of_two in Hin as [->| ->]; [by eapply (derived_at 0)|by eapply (derived_at 1)].
  - destruct (Hspl d Ec) as (b & Hb & Hs). destruct (json_get "splitter" config) as [j|]; [|done]. injection Hb as <-.
    apply input_rewritten in Hs as [Eg El]. rewrite Eg, El in Hin.
    apply queue_of_two in Hin as [->| ->]; [by eapply (derived_at 2)|by eapply (derived_at 3)].
  - destruct (Hcmb d Ec) as (b & Hb & Hs). destruct (json_get "combiner" config) as [j|]; [|done]. injection Hb as <-.
    apply output_rewritten in Hs as [Eg El]. rewrite Eg, El in Hin.
    apply queue_of_two in Hin as [->| ->]; [by eapply (derived_at 4)|by eapply (derived_at 5)].
Qed.

(** What is created for an inception point: its temporary subjects, and the ones it names. *)
Definition base_subjects (roles : list PluginRole) (c : NatsConfig) : list string :=
  omap id
    (block_subjects roles Duplicator (nc_duplicator c) (fun d => [ic_input_subject d])
     ++ block_subjects roles Splitter (nc_splitter c) (fun d => [ic_input_subject d])
     ++ block_subjects roles Combiner (nc_combiner c) (fun d => [oc_output_subject d])
     ++ block_subjects roles Writer (nc_writer c) (fun d => [tc_target_subject d])
     ++ block_subjects roles Consumer (nc_consumer c) (fun d => [src_input_subject d])).

Lemma elem_of_some (q : string) (l : list (option string)) : q ∈ omap id l <-> Some q ∈ l.
Proof. rewrite list_elem_of_omap. split; [intros (x & Hx & E); cbn in E; by subst|]. intros Hin. by exists (Some q). Qed.
Lemma elem_of_block {A} roles r (block : option A) (f g h : A -> list (option string)) q :
  (forall d x, x ∈ f d -> x ∈ g d \/ x ∈ h d) -> q ∈ block_subjects roles r block f ->
  q ∈ block_subjects roles r block g \/ q ∈ block_subjects roles r block h.
Proof. unfold block_subjects. destruct block as [d|], (has_role roles r); auto. Qed.

Lemma managed_subjects_split roles c q :
  q ∈ managed_subjects roles c -> q ∈ temporary_subjects roles c \/ q ∈ base_subjects roles c.
Proof.
  unfold managed_subjects, temporary_subjects, base_subjects.
  rewrite !elem_of_some, !elem_of_app.
  intros [Hq|[Hq|[Hq|Hq]]]; [apply (elem_of_block _ _ _ _ (fun d => [ic_green_subject d; ic_blue_subject d])
      (fun d => [ic_input_subject d])) in Hq; [tauto|set_solver]..|
    apply (elem_of_block _ _ _ _ (fun d => [oc_green_subject d; oc_blue_subject d])
      (fun d => [oc_output_subject d])) in Hq; [tauto|set_solver]|tauto].
Qed.
End Names.

(** ** The requests of the handlers *)

Section Handlers.
Context `{Sha256, Codecs}.
Context (state : NatsManagerState).

(** The subjects derived from the identity in the claims. *)
Definition own_subject (claims : PluginAuthClaims) (config : json) (subject : string) : Prop :=
  derived_name (cl_namespace claims) (cl_blue_green_ref claims) (unwrap_or "" (cl_blue_green_uid claims))
    (cl_inception_point claims) config subject.
Definition effective (claims : PluginAuthClaims) (req : PluginManagerLifecycleRequest) : NatsConfig :=
  (secured_config_from_claims claims req).2.
Definition own_temporary (claims : PluginAuthClaims) (req : PluginManagerLifecycleRequest) : list string :=
  temporary_subjects (parse_roles (pml_roles req)) (effective claims req).
Definition own_base (claims : PluginAuthClaims) (req : PluginManagerLifecycleRequest) : list string :=
  base_subjects (parse_roles (pml_roles req)) (effective claims req).

Lemma own_temporary_own claims req q : q ∈ own_temporary claims req -> own_subject claims (pml_config req) q.
Proof. apply temporary_subjects_derived. Qed.

Definition deletion_asked (stream : string) (tr : trace) : Prop :=
  exists client r, Ev (AInceptor (INats (NDeleteStream client stream))) r ∈ tr.
Definition creation_asked (stream : string) (tr : trace) : Prop :=
  exists client spec r, Ev (AInceptor (INats (NStream client spec))) r ∈ tr /\ ssp_name spec = stream.

(** A stream the garbage collection may delete. *)
Definition collectable (active : list ActiveInception) (stream : string) : Prop :=
  starts_with "fbg_fluidbg" stream = true /\ stream ∉ active_stream_names active.

(** The requests with streams that [created] and [deleted] admit. *)
Definition stream_request (created deleted : string -> Prop) (act : action) : Prop :=
  match act with
  | AInceptor (INats (NStream _ spec)) => created (ssp_name spec)
  | AInceptor (INats (NDeleteStream _ stream)) => deleted stream
  | AInceptor (INats (NStreamNames _)) => True
  | act => connects act = true
  end.
#[local] Instance stream_request_connects created deleted : Connects (stream_request created deleted).
Proof.
  intros act E. destruct act; try done. match goal with o : inceptor_op |- _ => destruct o; try done end.
  match goal with o : nats_op |- _ => by destruct o end.
Qed.

Lemma fp_nats_connect P `{Connects P} url : only P (connect url).
Proof. unfold connect, env_flag, optional_env, env, nats. only_requests. Qed.
#[local] Hint Extern 1 (only _ (connect _)) => exact (fp_nats_connect _ _) : footprint.

Lemma fp_gc created (deleted : string -> Prop) active :
  (forall stream, collectable active stream -> deleted stream) ->
  only (stream_request created deleted) (garbage_collect_temp_streams state active).
Proof.
  intros Hd. unfold garbage_collect_temp_streams, list_stream_names, delete_stream_name, nats.
  only_requests; [done|]. apply Hd.
  match goal with E : (_ && negb _)%bool = true |- _ => apply andb_true_iff in E as [? E%negb_true_iff] end.
  split; [done|]. by apply not_member.
Qed.

Lemma fp_reconcile (created deleted : string -> Prop) roles c create :
  (forall subject, subject ∈ managed_subjects roles c -> is_core (nc_mode c) = false -> create = true ->
     created (stream_name subject)) ->
  (forall subject, subject ∈ temporary_subjects roles c -> create = false -> deleted (stream_name subject)) ->
  only (stream_request created deleted) (reconcile_streams state roles c create).
Proof.
  intros Hc Hd. unfold reconcile_streams. destruct (is_core (nc_mode c)) eqn:Em; [done|].
  apply only_bind_err; [apply only_with_error, fp_nats_connect; apply _|]. intros client.
  apply only_each. intros subject Hin. apply only_with_error. destruct create.
  - unfold ensure_subject_stream, nats. apply only_request. by apply Hc.
  - unfold delete_subject_stream, delete_stream_name, nats. apply only_bind; [|done].
    apply only_request. by apply Hd.
Qed.

Lemma request_deleted created deleted {A} (p : prog A) tr a stream :
  only (stream_request created deleted) p -> exec p tr a -> deletion_asked stream tr -> deleted stream.
Proof. intros Hp He (client & r & Hin). exact (only_exec _ _ _ _ Hp He _ _ Hin). Qed.
Lemma request_created created deleted {A} (p : prog A) tr a stream :
  only (stream_request created deleted) p -> exec p tr a -> creation_asked stream tr -> created stream.
Proof. intros Hp He (client & spec & r & Hin & <-). exact (only_exec _ _ _ _ Hp He _ _ Hin). Qed.

Lemma stream_deletion_in stream tr1 tr2 tr3 : deletion_asked stream tr2 -> deletion_asked stream (tr1 ++ tr2 ++ tr3).
Proof. intros (c & r & Hin). exists c, r. rewrite !elem_of_app. auto. Qed.

Lemma reconcile_asks_streams roles c subject tr :
  is_core (nc_mode c) = false -> exec (reconcile_streams state roles c false) tr (Ok tt) ->
  subject ∈ temporary_subjects roles c -> deletion_asked (stream_name subject) tr.
Proof.
  intros Hm He Hin. unfold reconcile_streams in He. rewrite Hm in He.
  apply exec_bind_err in He as (tr1 & tr2 & client & -> & _ & He).
  destruct (exec_each _ _ _ _ He Hin) as (t1 & tx & t2 & -> & Hx). rewrite app_assoc. apply stream_deletion_in.
  apply exec_with_error in Hx. unfold delete_subject_stream, delete_stream_name, nats, cell in Hx.
  apply exec_request in Hx as (r & tr' & -> & _). exists client, r. left.
Qed.

(** A cleanup of the manager deletes what it may, and all of it: every stream whose deletion it asks for
    is that of a subject derived from the identity in a token the operator signed for the very
    inception point of the request, or is a temporary stream of no active inception point; and a
    cleanup that is answered with success has, outside core mode, asked for the deletion of the
    stream of every temporary subject of that inception point. *)
Theorem nats_cleanup_exact (headers : HeaderMap) (req : PluginManagerLifecycleRequest) (tr : trace)
    (res : result Z json) :
  exec (cleanup_handler state headers req) tr res ->
  (forall stream, deletion_asked stream tr -> exists claims, authorize state headers = Ok claims
     /\ manager_request_matches_claims req claims = true
     /\ ((exists subject, own_subject claims (pml_config req) subject /\ stream = stream_name subject)
         \/ collectable (pml_active_inceptions req) stream))
  /\ (is_ok res = true -> exists claims, authorize state headers = Ok claims
     /\ (is_core (nc_mode (effective claims req)) = false ->
         forall subject, subject ∈ own_temporary claims req -> deletion_asked (stream_name subject) tr)).
Proof.
  unfold cleanup_handler. destruct (authorize state headers) as [claims|e]; cbn [mbind result_bind];
    [|by intros [-> ->]; split; [intros q (? & ? & ?%not_elem_of_nil)|]].
  unfold require_manager_request_matches_claims.
  destruct (manager_request_matches_claims req claims) eqn:Em; cbn [map_err mbind result_bind];
    [|by intros [-> ->]; split; [intros q (? & ? & ?%not_elem_of_nil)|]].
  destruct (secured_config_from_claims claims req) as [value c] eqn:Es.
  assert (c = effective claims req) as -> by (unfold effective; by rewrite Es). intros He. split.
  - intros stream Hd. exists claims. split_and!; [done..|].
    eapply (request_deleted (fun _ => False) (fun stream =>
      (exists subject, own_subject claims (pml_config req) subject /\ stream = stream_name subject)
      \/ collectable (pml_active_inceptions req) stream)); [|exact He|exact Hd].
    apply only_bind_err; [|intros _; apply only_bind_err; [|done]].
    + apply fp_reconcile; [done|]. intros subject Hin _. left. exists subject. split; [|done].
      by apply own_temporary_own.
    + apply fp_gc. auto.
  - intros Hok. exists claims. split; [done|]. intros Hm subject Hin. destruct res as [j|]; [|discriminate Hok].
    apply exec_bind_err in He as (tr1 & tr2 & [] & -> & He & _).
    apply (stream_deletion_in _ [] tr1 tr2). by eapply reconcile_asks_streams.
Qed.

(** *** The garbage collection *)

Lemma own_stream_active a active claims req subject :
  a ∈ active -> inventories a claims req -> is_core (nc_mode (effective claims req)) = false ->
  subject ∈ own_temporary claims req -> stream_name subject ∈ active_stream_names active.
Proof.
  intros Ha (Hn & Hr & Hu & Hi & Hc & Hro) Hm Hq. unfold active_stream_names. apply list_elem_of_In, in_concat.
  eexists. split; [apply in_map_iff; exists a; split; [reflexivity|by apply list_elem_of_In]|].
  apply list_elem_of_In. unfold active_streams. rewrite Hn, Hr, Hu, Hi, Hc, Hro.
  unfold own_temporary, effective, secured_config_from_claims in *. cbn [snd] in *.
  destruct (decode_nats_config _) as [c|]; [|by apply not_elem_of_nil in Hq].
  cbn [unwrap_or default from_option] in *. change (id c) with c in *. rewrite Hm. by apply list_elem_of_fmap_2.
Qed.

(** A stream that is created for an inception point. *)
Definition prepared (claims : PluginAuthClaims) (req : PluginManagerLifecycleRequest) (stream : string) : Prop :=
  is_core (nc_mode (effective claims req)) = false
  /\ exists subject, stream = stream_name subject /\ (subject ∈ own_temporary claims req \/ subject ∈ own_base claims req).

Lemma fp_prepare_streams headers req claims : authorize state headers = Ok claims ->
  only (stream_request (prepared claims req) (collectable (pml_active_inceptions req)))
    (prepare_handler state headers req).
Proof.
  intros Ha. unfold prepare_handler. rewrite Ha. cbn [mbind result_bind].
  destruct (map_err _ (require_manager_request_matches_claims _ _)); cbn [mbind result_bind]; [|done].
  destruct (map_err _ (queue_worker_role _)); cbn [mbind result_bind]; [|done].
  destruct (secured_config_from_claims claims req) as [value c] eqn:Es.
  assert (c = effective claims req) as -> by (unfold effective; by rewrite Es).
  apply only_bind_err; [|intros _; apply only_bind_err; [apply fp_gc; auto|done]].
  apply fp_reconcile; [|done]. intros subject Hin Hm _. split; [done|]. exists subject. split; [done|].
  by apply managed_subjects_split.
Qed.

Lemma fp_sync_streams headers req :
  only (stream_request (fun _ => False) (collectable (pms_active_inceptions req))) (sync_handler state headers req).
Proof.
  unfold sync_handler. destruct (authorize state headers); [|done]. case_match; [done|].
  apply only_bind_err; [apply fp_gc; auto|done].
Qed.

Lemma collected_is_base a active claims req stream :
  a ∈ active -> inventories a claims req -> prepared claims req stream -> collectable active stream ->
  starts_with "fbg_fluidbg" stream = true /\ exists subject, subject ∈ own_base claims req /\ stream = stream_name subject.
Proof.
  intros Ha Hinv (Hm & subject & -> & Hs) [Hpre Hna]. split; [done|]. destruct Hs as [Hs|Hs]; [|by exists subject].
  exfalso. by eapply Hna, own_stream_active.
Qed.

(** C30. The garbage collection spares the living: what a preparation of an inception point created is
    deleted neither by that preparation's own collection nor by a later sync, as long as the
    inventory they are sent has the inception point with the same identity, configuration and roles (an
    entry that was edited since, or does not decode, protects other streams or none); only a
    base subject the configuration names, whose stream looks like a temporary one, is not spared. *)
Theorem nats_collection_spares_prepared (headers headers' : HeaderMap) (preq : PluginManagerLifecycleRequest)
    (sreq : PluginManagerSyncRequest) (ptr tr : trace) (pres : result Z PluginLifecycleResponse)
    (res : result Z json) (claims : PluginAuthClaims) (a : ActiveInception) (stream : string) :
  exec (prepare_handler state headers preq) ptr pres -> exec (sync_handler state headers' sreq) tr res ->
  authorize state headers = Ok claims -> inventories a claims preq -> creation_asked stream ptr ->
  (a ∈ pml_active_inceptions preq /\ deletion_asked stream ptr
   \/ a ∈ pms_active_inceptions sreq /\ deletion_asked stream tr) ->
  starts_with "fbg_fluidbg" stream = true /\ exists subject, subject ∈ own_base claims preq /\ stream = stream_name subject.
Proof.
  intros Hp Hs Ha Hinv Hc Hd. pose proof (request_created _ _ _ _ _ _ (fp_prepare_streams _ _ _ Ha) Hp Hc) as Hprep.
  destruct Hd as [[Hin Hd]|[Hin Hd]].
  - eapply collected_is_base; [exact Hin|done..|]. exact (request_deleted _ _ _ _ _ _ (fp_prepare_streams _ _ _ Ha) Hp Hd).
  - eapply collected_is_base; [exact Hin|done..|]. exact (request_deleted _ _ _ _ _ _ (fp_sync_streams _ _) Hs Hd).
Qed.
End Handlers.

(** ** A concrete manager *)

Definition sample_nats_manager : NatsManagerState :=
  {| nm_signing_key := sample_key; nm_nats_url := "nats://nats"; nm_inceptor_url := "nats://nats" |}.
Definition nats_claims : PluginAuthClaims := new_with_uid "apps" "orders" "uid-1" "incoming" "nats".
(** The configuration names a subject of somebody else's, and a base subject. *)
Definition nats_splitter_text : json :=
  JObj [("splitter", JObj [("greenInputSubject", JStr "victim"); ("inputSubject", JStr "orders")])].
Definition nats_request (active : list ActiveInception) : PluginManagerLifecycleRequest :=
  {| pml_namespace := "apps"; pml_blue_green_ref := "orders"; pml_blue_green_uid := Some "uid-1";
     pml_inception_point := "incoming"; pml_plugin := "nats"; pml_roles := ["splitter"];
     pml_config := nats_splitter_text; pml_active_inceptions := active |}.
Definition nats_active : ActiveInception :=
  {| ai_namespace := "apps"; ai_blue_green_ref := "orders"; ai_blue_green_uid := Some "uid-1";
     ai_inception_point := "incoming"; ai_plugin := "nats"; ai_roles := ["splitter"];
     ai_config := nats_splitter_text |}.
Definition nats_sync_request : PluginManagerSyncRequest :=
  {| pms_plugin := "nats"; pms_active_inceptions := [nats_active] |}.

Definition nats_cleanup_run : result Z json * trace * jet_memory :=
  run jet_serve (@cleanup_handler sample_sha256 sample_codecs sample_nats_manager (signed_header nats_claims)
    (nats_request [])) (jet_of Idle [] []).
Definition nats_prepare_run : result Z PluginLifecycleResponse * trace * jet_memory :=
  run jet_serve (@prepare_handler sample_sha256 sample_codecs sample_nats_manager (signed_header nats_claims)
    (nats_request [nats_active])) (jet_of Idle [] []).
Definition nats_sync_run : result Z json * trace * jet_memory :=
  run jet_serve (@sync_handler sample_sha256 sample_codecs sample_nats_manager (signed_header (sync_claims "nats"))
    nats_sync_request) (jet_of Idle [] []).

Lemma nats_authorized :
  @authorize sample_sha256 sample_codecs sample_nats_manager (signed_header nats_claims) = Ok nats_claims.
Proof. vm_compute. reflexivity. Qed.

Lemma nats_cleanup_exact_witness :
  is_ok nats_cleanup_run.1.1 = true
  /\ ~ deletion_asked (stream_name "victim") nats_cleanup_run.1.2
  /\ (forall subject, subject ∈ @own_temporary sample_sha256 nats_claims (nats_request []) ->
        deletion_asked (stream_name subject) nats_cleanup_run.1.2).
Proof.
  pose proof (run_exec jet_serve (@cleanup_handler sample_sha256 sample_codecs sample_nats_manager
    (signed_header nats_claims) (nats_request [])) (jet_of Idle [] [])) as He.
  fold nats_cleanup_run in He. apply nats_cleanup_exact in He as [Hown Hall].
  assert (is_ok nats_cleanup_run.1.1 = true) as Hok by (vm_compute; reflexivity).
  rewrite nats_authorized in Hown, Hall. split_and!; [exact Hok| |].
  - intros Hv. destruct (Hown _ Hv) as (claims & [= <-] & _ & [(subject & (role & field & logical & _ & ->) & E)|[Hs _]]).
    + pose proof (@temp_stream_prefix sample_sha256 "apps" "orders" "uid-1" "incoming" role logical
        (temporary_subject_identifier nats_splitter_text role)) as Hn.
      assert (starts_with "fbg_fluidbg" (stream_name "victim") = true) as Hv' by (rewrite E; exact Hn).
      vm_compute in Hv'. discriminate Hv'.
    + vm_compute in Hs. discriminate Hs.
  - destruct (Hall Hok) as (claims & [= <-] & Hq). exact (Hq eq_refl).
Defined.

Lemma nats_collection_spares_prepared_witness :
  deletion_asked "fbg_fluidbg-left-behind_0011223344556677" nats_sync_run.1.2
  /\ forall subject, subject ∈ @own_temporary sample_sha256 nats_claims (nats_request [nats_active]) ->
    creation_asked (stream_name subject) nats_prepare_run.1.2
    /\ ~ deletion_asked (stream_name subject) nats_prepare_run.1.2
    /\ ~ deletion_asked (stream_name subject) nats_sync_run.1.2.
Proof.
  split; [by exists 1; eexists; apply (list_elem_of_lookup_2 _ 4%nat); vm_compute|].
  intros subject Hq. assert (creation_asked (stream_name subject) nats_prepare_run.1.2) as Hc.
  { vm_compute in Hq. repeat (apply elem_of_cons in Hq as [->|Hq]); [| |by apply not_elem_of_nil in Hq];
      [exists 1; eexists _, _; split; [apply (list_elem_of_lookup_2 _ 4%nat); vm_compute; reflexivity|reflexivity]|
       exists 1; eexists _, _; split; [apply (list_elem_of_lookup_2 _ 5%nat); vm_compute; reflexivity|reflexivity]]. }
  split; [exact Hc|]. pose proof (@nats_collection_spares_prepared sample_sha256 sample_codecs sample_nats_manager
    (signed_header nats_claims) (signed_header (sync_claims "nats")) (nats_request [nats_active]) nats_sync_request
    nats_prepare_run.1.2 nats_sync_run.1.2 nats_prepare_run.1.1 nats_sync_run.1.1 nats_claims nats_active
    (stream_name subject) (run_exec jet_serve _ (jet_of Idle [] [])) (run_exec jet_serve _ (jet_of Idle [] []))
    nats_authorized) as Hsp.
  split; intros Hd; (destruct Hsp as [Hpre (base & Hb & E)]; [by split_and!|exact Hc|
    first [left; split; [left|exact Hd]|right; split; [left|exact Hd]]|]);
    vm_compute in Hb; apply elem_of_cons in Hb as [->|[]%not_elem_of_nil]; rewrite E in Hpre; vm_compute in Hpre;
    discriminate Hpre.
Defined.
