(* ===== verification/RabbitTheorems.v ===== *)
(** * What the RabbitMQ plugin guarantees: messages

    Theorems about [RabbitMq] and [RabbitWorkers]: a message is acknowledged only after it
    was published wherever it has to go, whatever fails; on a broker that has the queues, a
    move ends and moves exactly what is there; what is moved to a queue the broker does not
    have is lost. *)

From S2P Require Import Prelude RustString Float64 Kube Crd StateStore InceptorEffects Effects.
From S2P Require Import World External Promotion Status Names NamesTheorems SipHash Auth Plugins Sdk.
From S2P Require Import SdkNames SdkTheorems JsonDecode HttpPlugin QueuePlugins RabbitMq RabbitWorkers Footprint Outcomes HttpPluginTheorems.
From S2P Require Import QueueTheorems.

(** ** Acknowledgements *)

Definition published (tr : trace) (target : string) (d : delivery) : Prop :=
  exists channel, Ev (AInceptor (QPublish channel target (dl_data d) (dl_properties d))) (Ok tt) ∈ tr.
Definition taken (tr : trace) (queue : string) (d : delivery) : Prop :=
  exists channel, Ev (AInceptor (QGet channel queue)) (Ok (Some d)) ∈ tr.

Lemma stable_published q d : stable (fun tr => published tr q d).
Proof. intros tr tr' [ch ?]. exists ch. by apply mem_app. Qed.
Lemma stable_taken q d : stable (fun tr => taken tr q d).
Proof. intros tr tr' [ch ?]. exists ch. by apply mem_app. Qed.

(** A message may be acknowledged when it was taken from a queue and [done] holds of the
    two. *)
Definition acks_after (settled : trace -> string -> delivery -> Prop) (tr : trace) (e : event) : Prop :=
  match e with
  | Ev (AInceptor (QAck d)) _ => exists queue, taken tr queue d /\ settled tr queue d
  | _ => True
  end.

Definition no_ack (act : action) : Prop := match act with AInceptor (QAck _) => False | _ => True end.

Lemma no_ack_ok settled tr act r : no_ack act -> acks_after settled tr (Ev act r).
Proof. destruct act; try done. match goal with o : inceptor_op |- _ => by destruct o end. Qed.

Section Acks.
Context (settled : trace -> string -> delivery -> Prop).
Notation ok := (acks_after settled).

Lemma connect_safe url : safe ok (connect_with_retry url).
Proof.
  unfold connect_with_retry. generalize 30%nat as n. induction n as [|n IH]; [apply safe_Ret|].
  cbn [connect_attempts]. unfold connect_once, amqp_tls_config_from_env, optional_env, env.
  safe; done.
Qed.
#[local] Hint Resolve connect_safe : safe.
Lemma open_channel_safe url : safe ok (open_channel url).
Proof. unfold open_channel, create_channel. safe; done. Qed.
Lemma declare_safe channel queue d : safe ok (declare_queue channel queue d).
Proof. unfold declare_queue. safe; done. Qed.
Lemma disabled_safe : safe ok inceptor_infra_disabled.
Proof. unfold inceptor_infra_disabled, env. safe; done. Qed.
Lemma mode_safe : safe ok runtime_mode.
Proof. unfold runtime_mode. safe; done. Qed.
#[local] Hint Resolve open_channel_safe declare_safe disabled_safe mode_safe : safe.

(** A move settles each message by publishing it to the target. *)
Lemma move_safe n channel source target :
  (forall tr d, published tr target d -> settled tr source d) ->
  safe ok (move_queue_messages n channel source target).
Proof.
  intros Hset. apply safe_loop. intros moved pre. unfold move_message.
  apply always_bind, always_request. intros got. split; [done|].
  destruct got as [[d|]|e]; [|done..]. apply always_bind, always_request. intros r. split; [done|].
  destruct r as [[]|e]; [|done]. apply always_bind, always_request. intros r'. split; [|done].
  exists source. split.
  - exists channel. apply mem_app, mem_last.
  - apply Hset. exists channel. apply mem_last.
Qed.

Section Worker.
Context `{Regexes, JsonText, Sha256}.
Context (state : RabbitState).

(** The targets a drain of [source] settles with. *)
Lemma drain_source_safe n channel source base :
  (forall tr d, published tr base d -> settled tr source d) ->
  (forall tr d shadow, shadow_queue_name (rs_config state) source = Some shadow ->
     published tr (unwrap_or base (shadow_queue_name (rs_config state) base)) d -> settled tr shadow d) ->
  safe ok (drain_source state n channel source base).
Proof.
  intros H1' H2'. unfold drain_source. apply safe_bind_loop_err; [by apply move_safe|]. intros _.
  destruct (shadow_queue_name (rs_config state) source) as [shadow|] eqn:Es; [|apply safe_Ret].
  apply safe_bind_loop_err; [|intros; apply safe_Ret]. apply move_safe. intros tr d. by apply H2'.
Qed.

Lemma observe_no_ack o body headers route : only no_ack (observe_message state o body headers route).
Proof.
  unfold observe_message. case_match; [|done]. apply only_bind.
  - unfold notify_observer. case_match; [|done]. apply only_bind; [|done].
    unfold Sdk.notify_observer. by apply retry_only.
  - intros notified. case_match; [|done]. apply only_bind; [|done].
    unfold register_test_case. cbv zeta. apply only_bind; [done|]. intros now. by apply retry_only.
Qed.

(** After the part that forwards, the rest of a worker's turn. *)
Lemma settle_message pre queue d (observed : prog unit) :
  taken pre queue d -> only no_ack observed ->
  (forall tr, settled (pre ++ tr) queue d) ->
  always ok pre (do! observed ;; cell (QAck d)) (fun _ _ => True).
Proof.
  intros Ht Ho Hs. apply always_bind. apply (always_only _ no_ack); [done|by intros; apply no_ack_ok|].
  intros tr [] _. apply always_request. intros r. split; [|done].
  exists queue. split; [by apply stable_taken|apply Hs].
Qed.
End Worker.
End Acks.
#[export] Hint Resolve connect_safe open_channel_safe declare_safe disabled_safe mode_safe : safe.

(** *** The input worker *)

Section Input.
Context `{Regexes, JsonText, Sha256}.
Context (state : RabbitState).

(** The queues a message must reach, given the percentage it was routed with. *)
Definition input_targets (percent : Z) (d : delivery) : list string :=
  if active state Duplicator then
    match rc_duplicator (rs_config state) with
    | Some c => omap id [in_green_queue c; in_blue_queue c] | None => [] end
  else if active state Splitter then
    match rc_splitter (rs_config state) with
    | Some c => omap id [if routes_to_blue (dl_data d) percent then in_blue_queue c else in_green_queue c]
    | None => []
    end
  else [].

(** A drain moves the queues of green and blue, and their shadows, back. *)
Definition drains_back (source target : string) : Prop :=
  exists base green blue, input_queues state = Ok (Some (base, green, blue))
  /\ exists q, (q = green \/ q = blue)
     /\ (source = q /\ target = base
         \/ shadow_queue_name (rs_config state) q = Some source
            /\ target = unwrap_or base (shadow_queue_name (rs_config state) base)).

Definition input_settled (tr : trace) (queue : string) (d : delivery) : Prop :=
  (input_queue state = Ok queue
   /\ exists percent, (active state Duplicator = false -> active state Splitter = true ->
                       Ev (AInceptor LoadPercent) percent ∈ tr)
      /\ forall target, target ∈ input_targets percent d -> published tr target d)
  \/ exists target, drains_back queue target /\ published tr target d.

Lemma stable_input_settled q d : stable (fun tr => input_settled tr q d).
Proof.
  intros tr tr' [(Hq & p & Hp & Ht)|(t & Hd & Hp)].
  - left. split; [done|]. exists p. split; [intros; apply mem_app; auto|].
    intros target Hin. by apply stable_published, Ht.
  - right. exists t. split; [done|]. by apply stable_published.
Qed.

Lemma publish_to_reaches pre channel queue d (Q : trace -> result string unit -> Prop) :
  (forall ext e, Q (pre ++ ext) (Err e)) ->
  (forall ext, (forall q, queue = Some q -> published (pre ++ ext) q d) -> Q (pre ++ ext) (Ok tt)) ->
  always (acks_after input_settled) pre (publish_to channel queue d) Q.
Proof.
  intros He Ho. unfold publish_to. destruct queue as [q|].
  - apply always_request. intros r. split; [done|]. destruct r as [[]|e]; [|apply He].
    apply Ho. intros ? [= <-]. exists channel. apply mem_last.
  - cbn. rewrite <- (app_nil_r pre). by apply Ho.
Qed.

Lemma forward_settles pre channel queue d :
  input_queue state = Ok queue ->
  always (acks_after input_settled) pre (forward_input state channel d)
    (fun tr r => is_ok r = true -> stable (fun tr => taken tr queue d) -> 
       (exists ext, tr = pre ++ ext) /\ input_settled tr queue d).
Proof.
  intros Hq. unfold forward_input. destruct (active state Duplicator) eqn:Ed.
  - unfold duplicator_config. destruct (rc_duplicator (rs_config state)) as [c|] eqn:Ec; [|done]. cbn [ok_or].
    apply always_bind, publish_to_reaches; [done|]. intros ext Hg.
    apply always_bind, publish_to_reaches; [done|]. intros ext' Hb. cbn [always]. intros _ _.
    split; [eexists; by rewrite <- app_assoc|]. left. split; [done|]. exists 0. split; [congruence|].
    unfold input_targets. rewrite Ed, Ec. intros target Hin.
    destruct (in_green_queue c) as [g|], (in_blue_queue c) as [b|]; cbn in Hin;
      repeat (apply elem_of_cons in Hin as [->|Hin]);
      try (by apply not_elem_of_nil in Hin); (by apply Hb) || (by apply stable_published, Hg).
  - destruct (active state Splitter) eqn:Es.
    + unfold splitter_config. destruct (rc_splitter (rs_config state)) as [c|] eqn:Ec; [|done]. cbn [ok_or].
      apply always_bind. apply always_request. intros percent. split; [done|].
      assert (forall ext target, (forall q, (if routes_to_blue (dl_data d) percent then in_blue_queue c
          else in_green_queue c) = Some q -> published ((pre ++ [Ev (AInceptor LoadPercent) percent]) ++ ext) q d) ->
        target ∈ input_targets percent d ->
        published ((pre ++ [Ev (AInceptor LoadPercent) percent]) ++ ext) target d) as Htgt.
      { unfold input_targets. rewrite Ed, Es, Ec. intros ext target Hp Hin.
        destruct (if routes_to_blue _ _ then _ else _) as [q|]; cbn in Hin.
        - apply elem_of_cons in Hin as [->|Hin]; [by apply Hp|by apply not_elem_of_nil in Hin].
        - by apply not_elem_of_nil in Hin. }
      destruct (routes_to_blue (dl_data d) percent) eqn:Er.
      * apply always_bind, publish_to_reaches; [done|]. intros ext Hb. cbn [always]. intros _ _.
        split; [eexists; by rewrite <- app_assoc|]. left. split; [done|]. exists percent. split.
        { intros _ _. apply mem_app, mem_last. }
        intros target. by apply Htgt.
      * destruct (in_green_queue c) as [g|] eqn:Eg.
        -- apply always_bind, always_request. intros r. split; [done|]. destruct r as [[]|e]; [|done].
           cbn [always]. intros _ _. split; [eexists; by rewrite <- app_assoc|]. left. split; [done|].
           exists percent. split; [intros _ _; apply mem_app, mem_last|].
           intros target. apply Htgt. intros q [= <-]. exists channel. apply mem_last.
        -- cbn [always]. intros _ _. split; [by eexists|]. left. split; [done|]. exists percent.
           split; [intros _ _; apply mem_last|]. intros target.
           rewrite <- (app_nil_r (pre ++ _)). by apply Htgt.
    + cbn [always]. intros _ _. split; [exists []; by rewrite app_nil_r|]. left. split; [done|]. exists 0.
      split; [congruence|]. unfold input_targets. rewrite Ed, Es. intros target Hin.
      by apply not_elem_of_nil in Hin.
Qed.

Lemma process_acks pre channel queue d :
  input_queue state = Ok queue -> taken pre queue d ->
  always (acks_after input_settled) pre (process_input_delivery state channel d) (fun _ _ => True).
Proof.
  intros Hq Ht. unfold process_input_delivery. cbv zeta. apply always_bind.
  eapply always_post; [|by apply forward_settles]. intros tr [route|e] Hr; [|done].
  destruct (Hr eq_refl (stable_taken queue d)) as ([ext ->] & Hs).
  apply (settle_message _ _ queue); [by apply stable_taken| |].
  - case_match; [|done]. case_match; [apply observe_no_ack|done].
  - intros tr. by apply stable_input_settled.
Qed.

Lemma drain_input_safe n channel : safe (acks_after input_settled) (drain_input_queues state n channel).
Proof.
  unfold drain_input_queues. destruct input_queues as [[[[base green] blue]|]|e] eqn:Eq; [|apply safe_Ret..].
  apply safe_bind_loop_err.
  { safe. }
  intros _. apply safe_bind_loop_err; [|intros _]; apply drain_source_safe.
  all: intros; right; eexists; (split; [|eassumption]); exists base, green, blue; (split; [done|]);
    eexists; (split; [by (left + right)|]); naive_solver.
Qed.

Lemma input_turn_safe n channel queue u :
  input_queue state = Ok queue -> safe (acks_after input_settled) (input_turn state n channel queue u).
Proof.
  intros Hq. unfold input_turn, pause. apply safe_bind; [apply mode_safe|]. intros [].
  - intros pre. apply always_bind, always_request. intros got. split; [done|].
    destruct got as [[d|]|e]; [|by split|done].
    apply always_bind. eapply always_post; [|eapply process_acks]; [done|eassumption|].
    eexists. apply mem_last.
  - apply safe_bind_loop; [apply drain_input_safe|]. intros [|]; safe. done.
  - safe. done.
Qed.

Lemma pipeline_safe n : safe (acks_after input_settled) (run_input_pipeline state n).
Proof.
  unfold run_input_pipeline, pipeline_turn, pause. safe; first [done|by apply input_turn_safe].
Qed.

(** C23. The input worker acknowledges a message only after the broker took it over: a message from the
    input queue when it was published to every queue it has to reach (both of a duplicator, the one of
    a splitter that the percentage read for it selects), a message a drain found in a queue of green or
    blue when it was published back.  Whatever fails, nothing is acknowledged earlier. *)
Theorem rabbit_input_acks (n : nat) (tr1 tr2 : trace) (d : delivery) (r : result string unit)
    (res : option (result string unit)) :
  exec (run_input_pipeline state n) (tr1 ++ Ev (AInceptor (QAck d)) r :: tr2) res ->
  exists queue, taken tr1 queue d
  /\ ((input_queue state = Ok queue
       /\ exists percent, (active state Duplicator = false -> active state Splitter = true ->
                           Ev (AInceptor LoadPercent) percent ∈ tr1)
          /\ forall target, target ∈ input_targets percent d -> published tr1 target d)
      \/ exists target, drains_back queue target /\ published tr1 target d).
Proof. apply (safe_exec (acks_after input_settled)). apply pipeline_safe. Qed.
End Input.

(** *** The combiner *)

Section Combiner.
Context `{Regexes, JsonText, Sha256}.
Context (state : RabbitState) (source_queue result_queue : string).

Definition output_settled (tr : trace) (queue : string) (d : delivery) : Prop :=
  (queue = source_queue /\ published tr result_queue d)
  \/ (shadow_queue_name (rs_config state) source_queue = Some queue
      /\ published tr (unwrap_or result_queue (shadow_queue_name (rs_config state) result_queue)) d).

Lemma stable_output_settled q d : stable (fun tr => output_settled tr q d).
Proof.
  intros tr tr' [[Hq Hp]|[Hq Hp]]; [left|right]; (split; [done|]); by apply stable_published.
Qed.

Lemma combine_turn_safe consume_channel publish_channel combiner u :
  safe (acks_after output_settled)
    (combine_turn state consume_channel publish_channel combiner source_queue result_queue u).
Proof.
  unfold combine_turn. apply safe_bind; [apply mode_safe|]. intros mode.
  destruct (negb _); [apply safe_Ret|]. intros pre. apply always_bind, always_request.
  intros got. split; [done|]. destruct got as [[d|]|e]; [|by split|done].
  apply always_bind. apply (always_only _ no_ack); [by unfold runtime_mode|by intros; apply no_ack_ok|].
  intros tr mode' _. destruct (negb _); [by apply always_bind, always_request; split|].
  apply always_bind. unfold combine_message. cbv zeta. apply (always_post _ _ _ (fun _ _ => True)); [done|].
  apply always_bind. apply always_request. intros r. split; [done|]. destruct r as [[]|e]; [|done].
  assert (published ((pre ++ [Ev (AInceptor (QGet consume_channel source_queue)) (Ok (Some d))]) ++ tr
                      ++ [Ev (AInceptor (QPublish publish_channel result_queue (dl_data d) (dl_properties d)))
                            (Ok tt)]) result_queue d) as Hp.
  { exists publish_channel. rewrite app_assoc. apply mem_last. }
  rewrite <- app_assoc. apply (settle_message _ _ source_queue).
  - exists consume_channel. apply mem_app, mem_last.
  - case_match; [|done]. case_match; [apply observe_no_ack|done].
  - intros tr'. left. split; [done|]. by apply stable_published.
Qed.

Lemma drain_output_safe n : safe (acks_after output_settled) (drain_output_queue state n source_queue result_queue).
Proof.
  unfold drain_output_queue. apply safe_bind_loop_err; [safe|]. intros channel.
  apply drain_source_safe; [by left|by right].
Qed.

Lemma combine_loop_safe n : safe (acks_after output_settled) (run_combine_loop state n source_queue result_queue).
Proof.
  unfold run_combine_loop, combine_loop_turn, run_combine_loop_once, create_channel, pause.
  safe; first [done|apply drain_output_safe|apply combine_turn_safe].
Qed.

(** The combiner acknowledges an output message only after it was published to the result queue (a
    message of the shadow queue: to the shadow of the result queue). *)
Theorem rabbit_combiner_acks (n : nat) (tr1 tr2 : trace) (d : delivery) (r : result string unit)
    (res : option (result string unit)) :
  exec (run_combine_loop state n source_queue result_queue) (tr1 ++ Ev (AInceptor (QAck d)) r :: tr2) res ->
  exists queue, taken tr1 queue d
  /\ ((queue = source_queue /\ published tr1 result_queue d)
      \/ (shadow_queue_name (rs_config state) source_queue = Some queue
          /\ published tr1 (unwrap_or result_queue (shadow_queue_name (rs_config state) result_queue)) d)).
Proof. apply (safe_exec (acks_after output_settled)). apply combine_loop_safe. Qed.
End Combiner.

(** ** Moving messages on a broker that works *)

Notation message := (string * BasicProperties)%type.

Notation settings := (queue_options * FieldTable)%type.

(** A broker with nobody else at it: the queues it has, with the settings they were declared with and
    their messages; the deliveries that are not acknowledged, the last one first; the open channels. *)
Class Broker := {
  broker : Type;
  settings_of : broker -> string -> option settings;
  messages : broker -> string -> list message;
  unacked : broker -> list delivery;
  is_open : broker -> Z -> Prop;
  serve_broker : forall act : action, broker -> reply act * broker }.

Section Broker.
Context `{Broker}.

(** Queues are as they were, and channels are still open. *)
Definition kept (b b' : broker) : Prop :=
  (forall q, settings_of b' q = settings_of b q) /\ forall c, is_open b c -> is_open b' c.
Definition same (b b' : broker) : Prop :=
  kept b b' /\ unacked b' = unacked b /\ forall q, messages b' q = messages b q.

(** The answers of the AMQP model of RabbitMQ.  A publish by the default exchange to a queue that does
    not exist is confirmed and the message dropped; a get from one is an error of the channel, which is
    closed; to declare a queue that exists with other settings is another. *)
Class BrokerLaws : Prop := {
  missing_is_empty b q : settings_of b q = None -> messages b q = [];
  get_empty b channel q : is_open b channel -> is_Some (settings_of b q) -> messages b q = [] ->
    let '(r, b') := serve_broker (AInceptor (QGet channel q)) b in r = Ok None /\ same b b';
  get_first b channel q m ms : is_open b channel -> messages b q = m :: ms ->
    let '(r, b') := serve_broker (AInceptor (QGet channel q)) b in
    (exists d, r = Ok (Some d) /\ dl_channel d = channel /\ (dl_data d, dl_properties d) = m
               /\ unacked b' = d :: unacked b)
    /\ kept b b' /\ messages b' q = ms /\ forall q', q' <> q -> messages b' q' = messages b q';
  get_missing b channel q : is_open b channel -> settings_of b q = None ->
    let '(r, b') := serve_broker (AInceptor (QGet channel q)) b in
    (exists e, r = Err e /\ is_missing_queue_error e = true) /\ ~ is_open b' channel
    /\ (forall q', settings_of b' q' = settings_of b q') /\ forall q', messages b' q' = messages b q';
  publish_appends b channel q data p : is_open b channel -> is_Some (settings_of b q) ->
    let '(r, b') := serve_broker (AInceptor (QPublish channel q data p)) b in
    r = Ok tt /\ kept b b' /\ unacked b' = unacked b /\ messages b' q = messages b q ++ [(data, p)]
    /\ forall q', q' <> q -> messages b' q' = messages b q';
  publish_unroutable b channel q data p : is_open b channel -> settings_of b q = None ->
    let '(r, b') := serve_broker (AInceptor (QPublish channel q data p)) b in r = Ok tt /\ same b b';
  publish_closed b channel q data p : ~ is_open b channel ->
    let '(r, b') := serve_broker (AInceptor (QPublish channel q data p)) b in is_ok r = false /\ same b b';
  ack_last b d ds : is_open b (dl_channel d) -> unacked b = d :: ds ->
    let '(r, b') := serve_broker (AInceptor (QAck d)) b in
    r = Ok tt /\ kept b b' /\ unacked b' = ds /\ forall q', messages b' q' = messages b q';
  declare_new b channel q o arguments : is_open b channel -> settings_of b q = None ->
    let '(r, b') := serve_broker (AInceptor (QDeclare channel q o arguments)) b in
    r = Ok tt /\ settings_of b' q = Some (o, arguments) /\ (forall q', q' <> q -> settings_of b' q' = settings_of b q')
    /\ (forall c, is_open b c -> is_open b' c) /\ unacked b' = unacked b /\ forall q', messages b' q' = messages b q';
  declare_again b channel q o arguments : is_open b channel -> settings_of b q = Some (o, arguments) ->
    let '(r, b') := serve_broker (AInceptor (QDeclare channel q o arguments)) b in r = Ok tt /\ same b b';
  declare_other b channel q o arguments s : is_open b channel -> settings_of b q = Some s -> s <> (o, arguments) ->
    let '(r, b') := serve_broker (AInceptor (QDeclare channel q o arguments)) b in
    is_ok r = false /\ ~ is_open b' channel /\ forall q', messages b' q' = messages b q';
  env_harmless b name : same b (serve_broker (AEnv name) b).2 }.
End Broker.

Section Moves.
Context `{BrokerLaws}.

(** What becomes of a message published to [target]: it arrives when the queue exists. *)
Definition arrives (b : broker) (target : string) : bool := is_some (settings_of b target).

Definition moved (b b' : broker) (source target : string) : Prop :=
  kept b b' /\ unacked b' = unacked b
  /\ messages b' source = []
  /\ messages b' target = messages b target ++ (if arrives b target then messages b source else [])
  /\ forall q, q <> source -> q <> target -> messages b' q = messages b q.

Lemma kept_trans b1 b2 b3 : kept b1 b2 -> kept b2 b3 -> kept b1 b3.
Proof. intros [S1 O1] [S2 O2]. split; [intros q; by rewrite S2|]. intros c Hc. by apply O2, O1. Qed.
Lemma same_refl b : same b b.
Proof. by split_and!. Qed.
Lemma some_messages b q m ms : messages b q = m :: ms -> is_Some (settings_of b q).
Proof. intros E. destruct (settings_of b q) eqn:Es; [by eexists|]. apply missing_is_empty in Es. congruence. Qed.

Lemma turn_empty b channel source target count :
  is_open b channel -> is_Some (settings_of b source) -> messages b source = [] ->
  exists tr b', run serve_broker (move_message channel source target count) b = (inr (Ok count), tr, b') /\ same b b'.
Proof.
  intros Ho Hs Em. unfold move_message, cell, request. cbn [bind_prog run].
  pose proof (get_empty b channel source Ho Hs Em) as Hg.
  destruct (serve_broker (AInceptor (QGet channel source)) b) as [r b1]. destruct Hg as [-> Hq].
  by eexists _, b1.
Qed.

(** A publish is confirmed either way. *)
Lemma publish_run b channel target data p : is_open b channel ->
  let '(r, b') := serve_broker (AInceptor (QPublish channel target data p)) b in
  r = Ok tt /\ kept b b' /\ unacked b' = unacked b
  /\ messages b' target = messages b target ++ (if arrives b target then [(data, p)] else [])
  /\ forall q', q' <> target -> messages b' q' = messages b q'.
Proof.
  intros Ho. unfold arrives. destruct (settings_of b target) as [s|] eqn:Es; cbn [is_some].
  - apply publish_appends; [done|by eexists].
  - pose proof (publish_unroutable b channel target data p Ho Es) as Hp.
    destruct (serve_broker _ b) as [r b']. destruct Hp as (-> & Hk & Hu & Hm).
    split_and!; [done..|by rewrite app_nil_r|intros; apply Hm].
Qed.

(** A turn takes the first message off the source, then puts it at the end of the target. *)
Lemma turn_moves b channel source target count m ms : is_open b channel -> messages b source = m :: ms ->
  exists tr b', run serve_broker (move_message channel source target count) b
    = (inl (wrap_u32 (count + 1)), tr, b')
  /\ kept b b' /\ unacked b' = unacked b
  /\ forall q, messages b' q
      = (if decide (q = source) then ms else messages b q)
        ++ (if decide (q = target) then if arrives b target then [m] else [] else []).
Proof.
  intros Hop Em. unfold move_message, publish_confirmed, cell, request. cbn [bind_prog run].
  pose proof (get_first b channel source m ms Hop Em) as Hg.
  destruct (serve_broker (AInceptor (QGet channel source)) b) as [r b1].
  destruct Hg as ((d & -> & Hch & <- & Hu) & Hk1 & Hs & Ho). cbn [bind_prog run].
  pose proof (publish_run b1 channel target (dl_data d) (dl_properties d) (proj2 Hk1 _ Hop)) as Hp.
  assert (arrives b1 target = arrives b target) as Ea by (unfold arrives; by rewrite (proj1 Hk1)). rewrite Ea in Hp.
  destruct (serve_broker (AInceptor (QPublish channel target (dl_data d) (dl_properties d))) b1) as [r b2].
  destruct Hp as (-> & Hk2 & Hu2 & Ht & Ho'). cbn [bind_prog run].
  pose proof (kept_trans _ _ _ Hk1 Hk2) as Hk. rewrite Hu in Hu2.
  pose proof (ack_last b2 d (unacked b)) as Ha. rewrite Hch in Ha. specialize (Ha (proj2 Hk _ Hop) Hu2).
  destruct (serve_broker (AInceptor (QAck d)) b2) as [r b3].
  destruct Ha as (-> & Hk3 & Hu3 & Hq). cbn [bind_prog run]. eexists _, b3. split; [done|].
  split; [by eapply kept_trans|]. split; [done|].
  intros q. rewrite Hq. destruct (decide (q = target)) as [->|Ht'].
  - rewrite Ht. f_equal. destruct (decide (target = source)) as [->|]; [done|by apply Ho].
  - rewrite Ho', app_nil_r by done. destruct (decide (q = source)) as [->|]; [done|by apply Ho].
Qed.

Lemma move_completes_from n channel source target : source <> target ->
  forall b count, is_open b channel -> is_Some (settings_of b source) -> (length (messages b source) < n)%nat ->
  exists count' tr b', run serve_broker (loop n count (move_message channel source target)) b
    = (Some (Ok count'), tr, b') /\ moved b b' source target.
Proof.
  intros Hne. induction n as [|n IH]; intros b count Hop Hex Hn; [lia|]. rewrite run_loop.
  destruct (messages b source) as [|m ms] eqn:Em.
  - destruct (turn_empty b channel source target count Hop Hex Em) as (tr & b' & -> & Hk & Hu & Hq).
    eexists _, _, b'. split; [done|]. split_and!; [done..|by rewrite Hq| |].
    + rewrite Hq, Em. by destruct (arrives b target); rewrite app_nil_r.
    + intros q _ _. apply Hq.
  - destruct (turn_moves b channel source target count m ms Hop Em) as (tr & b1 & -> & Hk & Hu & Hq).
    pose proof (Hq source) as Hs. pose proof (Hq target) as Ht.
    rewrite decide_True, decide_False, app_nil_r in Hs by done.
    rewrite decide_False, decide_True in Ht by done.
    destruct (IH b1 (wrap_u32 (count + 1))) as (count' & tr' & b' & -> & Hk' & Hu' & Hm1 & Hm2 & Hm3).
    { by apply Hk. } { by rewrite (proj1 Hk). } { rewrite Hs. cbn in Hn. lia. }
    assert (arrives b1 target = arrives b target) as Ea by (unfold arrives; by rewrite (proj1 Hk)).
    eexists _, _, b'. split; [done|]. split_and!; [by eapply kept_trans|by rewrite Hu'|done| |].
    + rewrite Hm2, Hs, Ht, Em, Ea, <- app_assoc. by destruct (arrives b target).
    + intros q Hqs Hqt. rewrite Hm3, Hq, !decide_False, app_nil_r by done. done.
Qed.

Lemma move_run n channel source target b : source <> target -> is_open b channel -> is_Some (settings_of b source) ->
  (length (messages b source) < n)%nat ->
  exists count tr b', run serve_broker (move_queue_messages n channel source target) b = (Some (Ok count), tr, b')
  /\ moved b b' source target.
Proof. intros Hne Ho He Hn. by apply (move_completes_from n channel source target Hne b 0). Qed.

(** With nobody else at the source, a move between queues that exist ends: after one turn more than
    there are messages the source is empty, the target has all of them after its own, in their order,
    none is left unacknowledged, and no other queue has changed. *)
Theorem rabbit_move_completes (n : nat) (channel : Z) (source target : string) (b : broker) :
  source <> target -> is_open b channel -> is_Some (settings_of b source) -> is_Some (settings_of b target) ->
  (length (messages b source) < n)%nat ->
  exists count tr b', run serve_broker (move_queue_messages n channel source target) b = (Some (Ok count), tr, b')
  /\ messages b' source = [] /\ messages b' target = messages b target ++ messages b source
  /\ unacked b' = unacked b /\ forall q, q <> source -> q <> target -> messages b' q = messages b q.
Proof.
  intros Hne Ho Hs Ht Hn. destruct (move_run n channel source target b Hne Ho Hs Hn)
    as (count & tr & b' & Er & _ & Hu & Hm1 & Hm2 & Hm3).
  exists count, tr, b'. split_and!; try done. rewrite Hm2. unfold arrives. by destruct Ht as [? ->].
Qed.

(** To a queue that does not exist a move ends in success all the same, and the messages are gone. *)
Theorem rabbit_move_loses (n : nat) (channel : Z) (source target : string) (b : broker) :
  source <> target -> is_open b channel -> is_Some (settings_of b source) -> settings_of b target = None ->
  (length (messages b source) < n)%nat ->
  exists count tr b', run serve_broker (move_queue_messages n channel source target) b = (Some (Ok count), tr, b')
  /\ messages b' source = [] /\ messages b' target = [] /\ forall q, q <> source -> messages b' q = messages b q.
Proof.
  intros Hne Ho Hs Ht Hn. destruct (move_run n channel source target b Hne Ho Hs Hn)
    as (count & tr & b' & Er & _ & _ & Hm1 & Hm2 & Hm3).
  unfold arrives in Hm2. rewrite Ht, (missing_is_empty b target Ht) in Hm2. cbn in Hm2.
  exists count, tr, b'. split_and!; [done..|]. intros q Hq. destruct (decide (q = target)) as [->|]; [|by apply Hm3].
  by rewrite Hm2, missing_is_empty.
Qed.

(** From a queue to itself a move never ends. *)
Lemma rabbit_self_move (channel : Z) (queue : string) (n : nat) : forall b count,
  is_open b channel -> messages b queue <> [] ->
  (run serve_broker (loop n count (move_message channel queue queue)) b).1.1 = None.
Proof.
  induction n as [|n IH]; intros b count Hop Hne; [done|]. rewrite run_loop.
  destruct (messages b queue) as [|m ms] eqn:Em; [done|].
  destruct (turn_moves b channel queue queue count m ms Hop Em) as (tr & b1 & -> & Hk & _ & Hq).
  specialize (IH b1 (wrap_u32 (count + 1)) (proj2 Hk _ Hop)). rewrite Hq, !decide_True in IH by done.
  assert (arrives b queue = true) as Ea by (unfold arrives; by destruct (some_messages _ _ _ _ Em) as [? ->]).
  rewrite Ea in IH. assert (ms ++ [m] <> []) as Hn by by destruct ms.
  specialize (IH Hn). by destruct (run serve_broker _ b1) as [[? ?] ?].
Qed.

(** *** A drain *)

Section Drain.
Context `{Sha256}.
Context (state : RabbitState).

Definition shadow (q : string) : list string := option_list (shadow_queue_name (rs_config state) q).
(** The queues a drain empties and the ones it fills, pairwise different. *)
Definition drain_queues (base green blue : string) : list string :=
  [base; green; blue] ++ shadow base ++ shadow green ++ shadow blue.
(** Those of one of the queues. *)
Definition drain_pair (source base : string) : list string := [base; source] ++ shadow base ++ shadow source.

(** A queue and its shadow queue were drained to the base queue and its shadow. *)
Definition drained (b b' : broker) (source base : string) : Prop :=
  kept b b' /\ unacked b' = unacked b
  /\ messages b' source = [] /\ messages b' base = messages b base ++ messages b source
  /\ (forall s sb, shadow_queue_name (rs_config state) source = Some s ->
        shadow_queue_name (rs_config state) base = Some sb ->
        messages b' s = [] /\ messages b' sb = messages b sb ++ messages b s)
  /\ forall q, q ∉ drain_pair source base -> messages b' q = messages b q.

Lemma drain_source_run n channel source base b :
  is_open b channel -> (forall q, q ∈ drain_pair source base -> is_Some (settings_of b q)) ->
  NoDup (drain_pair source base) -> (forall q, q ∈ source :: shadow source -> (length (messages b q) < n)%nat) ->
  exists tr b', run serve_broker (drain_source state n channel source base) b = (Some (Ok tt), tr, b')
  /\ drained b b' source base.
Proof.
  intros Hop Hex Hnd Hlen. unfold drain_source, drained, drain_pair, shadow, shadow_queue_name in *.
  assert (forall b1 q, kept b b1 -> is_Some (settings_of b q) -> arrives b1 q = true) as Har.
  { intros b1 q [Hs _] [x Hx]. unfold arrives. by rewrite Hs, Hx. }
  destruct (rc_shadow_queue (rs_config state)) as [cfg|]; cbn [fmap option_fmap option_map option_list option_rect app] in *;
    all_different; destruct (move_run n channel source base b) as (count & tr & b1 & Er & Hk & Hu & Hm1 & Hm2 & Hm3);
    try distinct; try done; try (apply Hlen; set_solver); try (apply Hex; set_solver);
    rewrite (run_bind_loop_err _ _ _ _ _ _ _ Er); rewrite (Har b) in Hm2 by (done || apply Hex; set_solver).
  - destruct (move_run n channel (derived_shadow_queue_name source (shq_suffix cfg))
      (derived_shadow_queue_name base (shq_suffix cfg)) b1) as (count' & tr' & b2 & Er' & Hk' & Hu' & Hn1 & Hn2 & Hn3);
      [distinct|by apply Hk|rewrite (proj1 Hk); apply Hex; set_solver|rewrite Hm3 by distinct; apply Hlen; set_solver|].
    rewrite (Har b1) in Hn2 by (done || apply Hex; set_solver).
    cbn [unwrap_or default]. change (default base (Some ?q)) with q.
    rewrite (run_bind_loop_err _ _ _ _ _ _ _ Er'). eexists _, b2. split; [done|]. split_and!.
    + by eapply kept_trans.
    + by rewrite Hu'.
    + rewrite Hn3, Hm1; distinct.
    + rewrite Hn3, Hm2; distinct.
    + intros s sb [= <-] [= <-]. split; [done|]. rewrite Hn2, !Hm3; distinct.
    + intros q Hq. rewrite !not_elem_of_cons in Hq. destruct Hq as (? & ? & ? & ? & _). by rewrite Hn3, Hm3.
  - eexists _, b1. split; [done|]. split_and!; [done..|]. intros q Hq. rewrite !not_elem_of_cons in Hq.
    destruct Hq as (? & ? & _). by rewrite Hm3.
Qed.

(** What the two sides of a drain touch. *)
Lemma sides_apart base green blue : NoDup (drain_queues base green blue) ->
  NoDup (drain_pair green base) /\ NoDup (drain_pair blue base)
  /\ (forall q, q ∈ green :: shadow green -> q ∉ drain_pair blue base)
  /\ (forall q, q ∈ blue :: shadow blue -> q ∉ drain_pair green base).
Proof.
  unfold drain_queues, drain_pair, shadow, shadow_queue_name. destruct (rc_shadow_queue (rs_config state)) as [cfg|];
    cbn [fmap option_fmap option_map option_list option_rect app]; intros Hnd; all_different;
    split_and!; try (repeat constructor; rewrite ?not_elem_of_cons; split_and?; try apply not_elem_of_nil; distinct);
    intros q Hq; rewrite !not_elem_of_cons; rewrite !elem_of_cons, elem_of_nil in Hq;
    repeat destruct Hq as [->|Hq]; try done; split_and?; try apply not_elem_of_nil; distinct.
Qed.

(** The settings the plugin declares a queue with, when its arguments have a form AMQP knows. *)
Definition declared_as (d : QueueDeclarationConfig) (s : settings) : Prop :=
  queue_arguments d = Ok s.2
  /\ s.1 = {| qo_durable := durable_or_default d; qo_exclusive := unwrap_or false (qd_exclusive d);
              qo_auto_delete := unwrap_or false (qd_auto_delete d) |}.

(** What a declaration of a queue leaves: the queue is there, and everything else as it was. *)
Definition declared (b b' : broker) (queue : string) : Prop :=
  is_Some (settings_of b' queue) /\ (forall q, q <> queue -> settings_of b' q = settings_of b q)
  /\ (forall c, is_open b c -> is_open b' c) /\ unacked b' = unacked b /\ forall q, messages b' q = messages b q.

Lemma declare_run channel queue d s b : declared_as d s -> is_open b channel ->
  (settings_of b queue = None \/ settings_of b queue = Some s) ->
  exists tr b', run serve_broker (declare_queue channel queue d) b = (Ok tt, tr, b') /\ declared b b' queue.
Proof.
  destruct s as [o arguments]. intros [Ea Eo] Hop Hs. cbn in Ea, Eo. unfold declare_queue. rewrite Ea, <- Eo.
  cbn. destruct Hs as [Hs|Hs].
  - pose proof (declare_new b channel queue o arguments Hop Hs) as Hd. destruct (serve_broker _ b) as [r b1].
    destruct Hd as (-> & Hq & Hd). eexists _, b1. split; [done|]. split; [by rewrite Hq|done].
  - pose proof (declare_again b channel queue o arguments Hop Hs) as Hd. destruct (serve_broker _ b) as [r b1].
    destruct Hd as (-> & [Hq Hop'] & Hu & Hm). eexists _, b1. split; [done|]. split_and!; [by rewrite Hq, Hs|by intros|done..].
Qed.

(** The plugin is told to leave queues alone. *)
Definition infra_disabled (b : broker) : Prop := (run serve_broker inceptor_infra_disabled b).1.1 = true.
(** The shadow queue of the base queue is there, or the plugin may create it. *)
Definition shadow_ready (b : broker) (base : string) : Prop :=
  forall sb, shadow_queue_name (rs_config state) base = Some sb ->
  match settings_of b sb with
  | Some s => infra_disabled b \/ declared_as (shadow_declaration (rs_config state)) s
  | None => ~ infra_disabled b /\ exists s, declared_as (shadow_declaration (rs_config state)) s
  end.

(** The shadow of the base queue is declared first. *)
Lemma declare_shadow_run channel base b : is_open b channel -> shadow_ready b base ->
  exists tr b0, run serve_broker (whole
      (let! disabled := inceptor_infra_disabled in
       match shadow_queue_name (rs_config state) base with
       | Some base_shadow_queue =>
           if disabled then Ret (Ok tt)
           else declare_queue channel base_shadow_queue (shadow_declaration (rs_config state))
       | None => Ret (Ok tt)
       end)) b = (Some (Ok tt), tr, b0)
  /\ (forall q, q ∈ shadow base -> is_Some (settings_of b0 q))
  /\ (forall q, is_Some (settings_of b q) -> is_Some (settings_of b0 q))
  /\ (forall c, is_open b c -> is_open b0 c) /\ unacked b0 = unacked b /\ forall q, messages b0 q = messages b q.
Proof.
  intros Hop Hready. unfold shadow_ready, infra_disabled, inceptor_infra_disabled, env, request in Hready.
  unfold whole, inceptor_infra_disabled, env, request, shadow. cbn [bind_prog run] in *.
  pose proof (env_harmless b "FLUIDBG_INCEPTOR_INFRA_DISABLED") as He.
  destruct (serve_broker (AEnv "FLUIDBG_INCEPTOR_INFRA_DISABLED") b) as [r b1]. cbn in He, Hready.
  destruct He as ([Hs1 Ho1] & Hu1 & Hm1).
  assert (forall q, is_Some (settings_of b q) -> is_Some (settings_of b1 q)) as Hsome by (intros q; by rewrite Hs1).
  destruct (shadow_queue_name (rs_config state) base) as [sb|]; [|eexists _, b1; split; [done|];
    split_and!; try done; by intros ? ?%not_elem_of_nil].
  specialize (Hready sb eq_refl). cbn [option_list option_rect].
  destruct (match r with Some v => String.eqb v "true" | None => false end) eqn:Ed.
  - eexists _, b1. split; [done|]. split_and!; try done. intros q ->%list_elem_of_singleton.
    rewrite Hs1. destruct (settings_of b sb); [by eexists|]. by destruct Hready as [[] _].
  - assert (exists s, declared_as (shadow_declaration (rs_config state)) s
      /\ (settings_of b1 sb = None \/ settings_of b1 sb = Some s)) as (s & Hds & Hs).
    { rewrite Hs1. destruct (settings_of b sb) as [s|]; [|destruct Hready as [_ [s ?]]; exists s; auto].
      destruct Hready as [[=]|?]. exists s. auto. }
    destruct (declare_run channel sb _ s b1 Hds (Ho1 _ Hop) Hs) as (tr & b2 & E2 & Hsb & Hso & Ho2 & Hu2 & Hm2).
    rewrite run_bind, E2. cbn. eexists _, b2. split; [done|]. split_and!.
    + by intros q ->%list_elem_of_singleton.
    + intros q Hq. destruct (decide (q = sb)) as [->|]; [done|]. rewrite Hso by done. by apply Hsome.
    + intros c Hc. by apply Ho2, Ho1.
    + by rewrite Hu2.
    + intros q. by rewrite Hm2, Hm1.
Qed.

(** C24. On RabbitMQ with nobody else at the queues, a drain of the input queues ends: the queues of green
    and blue, and their shadows, are empty, every message is back in the base queue or its shadow, in
    order, none lost, none twice and none left unacknowledged.  The channel is open, the base queue, those
    of green and blue and their shadows exist, and the shadow of the base queue does too, with the settings
    the plugin declares it with (or any, where it is told to leave queues alone), or the plugin creates it. *)
Theorem rabbit_drain_completes (n : nat) (channel : Z) (b : broker) (base green blue : string) :
  input_queues state = Ok (Some (base, green, blue)) ->
  is_open b channel ->
  (forall q, q ∈ [base; green; blue] ++ shadow green ++ shadow blue -> is_Some (settings_of b q)) ->
  shadow_ready b base ->
  NoDup (drain_queues base green blue) ->
  (forall q, q ∈ drain_queues base green blue -> (length (messages b q) < n)%nat) ->
  exists tr b', run serve_broker (drain_input_queues state n channel) b = (Some (Ok tt), tr, b')
  /\ unacked b' = unacked b /\ messages b' green = [] /\ messages b' blue = []
  /\ messages b' base = messages b base ++ messages b green ++ messages b blue
  /\ forall sb sg sl, shadow_queue_name (rs_config state) base = Some sb ->
       shadow_queue_name (rs_config state) green = Some sg -> shadow_queue_name (rs_config state) blue = Some sl ->
       messages b' sg = [] /\ messages b' sl = []
       /\ messages b' sb = messages b sb ++ messages b sg ++ messages b sl.
Proof.
  intros Hq Hop Hex Hready Hnd Hlen. unfold drain_input_queues. rewrite Hq. cbv beta iota.
  destruct (declare_shadow_run channel base b Hop Hready) as (tr0 & b0 & E0 & Hsb & Hex0 & Hop0 & Hu0 & Hb0).
  rewrite (run_bind_loop_err _ _ _ _ _ _ _ E0). apply sides_apart in Hnd as (Hng & Hnl & Hgreen & Hblue).
  assert (forall q, q ∈ [base; green; blue] ++ shadow base ++ shadow green ++ shadow blue -> is_Some (settings_of b0 q)) as Hall.
  { intros q Hin. rewrite !elem_of_app in Hin. destruct Hin as [Hin|[Hin|Hin]]; [|by apply Hsb|];
      apply Hex0, Hex; rewrite !elem_of_app; tauto. }
  unfold drain_queues, drain_pair in *.
  destruct (drain_source_run n channel green base b0) as (tr1 & b1 & E1 & [Hs1 Ho1] & U1 & G1 & B1 & S1 & K1); [auto| |done| |].
  { intros q Hin. apply Hall. unfold drain_pair in Hin. set_solver. }
  { intros q Hin. rewrite Hb0. apply Hlen. set_solver. }
  destruct (drain_source_run n channel blue base b1) as (tr2 & b2 & E2 & _ & U2 & G2 & B2 & S2 & K2); [auto| |done| |].
  { intros q Hin. rewrite Hs1. apply Hall. unfold drain_pair in Hin. set_solver. }
  { intros q Hin. rewrite K1, Hb0 by (by apply Hblue). apply Hlen. set_solver. }
  rewrite (run_bind_loop_err _ _ _ _ _ _ _ E1), E2. eexists _, b2. split; [done|]. split_and!; [| |done| |].
  - by rewrite U2, U1.
  - rewrite K2; [done|]. apply Hgreen. left.
  - rewrite B2, B1, K1, !Hb0 by (apply Hblue; left). by rewrite app_assoc.
  - intros sb sg sl Esb Esg Esl. destruct (S1 sg sb Esg Esb) as [Z1 T1], (S2 sl sb Esl Esb) as [Z2 T2].
    assert (sl ∈ blue :: shadow blue) as Hsl by (unfold shadow; rewrite Esl; right; left).
    assert (sg ∈ green :: shadow green) as Hsg by (unfold shadow; rewrite Esg; right; left).
    split_and!; [rewrite K2; auto|done|]. rewrite T2, T1, K1, !Hb0 by auto. by rewrite app_assoc.
Qed.
End Drain.
End Moves.

(** ** A broker in memory *)

#[export] Instance AMQPValue_eq_dec : EqDecision AMQPValue.
Proof. solve_decision. Defined.
#[export] Instance queue_options_eq_dec : EqDecision queue_options.
Proof. solve_decision. Defined.

Record queues := {
  mb_queues : gmap string (settings * list message); mb_unacked : list delivery; mb_open : list Z }.
Definition of_queue (b : queues) (q : string) : list message := default [] (snd <$> mb_queues b !! q).
Definition with_queues (b : queues) (m : gmap string (settings * list message)) : queues :=
  {| mb_queues := m; mb_unacked := mb_unacked b; mb_open := mb_open b |}.
Definition with_unacked (b : queues) (ds : list delivery) : queues :=
  {| mb_queues := mb_queues b; mb_unacked := ds; mb_open := mb_open b |}.
(** A closed channel is not opened again. *)
Definition close (b : queues) (channel : Z) : queues :=
  {| mb_queues := mb_queues b; mb_unacked := mb_unacked b;
     mb_open := List.filter (fun c => negb (Z.eqb c channel)) (mb_open b) |}.
Definition on_channel {A} (b : queues) (channel : Z) (serve : result string A * queues) : result string A * queues :=
  if existsb (Z.eqb channel) (mb_open b) then serve else (Err "channel closed", b).

Definition memory_op (op : inceptor_op) (b : queues) : inceptor_reply op * queues :=
  match op as o return inceptor_reply o * queues with
  | QGet channel q =>
      on_channel b channel
        match mb_queues b !! q with
        | None => (Err ("NOT_FOUND - no queue '" +:+ q +:+ "' in vhost '/'"), close b channel)
        | Some (_, []) => (Ok None, b)
        | Some (s, (data, p) :: ms) =>
            let d := {| dl_channel := channel; dl_tag := 1; dl_data := data; dl_properties := p |} in
            (Ok (Some d), with_unacked (with_queues b (<[q := (s, ms)]> (mb_queues b))) (d :: mb_unacked b))
        end
  | QPublish channel q data p =>
      on_channel b channel
        match mb_queues b !! q with
        | None => (Ok tt, b)
        | Some (s, ms) => (Ok tt, with_queues b (<[q := (s, ms ++ [(data, p)])]> (mb_queues b)))
        end
  | QAck d =>
      on_channel b (dl_channel d)
        match mb_unacked b with
        | d' :: ds => if Z.eqb (dl_tag d') (dl_tag d) then (Ok tt, with_unacked b ds)
                      else (Err "PRECONDITION_FAILED - unknown delivery tag", close b (dl_channel d))
        | [] => (Err "PRECONDITION_FAILED - unknown delivery tag", close b (dl_channel d))
        end
  | QDeclare channel q o arguments =>
      on_channel b channel
        match mb_queues b !! q with
        | None => (Ok tt, with_queues b (<[q := ((o, arguments), [])]> (mb_queues b)))
        | Some (s, _) => if decide (s = (o, arguments)) then (Ok tt, b)
                         else (Err "PRECONDITION_FAILED - inequivalent arg", close b channel)
        end
  | ICall _ => (Ok good_response, b)
  | QState _ q => (Ok (Z.of_nat (length (of_queue b q)), 0), b)
  | QConnect _ _ => (Ok 1, b)
  | QChannel _ => (Ok 1, b)
  | QNack _ => (Ok tt, b)
  | QDelete _ q => (Ok tt, with_queues b (delete q (mb_queues b)))
  | LoadMode => (mode_code Active, b)
  | LoadPercent => (100, b)
  | LoadActive | LoadReady => (0, b)
  | StoreMode _ | StorePercent _ | AddActive _ | StoreReady _ | OrReady _ => (tt, b)
  | ReadyNotified _ => (false, b)
  | NewTokens => (0, b)
  | LockToken _ _ => (None, b)
  | StoreToken _ _ _ | UnlockToken _ _ => (tt, b)
  | INats op => (nats_refusal op, b)
  end.
Definition memory_serve (act : action) (b : queues) : reply act * queues :=
  match act as a return reply a * queues with
  | AInceptor op => memory_op op b
  | a => ((serve a empty_world).1, b)
  end.
Definition memory_broker : Broker :=
  {| broker := queues; settings_of := fun b q => fst <$> mb_queues b !! q; messages := of_queue;
     unacked := mb_unacked; is_open := fun b c => c ∈ mb_open b; serve_broker := memory_serve |}.

Lemma open_channel_serves {A} (b : queues) channel (served : result string A * queues) :
  channel ∈ mb_open b -> on_channel b channel served = served.
Proof.
  intros Hin. unfold on_channel. assert (existsb (Z.eqb channel) (mb_open b) = true) as ->; [|done].
  apply existsb_exists. exists channel. split; [by apply list_elem_of_In|apply Z.eqb_refl].
Qed.
Lemma closed_channel b channel : channel ∉ mb_open (close b channel).
Proof. intros [_ Hc]%list_elem_of_In%filter_In. by rewrite Z.eqb_refl in Hc. Qed.
Lemma put_settings (b : queues) q s ms q' : fst <$> mb_queues b !! q = Some s ->
  fst <$> <[q := (s, ms)]> (mb_queues b) !! q' = (fst <$> mb_queues b !! q' : option settings).
Proof. intros Hs. destruct (decide (q' = q)) as [->|]; [by rewrite lookup_insert_eq, Hs|by rewrite lookup_insert_ne]. Qed.

Lemma memory_broker_laws : @BrokerLaws memory_broker.
Proof.
  split; unfold same, kept; cbn [settings_of messages unacked is_open serve_broker memory_broker memory_serve memory_op];
    intros b; unfold of_queue.
  - intros q E. by destruct (mb_queues b !! q).
  - intros channel q Ho [s Hs] E. rewrite open_channel_serves by done. destruct (mb_queues b !! q) as [[s' ms]|]; [|done].
    cbn in E. by subst ms.
  - intros channel q m ms Ho E. rewrite open_channel_serves by done. destruct (mb_queues b !! q) as [[s ms']|] eqn:Eq; [|done].
    cbn in E. subst ms'. destruct m as [data p]. split; [by eexists|]. cbn. split_and!; [|done|by rewrite lookup_insert_eq|].
    + intros q'. apply (put_settings b q s ms). by rewrite Eq.
    + intros q' Hne. by rewrite lookup_insert_ne.
  - intros channel q Ho Hs. rewrite open_channel_serves by done. destruct (mb_queues b !! q); [done|].
    split; [by eexists|]. split; [apply closed_channel|done].
  - intros channel q data p Ho [s Hs]. rewrite open_channel_serves by done. destruct (mb_queues b !! q) as [[s' ms]|] eqn:Eq; [|done].
    cbn. split_and!; [done| |done..|by rewrite lookup_insert_eq|].
    + intros q'. apply (put_settings b q s' _). by rewrite Eq.
    + intros q' Hne. by rewrite lookup_insert_ne.
  - intros channel q data p Ho Hs. rewrite open_channel_serves by done. by destruct (mb_queues b !! q).
  - intros channel q data p Ho. unfold on_channel. destruct (existsb (Z.eqb channel) (mb_open b)) eqn:Ee; [|done].
    exfalso. apply Ho. apply existsb_exists in Ee as (c & Hc & ->%Z.eqb_eq). by apply list_elem_of_In.
  - intros d ds Ho E. rewrite open_channel_serves by done. rewrite E, Z.eqb_refl. by split_and!.
  - intros channel q o arguments Ho Hs. rewrite open_channel_serves by done.
    destruct (mb_queues b !! q) eqn:Eq; [done|]. cbn. split_and!; try done.
    + by rewrite lookup_insert_eq.
    + intros q' Hne. by rewrite lookup_insert_ne.
    + intros q'. destruct (decide (q' = q)) as [->|]; [by rewrite lookup_insert_eq, Eq|by rewrite lookup_insert_ne].
  - intros channel q o arguments Ho Hs. rewrite open_channel_serves by done.
    destruct (mb_queues b !! q) as [[s ms]|]; [|done]. cbn in Hs. injection Hs as ->. by rewrite decide_True.
  - intros channel q o arguments s Ho Hs Hne. rewrite open_channel_serves by done.
    destruct (mb_queues b !! q) as [[s' ms]|]; [|done]. cbn in Hs. injection Hs as ->. rewrite decide_False by done.
    split; [done|]. split; [apply closed_channel|done].
  - done.
Qed.

Definition plain (data : string) : message := (data, default_properties).
(** The settings of a declaration without any. *)
Definition default_settings : settings :=
  ({| qo_durable := true; qo_exclusive := false; qo_auto_delete := false |}, ∅).
Definition queues_of (l : list (string * list message)) : queues :=
  {| mb_queues := pair default_settings <$> list_to_map l; mb_unacked := []; mb_open := [1] |}.

Definition work_queues : SplitterConfig :=
  {| in_input_queue := Some "orders"; in_green_queue := Some "orders-green"; in_blue_queue := Some "orders-blue";
     in_green_env := None; in_blue_env := None |}.
Definition result_queues : CombinerConfig :=
  {| cb_output_queue := Some "results"; cb_green_queue := Some "results-green"; cb_blue_queue := Some "results-blue";
     cb_green_env := None; cb_blue_env := None |}.
Definition sample_rabbit (roles : list PluginRole) : RabbitState :=
  {| rs_config :=
       {| rc_queue_declaration := default_declaration;
          rc_shadow_queue := Some {| shq_suffix := "-dlq"; shq_declaration := default_declaration |};
          rc_duplicator := Some work_queues; rc_splitter := Some work_queues; rc_combiner := Some result_queues;
          rc_writer := None; rc_consumer := None; rc_observer := None |};
     rs_roles := roles; rs_amqp_url := "amqp://broker"; rs_runtime := sample_runtime roles |}.

Lemma rabbit_move_completes_witness :
  let b := queues_of [("source", [plain "1"; plain "2"]); ("target", [plain "0"])] in
  exists count tr b', run memory_serve (move_queue_messages 3 1 "source" "target") b = (Some (Ok count), tr, b')
  /\ of_queue b' "source" = [] /\ of_queue b' "target" = [plain "0"; plain "1"; plain "2"].
Proof.
  intros b. destruct (@rabbit_move_completes memory_broker memory_broker_laws 3 1 "source" "target" b)
    as (count & tr & b' & Er & Hs & Ht & _); [discriminate|left|by eexists..|vm_compute; lia|].
  exists count, tr, b'. split_and!; [exact Er|exact Hs|exact Ht].
Defined.

Lemma rabbit_move_loses_witness :
  let b := queues_of [("source", [plain "1"; plain "2"])] in
  exists count tr b', run memory_serve (move_queue_messages 3 1 "source" "target") b = (Some (Ok count), tr, b')
  /\ of_queue b' "source" = [] /\ of_queue b' "target" = [].
Proof.
  intros b. destruct (@rabbit_move_loses memory_broker memory_broker_laws 3 1 "source" "target" b)
    as (count & tr & b' & Er & Hs & Ht & _); [discriminate|left|by eexists|reflexivity|vm_compute; lia|].
  exists count, tr, b'. split_and!; [exact Er|exact Hs|exact Ht].
Defined.

(** The shadow of the base queue is still missing. *)
Definition green_left : queues :=
  queues_of [("orders", [plain "0"]); ("orders-green", [plain "1"; plain "2"]); ("orders-blue", []);
             ("orders-green-dlq", []); ("orders-blue-dlq", [plain "3"])].

Lemma rabbit_drain_completes_witness :
  exists tr b', run memory_serve (drain_input_queues (sample_rabbit [Splitter]) 3 1) green_left
    = (Some (Ok tt), tr, b')
  /\ of_queue b' "orders-green" = [] /\ of_queue b' "orders" = [plain "0"; plain "1"; plain "2"]
  /\ of_queue b' "orders-dlq" = [plain "3"].
Proof.
  destruct (@rabbit_drain_completes memory_broker memory_broker_laws (sample_rabbit [Splitter]) 3 1
    green_left "orders" "orders-green" "orders-blue") as (tr & b' & Er & _ & Hg & _ & Hb & Hs).
  - reflexivity.
  - left.
  - apply Forall_forall. apply (bool_decide_unpack _). vm_compute. exact I.
  - intros sb [= <-]. split; [discriminate|]. exists default_settings. split; reflexivity.
  - apply (bool_decide_unpack _). vm_compute. exact I.
  - apply Forall_forall. apply (bool_decide_unpack _). vm_compute. exact I.
  - exists tr, b'. split_and!; [exact Er|exact Hg|exact Hb|].
    exact (proj2 (proj2 (Hs "orders-dlq" "orders-green-dlq" "orders-blue-dlq" eq_refl eq_refl eq_refl))).
Defined.

(** A duplicator takes one message. *)
Definition duplicating_run : option (result string unit) * trace * queues :=
  run memory_serve (@run_input_pipeline no_regexes no_json_text (sample_rabbit [Duplicator]) 1)
    (queues_of [("orders", [plain "1"])]).

Definition acked_at (tr : trace) (i : nat) : option delivery :=
  match tr !! i with Some (Ev (AInceptor (QAck d)) _) => Some d | _ => None end.

Lemma rabbit_input_acks_witness :
  acked_at duplicating_run.1.2 11 = Some {| dl_channel := 1; dl_tag := 1; dl_data := "1";
                                            dl_properties := default_properties |}
  /\ exists d, acked_at duplicating_run.1.2 11 = Some d
  /\ exists queue, taken (take 11 duplicating_run.1.2) queue d
  /\ ((input_queue (sample_rabbit [Duplicator]) = Ok queue
       /\ exists percent, (active (sample_rabbit [Duplicator]) Duplicator = false ->
                           active (sample_rabbit [Duplicator]) Splitter = true ->
                           Ev (AInceptor LoadPercent) percent ∈ take 11 duplicating_run.1.2)
          /\ forall target, target ∈ input_targets (sample_rabbit [Duplicator]) percent d ->
               published (take 11 duplicating_run.1.2) target d)
      \/ exists target, drains_back (sample_rabbit [Duplicator]) queue target
           /\ published (take 11 duplicating_run.1.2) target d).
Proof.
  split; [vm_compute; reflexivity|].
  destruct (duplicating_run.1.2 !! 11%nat) as [e|] eqn:E; [|vm_compute in E; discriminate].
  pose proof (run_exec memory_serve (@run_input_pipeline no_regexes no_json_text (sample_rabbit [Duplicator]) 1)
    (queues_of [("orders", [plain "1"])])) as He.
  fold duplicating_run in He. rewrite <- (take_drop_middle _ _ _ E) in He at 1.
  unfold acked_at. rewrite E. vm_compute in E. injection E as <-. eexists. split; [reflexivity|].
  exact (@rabbit_input_acks no_regexes no_json_text _ _ _ _ _ _ _ He).
Defined.

(** The combiner takes one message of blue. *)
Definition combining_run : option (result string unit) * trace * queues :=
  run memory_serve (@run_combine_loop no_regexes no_json_text (sample_rabbit [Combiner]) 1 "results-blue" "results")
    (queues_of [("results-blue", [plain "1"])]).

Lemma rabbit_combiner_acks_witness :
  exists i d queue, acked_at combining_run.1.2 i = Some d /\ taken (take i combining_run.1.2) queue d
  /\ ((queue = "results-blue" /\ published (take i combining_run.1.2) "results" d)
      \/ (shadow_queue_name (rs_config (sample_rabbit [Combiner])) "results-blue" = Some queue
          /\ published (take i combining_run.1.2)
               (unwrap_or "results" (shadow_queue_name (rs_config (sample_rabbit [Combiner])) "results")) d)).
Proof.
  exists 14%nat.
  destruct (combining_run.1.2 !! 14%nat) as [e|] eqn:E; [|vm_compute in E; discriminate].
  pose proof (run_exec memory_serve (@run_combine_loop no_regexes no_json_text (sample_rabbit [Combiner]) 1
    "results-blue" "results") (queues_of [("results-blue", [plain "1"])])) as He.
  fold combining_run in He. rewrite <- (take_drop_middle _ _ _ E) in He at 1.
  unfold acked_at. rewrite E. vm_compute in E. injection E as <-.
  destruct (@rabbit_combiner_acks no_regexes no_json_text _ _ _ _ _ _ _ _ _ He) as (queue & Ht & Hs).
  eexists _, queue. split_and!; [reflexivity|exact Ht|exact Hs].
Defined.
