(* ===== verification/RabbitManagerTheorems.v ===== *)
(** * What the RabbitMQ plugin guarantees: queues and users of the manager

    Theorems about [RabbitManager]: a cleanup deletes the temporary queues of the inception
    point its token was issued for, all of them and nothing else; the garbage collection
    spares what a preparation of an active inception created. *)

From S2P Require Import Prelude RustString Float64 Kube Crd StateStore InceptorEffects Effects.
From S2P Require Import World External Promotion Status Names NamesTheorems SipHash Auth Plugins Sdk.
From S2P Require Import SdkNames SdkTheorems JsonDecode HttpPlugin QueuePlugins QueueManagers RabbitMq RabbitWorkers.
From S2P Require Import RabbitLifecycle RabbitManager Footprint Outcomes HttpPluginTheorems.
From S2P Require Import QueueTheorems RabbitTheorems.

Section Names.
Context `{Sha256}.

Lemma config_blocks j c : decode_config j = Some c -> blocks_of j (rc_duplicator c) (rc_splitter c) (rc_combiner c).
Proof.
  unfold decode_config. intros Hd. apply bind_Some in Hd as (fields & Hf & Hd).
  destruct j; cbn in Hf; try discriminate Hf. injection Hf as ->. destruct (negb _); [discriminate Hd|].
  repeat (apply bind_Some in Hd as (? & ? & Hd)). injection Hd as <-. cbn.
  split_and!; intros d ->; eapply decoded_block; eassumption.
Qed.

Lemma managed_names_derived config ns ref uid ip roles q :
  q ∈ managed_temp_queue_names roles
        (unwrap_or default_config (decode_config (rewrite_queue_temp_names config ns ref uid ip))) ->
  exists role field logical, (role, field, logical) ∈ temp_queue_fields
  /\ q = temp_name ns ref uid ip config role logical.
Proof.
  destruct (decode_config _) as [c|] eqn:Ed; [|by cbn; intros ?%not_elem_of_nil].
  exact (temp_names_derived _ _ _ _ _ _ _ _ _ _ (config_blocks _ _ Ed)).
Qed.
End Names.

Section Connecting.
Context (P : action -> Prop) `{Connects P} `{Urls}.

Lemma fp_open_channel url : only P (open_channel url).
Proof.
  unfold open_channel. apply only_bind_err; [|intros; unfold create_channel; only_requests].
  unfold connect_with_retry. generalize 30%nat as n. induction n as [|n IH]; [done|]. cbn [connect_attempts].
  apply only_bind; [unfold connect_once, amqp_tls_config_from_env, optional_env, env; only_requests|].
  intros [c|e]; destruct n; try done. apply only_bind; [only_requests|]. by intros.
Qed.
Lemma fp_new_client base user password vhost insecure ca : only P (new_client base user password vhost insecure ca).
Proof. unfold new_client, management_http_client. only_requests. Qed.
Lemma fp_management_client state : only P (management_client state).
Proof. unfold management_client. repeat (case_match; try exact I). apply only_with_error. exact (fp_new_client _ _ _ _ _ _). Qed.
End Connecting.
#[export] Hint Extern 1 (only _ (open_channel _)) => exact (fp_open_channel _ _) : footprint.
#[export] Hint Extern 1 (only _ (management_client _)) => exact (fp_management_client _ _) : footprint.

Section Handlers.
Context `{Urls, Regexes, JsonText, Sha256, Codecs}.
Context (state : ManagerState).

(** The temporary queues of the inception point a request is about, with their shadows. *)
Definition temp_queues (claims : PluginAuthClaims) (req : PluginManagerLifecycleRequest) : list string :=
  let c := (secured_config_from_claims claims req).2 in
  let managed := managed_temp_queue_names (parse_roles (pml_roles req)) c in
  managed ++ omap (shadow_queue_name c) managed.

Lemma temp_queues_own claims req q : q ∈ temp_queues claims req -> own_queue claims (pml_config req) q.
Proof.
  unfold temp_queues, secured_config_from_claims, claimed_config. cbn [snd]. intros Hq.
  refine (own_with_shadows _ _ _ _ _ (fun m Hm => managed_names_derived _ _ _ _ _ _ m Hm) _ Hq).
  intros m shadow Hs. unfold shadow_queue_name in Hs. destruct (rc_shadow_queue _); [|done]. injection Hs as <-.
  by eexists.
Qed.

(** A user is deleted when it is this inception point's, or one of the manager's of no active one. *)
Definition deletes_user (active : list ActiveInception) (own : option string) (c : http_call) : Prop :=
  call_method c = "DELETE" ->
  exists m u, call_url c = api_url m ("api/users/" +:+ encode_path_segment u)
  /\ (own = Some u \/ starts_with "fbg-rmq-" u = true /\ u ∉ map scoped_username_from_active active).

Definition cleanup_request (claims : PluginAuthClaims) (req : PluginManagerLifecycleRequest) (act : action)
    : Prop :=
  match act with
  | AInceptor (QDelete _ q) => q ∈ temp_queues claims req
  | AInceptor (ICall c) => deletes_user (pml_active_inceptions req) (Some (scoped_username claims)) c
  | act => connects act = true
  end.
#[local] Instance cleanup_connects claims req : Connects (cleanup_request claims req).
Proof. intros act E. destruct act; try done. match goal with o : inceptor_op |- _ => by destruct o end. Qed.

Lemma fp_gc_identities (P : action -> Prop) `{Connects P} own active :
  (forall c, deletes_user active own c -> P (AInceptor (ICall c))) ->
  only P (garbage_collect_scoped_identities state active).
Proof.
  intros HP. unfold garbage_collect_scoped_identities, list_users, delete_user, send, send_found.
  only_requests; apply HP; [done|]. intros _. eexists _, _. split; [reflexivity|]. right.
  match goal with E : (_ && negb _)%bool = true |- _ => apply andb_true_iff in E as [? E%negb_true_iff] end.
  split; [done|]. by apply not_member.
Qed.

Lemma fp_cleanup claims req c :
  c = (secured_config_from_claims claims req).2 ->
  only (cleanup_request claims req)
    (do* reconcile_queues state (pml_roles req) c false ;;
     do* cleanup_scoped_inceptor_identity state claims ;;
     do* garbage_collect_scoped_identities state (pml_active_inceptions req) ;;
     Ret (Ok (JObj [("ok", JBool true)]))).
Proof.
  intros ->. apply only_bind_err; [|intros _; apply only_bind_err; [|intros _; apply only_bind_err]].
  - unfold reconcile_queues, remove_queue, delete_queue. only_requests; apply elem_of_app; [by left|].
    right. apply list_elem_of_omap. eauto.
  - unfold cleanup_scoped_inceptor_identity, delete_user, send_found. only_requests.
    cbn. intros _. eexists _, _. split; [reflexivity|]. by left.
  - by apply (fp_gc_identities _ (Some (scoped_username claims))).
  - done.
Qed.

(** A deletion of [q] was asked for. *)
Definition deletion_asked (q : string) (tr : trace) : Prop :=
  exists channel r, Ev (AInceptor (QDelete channel q)) r ∈ tr.
Lemma deletion_asked_in q tr1 tr2 tr3 : deletion_asked q tr2 -> deletion_asked q (tr1 ++ tr2 ++ tr3).
Proof. intros (ch & r & Hin). exists ch, r. rewrite !elem_of_app. auto. Qed.
Lemma delete_asks channel q tr : exec (with_error 500 (delete_queue channel q)) tr (Ok tt) -> deletion_asked q tr.
Proof.
  intros He. apply exec_with_error, exec_request in He as (r & tr' & -> & _). exists channel, r. left.
Qed.

Lemma remove_asks channel c q q' tr :
  exec (remove_queue channel c q) tr (Ok tt) -> q' = q \/ shadow_queue_name c q = Some q' -> deletion_asked q' tr.
Proof.
  intros He Hq. apply exec_bind_err in He as (tr1 & tr2 & [] & -> & E1 & E2).
  apply delete_asks in E1. destruct Hq as [->|Hs].
  - exact (deletion_asked_in _ [] _ _ E1).
  - rewrite Hs in E2. apply delete_asks in E2. rewrite <- (app_nil_r (tr1 ++ tr2)), <- app_assoc.
    by apply deletion_asked_in.
Qed.

Lemma reconcile_asks roles c q tr :
  exec (reconcile_queues state roles c false) tr (Ok tt) ->
  q ∈ managed_temp_queue_names (parse_roles roles) c
      ++ omap (shadow_queue_name c) (managed_temp_queue_names (parse_roles roles) c) ->
  deletion_asked q tr.
Proof.
  intros He Hq. unfold reconcile_queues in He. cbv zeta in He.
  apply exec_bind_err in He as (tr1 & tr2 & channel & -> & _ & He).
  apply exec_bind_err in He as (tr3 & tr4 & [] & -> & _ & He).
  assert (exists q', q' ∈ managed_temp_queue_names (parse_roles roles) c
            /\ (q = q' \/ shadow_queue_name c q' = Some q)) as (q' & Hin & Hq').
  { rewrite elem_of_app, list_elem_of_omap in Hq. destruct Hq as [?|(q' & ? & ?)]; eauto. }
  destruct (exec_each _ _ _ _ He Hin) as (t1 & tx & t2 & -> & Hx). cbn beta iota in Hx.
  apply (remove_asks _ _ _ q) in Hx; [|done].
  replace (tr1 ++ tr3 ++ t1 ++ tx ++ t2) with ((tr1 ++ tr3 ++ t1) ++ tx ++ t2) by by rewrite <- !app_assoc.
  by apply deletion_asked_in.
Qed.

(** C25. A cleanup deletes what it may, and all of it: every queue whose deletion it asks for has a name
    derived from the identity in a token the operator signed for the very inception point of the
    request (or is the shadow of such a queue), no name of the configuration is trusted; and a
    cleanup that is answered with success has asked for the deletion of every temporary queue of that
    inception point, and of every shadow. *)
Theorem rabbit_cleanup_exact (headers : HeaderMap) (req : PluginManagerLifecycleRequest) (tr : trace)
    (res : result Z json) :
  exec (cleanup_handler state headers req) tr res ->
  (forall q, deletion_asked q tr -> exists claims, authorize state headers = Ok claims
     /\ ensure_request_matches_claims req claims = Ok tt /\ own_queue claims (pml_config req) q)
  /\ (is_ok res = true -> exists claims, authorize state headers = Ok claims
     /\ forall q, q ∈ temp_queues claims req -> deletion_asked q tr).
Proof.
  unfold cleanup_handler. destruct (authorize state headers) as [claims|e]; cbn [mbind result_bind];
    [|by intros [-> ->]; split; [intros q (? & ? & ?%not_elem_of_nil)|]].
  destruct (ensure_request_matches_claims req claims) as [[]|e] eqn:Em; cbn [mbind result_bind];
    [|by intros [-> ->]; split; [intros q (? & ? & ?%not_elem_of_nil)|]].
  destruct (secured_config_from_claims claims req) as [effective c] eqn:Es. intros He. split.
  - intros q (channel & r & Hin). exists claims. split_and!; [done..|]. apply temp_queues_own.
    assert (c = (secured_config_from_claims claims req).2) as Ec by by rewrite Es.
    exact (only_exec _ _ _ _ (fp_cleanup claims req c Ec) He _ _ Hin).
  - intros Hok. exists claims. split; [done|]. intros q Hq. destruct res as [j|]; [|discriminate Hok].
    apply exec_bind_err in He as (tr1 & tr2 & [] & -> & He & _).
    apply (deletion_asked_in q [] tr1 tr2), (reconcile_asks _ _ _ _ He).
    unfold temp_queues in Hq. rewrite Es in Hq. exact Hq.
Qed.

(** *** The garbage collection *)

Lemma temp_queues_active a active claims req q :
  a ∈ active -> inventories a claims req -> q ∈ temp_queues claims req -> q ∈ active_queue_names active.
Proof.
  intros Ha [Hc Hro]%inventoried_claimed Hq. unfold active_queue_names. apply list_elem_of_In, in_concat.
  eexists. split; [apply in_map_iff; exists a; split; [reflexivity|by apply list_elem_of_In]|].
  apply list_elem_of_In. cbv zeta. unfold active_config. rewrite Hc, Hro. exact Hq.
Qed.
Lemma username_active a claims req : inventories a claims req -> scoped_username_from_active a = scoped_username claims.
Proof.
  intros (Hn & Hr & Hu & Hi & _). unfold scoped_username_from_active, scoped_username. by rewrite Hn, Hr, Hu, Hi.
Qed.

Definition base_shadows (claims : PluginAuthClaims) (req : PluginManagerLifecycleRequest) : list string :=
  let c := (secured_config_from_claims claims req).2 in
  omap (shadow_queue_name c) (base_shadow_queue_names (parse_roles (pml_roles req)) c).

Definition prepare_request (claims : PluginAuthClaims) (req : PluginManagerLifecycleRequest) (act : action)
    : Prop :=
  match act with
  | AInceptor (QDeclare _ q _ _) => q ∈ temp_queues claims req \/ q ∈ base_shadows claims req
  | AInceptor (ICall _) => True
  | act => connects act = true
  end.
#[local] Instance prepare_connects claims req : Connects (prepare_request claims req).
Proof. intros act E. destruct act; try done. match goal with o : inceptor_op |- _ => by destruct o end. Qed.

Lemma fp_declare claims req channel q d :
  q ∈ temp_queues claims req \/ q ∈ base_shadows claims req ->
  only (prepare_request claims req) (declare_queue channel q d).
Proof. intros Hq. unfold declare_queue. destruct (queue_arguments d); [|exact I]. by apply only_request. Qed.

Lemma fp_prepare claims req c (reply : list InceptorEnvVar -> PluginLifecycleResponse) :
  c = (secured_config_from_claims claims req).2 ->
  only (prepare_request claims req)
    (do* reconcile_queues state (pml_roles req) c true ;;
     let* env := prepare_scoped_inceptor_env state claims (pml_roles req) c in
     do* garbage_collect_scoped_identities state (pml_active_inceptions req) ;;
     Ret (Ok (reply env))).
Proof.
  intros ->. apply only_bind_err; [|intros _; apply only_bind_err; [|intros env; apply only_bind_err]].
  - unfold reconcile_queues, create_queue. only_requests; apply fp_declare;
      try (by right; apply list_elem_of_omap; eauto); left; apply elem_of_app; [|by left..].
    right. apply list_elem_of_omap. eauto.
  - unfold prepare_scoped_inceptor_env, create_inceptor_user, send. only_requests; exact I.
  - by apply (fp_gc_identities _ None).
  - done.
Qed.

Definition sync_request (active : list ActiveInception) (act : action) : Prop :=
  match act with
  | AInceptor (QDelete _ q) => starts_with "fluidbg-" q = true /\ q ∉ active_queue_names active
  | AInceptor (ICall c) => deletes_user active None c
  | act => connects act = true
  end.
#[local] Instance sync_connects active : Connects (sync_request active).
Proof. intros act E. destruct act; try done. match goal with o : inceptor_op |- _ => by destruct o end. Qed.

Lemma fp_sync headers req : only (sync_request (pms_active_inceptions req)) (sync_handler state headers req).
Proof.
  unfold sync_handler. destruct (mbind _ _) as [[]|e]; [|exact I].
  apply only_bind_err; [by apply (fp_gc_identities _ None)|]. intros _. apply only_bind_err; [|done].
  unfold garbage_collect_temp_queues, list_queues, send, delete_queue. only_requests; [done|].
  match goal with E : (_ && negb _)%bool = true |- _ => apply andb_true_iff in E as [? E%negb_true_iff] end.
  split; [done|]. by apply not_member.
Qed.

(** C26. A sync spares the living: whatever a preparation of an inception point declared, a sync whose
    inventory has that inception point with the same identity, configuration and roles (an entry that
    was edited since protects other queues), does not delete,
    apart from the shadows of the base queues the configuration names, which the inventory's queues do
    not include; and the users it deletes are the manager's own kind and none is the inception
    point's. *)
Theorem rabbit_sync_spares_prepared (headers headers' : HeaderMap) (preq : PluginManagerLifecycleRequest)
    (sreq : PluginManagerSyncRequest) (ptr tr : trace) (pres : result Z PluginLifecycleResponse)
    (res : result Z json) (claims : PluginAuthClaims) (a : ActiveInception) :
  exec (prepare_handler state headers preq) ptr pres -> exec (sync_handler state headers' sreq) tr res ->
  authorize state headers = Ok claims -> a ∈ pms_active_inceptions sreq -> inventories a claims preq ->
  (forall channel q o arguments r, Ev (AInceptor (QDeclare channel q o arguments)) r ∈ ptr ->
     deletion_asked q tr -> q ∈ base_shadows claims preq /\ starts_with "fluidbg-" q = true)
  /\ (forall c r, Ev (AInceptor (ICall c)) r ∈ tr -> call_method c = "DELETE" ->
       exists m u, call_url c = api_url m ("api/users/" +:+ encode_path_segment u)
       /\ starts_with "fbg-rmq-" u = true /\ u <> scoped_username claims).
Proof.
  unfold prepare_handler. intros Hp Hs Ha Hin Hinv. rewrite Ha in Hp. cbn [mbind result_bind] in Hp. split.
  - intros channel q o arguments r Hd (ch & rd & Hdel).
    destruct (only_exec _ _ _ _ (fp_sync headers' sreq) Hs _ _ Hdel) as [Hpre Hna]. split; [|done].
    destruct (ensure_request_matches_claims _ _) as [[]|e]; cbn [mbind result_bind] in Hp;
      [|by destruct Hp as [-> _]; apply not_elem_of_nil in Hd].
    destruct (map_err _ (queue_worker_role _)) as [w|e]; cbn [mbind result_bind] in Hp;
      [|by destruct Hp as [-> _]; apply not_elem_of_nil in Hd].
    destruct (secured_config_from_claims claims preq) as [effective c] eqn:Es.
    assert (c = (secured_config_from_claims claims preq).2) as Ec by by rewrite Es.
    destruct (only_exec _ _ _ _ (fp_prepare claims preq c _ Ec) Hp _ _ Hd) as [Hq|Hq]; [|done].
    exfalso. by eapply Hna, temp_queues_active.
  - intros c r Hc Hm. destruct (only_exec _ _ _ _ (fp_sync headers' sreq) Hs _ _ Hc Hm)
      as (m & u & Hu & [[=]|[Hpre Hna]]).
    exists m, u. split_and!; [done..|]. intros ->. apply Hna. rewrite <- (username_active a claims preq Hinv).
    apply list_elem_of_fmap. eauto.
Qed.
End Handlers.

(** ** A concrete manager *)

Definition sample_urls : Urls :=
  {| url_parse := fun _ => Some {| url_scheme := "https"; url_username := ""; url_password := None;
                                   url_host := Some "rabbit"; url_path := "/"; url_query := None;
                                   url_fragment := None |};
     set_path := fun url _ => url; url_text := fun _ => "https://rabbit/" |}.
Definition sample_manager : ManagerState :=
  {| ms_signing_key := sample_key; ms_amqp_url := "amqp://rabbit"; ms_management_url := Some "https://rabbit/";
     ms_management_username := Some "admin"; ms_management_password := Some "secret"; ms_management_vhost := None;
     ms_management_allow_insecure := false; ms_amqp_ca_cert_path := None; ms_management_ca_cert_path := None;
     ms_management_insecure_skip_verify := false |}.

(** The management API lists one queue and one user, both left behind. *)
Definition managed_response : call_response :=
  {| cr_status := 200; cr_headers := []; cr_body := "";
     cr_json := Ok (JArr [JObj [("name", JStr "fluidbg-left-behind")]; JObj [("name", JStr "fbg-rmq-left-behind")]]) |}.
Definition management_serve (act : action) (b : queues) : reply act * queues :=
  match act as a return reply a * queues with
  | AInceptor (ICall c) => (Ok managed_response, b)
  | a => memory_serve a b
  end.
Definition no_queues : queues := queues_of [].
Definition cleanup_run : result Z json * trace * queues :=
  run management_serve (@cleanup_handler sample_urls sample_sha256 sample_codecs sample_manager
    (signed_header sample_claims) (sample_request_of sample_claims [])) no_queues.
Definition prepare_run : result Z PluginLifecycleResponse * trace * queues :=
  run management_serve (@prepare_handler sample_urls no_regexes no_json_text sample_sha256 sample_codecs
    sample_manager (signed_header sample_claims) (sample_request_of sample_claims [])) no_queues.
Definition sync_run : result Z json * trace * queues :=
  run management_serve (@sync_handler sample_urls sample_sha256 sample_codecs sample_manager
    (signed_header (sync_claims "rabbitmq")) {| pms_plugin := "rabbitmq"; pms_active_inceptions := [sample_active] |}) no_queues.
Definition sample_temp_queues : list string := @temp_queues sample_sha256 sample_claims (sample_request_of sample_claims []).

Lemma sample_authorized :
  @authorize sample_sha256 sample_codecs sample_manager (signed_header sample_claims) = Ok sample_claims.
Proof. vm_compute. reflexivity. Qed.

Lemma rabbit_cleanup_exact_witness :
  is_ok cleanup_run.1.1 = true
  /\ (forall q, deletion_asked q cleanup_run.1.2 -> @own_queue sample_sha256 sample_claims splitter_text q)
  /\ forall q, q ∈ sample_temp_queues -> deletion_asked q cleanup_run.1.2.
Proof.
  pose proof (run_exec management_serve (@cleanup_handler sample_urls sample_sha256 sample_codecs sample_manager
    (signed_header sample_claims) (sample_request_of sample_claims [])) no_queues) as He.
  fold cleanup_run in He. apply rabbit_cleanup_exact in He as [Hown Hall].
  assert (is_ok cleanup_run.1.1 = true) as Hok by (vm_compute; reflexivity).
  rewrite sample_authorized in Hown, Hall. split_and!; [exact Hok| |].
  - intros q Hq. destruct (Hown q Hq) as (claims & [= <-] & _ & Ho). exact Ho.
  - destruct (Hall Hok) as (claims & [= <-] & Hq). exact Hq.
Defined.

Lemma rabbit_sync_spares_prepared_witness :
  deletion_asked "fluidbg-left-behind" sync_run.1.2
  /\ forall q, q ∈ sample_temp_queues ->
       (exists i r o arguments, prepare_run.1.2 !! i = Some (Ev (AInceptor (QDeclare 1 q o arguments)) r))
       /\ ~ deletion_asked q sync_run.1.2.
Proof.
  split.
  { destruct (sync_run.1.2 !! 9%nat) as [e|] eqn:E; [|vm_compute in E; discriminate E].
    vm_compute in E. injection E as <-. eexists _, _. apply (list_elem_of_lookup_2 _ 9%nat). vm_compute. reflexivity. }
  assert (forall q, q ∈ sample_temp_queues -> exists i r o arguments,
    prepare_run.1.2 !! i = Some (Ev (AInceptor (QDeclare 1 q o arguments)) r)) as Hdecl.
  { intros q Hq. vm_compute in Hq.
    repeat (apply elem_of_cons in Hq as [->|Hq]); [exists 6%nat|exists 8%nat|exists 5%nat|exists 7%nat|];
      [(eexists _, _, _; vm_compute; reflexivity)..|by apply not_elem_of_nil in Hq]. }
  intros q Hq. destruct (Hdecl q Hq) as (i & r & o & arguments & Hi). split; [eauto|]. intros Hdel.
  destruct (@rabbit_sync_spares_prepared sample_urls no_regexes no_json_text sample_sha256 sample_codecs
    sample_manager (signed_header sample_claims) (signed_header (sync_claims "rabbitmq")) (sample_request_of sample_claims [])
    {| pms_plugin := "rabbitmq"; pms_active_inceptions := [sample_active] |} prepare_run.1.2 sync_run.1.2
    prepare_run.1.1 sync_run.1.1 sample_claims sample_active) as [Hsp _].
  - exact (run_exec management_serve _ no_queues).
  - exact (run_exec management_serve _ no_queues).
  - exact sample_authorized.
  - left.
  - by split_and!.
  - destruct (Hsp 1 q o arguments r) as [Hb _]; [by eapply list_elem_of_lookup_2|done|].
    vm_compute in Hb, Hq. revert Hb. 
    repeat (apply elem_of_cons in Hq as [->|Hq]); [| | | |by apply not_elem_of_nil in Hq];
      intros [[=]|[]%not_elem_of_nil]%elem_of_cons.
Defined.
