(* ===== verification/ServiceBusTheorems.v ===== *)
(** * What the Azure Service Bus plugin guarantees: messages

    Theorems about [ServiceBusClient], [ServiceBusWorkers] and [ServiceBusLifecycle]: the
    path of a queue determines the queue (two queues never share a URL, and the URL of a queue
    is the beginning of another one's only where a path goes on below it); a message is
    completed only after it was accepted wherever it has to go, whatever fails. *)

From S2P Require Import Prelude RustString Float64 Kube Crd StateStore InceptorEffects Effects World.
From S2P Require Import External Promotion Status Names NamesTheorems SipHash Auth Plugins Sdk.
From S2P Require Import SdkNames SdkTheorems JsonDecode HttpPlugin QueuePlugins ServiceBus.
From S2P Require Import ServiceBusClient ServiceBusWorkers ServiceBusLifecycle Footprint Outcomes.
From S2P Require Import HttpPluginTheorems QueueTheorems.

(** ** Percent encoding *)

Definition hex_value (c : ascii) : N := if N.ltb (code c) 58 then code c - 48 else code c - 55.
(** The first byte of an encoded text, and the rest. *)
Definition decode_byte (l : list ascii) : option (ascii * list ascii) :=
  match l with
  | c :: rest =>
      if Ascii.eqb c "%" then
        match rest with
        | h :: l :: rest => Some (ascii_of_N (16 * hex_value h + hex_value l), rest)
        | _ => None
        end
      else Some (c, rest)
  | [] => None
  end.
Lemma decode_encoded b rest : decode_byte (percent_encode_byte b ++ rest) = Some (b, rest).
Proof. destruct b as [[] [] [] [] [] [] [] []]; reflexivity. Qed.

(** A path is encoded byte by byte; separators stay. *)
Definition path_byte (b : ascii) : list ascii := if Ascii.eqb b "/" then [b] else percent_encode_byte b.
Lemma decode_path_byte b rest : decode_byte (path_byte b ++ rest) = Some (b, rest).
Proof.
  unfold path_byte. destruct (Ascii.eqb_spec b "/") as [->|]; [done|]. apply decode_encoded.
Qed.

Lemma concat_cons (p : string) ps : String.concat "/" (p :: ps)
  = match ps with [] => p | _ => p +:+ String "/" (String.concat "/" ps) end.
Proof. by destruct ps. Qed.
Lemma split_not_nil c s : split c s <> [].
Proof. destruct s as [|x s]; [done|]. cbn. destruct (Ascii.eqb x c); [done|]. by destruct (split c s). Qed.

Lemma percent_encode_cons b s : percent_encode (String b s) = of_bytes (percent_encode_byte b) +:+ percent_encode s.
Proof. apply bytes_inj. unfold percent_encode. by rewrite bytes_app, !bytes_of_bytes. Qed.

Lemma percent_encode_path_bytes s : bytes (percent_encode_path s) = concat (map path_byte (bytes s)).
Proof.
  unfold percent_encode_path, percent_encode_path_segment. induction s as [|b s IH]; [done|].
  cbn [split list_ascii_of_string]. unfold path_byte at 1. cbn [map concat].
  pose proof (split_not_nil "/" s) as Hn. destruct (Ascii.eqb_spec b "/") as [->|Hb].
  - cbn [map]. rewrite concat_cons. destruct (map percent_encode (split "/" s)) as [|p ps] eqn:Em.
    { by destruct (split "/" s). }
    change (percent_encode "") with "". rewrite bytes_app. cbn [list_ascii_of_string app]. f_equal. exact IH.
  - destruct (split "/" s) as [|p ps]; [done|]. cbn [map] in IH |- *. rewrite percent_encode_cons, concat_cons.
    rewrite concat_cons in IH. destruct (map percent_encode ps) as [|q qs].
    + by rewrite bytes_app, bytes_of_bytes, IH.
    + rewrite bytes_app in IH. rewrite !bytes_app, bytes_of_bytes, <- app_assoc. by rewrite IH.
Qed.

Lemma encoded_prefix (enc : ascii -> list ascii) : (forall b rest, decode_byte (enc b ++ rest) = Some (b, rest)) ->
  forall s t, concat (map enc s) = concat (map enc t) -> s = t.
Proof.
  intros Hd. assert (forall b, enc b <> []) as Hne.
  { intros b E. specialize (Hd b []). by rewrite E in Hd. }
  induction s as [|b s IH]; intros [|b' t] E; cbn in E; [done| | |].
  - symmetry in E. apply app_nil in E as [E _]. by destruct (Hne b').
  - apply app_nil in E as [E _]. by destruct (Hne b).
  - pose proof (Hd b (concat (map enc s))) as E1. rewrite E, Hd in E1. injection E1 as -> E1.
    f_equal. by apply (IH t).
Qed.

Lemma percent_encode_path_inj s t : percent_encode_path s = percent_encode_path t -> s = t.
Proof.
  intros E. apply bytes_inj. apply (f_equal bytes) in E. rewrite !percent_encode_path_bytes in E.
  exact (encoded_prefix path_byte decode_path_byte _ _ E).
Qed.

Lemma percent_encode_inj s t : percent_encode s = percent_encode t -> s = t.
Proof.
  intros E. apply bytes_inj, (encoded_prefix percent_encode_byte decode_encoded).
  apply (f_equal bytes) in E. unfold percent_encode in E. by rewrite !bytes_of_bytes in E.
Qed.

(** Two queues never share a URL. *)
Lemma queue_url_inj client s t : queue_url client s = queue_url client t -> s = t.
Proof.
  unfold queue_url. intros E. apply percent_encode_path_inj.
  apply (f_equal bytes) in E. rewrite !bytes_app in E. cbn in E. apply app_inv_head in E.
  apply bytes_inj. by injection E.
Qed.

(** The path below a queue. *)
Lemma percent_encode_path_app s t :
  percent_encode_path (s +:+ String "/" t) = percent_encode_path s +:+ String "/" (percent_encode_path t).
Proof.
  apply bytes_inj. rewrite bytes_app. cbn [list_ascii_of_string]. rewrite !percent_encode_path_bytes, bytes_app.
  by rewrite map_app, concat_app.
Qed.

Lemma queue_url_below client s t :
  queue_url client (s +:+ String "/" t) = queue_url client s +:+ String "/" (percent_encode_path t).
Proof. unfold queue_url. by rewrite percent_encode_path_app, !sapp_assoc. Qed.

(** An encoded name without a separator has none. *)
Lemma encoded_byte_no_slash b : b <> "/"%char -> forallb (fun c => negb (Ascii.eqb c "/")) (path_byte b) = true.
Proof.
  intros Hb. unfold path_byte. rewrite (proj2 (Ascii.eqb_neq _ _) Hb).
  by destruct b as [[] [] [] [] [] [] [] []].
Qed.
Lemma encoded_name_no_slash s : contains "/" s = false -> contains "/" (percent_encode_path s) = false.
Proof.
  intros Hs. assert (forallb (fun c => negb (Ascii.eqb c "/")) (bytes (percent_encode_path s)) = true) as Hf.
  { rewrite percent_encode_path_bytes. unfold contains in Hs. induction (bytes s) as [|b l IH]; [done|].
    cbn in Hs |- *. apply orb_false_elim in Hs as [Hb Hl]. rewrite forallb_app, IH, andb_true_r by done.
    apply encoded_byte_no_slash. intros ->. discriminate Hb. }
  unfold contains. revert Hf. generalize (bytes (percent_encode_path s)). intros l.
  induction l as [|c l IH]; [done|]. cbn [forallb existsb]. intros [Hc Hl]%andb_true_iff.
  rewrite (IH Hl), orb_false_r, Ascii.eqb_sym. by apply negb_true_iff in Hc.
Qed.

(** ** The calls of the client *)

Section Calls.
Context `{Sha256, StandardBase64, JsonText}.
Context (client : ServiceBusClient).

(** A call with the header that authorizes it. *)
Definition signed (c : http_call) (header : string) : http_call :=
  call (call_method c) (call_url c) (call_headers c ++ [("authorization", header)]) (call_payload c).
Definition answered (tr : trace) (c : http_call) (resp : call_response) : Prop :=
  exists header, Ev (AInceptor (ICall (signed c header))) (Ok resp) ∈ tr.

Definition send_call (queue : string) (m : LockedMessage) : http_call :=
  call "POST" (queue_url client queue +:+ "/messages")
    (message_headers (lm_properties m) (lm_broker_properties m)) (BytesPayload (lm_body m)).
Definition receive_call (path : string) : http_call :=
  call "POST" (queue_url client path +:+ "/messages/head?timeout=1") [] NoPayload.

(** The message was accepted in [queue], with its body and properties; it was received, locked,
    from [path]. *)
Definition sent (tr : trace) (queue : string) (m : LockedMessage) : Prop :=
  exists resp, answered tr (send_call queue m) resp /\ has_status resp [200; 201] = true.
Definition received (tr : trace) (path : string) (m : LockedMessage) : Prop :=
  exists resp, answered tr (receive_call path) resp /\ has_status resp [201] = true /\ locked_message resp = Ok m.

Lemma stable_answered c resp : stable (fun tr => answered tr c resp).
Proof. intros tr tr' [h ?]. exists h. by apply mem_app. Qed.
Lemma stable_sent queue m : stable (fun tr => sent tr queue m).
Proof. intros tr tr' (resp & ? & ?). exists resp. split; [by apply stable_answered|done]. Qed.
Lemma stable_received path m : stable (fun tr => received tr path m).
Proof. intros tr tr' (resp & ? & ?). exists resp. split; [by apply stable_answered|done]. Qed.

Definition no_delete (act : action) : Prop :=
  match act with AInceptor (ICall c) => call_method c <> "DELETE" | _ => True end.

Lemma authorization_no_delete resource scope : only no_delete (authorization_header client resource scope).
Proof.
  unfold authorization_header. destruct (sb_auth client); [done|by apply only_request|].
  unfold workload_token, request_workload_identity_token. only_requests; done.
Qed.

(** The requests that authorize a call satisfy [P], and these are allowed. *)
Section Rules.
Context (ok : trace -> event -> Prop) (P : action -> Prop).
Context (Hauth : forall resource scope, only P (authorization_header client resource scope)).
Context (Hok : forall tr act r, P act -> ok tr (Ev act r)).

(** A call is made once it could be authorized. *)
Lemma authorized_always pre c resource scope (Q : trace -> result string call_response -> Prop) :
  (forall ext e, Q (pre ++ ext) (Err e)) ->
  (forall ext header r, let e := Ev (AInceptor (ICall (signed c header))) r in
     ok (pre ++ ext) e /\ Q (pre ++ ext ++ [e]) r) ->
  always ok pre (send_authorized client c resource scope) Q.
Proof.
  intros He Hc. unfold send_authorized. apply always_bind.
  eapply always_only; [apply Hauth|exact Hok|]. intros ext [header|e] _; [|apply He].
  apply always_request. intros r. destruct (Hc ext header r) as [? Hq]. split; [done|].
  by rewrite <- app_assoc.
Qed.

Lemma forward_always pre queue m (Q : trace -> result string unit -> Prop) :
  (forall tr header r, ok tr (Ev (AInceptor (ICall (signed (send_call queue m) header))) r)) ->
  (forall ext e, Q (pre ++ ext) (Err e)) ->
  (forall ext, sent (pre ++ ext) queue m -> Q (pre ++ ext) (Ok tt)) ->
  always ok pre (forward_message client queue m) Q.
Proof.
  intros Hc He Hs. unfold forward_message, send_message_with_broker_properties. apply always_bind.
  apply authorized_always; [exact He|]. intros ext header r. split; [apply Hc|].
  destruct r as [resp|e]; [|apply He]. cbn [always]. unfold done_when.
  destruct (has_status resp [200; 201]) eqn:Est; [|apply He]. apply Hs. exists resp. split; [|done].
  exists header. rewrite app_assoc. apply mem_last.
Qed.

Lemma receive_always pre path (Q : trace -> result string (option LockedMessage) -> Prop) :
  (forall tr header r, ok tr (Ev (AInceptor (ICall (signed (receive_call path) header))) r)) ->
  (forall ext e, Q (pre ++ ext) (Err e)) -> (forall ext, Q (pre ++ ext) (Ok None)) ->
  (forall ext m, received (pre ++ ext) path m -> Q (pre ++ ext) (Ok (Some m))) ->
  always ok pre (receive_peek_lock client path 1) Q.
Proof.
  intros Hc He Hn Hs. unfold receive_peek_lock. apply always_bind.
  apply authorized_always; [exact He|]. intros ext header r. split; [apply Hc|].
  destruct r as [resp|e]; [|apply He]. cbn [always].
  destruct (has_status resp [201]) eqn:Est.
  - destruct (locked_message resp) as [m|e] eqn:Em; [|apply He]. apply Hs. exists resp. split_and!; [|done..].
    exists header. rewrite app_assoc. apply mem_last.
  - unfold done_when. case_match; [apply Hn|apply He].
Qed.

Lemma abandon_always pre m (Q : trace -> result string unit -> Prop) :
  (forall ext header r, ok (pre ++ ext) (Ev (AInceptor (ICall (signed (call "PUT" (lm_location m) [] NoPayload) header))) r)) ->
  (forall ext r, Q (pre ++ ext) r) -> always ok pre (abandon client m) Q.
Proof.
  intros Hc HQ. unfold abandon. apply always_bind. apply authorized_always; [intros; apply HQ|].
  intros ext header r. split; [apply Hc|]. destruct r; apply HQ.
Qed.
End Rules.
End Calls.

(** ** Completions *)

Section Completes.
Context `{Sha256, StandardBase64, JsonText, Regexes}.
Context (state : BusState).
Notation client := (bs_client state).
Notation config := (bs_config state).

(** A message may be completed when it was received and [settled] holds of where from. *)
Definition completes_after (settled : trace -> string -> LockedMessage -> Prop) (tr : trace) (e : event) : Prop :=
  match e with
  | Ev (AInceptor (ICall c)) _ => call_method c = "DELETE" ->
      exists path m, call_url c = lm_location m /\ received client tr path m /\ settled tr path m
  | _ => True
  end.

Lemma bus_no_delete_ok settled tr act r : no_delete act -> completes_after settled tr (Ev act r).
Proof.
  destruct act; try done. match goal with o : inceptor_op |- _ => destruct o end; try done. intros Hn E. by destruct (Hn E).
Qed.

Section Free.
Context (settled : trace -> string -> LockedMessage -> Prop).
Notation ok := (completes_after settled).
Lemma forward_free pre queue m (Q : trace -> result string unit -> Prop) :
  (forall ext e, Q (pre ++ ext) (Err e)) ->
  (forall ext, sent client (pre ++ ext) queue m -> Q (pre ++ ext) (Ok tt)) ->
  always ok pre (forward_message client queue m) Q.
Proof.
  apply (forward_always client ok no_delete); [apply authorization_no_delete|apply bus_no_delete_ok|].
  intros. by apply bus_no_delete_ok.
Qed.
Lemma receive_free pre path (Q : trace -> result string (option LockedMessage) -> Prop) :
  (forall ext e, Q (pre ++ ext) (Err e)) -> (forall ext, Q (pre ++ ext) (Ok None)) ->
  (forall ext m, received client (pre ++ ext) path m -> Q (pre ++ ext) (Ok (Some m))) ->
  always ok pre (receive_peek_lock client path 1) Q.
Proof.
  apply (receive_always client ok no_delete); [apply authorization_no_delete|apply bus_no_delete_ok|].
  intros. by apply bus_no_delete_ok.
Qed.
Lemma abandon_free pre m (Q : trace -> result string unit -> Prop) :
  (forall ext r, Q (pre ++ ext) r) -> always ok pre (abandon client m) Q.
Proof.
  apply (abandon_always client ok no_delete); [apply authorization_no_delete|apply bus_no_delete_ok|].
  intros. by apply bus_no_delete_ok.
Qed.
End Free.

Section Settled.
Context (settled : trace -> string -> LockedMessage -> Prop).
Context (Hstable : forall path m, stable (fun tr => settled tr path m)).
Notation ok := (completes_after settled).

Lemma complete_always pre path m (Q : trace -> result string unit -> Prop) :
  received client pre path m -> settled pre path m -> (forall ext r, Q (pre ++ ext) r) ->
  always ok pre (complete client m) Q.
Proof.
  intros Hr Hs HQ. unfold complete. apply always_bind.
  apply (authorized_always client ok no_delete); [apply authorization_no_delete|apply bus_no_delete_ok|intros; apply HQ|].
  intros ext header r. split.
  - intros _. exists path, m. split_and!; [done|by apply stable_received|by apply Hstable].
  - destruct r; apply HQ.
Qed.

(** A move settles each message by sending it to the target. *)
Lemma bus_move_safe n path target : (forall tr m, sent client tr target m -> settled tr path m) ->
  safe ok (move_available_messages_from_path client n path target).
Proof.
  intros Hset. apply safe_loop. intros moved pre. unfold move_message. apply always_bind.
  apply receive_free; [done..|]. intros ext m Hm. apply always_bind.
  apply forward_free.
  - intros ext' e. apply always_bind. by apply abandon_free.
  - intros ext' Hs. apply always_bind. apply (complete_always _ path); [by apply stable_received|by apply Hset|].
    by intros ext'' [[]|e].
Qed.

(** Where a drain of [source] to [base] moves the messages of a queue. *)
Definition drains_to (source base path target : string) : Prop :=
  exists queue, (path = queue \/ path = dead_letter_path queue)
  /\ (queue = source /\ target = base
      \/ shadow_queue_name config source = Some queue
         /\ target = unwrap_or base (shadow_queue_name config base)).

Lemma bus_drain_source_safe n source base :
  (forall tr path target m, drains_to source base path target -> sent client tr target m -> settled tr path m) ->
  safe ok (drain_source state n source base).
Proof.
  intros Hd. unfold drain_source, move_available_messages, move_available_dead_letter_messages.
  assert (forall path target, drains_to source base path target ->
    safe ok (move_available_messages_from_path client n path target)) as Hm.
  { intros path target Hp. apply bus_move_safe. intros tr m. by apply Hd. }
  apply safe_bind_loop_err; [apply Hm; exists source; auto|]. intros _.
  apply safe_bind_loop_err; [apply Hm; exists source; auto|]. intros _.
  destruct (shadow_queue_name config source) as [shadow|] eqn:Es; [|apply safe_Ret].
  apply safe_bind_loop_err; [apply Hm; exists shadow; auto|]. intros _.
  apply safe_bind_loop_err; [apply Hm; exists shadow; auto|]. intros _. apply safe_Ret.
Qed.

Lemma create_no_delete queue d : only no_delete (create_queue client queue d).
Proof.
  unfold create_queue, create_queue_arm, arm_call, send_authorized.
  only_requests; first [done|by apply authorization_no_delete].
Qed.
Lemma create_target_safe target : safe ok (create_target_queues state target).
Proof.
  apply (safe_only _ no_delete); [|intros; by apply bus_no_delete_ok].
  unfold create_target_queues, inceptor_infra_disabled, env. only_requests; first [done|apply create_no_delete].
Qed.
Lemma observe_no_delete body properties route : only no_delete (observe_message state body properties route).
Proof.
  unfold observe_message. repeat (case_match; [|exact I]). apply only_bind.
  - unfold notify_observer. case_match; [|exact I]. apply only_bind; [|done]. by apply retry_only.
  - intros notified. case_match; [|exact I]. apply only_bind; [|done].
    unfold register_test_case. cbv zeta. apply only_bind; [done|]. intros now. by apply retry_only.
Qed.

(** A worker whose processing settles what it succeeds with. *)
Lemma worker_turn_safe {A} queue drain (process : LockedMessage -> prog (result string A)) u :
  safe ok drain ->
  (forall pre m, always ok pre (process m) (fun tr r => (exists ext, tr = pre ++ ext)
     /\ (is_ok r = true -> settled tr queue m))) ->
  safe ok (worker_turn state queue drain process u).
Proof.
  intros Hdrain Hproc. unfold worker_turn, pause. apply safe_bind; [by apply safe_request|]. intros [].
  - intros pre. apply always_bind. apply receive_free; [done..|].
    intros ext m Hm. apply always_bind. unfold handle_locked, track_message.
    apply always_bind, always_request. intros r. split; [done|]. apply always_bind, always_bind, always_bind.
    apply always_request. intros mode. split; [done|]. cbn [always]. destruct (negb _).
    { apply always_bind, abandon_free. by split. }
    apply always_bind. eapply always_post; [|apply Hproc]. intros tr [a|e] ([ext' ->] & Hs).
    + apply always_bind, (complete_always _ queue); [|by apply Hs|by intros; split].
      do 3 apply stable_received; exact Hm.
    + apply always_bind, always_bind, abandon_free. by split.
  - apply safe_bind_loop; [done|]. intros _. by safe.
  - by safe.
Qed.
End Settled.

(** *** The input worker *)

(** The queues a message must reach, given the percentage it was routed with. *)
Definition input_targets (percent : Z) (m : LockedMessage) : list string :=
  if active state Duplicator then
    match bc_duplicator config with
    | Some c => omap id [in_green_queue c; in_blue_queue c] | None => [] end
  else if active state Splitter then
    match bc_splitter config with
    | Some c => omap id [if routes_to_blue (lm_body m) percent then in_blue_queue c else in_green_queue c]
    | None => []
    end
  else [].

(** A message of the input queue, or one a drain moves back. *)
Definition input_settled (tr : trace) (path : string) (m : LockedMessage) : Prop :=
  (input_queue state = Ok path
   /\ exists percent, (active state Duplicator = false -> active state Splitter = true ->
                       Ev (AInceptor LoadPercent) percent ∈ tr)
      /\ forall target, target ∈ input_targets percent m -> sent client tr target m)
  \/ exists base green blue source target, input_queues state = Ok (Some (base, green, blue))
     /\ (source = green \/ source = blue) /\ drains_to source base path target /\ sent client tr target m.

Lemma bus_stable_input_settled path m : stable (fun tr => input_settled tr path m).
Proof.
  intros tr tr' [(Hq & p & Hp & Ht)|(base & green & blue & source & t & Hq & Hs & Hd & Hp)].
  - left. split; [done|]. exists p. split; [intros; apply mem_app; auto|].
    intros target Hin. by apply stable_sent, Ht.
  - right. exists base, green, blue, source, t. split_and!; [done..|]. by apply stable_sent.
Qed.

Notation input_ok := (completes_after input_settled).

Lemma forward_optional_reaches pre queue m (Q : trace -> result string unit -> Prop) :
  (forall ext e, Q (pre ++ ext) (Err e)) ->
  (forall ext, (forall q, queue = Some q -> sent client (pre ++ ext) q m) -> Q (pre ++ ext) (Ok tt)) ->
  always input_ok pre (forward_optional state queue m) Q.
Proof.
  intros He Ho. unfold forward_optional. destruct queue as [q|].
  - apply forward_free; [done|]. intros ext Hs. apply Ho. by intros ? [= <-].
  - cbn. rewrite <- (app_nil_r pre). by apply Ho.
Qed.

(** What a message that was sent on leaves behind. *)
Definition forwarded (pre : trace) (queue : string) (m : LockedMessage) (tr : trace) {A} (r : result string A) : Prop :=
  (exists ext, tr = pre ++ ext) /\ (is_ok r = true -> input_settled tr queue m).

Lemma duplicate_settles pre queue m : input_queue state = Ok queue -> active state Duplicator = true ->
  always input_ok pre (forward_input state m) (fun tr r => forwarded pre queue m tr r).
Proof.
  intros Hq Ed. unfold forward_input, duplicator_config. rewrite Ed.
  destruct (bc_duplicator config) as [c|] eqn:Ec; [|by split; [exists []; rewrite app_nil_r|]]. cbn [ok_or].
  apply always_bind, forward_optional_reaches; [by split; [eexists|]|]. intros ext Hg.
  apply always_bind, forward_optional_reaches; [by split; [eexists; by rewrite <- app_assoc|]|].
  intros ext' Hb. cbn [always]. split; [eexists; by rewrite <- app_assoc|]. intros _. left. split; [done|].
  exists 0. split; [congruence|]. unfold input_targets. rewrite Ed, Ec. intros target Hin.
  destruct (in_green_queue c) as [g|], (in_blue_queue c) as [b|]; cbn in Hin;
    repeat (apply elem_of_cons in Hin as [->|Hin]);
    try (by apply not_elem_of_nil in Hin); (by apply Hb) || (by apply stable_sent, Hg).
Qed.

Lemma split_settles pre queue m : input_queue state = Ok queue ->
  active state Duplicator = false -> active state Splitter = true ->
  always input_ok pre (forward_input state m) (fun tr r => forwarded pre queue m tr r).
Proof.
  intros Hq Ed Es. unfold forward_input, splitter_config. rewrite Ed, Es.
  destruct (bc_splitter config) as [c|] eqn:Ec; [|by split; [exists []; rewrite app_nil_r|]]. cbn [ok_or].
  apply always_bind, always_request. intros percent. split; [done|].
  set (pre' := pre ++ [Ev (AInceptor LoadPercent) percent]).
  assert (forall ext (r : result string TrafficRoute),
    (forall q, (if routes_to_blue (lm_body m) percent then in_blue_queue c else in_green_queue c) = Some q ->
       sent client (pre' ++ ext) q m) -> forwarded pre queue m (pre' ++ ext) r) as Hdone.
  { intros ext r Hp. split; [eexists; unfold pre'; by rewrite <- app_assoc|]. intros _. left. split; [done|].
    exists percent. split; [intros _ _; apply mem_app, mem_last|]. unfold input_targets. rewrite Ed, Es, Ec.
    intros target Hin. destruct (if routes_to_blue _ _ then _ else _) as [q|]; cbn in Hin;
      [|by apply not_elem_of_nil in Hin].
    apply elem_of_cons in Hin as [->|Hin]; [by apply Hp|by apply not_elem_of_nil in Hin]. }
  assert (forall ext e, @forwarded pre queue m (pre' ++ ext) TrafficRoute (Err e)) as Hfail.
  { intros ext e. split; [eexists; unfold pre'; by rewrite <- app_assoc|done]. }
  destruct (routes_to_blue (lm_body m) percent) eqn:Er.
  - apply always_bind, forward_optional_reaches; [done|]. intros ext Hb. by apply Hdone.
  - destruct (in_green_queue c) as [g|] eqn:Eg.
    + apply always_bind, forward_free; [done|]. intros ext Hs. apply Hdone. by intros q [= <-].
    + cbn [always]. rewrite <- (app_nil_r pre'). by apply Hdone.
Qed.

Lemma bus_forward_settles pre queue m : input_queue state = Ok queue ->
  always input_ok pre (forward_input state m) (fun tr r => forwarded pre queue m tr r).
Proof.
  intros Hq. destruct (active state Duplicator) eqn:Ed; [by apply duplicate_settles|].
  destruct (active state Splitter) eqn:Es; [by apply split_settles|].
  unfold forward_input. rewrite Ed, Es. split; [by exists []; rewrite app_nil_r|]. intros _. left.
  split; [done|]. exists 0. split; [congruence|]. unfold input_targets. rewrite Ed, Es.
  by intros target ?%not_elem_of_nil.
Qed.

Lemma process_settles pre queue m : input_queue state = Ok queue ->
  always input_ok pre (process_input_message state m) (fun tr r => forwarded pre queue m tr r).
Proof.
  intros Hq. unfold process_input_message. apply always_bind.
  eapply always_post; [|by apply bus_forward_settles]. intros tr [route|e] ([ext ->] & Hs); [|by split; [eexists|]].
  apply always_bind. eapply always_only; [apply observe_no_delete|intros; by apply bus_no_delete_ok|].
  intros ext' [] _. split; [eexists; by rewrite <- app_assoc|]. intros _. by apply bus_stable_input_settled, Hs.
Qed.

Lemma bus_drain_input_safe n : safe input_ok (drain_input_queues state n).
Proof.
  unfold drain_input_queues. destruct (input_queues state) as [[[[base green] blue]|]|e] eqn:Eq; [|apply safe_Ret..].
  apply safe_bind_loop_err; [apply safe_bind; [apply create_target_safe|intros; apply safe_Ret]|]. intros _.
  apply safe_bind_loop_err; [|intros _]; apply (bus_drain_source_safe _ bus_stable_input_settled);
    intros tr path target m Hd Hs; right; exists base, green, blue; eexists _, target; eauto.
Qed.

Lemma bus_pipeline_safe n : safe input_ok (run_input_pipeline state n).
Proof.
  unfold run_input_pipeline. destruct (input_queue state) as [queue|e] eqn:Eq; [|apply safe_Ret].
  apply safe_loop_of_loops. intros u. apply (worker_turn_safe _ bus_stable_input_settled); [apply bus_drain_input_safe|].
  intros pre m. by apply process_settles.
Qed.

(** *** The combiner *)

Section Combiner.
Context (source_queue result_queue : string).

Definition output_settled (tr : trace) (path : string) (m : LockedMessage) : Prop :=
  (path = source_queue /\ sent client tr result_queue m)
  \/ exists target, drains_to source_queue result_queue path target /\ sent client tr target m.

Lemma bus_stable_output_settled path m : stable (fun tr => output_settled tr path m).
Proof.
  intros tr tr' [[Hq Hp]|(t & Hd & Hp)]; [left|right].
  - split; [done|]. by apply stable_sent.
  - exists t. split; [done|]. by apply stable_sent.
Qed.

Lemma bus_combine_loop_safe n :
  safe (completes_after output_settled) (run_combine_loop state n source_queue result_queue).
Proof.
  unfold run_combine_loop. destruct (combiner_config config) as [combiner|e]; [|apply safe_Ret].
  apply safe_loop_of_loops. intros u. apply (worker_turn_safe _ bus_stable_output_settled).
  - unfold drain_output_queue.
    apply safe_bind_loop_err; [apply safe_bind; [apply create_target_safe|intros; apply safe_Ret]|]. intros _.
    apply (bus_drain_source_safe _ bus_stable_output_settled). intros tr path target m Hd Hs. right. by exists target.
  - intros pre m. unfold process_output_message. apply always_bind.
    apply forward_free; [by split; [eexists|]|]. intros ext Hs.
    apply always_bind. eapply always_only; [apply observe_no_delete|intros; by apply bus_no_delete_ok|].
    intros ext' [] _. split; [eexists; by rewrite <- app_assoc|]. intros _. left. split; [done|].
    by apply stable_sent.
Qed.
End Combiner.

(** C34. A worker completes a message only after Service Bus took it over: it was received, locked, from
    the input queue and accepted in every queue it has to reach (both of a duplicator, the one of a
    splitter that the percentage read for it selects), with its body and its properties, or from a
    queue of a drain (dead letters and shadow queues included) and accepted in the queue that is
    drained to; an output message was accepted in the result queue.  Whatever fails, nothing is
    completed earlier. *)
Theorem bus_acks (n : nat) (tr1 tr2 : trace) (c : http_call) (r : result string call_response)
    (res : option (result string unit)) :
  call_method c = "DELETE" ->
  (exec (run_input_pipeline state n) (tr1 ++ Ev (AInceptor (ICall c)) r :: tr2) res ->
   exists path m, call_url c = lm_location m /\ received client tr1 path m /\ input_settled tr1 path m)
  /\ forall source result, exec (run_combine_loop state n source result) (tr1 ++ Ev (AInceptor (ICall c)) r :: tr2) res ->
     exists path m, call_url c = lm_location m /\ received client tr1 path m /\ output_settled source result tr1 path m.
Proof.
  intros Hm. split.
  - intros He. exact (safe_exec (completes_after input_settled) _ _ _ _ _ (bus_pipeline_safe n) He Hm).
  - intros source result He.
    exact (safe_exec (completes_after (output_settled source result)) _ _ _ _ _ (bus_combine_loop_safe _ _ n) He Hm).
Qed.
End Completes.

Definition sample_base64 : StandardBase64 := {| base64_encode := fun l => of_bytes l |}.
