(* ===== verification/ServiceBusTokens.v ===== *)
(** * What the Azure Service Bus plugin guarantees: credentials

    A manager that has a connection string hands an inceptor a token for each of its queues.
    Theorems about [ServiceBusManager.inceptor_env] and what the inceptor makes of it: the
    tokens cover every queue the inceptor works on, and each is used for its own queue only. *)

From S2P Require Import Prelude RustString Float64 Kube Crd StateStore InceptorEffects Effects.
From S2P Require Import World External Promotion Status Names NamesTheorems SipHash Auth Plugins Sdk.
From S2P Require Import SdkNames SdkTheorems JsonDecode HttpPlugin QueuePlugins QueueManagers ServiceBus ServiceBusClient.
From S2P Require Import ServiceBusWorkers ServiceBusLifecycle ServiceBusManager Footprint Outcomes HttpPluginTheorems.
From S2P Require Import QueueTheorems ServiceBusTheorems.

(** ** The longest prefix *)

Definition better (resource : string) (best : option (string * string)) (entry : string * string)
    : option (string * string) :=
  if starts_with entry.1 resource then
    match best with
    | Some b => if Nat.leb (String.length b.1) (String.length entry.1) then Some entry else best
    | None => Some entry
    end
  else best.
Definition longer (resource : string) (best : option (string * string)) (entry : string * string) : Prop :=
  starts_with entry.1 resource = true ->
  exists b, best = Some b /\ (String.length entry.1 <= String.length b.1)%nat.

Lemma better_keeps resource best e b : best = Some b ->
  exists b', better resource best e = Some b' /\ (String.length b.1 <= String.length b'.1)%nat.
Proof.
  intros ->. unfold better. destruct (starts_with e.1 resource); [|by exists b].
  destruct (Nat.leb_spec (String.length b.1) (String.length e.1)); [by exists e|by exists b].
Qed.
Lemma better_takes resource best e : longer resource (better resource best e) e.
Proof.
  intros Hs. unfold better. rewrite Hs. destruct best as [b|]; [|by exists e].
  destruct (Nat.leb_spec (String.length b.1) (String.length e.1)); [by exists e|]. exists b. split; [done|lia].
Qed.
Lemma better_from resource best e f : better resource best e = Some f ->
  best = Some f \/ f = e /\ starts_with e.1 resource = true.
Proof.
  unfold better. destruct (starts_with e.1 resource); [|by left].
  destruct best as [b|]; [|intros [= <-]; by right].
  destruct (Nat.leb _ _); [intros [= <-]; by right|by left].
Qed.

Lemma best_prefix resource l : forall best,
  let found := fold_left (better resource) l best in
  (forall e, e ∈ l -> longer resource found e)
  /\ (forall b, best = Some b -> exists f, found = Some f /\ (String.length b.1 <= String.length f.1)%nat)
  /\ (forall f, found = Some f -> best = Some f \/ f ∈ l /\ starts_with f.1 resource = true).
Proof.
  induction l as [|e l IH]; intros best; cbn [fold_left].
  - split_and!; [by intros e ?%not_elem_of_nil|intros b ->; by exists b|auto].
  - destruct (IH (better resource best e)) as (Hl & Hb & Hf). split_and!.
    + intros e' [->|Hin]%elem_of_cons; [|by apply Hl]. intros Hs.
      destruct (better_takes resource best e Hs) as (b & Eb & Hle). destruct (Hb b Eb) as (f & ? & ?).
      exists f. split; [done|lia].
    + intros b Eb. destruct (better_keeps resource best e b Eb) as (b' & Eb' & Hle).
      destruct (Hb b' Eb') as (f & ? & ?). exists f. split; [done|lia].
    + intros f Ef. destruct (Hf f Ef) as [Hbest|[Hin Hs]]; [|right; split; [by right|done]].
      apply better_from in Hbest as [?|[-> Hs]]; [by left|]. right. split; [left|done].
Qed.

Lemma prefix_of_length p q s : starts_with p s = true -> starts_with q s = true ->
  String.length p = String.length q -> p = q.
Proof.
  unfold starts_with. destruct (strip_prefix p s) as [t|] eqn:Ep; [|done].
  destruct (strip_prefix q s) as [u|] eqn:Eq; [|done].
  apply strip_prefix_Some in Ep as ->. apply strip_prefix_Some in Eq. intros _ _.
  revert q Eq. induction p as [|c p IH]; intros [|d q] Eq El; cbn in *; try done; try lia.
  injection Eq as <- Eq. f_equal. apply (IH q Eq). lia.
Qed.

(** The token of a resource that is a prefix, when no longer one is. *)
Lemma static_token_is (tokens : gmap string string) key token resource :
  tokens !! key = Some token -> starts_with key resource = true ->
  (forall key' token', tokens !! key' = Some token' -> starts_with key' resource = true ->
     (String.length key' <= String.length key)%nat) ->
  static_token tokens resource = Some token.
Proof.
  intros Hk Hp Hmax. unfold static_token.
  change (fold_left _ (sorted_entries tokens) None) with (fold_left (better resource) (sorted_entries tokens) None).
  destruct (best_prefix resource (sorted_entries tokens) None) as (Hl & _ & Hf).
  assert (forall e, e ∈ sorted_entries tokens <-> tokens !! e.1 = Some e.2) as Hin.
  { intros [k v]. unfold sorted_entries. rewrite merge_sort_Permutation. apply elem_of_map_to_list. }
  destruct (Hl (key, token)) as (b & Eb & Hb); [by apply Hin|done|]. rewrite Eb. cbn.
  destruct (Hf b Eb) as [[=]|[Hb' Hs]]. apply Hin in Hb'. pose proof (Hmax _ _ Hb' Hs) as Hle. cbn in Hb.
  assert (b.1 = key) as Ek by (apply (prefix_of_length _ _ resource); [done|done|lia]).
  rewrite Ek, Hk in Hb'. by injection Hb' as ->.
Qed.

(** ** The tokens of the manager *)

Section Tokens.
Context `{Sha256, StandardBase64}.
Context (connection : ParsedConnectionString) (ttl : Z) (endpoint name : string).
Context (Hendpoint : service_bus_endpoint_from_namespace (pcs_namespace connection) = Ok (endpoint, name)).

Definition resource_of (queue : string) : string := endpoint +:+ "/" +:+ percent_encode_path queue.
(** A token that was signed for the queue at some time. *)
Definition token_for (queue token : string) : Prop :=
  exists now, token = sas_token_at now (resource_of queue) (pcs_key_name connection) (pcs_key connection) ttl.

Lemma resource_url queue : service_bus_resource_url (pcs_namespace connection) queue = Some (resource_of queue).
Proof. unfold service_bus_resource_url. by rewrite Hendpoint. Qed.
Lemma resource_of_inj q q' : resource_of q = resource_of q' -> q = q'.
Proof.
  unfold resource_of. intros E. apply sapp_inv_l in E. injection E as E. by apply percent_encode_path_inj.
Qed.

(** The map has the queues' resources, each with a token for its queue. *)
Definition tokens_of (queues : list string) (tokens : gmap string string) : Prop :=
  (forall q, q ∈ queues -> exists token, tokens !! resource_of q = Some token /\ token_for q token)
  /\ forall r token, tokens !! r = Some token -> exists q, q ∈ queues /\ r = resource_of q /\ token_for q token.

Lemma sas_tokens_made queues : forall done tokens tr made,
  tokens_of done tokens -> exec (sas_tokens connection ttl queues tokens) tr (Some made) ->
  tokens_of (done ++ queues) made.
Proof.
  induction queues as [|q queues IH]; intros seen tokens tr made Hd He; cbn [sas_tokens] in He.
  - destruct He as [_ [= <-]]. by rewrite app_nil_r.
  - rewrite resource_url in He. unfold sas_token in He.
    apply exec_bind in He as (tr1 & tr2 & token & _ & Ht & He).
    apply exec_bind in Ht as (tr3 & tr4 & now & _ & _ & [_ ->]).
    replace (seen ++ q :: queues) with ((seen ++ [q]) ++ queues) by by rewrite <- app_assoc.
    refine (IH _ _ _ _ _ He). destruct Hd as [Hd1 Hd2]. split.
    + intros q' Hin. destruct (decide (q' = q)) as [->|Hne].
      { rewrite lookup_insert_eq. eexists. split; [done|]. by exists now. }
      apply elem_of_app in Hin as [Hin|?%list_elem_of_singleton]; [|done].
      rewrite lookup_insert_ne; [by apply Hd1|]. intros E. by apply resource_of_inj in E.
    + intros r token' [[<- <-]|[_ Hr]]%lookup_insert_Some.
      * exists q. split_and!; [apply elem_of_app; right; left|done|by exists now].
      * destruct (Hd2 _ _ Hr) as (q' & Hin & ? & ?). exists q'. split_and!; [apply elem_of_app; by left|done..].
Qed.

(** Nothing without a separator reaches further into a path than its first separator. *)
Lemma prefix_before_slash p s rest : contains "/" p = false -> starts_with p (s +:+ String "/" rest) = true ->
  (String.length p <= String.length s)%nat.
Proof.
  unfold starts_with. revert s. induction p as [|c p IH]; intros s Hc Hp; [cbn; lia|].
  unfold contains in Hc. cbn [list_ascii_of_string existsb] in Hc. apply orb_false_elim in Hc as [Hc Hp'].
  destruct s as [|d s]; cbn [append strip_prefix] in Hp.
  - rewrite Ascii.eqb_sym, Hc in Hp. discriminate Hp.
  - destruct (Ascii.eqb c d); [|discriminate Hp]. cbn. apply le_n_S. by apply IH.
Qed.

Lemma covered_resource queues tokens q : tokens_of queues tokens -> q ∈ queues ->
  exists token, token_for q token /\ static_token tokens (resource_of q) = Some token
  /\ ((forall q', q' ∈ queues -> contains "/" q' = false) ->
      forall rest, static_token tokens (resource_of q +:+ String "/" rest) = Some token).
Proof.
  intros [Hq Hall] Hin. destruct (Hq q Hin) as (token & Hl & Hf). exists token. split_and!; [done| |].
  - apply (static_token_is _ (resource_of q)); [done| |].
    + unfold starts_with. rewrite <- (sapp_nil_r (resource_of q)) at 2. by rewrite strip_prefix_app.
    + intros k t Hk Hp. unfold starts_with in Hp. destruct (strip_prefix k _) as [u|] eqn:E; [|done].
      apply strip_prefix_Some in E. rewrite E, length_sapp. lia.
  - intros Hslash rest. apply (static_token_is _ (resource_of q)); [done| |].
    + unfold starts_with. by rewrite strip_prefix_app.
    + intros k t Hk Hp. destruct (Hall _ _ Hk) as (q' & Hin' & -> & _). unfold resource_of in *.
      unfold starts_with in Hp. rewrite !sapp_assoc in Hp.
      destruct (strip_prefix _ _) as [u|] eqn:E; [|done]. apply strip_prefix_Some in E.
      rewrite !sapp_assoc in E. apply sapp_inv_l in E. cbn [append] in E. injection E as E.
      rewrite !length_sapp. apply Nat.add_le_mono_l. cbn. apply le_n_S.
      apply (prefix_before_slash _ _ rest); [by apply encoded_name_no_slash, Hslash|].
      unfold starts_with. by rewrite E, strip_prefix_app.
Qed.
End Tokens.

(** ** From the manager to the inceptor *)

(** What serde_json does with an object of texts. *)
Class SerdeJson `{JsonText} : Prop := {
  texts_round_trip texts : json_of_bytes (json_to_bytes (texts_to_json texts)) = Some (texts_to_json texts);
  text_not_empty j : json_to_bytes j <> "" }.

Lemma decode_texts_to_json texts : decode_texts (texts_to_json texts) = Some texts.
Proof.
  unfold decode_texts, texts_to_json. cbn [d_fields mbind option_bind].
  assert (mapM (fun f : string * json => text ← d_string f.2; Some (f.1, text))
            (map (fun e => (e.1, JStr e.2)) (sorted_entries texts)) = Some (sorted_entries texts)) as ->.
  { induction (sorted_entries texts) as [|[k v] l IH]; [done|]. cbn in IH |- *. by rewrite IH. }
  cbn. f_equal. rewrite <- (list_to_map_to_list texts) at 2.
  assert (rev (sorted_entries texts) ≡ₚ map_to_list texts) as Hr.
  { rewrite <- Permutation_rev. apply merge_sort_Permutation. }
  apply list_to_map_proper; [|done]. rewrite Hr. apply NoDup_fst_map_to_list.
Qed.

(** The value of a variable among those handed out. *)
Definition handed (envs : list InceptorEnvVar) (variable : string) : option string :=
  iev_value <$> List.find (fun e => String.eqb (iev_name e) variable) envs.
Definition handed_variables : list string :=
  ["AZURE_SERVICEBUS_CONNECTION_STRING"; "AZURE_SERVICEBUS_NAMESPACE"; "FLUIDBG_AZURE_SERVICEBUS_SAS_TOKENS_JSON"].
(** The process that makes [tr] has these variables as handed out. *)
Definition runs_with (envs : list InceptorEnvVar) (tr : trace) : Prop :=
  forall variable r, variable ∈ handed_variables -> Ev (AEnv variable) r ∈ tr -> r = handed envs variable.

Section Handover.
Context `{Sha256, StandardBase64, SerdeJson, Urls}.

Lemma config_reads tr config : exec runtime_config_from_env tr config ->
  Ev (AEnv "AZURE_SERVICEBUS_CONNECTION_STRING") (src_connection_string config) ∈ tr
  /\ Ev (AEnv "AZURE_SERVICEBUS_NAMESPACE") (src_fully_qualified_namespace config) ∈ tr
  /\ exists tokens, Ev (AEnv "FLUIDBG_AZURE_SERVICEBUS_SAS_TOKENS_JSON") tokens ∈ tr
     /\ src_static_sas_tokens config = unwrap_or ∅ ((tokens ≫= json_of_bytes) ≫= decode_texts).
Proof.
  intros He. assert (always (fun _ _ => True) [] runtime_config_from_env (fun tr config =>
    Ev (AEnv "AZURE_SERVICEBUS_CONNECTION_STRING") (src_connection_string config) ∈ tr
    /\ Ev (AEnv "AZURE_SERVICEBUS_NAMESPACE") (src_fully_qualified_namespace config) ∈ tr
    /\ exists tokens, Ev (AEnv "FLUIDBG_AZURE_SERVICEBUS_SAS_TOKENS_JSON") tokens ∈ tr
       /\ src_static_sas_tokens config = unwrap_or ∅ ((tokens ≫= json_of_bytes) ≫= decode_texts))) as Ha.
  { unfold runtime_config_from_env, env_bool, env. cbn.
    do 14 (intros ?; split; [exact I|]).
    split_and!; [| |eexists; split; [|reflexivity]]; repeat (apply elem_of_cons; first [left; reflexivity|right]). }
  by destruct (always_sound _ _ _ _ _ _ Ha He) as [? _].
Qed.

Lemma handed_env namespace tokens mode :
  let envs := push_optional_env "AZURE_SERVICEBUS_NAMESPACE" namespace
              ++ push_optional_env "FLUIDBG_AZURE_SERVICEBUS_SAS_TOKENS_JSON" tokens
              ++ push_optional_env "FLUIDBG_AZURE_SERVICEBUS_AUTH_MODE" mode in
  handed envs "AZURE_SERVICEBUS_CONNECTION_STRING" = None
  /\ handed envs "AZURE_SERVICEBUS_NAMESPACE" = non_empty namespace
  /\ handed envs "FLUIDBG_AZURE_SERVICEBUS_SAS_TOKENS_JSON" = non_empty tokens.
Proof.
  cbv zeta. unfold push_optional_env.
  by destruct (non_empty namespace), (non_empty tokens), (non_empty mode).
Qed.
Lemma non_empty_id s : s <> "" -> non_empty (Some s) = Some s.
Proof. by destruct s. Qed.

Context (runtime : ServiceBusRuntimeConfig) (roles : list PluginRole) (c : BusConfig).
Context (connection : ParsedConnectionString) (endpoint name : string).
Context (Hconnection : connection_of runtime = Some connection).
Context (Hendpoint : service_bus_endpoint_from_namespace (pcs_namespace connection) = Ok (endpoint, name)).

Definition token_ttl : Z := unwrap_or 3600 (src_auth runtime ≫= ac_sas_token_ttl_seconds).

(** The manager's own namespace, where it is set, is a name of the connection string's host. *)
Definition same_host : Prop :=
  forall namespace, src_fully_qualified_namespace runtime = Some namespace ->
    service_bus_endpoint_from_namespace namespace = Ok (endpoint, name).

Lemma env_handed tr envs : same_host ->
  exec (inceptor_env runtime roles c) tr (Some envs) ->
  exists tokens, tokens_of connection token_ttl endpoint (inceptor_queue_names roles c) tokens
  /\ handed envs "AZURE_SERVICEBUS_CONNECTION_STRING" = None
  /\ (exists namespace, handed envs "AZURE_SERVICEBUS_NAMESPACE" = Some namespace
      /\ service_bus_endpoint_from_namespace namespace = Ok (endpoint, name))
  /\ handed envs "FLUIDBG_AZURE_SERVICEBUS_SAS_TOKENS_JSON" = Some (json_to_bytes (texts_to_json tokens)).
Proof.
  intros Hns He. unfold inceptor_env in He. cbv zeta in He. rewrite Hconnection in He. cbn [fmap option_fmap option_map] in He.
  assert (exists namespace, or_else (src_fully_qualified_namespace runtime) (Some (pcs_namespace connection)) = Some namespace
    /\ service_bus_endpoint_from_namespace namespace = Ok (endpoint, name)) as (namespace & En & Hn).
  { destruct (src_fully_qualified_namespace runtime) as [ns|] eqn:E; cbn; eexists; split; [done|by apply Hns|done|done]. }
  rewrite En in He.
  apply exec_bind in He as (tr1 & tr2 & texts & -> & Ht & He).
  unfold static_sas_tokens_json in Ht. rewrite Hconnection in Ht. cbv zeta in Ht.
  apply exec_bind in Ht as (tr3 & tr4 & [tokens|] & -> & Htok & Ht); [|by destruct Ht as [_ ->], He as [_ ?]].
  destruct Ht as [_ ->], He as [_ [= ->]]. exists tokens. split.
  - apply (sas_tokens_made connection token_ttl endpoint name Hendpoint _ [] ∅ tr3); [|exact Htok].
    split; [by intros q ?%not_elem_of_nil|by intros r t ?%lookup_empty_Some].
  - destruct (handed_env (Some namespace) (Some (json_to_bytes (texts_to_json tokens)))
      ((fun mode => match mode with ConnectionString => "connectionString"
                                  | WorkloadIdentityMode => "workloadIdentity" end)
       <$> (src_auth runtime ≫= ac_mode))) as (E1 & E2 & E3).
    split_and!; [exact E1|exists namespace; split; [rewrite E2|done]|rewrite E3]; apply non_empty_id; [|by apply text_not_empty].
    intros Ee. rewrite Ee in Hn. vm_compute in Hn. discriminate Hn.
Qed.

(** What an inceptor makes of it. *)
Lemma client_made tr envs tokens res :
  tokens_of connection token_ttl endpoint (inceptor_queue_names roles c) tokens -> inceptor_queue_names roles c <> [] ->
  handed envs "AZURE_SERVICEBUS_CONNECTION_STRING" = None ->
  (exists namespace, handed envs "AZURE_SERVICEBUS_NAMESPACE" = Some namespace
   /\ service_bus_endpoint_from_namespace namespace = Ok (endpoint, name)) ->
  handed envs "FLUIDBG_AZURE_SERVICEBUS_SAS_TOKENS_JSON" = Some (json_to_bytes (texts_to_json tokens)) ->
  exec (let! config := runtime_config_from_env in from_runtime_config config) tr res -> runs_with envs tr ->
  exists client, res = Ok client /\ sb_endpoint client = endpoint /\ sb_auth client = StaticSasTokens tokens.
Proof.
  intros [Hq _] Hne E1 (namespace & E2 & Hn) E3 He Hw. apply exec_bind in He as (tr1 & tr2 & config & -> & Hc & He).
  destruct (config_reads _ _ Hc) as (R1 & R2 & text & R3 & Et).
  assert (forall v r, v ∈ handed_variables -> Ev (AEnv v) r ∈ tr1 -> r = handed envs v) as Hw1.
  { intros v r Hv Hin. apply Hw; [done|]. apply elem_of_app. by left. }
  apply Hw1 in R1; [|left]. apply Hw1 in R2; [|right; left]. apply Hw1 in R3; [|right; right; left].
  rewrite E1 in R1. rewrite E2 in R2. rewrite R3, E3 in Et. cbn [mbind option_bind] in Et.
  rewrite texts_round_trip in Et. cbn [mbind option_bind] in Et. rewrite decode_texts_to_json in Et.
  unfold from_runtime_config in He. rewrite R1, R2 in He. cbn [or_else mbind result_bind ok_or] in He.
  rewrite Hn in He. cbn [mbind result_bind] in He. unfold auth_provider in He. rewrite Et in He.
  change (unwrap_or ∅ (Some tokens)) with tokens in He. rewrite bool_decide_true in He.
  - destruct He as [_ ->]. eexists. by split_and!.
  - intros ->. destruct (inceptor_queue_names roles c) as [|q l]; [done|].
    destruct (Hq q) as (token & Hl & _); [left|]. by apply lookup_empty_Some in Hl.
Qed.

(** C36. The credentials a manager hands out fit.  The manager has a connection string, and either no
    namespace of its own or one that names the same host (another one is handed out as it is, beside
    tokens for the host of the connection string); the roles and configuration of the inceptor name at
    least one queue, and no queue's name has a slash in it.  Started in the environment the manager
    handed out, an inceptor has a client for the same endpoint, without the connection string, and for every queue of
    its roles and configuration (base queues, queues of green and blue, their shadows, the writer's
    and the consumer's) each request for the queue, and for what lies below it (its dead letters, the
    locks of its messages), is authorized by the token the manager signed for that very queue, never
    by another queue's. *)
Theorem bus_tokens_cover (mtr itr : trace) (envs : list InceptorEnvVar) (res : result string ServiceBusClient) :
  same_host -> inceptor_queue_names roles c <> [] ->
  (forall q, q ∈ inceptor_queue_names roles c -> contains "/" q = false) ->
  exec (inceptor_env runtime roles c) mtr (Some envs) ->
  exec (let! config := runtime_config_from_env in from_runtime_config config) itr res -> runs_with envs itr ->
  handed envs "AZURE_SERVICEBUS_CONNECTION_STRING" = None
  /\ exists client, res = Ok client /\ sb_endpoint client = endpoint
     /\ forall q, q ∈ inceptor_queue_names roles c ->
        exists token, token_for connection token_ttl endpoint q token
        /\ forall scope, authorization_header client (queue_url client q) scope = Ret (Ok token)
           /\ forall rest, authorization_header client (queue_url client q +:+ String "/" rest) scope = Ret (Ok token).
Proof.
  intros Hns Hne Hslash Hm Hi Hw. destruct (env_handed _ _ Hns Hm) as (tokens & Ht & E1 & E2 & E3).
  destruct (client_made _ _ _ _ Ht Hne E1 E2 E3 Hi Hw) as (client & -> & Ee & Ea).
  split; [done|]. exists client. split_and!; [done..|]. intros q Hq.
  destruct (covered_resource connection token_ttl endpoint _ _ q Ht Hq) as (token & Hf & Hs & Hb).
  exists token. split; [done|]. intros scope. unfold authorization_header, queue_url. rewrite Ea, Ee.
  unfold resource_of in *. split; [by rewrite Hs|]. intros rest. by rewrite (Hb Hslash rest).
Qed.
End Handover.

(** ** A concrete manager and inceptor *)

(** A text for an object of texts: every character behind an x, a full stop behind every text. *)
Definition spell (s : string) : list ascii := concat (map (fun c => ["x"%char; c]) (bytes s)) ++ ["."%char].
Fixpoint read_texts (l : list ascii) (current : list ascii) (texts : list string) : list string :=
  match l with
  | x :: rest =>
      if Ascii.eqb x "x" then
        match rest with
        | c :: rest => read_texts rest (current ++ [c]) texts
        | [] => texts
        end
      else read_texts rest [] (texts ++ [of_bytes current])
  | [] => texts
  end.
Fixpoint pairs (texts : list string) : list (string * json) :=
  match texts with k :: v :: rest => (k, JStr v) :: pairs rest | _ => [] end.
Definition spelled_json : JsonText :=
  {| json_of_bytes := fun s => match s with
                               | String _ rest => Some (JObj (pairs (read_texts (bytes rest) [] [])))
                               | "" => None
                               end;
     json_to_bytes := fun j => String "{" match j with
       | JObj fields => of_bytes (concat (map (fun f => spell f.1 ++ spell (unwrap_or "" (as_str f.2))) fields))
       | _ => ""
       end |}.

Lemma read_spelled s l current texts :
  read_texts (spell s ++ l) current texts = read_texts l [] (texts ++ [of_bytes (current ++ bytes s)]).
Proof.
  unfold spell. revert current. induction (bytes s) as [|c cs IH]; intros current; cbn; [by rewrite app_nil_r|].
  by rewrite IH, <- app_assoc.
Qed.
Lemma spelled_json_ok : @SerdeJson spelled_json.
Proof.
  split; [|by intros j]. intros texts. cbn [json_of_bytes json_to_bytes spelled_json texts_to_json].
  rewrite bytes_of_bytes. do 2 f_equal. rewrite <- (app_nil_r (concat _)).
  assert (forall (l : list (string * string)) seen, read_texts
    (concat (map (fun f => spell f.1 ++ spell (unwrap_or "" (as_str f.2))) (map (fun e => (e.1, JStr e.2)) l)) ++ [])
    [] seen = seen ++ concat (map (fun e => [e.1; e.2]) l)) as Hr.
  { induction l as [|[k v] l IH]; intros seen; cbn [map concat fst snd]; [by cbn; rewrite app_nil_r|].
    rewrite <- !app_assoc, !read_spelled. cbn [app]. rewrite !of_bytes_bytes, IH, <- !app_assoc. done. }
  rewrite Hr. cbn [app]. unfold texts_to_json. f_equal. induction (sorted_entries texts) as [|[k v] l IH]; [done|]. cbn. by rewrite IH.
Qed.

Definition sample_connection_string : string :=
  "Endpoint=sb://shop.servicebus.windows.net/;SharedAccessKeyName=root;SharedAccessKey=secret".
Definition sample_bus_runtime : ServiceBusRuntimeConfig :=
  {| src_connection_string := Some sample_connection_string; src_fully_qualified_namespace := None;
     src_auth := None; src_management := None; src_static_sas_tokens := ∅ |}.
Definition written_config : BusConfig :=
  {| bc_queue_declaration := default_declaration;
     bc_shadow_queue := Some {| shq_suffix := "-dlq"; shq_declaration := default_declaration |};
     bc_duplicator := None; bc_splitter := None; bc_combiner := None;
     bc_writer := Some {| wr_target_queue := Some "orders" |}; bc_consumer := None; bc_observer := None |}.

(** The environment of the manager and that of the inceptor. *)
Definition manager_run : option (list InceptorEnvVar) * trace * world :=
  run serve (@inceptor_env sample_sha256 sample_base64 spelled_json sample_bus_runtime [Writer] written_config) empty_world.
Definition handed_out : list InceptorEnvVar := unwrap_or [] manager_run.1.1.
Definition inceptor_serve (act : action) (w : unit) : reply act * unit :=
  match act as a return reply a * unit with
  | AEnv variable => (handed handed_out variable, w)
  | a => ((serve a empty_world).1, w)
  end.
Definition no_urls : Urls :=
  {| url_parse := fun _ => None; set_path := fun url _ => url; url_text := fun _ => "" |}.
Definition inceptor_start : prog (result string ServiceBusClient) :=
  let! config := @runtime_config_from_env spelled_json in @from_runtime_config no_urls config.

#[local] Existing Instance sample_sha256.
#[local] Existing Instance sample_base64.
Lemma bus_tokens_cover_witness :
  @inceptor_queue_names [Writer] written_config = ["orders"; "orders-dlq"]
  /\ exists client token, (run inceptor_serve inceptor_start tt).1.1 = Ok client
  /\ @token_for sample_sha256 sample_base64
       {| pcs_namespace := "shop.servicebus.windows.net"; pcs_key_name := "root"; pcs_key := "secret" |} 3600
       "https://shop.servicebus.windows.net" "orders" token
  /\ authorization_header client (queue_url client "orders/$deadletterqueue") SERVICE_BUS_SCOPE = Ret (Ok token).
Proof.
  split; [vm_compute; reflexivity|].
  destruct (@bus_tokens_cover sample_sha256 sample_base64 spelled_json spelled_json_ok no_urls sample_bus_runtime [Writer]
    written_config {| pcs_namespace := "shop.servicebus.windows.net"; pcs_key_name := "root"; pcs_key := "secret" |}
    "https://shop.servicebus.windows.net" "shop") with (mtr := manager_run.1.2) (envs := handed_out)
    (itr := (run inceptor_serve inceptor_start tt).1.2) (res := (run inceptor_serve inceptor_start tt).1.1)
    as (_ & client & Er & _ & Hq).
  - vm_compute. reflexivity.
  - vm_compute. reflexivity.
  - intros namespace. discriminate.
  - vm_compute. discriminate.
  - apply Forall_forall. vm_compute. repeat constructor.
  - assert (manager_run.1.1 = Some handed_out) as E by (vm_compute; reflexivity). rewrite <- E. apply run_exec.
  - apply run_exec.
  - intros variable r _ Hin. apply run_answers in Hin as [w ->]. reflexivity.
  - destruct (Hq "orders") as (token & Hf & Ht); [vm_compute; left|]. exists client, token.
    split_and!; [exact Er|exact Hf|]. change "orders/$deadletterqueue" with ("orders" +:+ "/$deadletterqueue").
    rewrite queue_url_below. exact (proj2 (Ht SERVICE_BUS_SCOPE) "%24deadletterqueue").
Defined.
