(* ===== verification/ServiceBusScope.v ===== *)
(** * What the Azure Service Bus plugin guarantees: the queues an inceptor touches

    Every request an inceptor makes to Service Bus is for one of the queues its manager knows
    of ([ServiceBusManager.inceptor_queue_names]), their dead letters, or the lock of a message
    received there: with [ServiceBusTokens] none lacks a token.  The one request that may be for
    another queue is a write to an inceptor without the writer role. *)

From S2P Require Import Prelude RustString Float64 Kube Crd StateStore InceptorEffects Effects.
From S2P Require Import World External Promotion Status Names NamesTheorems SipHash Auth Plugins Sdk.
From S2P Require Import SdkNames SdkTheorems JsonDecode HttpPlugin QueuePlugins QueueManagers ServiceBus ServiceBusClient.
From S2P Require Import ServiceBusWorkers ServiceBusManager ServiceBusLifecycle Footprint Outcomes HttpPluginTheorems.
From S2P Require Import QueueTheorems ServiceBusTheorems.

(** ** The queues of a configuration *)

Lemma dedup_sorted_in x l : x ∈ dedup_sorted l <-> x ∈ l.
Proof.
  induction l as [|y l IH]; [done|]. destruct l as [|z l]; [done|].
  change (dedup_sorted (y :: z :: l))
    with (if String.eqb y z then dedup_sorted (z :: l) else y :: dedup_sorted (z :: l)).
  destruct (String.eqb_spec y z) as [->|]; [|by rewrite !elem_of_cons, IH, elem_of_cons].
  rewrite IH, !elem_of_cons. naive_solver.
Qed.
Lemma sorted_names_in x l : x ∈ sorted_names l <-> x ∈ l.
Proof. unfold sorted_names. by rewrite dedup_sorted_in, merge_sort_Permutation. Qed.

Section Names.
Context (roles : list PluginRole) (config : BusConfig).
Notation names := (inceptor_queue_names roles config).

(** A queue one of the roles works on. *)
Definition working (q : string) : Prop :=
  q ∈ managed_temp_queue_names roles config \/ q ∈ base_shadow_queue_names roles config
  \/ q ∈ end_queue_names roles (bc_writer config) (bc_consumer config).

Lemma working_in q : working q -> q ∈ names /\ forall s, shadow_queue_name config q = Some s -> s ∈ names.
Proof.
  intros Hw. unfold inceptor_queue_names, with_shadows. cbv zeta. set (base := concat _).
  assert (q ∈ managed_temp_queue_names roles config ++ base ++ end_queue_names roles (bc_writer config) (bc_consumer config))
    as Hin.
  { rewrite !elem_of_app. destruct Hw as [?|[Hb|?]]; [by left| |by right; right]. right. left.
    apply list_elem_of_In, in_concat. eexists. split; [apply in_map, list_elem_of_In, Hb|].
    apply list_elem_of_In. destruct (shadow_queue_name config q); left. }
  split; [|intros s Hs]; rewrite sorted_names_in, elem_of_app; [by left|right].
  apply list_elem_of_omap. eauto.
Qed.

Lemma of_role_in {A B} r (block : option A) (f : A -> list B) b x :
  has_role roles r = true -> block = Some b -> x ∈ f b -> x ∈ of_role roles r block f.
Proof. intros Hr -> Hx. unfold of_role. by rewrite Hr. Qed.
Lemma omap_id_in {A} (l : list (option A)) (x : A) : Some x ∈ l -> x ∈ omap id l.
Proof. intros Hin. apply list_elem_of_omap. by exists (Some x). Qed.

Lemma input_working r d q : (r = Duplicator /\ bc_duplicator config = Some d \/ r = Splitter /\ bc_splitter config = Some d) ->
  has_role roles r = true -> Some q ∈ [in_input_queue d; in_green_queue d; in_blue_queue d] -> working q.
Proof.
  intros Hb Hr [Hq|Hq]%elem_of_cons.
  - right. left. apply omap_id_in. rewrite !elem_of_app.
    destruct Hb as [[-> Ec]|[-> Ec]]; [left|right; left]; apply (of_role_in _ _ _ d); try done; rewrite Hq; left.
  - left. apply omap_id_in. rewrite !elem_of_app.
    destruct Hb as [[-> Ec]|[-> Ec]]; [left|right; left]; by apply (of_role_in _ _ _ d).
Qed.
Lemma output_working d q : bc_combiner config = Some d -> has_role roles Combiner = true ->
  Some q ∈ [cb_output_queue d; cb_green_queue d; cb_blue_queue d] -> working q.
Proof.
  intros Ec Hr [Hq|Hq]%elem_of_cons.
  - right. left. apply omap_id_in. rewrite !elem_of_app. right. right. apply (of_role_in _ _ _ d); try done.
    rewrite Hq. left.
  - left. apply omap_id_in. rewrite !elem_of_app. right. right. by apply (of_role_in _ _ _ d).
Qed.
Lemma writer_working w q : bc_writer config = Some w -> has_role roles Writer = true -> wr_target_queue w = Some q -> working q.
Proof.
  intros Ec Hr Hq. right. right. apply omap_id_in. rewrite elem_of_app. left. apply (of_role_in _ _ _ w); try done.
  rewrite Hq. left.
Qed.
Lemma consumer_working s q : bc_consumer config = Some s -> has_role roles Consumer = true -> cs_input_queue s = Some q -> working q.
Proof.
  intros Ec Hr Hq. right. right. apply omap_id_in. rewrite elem_of_app. right. apply (of_role_in _ _ _ s); try done.
  rewrite Hq. left.
Qed.
End Names.

(** ** The requests of an inceptor *)

Section Scope.
Context `{Sha256, StandardBase64, JsonText, Regexes}.
Context (state : BusState).
Notation client := (bs_client state).
Notation config := (bs_config state).
Notation names := (inceptor_queue_names (bs_roles state) config).

(** A queue of the inceptor's, or the dead letters of one. *)
Definition own_path (path : string) : Prop := exists q, q ∈ names /\ (path = q \/ path = dead_letter_path q).
Definition operations : list string := [""; "/messages"; "/messages/head?timeout=1"].
(** A call is for a path of the inceptor's, or for the lock of a message received there. *)
Definition in_scope (tr : trace) (url : string) : Prop :=
  (exists path operation, own_path path /\ operation ∈ operations /\ url = queue_url client path +:+ operation)
  \/ exists path m, own_path path /\ received client tr path m /\ url = lm_location m.
Definition stays (tr : trace) (e : event) : Prop :=
  match e with
  | Ev (AInceptor (ICall c)) _ => call_client c = "service-bus" -> in_scope tr (call_url c)
  | _ => True
  end.
(** Requests to others. *)
Definition elsewhere (act : action) : Prop :=
  match act with AInceptor (ICall c) => call_client c <> "service-bus" | _ => True end.

Lemma elsewhere_ok tr act r : elsewhere act -> stays tr (Ev act r).
Proof.
  destruct act; try done. match goal with o : inceptor_op |- _ => destruct o end; try done. intros Hn E. by destruct (Hn E).
Qed.
Lemma stable_in_scope url : stable (fun tr => in_scope tr url).
Proof.
  intros tr tr' [?|(path & m & ? & ? & ?)]; [by left|right]. exists path, m. split_and!; [done|by apply stable_received|done].
Qed.
Lemma scope_call tr path operation c header r : own_path path -> operation ∈ operations ->
  call_url c = queue_url client path +:+ operation -> stays tr (Ev (AInceptor (ICall (signed c header))) r).
Proof. intros Hp Ho E _. left. by exists path, operation. Qed.

(** The inceptor does not sign in with a workload identity, and its other client is another one. *)
Context (Hsas : uses_workload_identity client = false) (Hother : rt_client (bs_runtime state) <> "service-bus").

Lemma authorization_elsewhere resource scope : only elsewhere (authorization_header client resource scope).
Proof.
  unfold uses_workload_identity in Hsas. unfold authorization_header. destruct (sb_auth client); [done|by apply only_request|done].
Qed.
Lemma no_arm : arm_management client = None.
Proof. unfold arm_management. by rewrite Hsas. Qed.
Notation authorized_scope := (authorized_always client stays elsewhere authorization_elsewhere elsewhere_ok).

(** A request for a path itself. *)
Lemma path_safe path method headers p scope : own_path path ->
  safe stays (send_authorized client (call method (queue_url client path) headers p) (queue_url client path) scope).
Proof.
  intros Hp pre. apply authorized_scope; [done|]. intros ext header r. split; [|done].
  apply (scope_call _ path ""); [done|left|by rewrite sapp_nil_r].
Qed.
Lemma create_safe queue d : own_path queue -> safe stays (create_queue client queue d).
Proof. intros Hq. unfold create_queue. rewrite no_arm. apply safe_bind_err; [by apply path_safe|safe]. Qed.
Lemma delete_safe queue : own_path queue -> safe stays (delete_queue client queue).
Proof. intros Hq. unfold delete_queue. rewrite no_arm. apply safe_bind_err; [by apply path_safe|safe]. Qed.
Lemma count_safe queue : own_path queue -> safe stays (queue_message_count client queue).
Proof. intros Hq. unfold queue_message_count. rewrite no_arm. apply safe_bind_err; [by apply path_safe|safe]. Qed.

Lemma send_always pre queue data properties broker (Q : trace -> result string unit -> Prop) : own_path queue ->
  (forall ext r, Q (pre ++ ext) r) ->
  always stays pre (send_message_with_broker_properties client queue data properties broker) Q.
Proof.
  intros Hq HQ. unfold send_message_with_broker_properties. apply always_bind.
  apply authorized_scope; [intros; apply HQ|]. intros ext header r. split.
  - apply (scope_call _ queue "/messages"); [done|right; left|done].
  - by destruct r; apply HQ.
Qed.
Lemma receive_scope pre path (Q : trace -> result string (option LockedMessage) -> Prop) : own_path path ->
  (forall ext e, Q (pre ++ ext) (Err e)) -> (forall ext, Q (pre ++ ext) (Ok None)) ->
  (forall ext m, received client (pre ++ ext) path m -> Q (pre ++ ext) (Ok (Some m))) ->
  always stays pre (receive_peek_lock client path 1) Q.
Proof.
  intros Hp. apply (receive_always client stays elsewhere authorization_elsewhere elsewhere_ok).
  intros tr header r. apply (scope_call _ path "/messages/head?timeout=1"); [done|right; right; left|done].
Qed.

(** Completing and unlocking are for the lock of a message that was received. *)
Lemma lock_always pre path m method what (Q : trace -> result string unit -> Prop) :
  own_path path -> received client pre path m -> (forall ext r, Q (pre ++ ext) r) ->
  always stays pre (let* response := send_authorized client (call method (lm_location m) [] NoPayload)
                                       (strip_query (lm_location m)) SERVICE_BUS_SCOPE in
                    Ret (done_when [200; 204] what tt response)) Q.
Proof.
  intros Hp Hr HQ. apply always_bind. apply authorized_scope; [intros; apply HQ|]. intros ext header r. split.
  - intros _. right. exists path, m. split_and!; [done|by apply stable_received|done].
  - by destruct r; apply HQ.
Qed.

Lemma move_scope n path target : own_path path -> own_path target ->
  safe stays (move_available_messages_from_path client n path target).
Proof.
  intros Hp Ht. apply safe_loop. intros moved pre. unfold move_message. apply always_bind.
  apply receive_scope; [done..|]. intros ext m Hm. apply always_bind. apply send_always; [done|].
  intros ext' r. destruct r as [[]|e]; apply always_bind;
    (apply (lock_always _ path); [done|by apply stable_received|]); [by intros ? [[]|?]|done].
Qed.

(** *** Workers *)

Lemma env_safe name : safe stays (env name).
Proof. by apply safe_request. Qed.
Lemma bus_disabled_safe : safe stays inceptor_infra_disabled.
Proof. unfold inceptor_infra_disabled. safe. done. Qed.
#[local] Hint Resolve env_safe bus_disabled_safe : safe.

Lemma observe_elsewhere body properties route : only elsewhere (observe_message state body properties route).
Proof.
  unfold observe_message. repeat (case_match; [|exact I]). apply only_bind.
  - unfold notify_observer. case_match; [|exact I]. apply only_bind; [|done]. by apply retry_only.
  - intros notified. case_match; [|exact I]. apply only_bind; [|done].
    unfold register_test_case. cbv zeta. apply only_bind; [done|]. intros now. by apply retry_only.
Qed.
Lemma observe_safe body properties route : safe stays (observe_message state body properties route).
Proof. apply (safe_only _ elsewhere); [apply observe_elsewhere|intros; by apply elsewhere_ok]. Qed.

(** A queue whose shadow queue, if there is one, is the inceptor's too. *)
Definition own_queue (q : string) : Prop := q ∈ names /\ forall s, shadow_queue_name config q = Some s -> s ∈ names.
Lemma own_queue_path q : own_queue q -> own_path q /\ own_path (dead_letter_path q).
Proof. intros [Hq _]. split; exists q; auto. Qed.
Lemma own_name_path q : q ∈ names -> own_path q /\ own_path (dead_letter_path q).
Proof. intros Hq. split; exists q; auto. Qed.

Lemma create_target_scope target : own_queue target -> safe stays (create_target_queues state target).
Proof.
  intros [Hq Hs]. unfold create_target_queues. apply safe_bind; [apply bus_disabled_safe|]. intros [|]; [apply safe_Ret|].
  apply safe_bind_err; [by apply create_safe, own_name_path|]. intros _.
  destruct (shadow_queue_name config target) as [s|] eqn:E; [|apply safe_Ret].
  by apply create_safe, own_name_path, Hs.
Qed.
Lemma drain_source_scope n source base : own_queue source -> own_queue base -> safe stays (drain_source state n source base).
Proof.
  intros Hs Hb. destruct (own_queue_path _ Hs) as [H1' H2']. destruct (own_queue_path _ Hb) as [H3' _].
  unfold drain_source, move_available_messages, move_available_dead_letter_messages.
  apply safe_bind_loop_err; [by apply move_scope|]. intros _. apply safe_bind_loop_err; [by apply move_scope|]. intros _.
  destruct (shadow_queue_name config source) as [s|] eqn:Es; [|apply safe_Ret].
  destruct (own_name_path s) as [H4' H5']; [by apply Hs|].
  assert (own_path (unwrap_or base (shadow_queue_name config base))) as Ht.
  { destruct (shadow_queue_name config base) as [sb|] eqn:Eb; [|done]. by apply own_name_path, Hb. }
  apply safe_bind_loop_err; [by apply move_scope|]. intros _. apply safe_bind_loop_err; [by apply move_scope|].
  intros _. apply safe_Ret.
Qed.

Lemma worker_scope {A} queue drain (process : LockedMessage -> prog (result string A)) u :
  own_path queue -> safe stays drain -> (forall m, safe stays (process m)) ->
  safe stays (worker_turn state queue drain process u).
Proof.
  intros Hq Hdrain Hproc. unfold worker_turn, pause. apply safe_bind; [by apply safe_request|]. intros [].
  - intros pre. apply always_bind. apply receive_scope; [done..|]. intros ext m Hm.
    apply always_bind. unfold handle_locked, track_message.
    apply always_bind, always_request. intros r. split; [done|]. apply always_bind, always_bind, always_bind.
    apply always_request. intros mode. split; [done|]. cbn [always].
    destruct (negb _).
    { apply always_bind, (lock_always _ queue); [done|by do 2 apply stable_received|by split]. }
    apply always_bind. eapply always_post; [|apply (always_with stays stays (fun tr => received client tr queue m));
      [apply stable_received|by do 2 apply stable_received|done|apply Hproc]].
    intros tr [a|e] [Hr _].
    + by apply always_bind, (lock_always _ queue); [| |split].
    + by apply always_bind, always_bind, (lock_always _ queue); [| |split].
  - apply safe_bind_loop; [done|]. intros _. by safe.
  - by safe.
Qed.

Lemma forward_scope queue m : own_path queue -> safe stays (forward_message client queue m).
Proof. intros Hq pre. by apply send_always. Qed.
Lemma forward_optional_scope queue m : (forall q, queue = Some q -> own_path q) -> safe stays (forward_optional state queue m).
Proof. intros Hq. destruct queue as [q|]; [by apply forward_scope, Hq|apply safe_Ret]. Qed.

Lemma working_own q : working (bs_roles state) config q -> own_queue q.
Proof. apply working_in. Qed.
Lemma working_path q : working (bs_roles state) config q -> own_path q.
Proof. intros Hw. by apply own_queue_path, working_own. Qed.

Lemma process_input_scope m : safe stays (process_input_message state m).
Proof.
  unfold process_input_message. apply safe_bind_err; [|intros route; apply safe_bind; [apply observe_safe|safe]].
  unfold forward_input, active. destruct (has_role (bs_roles state) Duplicator) eqn:Ed.
  - unfold duplicator_config. destruct (bc_duplicator config) as [d|] eqn:Ec; [|apply safe_Ret]. cbn [ok_or].
    apply safe_bind_err; [|intros _; apply safe_bind_err; [|intros _; apply safe_Ret]];
      apply forward_optional_scope; intros q Hq; apply working_path, (input_working _ _ Duplicator d); auto;
      rewrite Hq; rewrite !elem_of_cons; auto.
  - destruct (has_role (bs_roles state) Splitter) eqn:Es; [|apply safe_Ret].
    unfold splitter_config. destruct (bc_splitter config) as [d|] eqn:Ec; [|apply safe_Ret]. cbn [ok_or].
    apply safe_bind; [by apply safe_request|]. intros percent. destruct (routes_to_blue _ _).
    + apply safe_bind_err; [|intros _; apply safe_Ret]. apply forward_optional_scope.
      intros q Hq. apply working_path, (input_working _ _ Splitter d); auto. rewrite Hq, !elem_of_cons. auto.
    + destruct (in_green_queue d) as [g|] eqn:Eg; [|apply safe_Ret].
      apply safe_bind_err; [|intros _; apply safe_Ret]. apply forward_scope, working_path, (input_working _ _ Splitter d); auto.
      rewrite Eg, !elem_of_cons. auto.
Qed.

(** The queues the blocks name. *)
Lemma input_queues_own b g u : input_queues state = Ok (Some (b, g, u)) -> own_queue b /\ own_queue g /\ own_queue u.
Proof.
  unfold input_queues, active, duplicator_config, splitter_config. intros Hq.
  assert (exists r d, (r = Duplicator /\ bc_duplicator config = Some d \/ r = Splitter /\ bc_splitter config = Some d)
    /\ has_role (bs_roles state) r = true
    /\ in_input_queue d = Some b /\ in_green_queue d = Some g /\ in_blue_queue d = Some u)
    as (r & d & Hb & Hr & Ei & Eg & Eu).
  { repeat (case_match; try discriminate Hq); cbn in Hq.
    1: destruct (bc_duplicator config) as [d|] eqn:Ec; [exists Duplicator, d|discriminate Hq].
    2: destruct (bc_splitter config) as [d|] eqn:Ec; [exists Splitter, d|discriminate Hq].
    all: cbn in Hq; destruct (in_input_queue d), (in_green_queue d), (in_blue_queue d); try discriminate Hq;
      injection Hq as -> -> ->; split_and!; auto. }
  split_and!; apply working_own, (input_working _ _ r d); try done; rewrite !elem_of_cons; auto.
Qed.
Lemma output_queues_own g b o : has_role (bs_roles state) Combiner = true -> output_queues state = Ok (g, b, o) ->
  own_queue g /\ own_queue b /\ own_queue o.
Proof.
  unfold output_queues, combiner_config. intros Hr Hq. destruct (bc_combiner config) as [d|] eqn:Ec; [|discriminate Hq].
  cbn in Hq. destruct (cb_green_queue d) eqn:Eg, (cb_blue_queue d) eqn:Eb, (cb_output_queue d) eqn:Eo; try discriminate Hq.
  injection Hq as -> -> ->.
  split_and!; apply working_own, (output_working _ _ d); try done; rewrite !elem_of_cons; auto.
Qed.
Lemma input_queue_own q : queue_worker_role (bs_roles state) = Ok (Some InputWorker) -> input_queue state = Ok q -> own_queue q.
Proof.
  intros Hw Hq. apply working_own. unfold input_queue, active, duplicator_config, splitter_config, consumer_config in Hq.
  destruct (has_role (bs_roles state) Duplicator) eqn:Ed; [|destruct (has_role (bs_roles state) Splitter) eqn:Es].
  - destruct (bc_duplicator config) as [d|] eqn:Ec; [|discriminate Hq]. cbn in Hq.
    destruct (in_input_queue d) eqn:Ei; [|discriminate Hq]. injection Hq as ->.
    apply (input_working _ _ Duplicator d); auto. rewrite Ei, !elem_of_cons. auto.
  - destruct (bc_splitter config) as [d|] eqn:Ec; [|discriminate Hq]. cbn in Hq.
    destruct (in_input_queue d) eqn:Ei; [|discriminate Hq]. injection Hq as ->.
    apply (input_working _ _ Splitter d); auto. rewrite Ei, !elem_of_cons. auto.
  - destruct (bc_consumer config) as [d|] eqn:Ec; [|discriminate Hq]. cbn in Hq.
    destruct (cs_input_queue d) eqn:Ei; [|discriminate Hq]. injection Hq as ->.
    apply (consumer_working _ _ d); try done. revert Hw. unfold queue_worker_role. cbv zeta.
    change (has_role (bs_roles state) Duplicator) with (has_role_in (bs_roles state) Duplicator) in Ed.
    change (has_role (bs_roles state) Splitter) with (has_role_in (bs_roles state) Splitter) in Es.
    cbn [movement_roles List.filter]. rewrite Ed, Es.
    change (has_role (bs_roles state) Consumer) with (has_role_in (bs_roles state) Consumer).
    by destruct (has_role_in (bs_roles state) Combiner), (has_role_in (bs_roles state) Consumer).
Qed.

Lemma whole_safe {A} (p : prog A) : safe stays p -> safe stays (whole p).
Proof. intros Hp. apply safe_bind; [done|]. intros a. apply safe_Ret. Qed.
Lemma drain_input_scope n : safe stays (drain_input_queues state n).
Proof.
  unfold drain_input_queues. destruct (input_queues state) as [[[[b g] u]|]|e] eqn:E; [|apply safe_Ret..].
  apply input_queues_own in E as (Hb & Hg & Hu).
  apply safe_bind_loop_err; [by apply whole_safe, create_target_scope|]. intros _.
  apply safe_bind_loop_err; [by apply drain_source_scope|]. intros _. by apply drain_source_scope.
Qed.
Lemma drain_output_scope n source result : own_queue source -> own_queue result ->
  safe stays (drain_output_queue state n source result).
Proof.
  intros Hs Hr. apply safe_bind_loop_err; [by apply whole_safe, create_target_scope|]. intros _. by apply drain_source_scope.
Qed.
Lemma drain_outputs_scope n : safe stays (drain_output_queues state n).
Proof.
  unfold drain_output_queues, active. destruct (has_role _ Combiner) eqn:Er; [cbn [negb]|apply safe_Ret].
  destruct (output_queues state) as [[[g b] o]|e] eqn:E; [|apply safe_Ret].
  apply output_queues_own in E as (Hg & Hb & Ho); [|done].
  apply safe_bind_loop_err; [by apply drain_output_scope|]. intros _. by apply drain_output_scope.
Qed.

(** *** Loops *)

Lemma pipeline_scope n : queue_worker_role (bs_roles state) = Ok (Some InputWorker) -> safe stays (run_input_pipeline state n).
Proof.
  intros Hw. unfold run_input_pipeline. destruct (input_queue state) as [q|e] eqn:E; [|apply safe_Ret].
  apply safe_loop_of_loops. intros u. apply worker_scope; [|apply drain_input_scope|apply process_input_scope].
  by apply own_queue_path, input_queue_own.
Qed.
Lemma process_output_scope c source result m : own_path result ->
  safe stays (process_output_message state c source result m).
Proof.
  intros Hr. apply safe_bind_err; [by apply forward_scope|]. intros _. apply safe_bind; [apply observe_safe|].
  intros _. apply safe_Ret.
Qed.
Lemma combine_scope n source result : own_queue source -> own_queue result -> safe stays (run_combine_loop state n source result).
Proof.
  intros Hs Hr. unfold run_combine_loop. destruct (combiner_config config) as [c|e]; [|apply safe_Ret].
  apply safe_loop_of_loops. intros u. apply worker_scope; [by apply own_queue_path|by apply drain_output_scope|].
  intros m. by apply process_output_scope, own_queue_path.
Qed.
Lemma combiner_scope n tasks task : has_role (bs_roles state) Combiner = true -> run_combiner state n = Ok tasks ->
  task ∈ tasks -> safe stays task.
Proof.
  intros Hr Ht Hin.
  assert (exists g b o, output_queues state = Ok (g, b, o)
    /\ tasks = [run_combine_loop state n b o; run_combine_loop state n g o]) as (g & b & o & Ho & ->).
  { unfold run_combiner, output_queues in *. destruct (combiner_config config) as [c|e]; [|discriminate Ht]. cbn in *.
    destruct (cb_blue_queue c), (cb_green_queue c), (cb_output_queue c); try discriminate Ht.
    injection Ht as <-. by eexists _, _, _. }
  apply output_queues_own in Ho as (Hg & Hb & Ho); [|done].
  rewrite !elem_of_cons in Hin. destruct Hin as [->|[->|[]%not_elem_of_nil]]; by apply combine_scope.
Qed.

(** *** Handlers *)

Definition own_queues (queues : list (option string)) : Prop := forall q, Some q ∈ queues -> own_queue q.
Lemma each_queue_scope queues body : own_queues queues -> (forall q, own_queue q -> safe stays (body q)) ->
  safe stays (each_queue queues body).
Proof.
  intros Hq Hb. apply safe_each. intros q Hin. apply Hb, Hq. apply list_elem_of_omap in Hin as (o & Hin & Ho).
  cbn in Ho. by subst o.
Qed.
Lemma with_error_safe {E F A} (e : F) (p : prog (result E A)) : safe stays p -> safe stays (with_error e p).
Proof. intros Hp. apply safe_bind; [done|]. intros a. apply safe_Ret. Qed.
Lemma create_temp_scope queues : own_queues queues -> safe stays (create_temp_queues state queues).
Proof.
  intros Hq. apply each_queue_scope; [done|]. intros q [Hn Hs]. destruct (shadow_queue_name config q) as [s|] eqn:E.
  - apply safe_bind_err; [|intros _]; apply with_error_safe, create_safe, own_name_path; [by apply Hs|done].
  - by apply with_error_safe, create_safe, own_name_path.
Qed.
Lemma delete_temp_scope queues : own_queues queues -> safe stays (delete_temp_queues state queues).
Proof.
  intros Hq. apply each_queue_scope; [done|]. intros q [Hn Hs].
  apply safe_bind_err; [by apply with_error_safe, delete_safe, own_name_path|]. intros _.
  destruct (shadow_queue_name config q) as [s|] eqn:E; [|apply safe_Ret].
  by apply with_error_safe, delete_safe, own_name_path, Hs.
Qed.

Lemma active_block {A} r (block : option A) what (f : A -> prog (result Z unit)) :
  (forall b, block = Some b -> has_role (bs_roles state) r = true -> safe stays (f b)) ->
  safe stays (for_role state r (ok_or what block) f).
Proof.
  intros Hf. unfold for_role, active. destruct (has_role _ r) eqn:Er; [|apply safe_Ret].
  destruct block as [b|]; [by apply Hf|apply safe_Ret].
Qed.
Lemma input_pair_own r d : (r = Duplicator /\ bc_duplicator config = Some d \/ r = Splitter /\ bc_splitter config = Some d) ->
  has_role (bs_roles state) r = true -> own_queues [in_green_queue d; in_blue_queue d].
Proof.
  intros Hb Hr q Hq. apply working_own, (input_working _ _ r d); [done..|]. by apply elem_of_cons; right.
Qed.
Lemma output_own d : bc_combiner config = Some d -> has_role (bs_roles state) Combiner = true ->
  own_queues [cb_green_queue d; cb_blue_queue d; cb_output_queue d].
Proof.
  intros Hb Hr q Hq. apply working_own, (output_working _ _ d); [done..|]. rewrite !elem_of_cons in *. tauto.
Qed.
Lemma writer_own w : bc_writer config = Some w -> has_role (bs_roles state) Writer = true -> own_queues [wr_target_queue w].
Proof.
  intros Hb Hr q Hq. rewrite elem_of_cons in Hq. destruct Hq as [Hq|[]%not_elem_of_nil].
  by apply working_own, (writer_working _ _ w).
Qed.

Lemma prepare_scope headers : safe stays (prepare_handler state headers).
Proof.
  unfold prepare_handler, duplicator_config, splitter_config, combiner_config, writer_config.
  destruct (authorize_operator _ _); [|apply safe_Ret]. cbv zeta. apply safe_bind; [by apply safe_request|]. intros _.
  apply safe_bind; [apply bus_disabled_safe|]. intros [|]; [apply safe_Ret|].
  apply safe_bind_err; [|intros _; apply safe_bind_err; [|intros _; apply safe_bind_err;
    [|intros _; apply safe_bind_err; [|intros _; apply safe_Ret]]]];
    apply active_block; intros d Hd Hr; apply create_temp_scope.
  - apply (input_pair_own Duplicator); auto.
  - apply (input_pair_own Splitter); auto.
  - by apply output_own.
  - by apply writer_own.
Qed.
Lemma cleanup_scope headers : safe stays (cleanup_handler state headers).
Proof.
  unfold cleanup_handler, duplicator_config, splitter_config, combiner_config.
  destruct (authorize_operator _ _); [|apply safe_Ret]. cbv zeta. apply safe_bind; [by apply safe_request|]. intros _.
  apply safe_bind; [apply bus_disabled_safe|]. intros [|]; [apply safe_Ret|].
  apply safe_bind_err; [|intros _; apply safe_bind_err; [|intros _; apply safe_bind_err; [|intros _; apply safe_Ret]]];
    apply active_block; intros d Hd Hr; apply delete_temp_scope.
  - apply (input_pair_own Duplicator); auto.
  - apply (input_pair_own Splitter); auto.
  - intros q Hq. apply (output_own d); [done..|]. rewrite !elem_of_cons in *. tauto.
Qed.
Lemma drain_runtime_scope n : safe stays (drain_runtime_queues state n).
Proof. apply safe_bind_loop_err; [apply drain_input_scope|]. intros _. apply drain_outputs_scope. Qed.
Lemma drain_scope n headers : safe stays (drain_handler state n headers).
Proof.
  unfold drain_handler. destruct (authorize_operator _ _); [|apply safe_Ret].
  apply safe_bind; [by apply safe_request|]. intros _. apply safe_bind_loop; [apply drain_runtime_scope|].
  intros r. apply safe_Ret.
Qed.
Lemma write_scope headers req : has_role (bs_roles state) Writer = true -> safe stays (write_handler state headers req).
Proof.
  intros Hr. unfold write_handler. destruct (require_bearer_token _ _); [|apply safe_Ret].
  destruct (bc_writer config) as [w|] eqn:Ew; cbn [mbind option_bind]; [|apply safe_Ret].
  destruct (wr_target_queue w) as [q|] eqn:Eq; [|apply safe_Ret].
  apply safe_bind; [|intros r; apply safe_Ret]. intros pre. apply send_always; [|done].
  by apply working_path, (writer_working _ _ w).
Qed.

(** Whatever the roles are, a write asks Service Bus for one thing only: a send to the writer's queue. *)
Definition to_writer (url : string) : Prop :=
  exists w q, bc_writer config = Some w /\ wr_target_queue w = Some q /\ url = queue_url client q +:+ "/messages".
Definition sends_to_writer (tr : trace) (e : event) : Prop :=
  match e with
  | Ev (AInceptor (ICall c)) _ => call_client c = "service-bus" -> to_writer (call_url c)
  | _ => True
  end.
Lemma elsewhere_sends tr act r : elsewhere act -> sends_to_writer tr (Ev act r).
Proof.
  destruct act; try done. match goal with o : inceptor_op |- _ => destruct o end; try done. intros Hn E. by destruct (Hn E).
Qed.
Lemma write_sends headers req : safe sends_to_writer (write_handler state headers req).
Proof.
  unfold write_handler. destruct (require_bearer_token _ _); [|apply safe_Ret].
  destruct (bc_writer config) as [w|] eqn:Ew; cbn [mbind option_bind]; [|apply safe_Ret].
  destruct (wr_target_queue w) as [q|] eqn:Eq; [|apply safe_Ret].
  apply safe_bind; [|intros r; apply safe_Ret]. intros pre. unfold send_message, send_message_with_broker_properties.
  apply always_bind. apply (authorized_always client sends_to_writer elsewhere authorization_elsewhere elsewhere_sends); [done|].
  intros ext header r. split; [|by destruct r]. intros _. by exists w, q.
Qed.

Lemma count_shadow_scope q : own_queue q -> safe stays (queue_drain_message_count_with_shadow state q).
Proof.
  assert (forall queue, queue ∈ names -> safe stays (queue_drain_message_count client queue)) as Hcount.
  { intros queue [H1' H2']%own_name_path. unfold queue_drain_message_count. rewrite no_arm.
    apply safe_bind_err; [by apply count_safe|]. intros a. apply safe_bind_err; [by apply count_safe|].
    intros d. apply safe_Ret. }
  intros [Hq Hs]. apply safe_bind_err; [by apply Hcount|]. intros total.
  destruct (shadow_queue_name config q) as [s|] eqn:E; [|apply safe_Ret].
  apply safe_bind_err; [by apply Hcount, Hs|]. intros shadow. apply safe_Ret.
Qed.
Lemma pair_status_scope label green blue : own_queue green -> own_queue blue ->
  safe stays (queue_pair_drain_status state label green blue).
Proof.
  intros Hg Hb. apply safe_bind_err; [by apply count_shadow_scope|]. intros g.
  apply safe_bind_err; [by apply count_shadow_scope|]. intros b. apply safe_bind; [by apply safe_request|].
  intros n. apply safe_Ret.
Qed.
Lemma input_status_scope block r what c : (r = Duplicator /\ c = bc_duplicator config \/ r = Splitter /\ c = bc_splitter config) ->
  has_role (bs_roles state) r = true -> safe stays (input_status state block (ok_or what c)).
Proof.
  intros Hc Hr. unfold input_status. destruct c as [d|]; cbn [ok_or mbind result_bind]; [|apply safe_Ret].
  destruct (in_green_queue d) as [g|] eqn:Eg, (in_blue_queue d) as [b|] eqn:Eb; try apply safe_Ret.
  destruct (input_pair_own r d) with (q := g) as [? ?]; [naive_solver|done|rewrite Eg; left|].
  apply pair_status_scope; [done|]. apply (input_pair_own r d); [naive_solver|done|]. rewrite Eb, !elem_of_cons. auto.
Qed.
Lemma drain_status_scope n headers : safe stays (drain_status_handler state n headers).
Proof.
  unfold drain_status_handler. destruct (authorize_operator _ _); [|apply safe_Ret].
  apply safe_bind_loop; [|intros r; apply safe_Ret]. unfold compute_drain_status.
  apply safe_bind; [by apply safe_request|]. intros mode.
  apply safe_bind_loop_err; [case_match; [apply drain_runtime_scope|apply safe_Ret]|]. intros _. apply whole_safe.
  unfold role_drain_status, active, duplicator_config, splitter_config, combiner_config.
  destruct (has_role _ Duplicator) eqn:Ed; [apply (input_status_scope _ Duplicator); auto|].
  destruct (has_role _ Splitter) eqn:Es; [apply (input_status_scope _ Splitter); auto|].
  destruct (has_role _ Combiner) eqn:Er; [|apply safe_Ret].
  destruct (bc_combiner config) as [d|] eqn:Ec; cbn [ok_or mbind result_bind]; [|apply safe_Ret].
  destruct (cb_green_queue d) as [g|] eqn:Eg, (cb_blue_queue d) as [b|] eqn:Eb; try apply safe_Ret.
  apply pair_status_scope; apply (output_own d); try done; rewrite ?Eg, ?Eb, !elem_of_cons; auto.
Qed.

(** What an inceptor does, by its roles and by the requests the operator and the test make. *)
Inductive activity (n : nat) : trace -> Prop :=
  | Input tr r : queue_worker_role (bs_roles state) = Ok (Some InputWorker) -> exec (run_input_pipeline state n) tr r -> activity n tr
  | Output tasks task tr r : has_role (bs_roles state) Combiner = true -> run_combiner state n = Ok tasks -> task ∈ tasks ->
      exec task tr r -> activity n tr
  | Preparing headers tr r : exec (prepare_handler state headers) tr r -> activity n tr
  | DrainStart headers tr r : exec (drain_handler state n headers) tr r -> activity n tr
  | StatusOfDrain headers tr r : exec (drain_status_handler state n headers) tr r -> activity n tr
  | CleaningUp headers tr r : exec (cleanup_handler state headers) tr r -> activity n tr
  | Writing headers req tr r : exec (write_handler state headers req) tr r -> activity n tr.

(** The trace is that of a write of an inceptor that is no writer, and the URL that of a send to the queue of
    its writer block: the route is there for every inceptor, while the manager lists the queue for
    writers. *)
Definition unlisted_write (tr : trace) (url : string) : Prop :=
  has_role (bs_roles state) Writer = false
  /\ (exists headers req r, exec (write_handler state headers req) tr r) /\ to_writer url.

(** C37. Whatever the broker and the other services answer, an inceptor that signs with SAS touches
    nothing on Service Bus but the queues its manager lists for it and their dead letters: each request
    of a worker, of a lifecycle handler or of a write is for such a queue, its messages or its head,
    or for the lock of a message it received from one.  The one exception: a write that reaches an
    inceptor without the writer role sends to the target queue of its writer block. *)
Theorem bus_stays_on_its_queues n tr1 c r tr2 :
  activity n (tr1 ++ Ev (AInceptor (ICall c)) r :: tr2) -> call_client c = "service-bus" ->
  in_scope tr1 (call_url c) \/ unlisted_write (tr1 ++ Ev (AInceptor (ICall c)) r :: tr2) (call_url c).
Proof.
  intros Ha Hc. inversion Ha as [tr o Hw He|tasks task tr o Hr Ht Hin He|h tr o He|h tr o He|h tr o He|h tr o He|h req tr o He];
    subst.
  - left. exact (safe_exec _ _ _ _ _ _ (pipeline_scope n Hw) He Hc).
  - left. exact (safe_exec _ _ _ _ _ _ (combiner_scope n _ _ Hr Ht Hin) He Hc).
  - left. exact (safe_exec _ _ _ _ _ _ (prepare_scope h) He Hc).
  - left. exact (safe_exec _ _ _ _ _ _ (drain_scope n h) He Hc).
  - left. exact (safe_exec _ _ _ _ _ _ (drain_status_scope n h) He Hc).
  - left. exact (safe_exec _ _ _ _ _ _ (cleanup_scope h) He Hc).
  - destruct (has_role (bs_roles state) Writer) eqn:Hr.
    + left. exact (safe_exec _ _ _ _ _ _ (write_scope h req Hr) He Hc).
    + right. split_and!; [done|by exists h, req, o|]. exact (safe_exec _ _ _ _ _ _ (write_sends h req) He Hc).
Qed.
End Scope.
