(* ===== verification/ServiceBusDrain.v ===== *)
(** * What the Azure Service Bus plugin guarantees: drains

    On a Service Bus that works a drain of the input queues ends, with every message back in
    the base queue, dead letters and shadow queues included.  What "works" means is a class
    of peek-lock servers; one in memory is an instance. *)

From S2P Require Import Prelude RustString Float64 Kube Crd StateStore InceptorEffects Effects.
From S2P Require Import World External Promotion Status Names NamesTheorems SipHash Auth Plugins Sdk.
From S2P Require Import SdkNames SdkTheorems JsonDecode HttpPlugin QueuePlugins ServiceBus ServiceBusClient.
From S2P Require Import ServiceBusWorkers Footprint Outcomes HttpPluginTheorems QueueTheorems ServiceBusTheorems.

(** ** Properties survive being sent on *)

(** What [custom_properties] lets through. *)
Definition clean (properties : gmap string string) : Prop :=
  forall k v, properties !! k = Some v ->
    is_standard_header k = false /\ all_bytes visible_ascii v = true /\ trim_matches "034" v = v.

Definition keep_property (out : gmap string string) (h : string * string) : gmap string string :=
  if is_standard_header h.1 then out
  else if all_bytes visible_ascii h.2 then <[h.1 := trim_matches "034" h.2]> out else out.

Lemma keep_entries l out :
  (forall e, e ∈ l -> is_standard_header e.1 = false /\ all_bytes visible_ascii e.2 = true
                      /\ trim_matches "034" e.2 = e.2) ->
  fold_left keep_property l out = fold_left (fun out e => <[e.1 := e.2]> out) l out.
Proof.
  revert out. induction l as [|e l IH]; intros out Hl; [done|]. cbn [fold_left].
  destruct (Hl e ltac:(left)) as (Hs & Hv & Ht). unfold keep_property at 2. rewrite Hs, Hv, Ht.
  apply IH. intros e' He'. apply Hl. by right.
Qed.

Definition not_head {A} (p : A -> bool) (l : list A) : Prop :=
  match l with x :: _ => p x = false | [] => True end.
Lemma drop_while_head {A} (p : A -> bool) l : not_head p (drop_while p l).
Proof. induction l as [|x l IH]; [done|]. cbn. by destruct (p x) eqn:E. Qed.
Lemma drop_while_none {A} (p : A -> bool) l : not_head p l -> drop_while p l = l.
Proof. destruct l; [done|]. cbn. by intros ->. Qed.

Lemma trim_trimmed c s : trim_matches c (trim_matches c s) = trim_matches c s.
Proof.
  unfold trim_matches, trim_end_matches, trim_start_matches. rewrite !bytes_of_bytes.
  set (p := Ascii.eqb c). set (d := drop_while p (bytes s)). f_equal. f_equal.
  destruct (drop_while_suffix p (rev d)) as [l' E].
  assert (d = rev (drop_while p (rev d)) ++ rev l') as E' by by rewrite <- rev_app_distr, <- E, rev_involutive.
  rewrite (drop_while_none p (rev (drop_while p (rev d)))).
  - rewrite rev_involutive. by apply drop_while_none, drop_while_head.
  - pose proof (drop_while_head p (bytes s)) as Hh. fold d in Hh. rewrite E' in Hh.
    by destruct (rev (drop_while p (rev d))).
Qed.

Lemma keep_clean out h : clean out -> clean (keep_property out h).
Proof.
  intros Hc. unfold keep_property. destruct (is_standard_header h.1) eqn:Es; [done|].
  destruct (all_bytes visible_ascii h.2) eqn:Ev; [|done]. intros k v Hk.
  apply lookup_insert_Some in Hk as [[<- <-]|[_ Hk]]; [|by apply Hc]. split_and!; [done| |apply trim_trimmed].
  by apply all_bytes_trim.
Qed.
Lemma custom_properties_clean headers : clean (custom_properties headers).
Proof.
  unfold custom_properties. fold keep_property. assert (clean ∅) as H0 by by intros k v ?%lookup_empty_Some.
  revert H0. generalize (∅ : gmap string string). induction headers as [|h headers IH]; intros out Hc; [done|].
  cbn [fold_left]. by apply IH, keep_clean.
Qed.

Lemma sorted_entries_perm (m : gmap string string) : sorted_entries m ≡ₚ map_to_list m.
Proof. apply merge_sort_Permutation. Qed.
Lemma insert_entries (l : list (string * string)) (out : gmap string string) :
  fold_left (fun out e => <[e.1 := e.2]> out) l out = list_to_map (rev l) ∪ out.
Proof.
  revert out. induction l as [|e l IH]; intros out; [by cbn; rewrite (left_id_L ∅ (∪))|]. cbn [fold_left rev].
  rewrite IH, list_to_map_app. cbn. rewrite <- map_union_assoc. f_equal.
  by rewrite insert_empty, <- insert_union_singleton_l.
Qed.

(** Sent on, a message has the properties it was received with. *)
Lemma properties_sent_on `{JsonText} properties broker header : clean properties ->
  custom_properties (message_headers properties broker ++ [("authorization", header)]) = properties.
Proof.
  intros Hc. unfold custom_properties, message_headers. fold keep_property.
  rewrite !fold_left_app. cbn [fold_left].
  assert (forall out, keep_property out ("authorization", header) = out) as -> by done.
  assert (forall out, keep_property out ("content-type", "application/octet-stream") = out) as -> by done.
  assert (forall out, fold_left keep_property match sendable_broker_properties broker with
      | Some b => [(BROKER_PROPERTIES_HEADER, json_to_bytes b)] | None => [] end out = out) as ->.
  { intros out. by destruct (sendable_broker_properties broker). }
  pose proof (sorted_entries_perm properties) as Hp. rewrite keep_entries.
  - rewrite insert_entries, (right_id_L ∅ (∪)).
    assert (rev (sorted_entries properties) ≡ₚ map_to_list properties) as Hr by by rewrite <- Permutation_rev.
    rewrite <- (list_to_map_to_list properties) at 2. apply list_to_map_proper; [|done].
    rewrite Hr. apply NoDup_fst_map_to_list.
  - intros [k v] Hin. rewrite Hp in Hin. by apply elem_of_map_to_list, Hc in Hin.
Qed.

(** ** A Service Bus that works *)

Notation content := (string * gmap string string)%type.
Definition content_of (m : LockedMessage) : content := (lm_body m, lm_properties m).

(** Peek-lock queues with nobody else at them: a received message waits no longer and is held
    under its location until it is completed.  [accepts] tells the resources the client has
    a credential for. *)
Class BusServer := {
  bus : Type;
  waiting : bus -> string -> list content;
  held : bus -> gmap string content;
  accepts : string -> Prop;
  serve_bus : forall act : action, bus -> reply act * bus }.

Section Server.
Context `{Sha256, StandardBase64, JsonText, BusServer}.
Context (client : ServiceBusClient).

Definition same (b b' : bus) : Prop := (forall q, waiting b' q = waiting b q) /\ held b' = held b.

(** What a queue gets by a call that sends [m]. *)
Definition arriving (m : LockedMessage) (header : string) : content :=
  (lm_body m, custom_properties (call_headers (signed (send_call client "" m) header))).

Class BusLaws : Prop := {
  authorizes b resource : accepts resource -> exists header b',
    runs serve_bus (authorization_header client resource SERVICE_BUS_SCOPE) b (Ok header) b' /\ same b b';
  receive_none b path header : waiting b path = [] ->
    let '(r, b') := serve_bus (AInceptor (ICall (signed (receive_call client path) header))) b in
    same b b' /\ exists resp, r = Ok resp /\ cr_status resp = 204;
  receive_first b path header m ms : waiting b path = m :: ms ->
    let '(r, b') := serve_bus (AInceptor (ICall (signed (receive_call client path) header))) b in
    exists resp lm, r = Ok resp /\ cr_status resp = 201 /\ locked_message resp = Ok lm /\ content_of lm = m
    /\ accepts (strip_query (lm_location lm)) /\ held b !! lm_location lm = None
    /\ held b' = <[lm_location lm := m]> (held b)
    /\ waiting b' path = ms /\ forall q, q <> path -> waiting b' q = waiting b q;
  send_appends b queue m header :
    let '(r, b') := serve_bus (AInceptor (ICall (signed (send_call client queue m) header))) b in
    (exists resp, r = Ok resp /\ cr_status resp = 201)
    /\ waiting b' queue = waiting b queue ++ [arriving m header]
    /\ (forall q, q <> queue -> waiting b' q = waiting b q) /\ held b' = held b;
  complete_settles b location header : is_Some (held b !! location) ->
    let '(r, b') := serve_bus (AInceptor (ICall (signed (call "DELETE" location [] NoPayload) header))) b in
    (exists resp, r = Ok resp /\ cr_status resp = 200)
    /\ held b' = delete location (held b) /\ forall q, waiting b' q = waiting b q;
  creates b queue d : exists b', runs serve_bus (create_queue client queue d) b (Ok tt) b' /\ same b b';
  env_harmless b name : same b (serve_bus (AEnv name) b).2 }.
Context `{BusLaws}.

Lemma same_trans b b1 b2 : same b b1 -> same b1 b2 -> same b b2.
Proof. intros [H1' H2'] [H3' H4']. split; [intros q; by rewrite H3', H1'|by rewrite H4', H2']. Qed.

Lemma authorized_runs b c resource : accepts resource -> exists header b1, same b b1
  /\ forall r b2, serve_bus (AInceptor (ICall (signed c header))) b1 = (r, b2) ->
     runs serve_bus (send_authorized client c resource SERVICE_BUS_SCOPE) b r b2.
Proof.
  intros Ha. destruct (authorizes b resource Ha) as (header & b1 & Hr & Hs). exists header, b1.
  split; [done|]. intros r b2 E. unfold send_authorized. eapply runs_bind_err; [exact Hr|].
  exact (runs_request serve_bus (AInceptor (ICall (signed c header))) b1 r b2 E).
Qed.

Lemma receive_runs b path : accepts (queue_url client path) ->
  match waiting b path with
  | [] => exists b', runs serve_bus (receive_peek_lock client path 1) b (Ok None) b' /\ same b b'
  | m :: ms => exists lm b', runs serve_bus (receive_peek_lock client path 1) b (Ok (Some lm)) b'
      /\ content_of lm = m /\ clean (lm_properties lm) /\ accepts (strip_query (lm_location lm))
      /\ held b !! lm_location lm = None /\ held b' = <[lm_location lm := m]> (held b)
      /\ waiting b' path = ms /\ forall q, q <> path -> waiting b' q = waiting b q
  end.
Proof.
  intros Ha. destruct (authorized_runs b (receive_call client path) _ Ha) as (header & b1 & [Hw Hh] & Hr).
  rewrite <- Hw. unfold receive_peek_lock. destruct (waiting b1 path) as [|m ms] eqn:Ew.
  - pose proof (receive_none b1 path header Ew) as Hn. destruct (serve_bus _ b1) as [r b2] eqn:E.
    destruct Hn as (Hs & resp & -> & Est). exists b2. split; [|by eapply same_trans].
    eapply runs_bind_err; [by eapply Hr|]. unfold has_status, done_when, has_status. rewrite Est. apply runs_Ret.
  - pose proof (receive_first b1 path header m ms Ew) as Hf. destruct (serve_bus _ b1) as [r b2] eqn:E.
    destruct Hf as (resp & lm & -> & Est & El & Hc & Hacc & Hfree & Hheld & Hp & Ho). exists lm, b2.
    split_and!; [| done | | done | by rewrite <- Hh | by rewrite Hheld, Hh | done
                | intros q Hq; by rewrite Ho, Hw].
    + eapply runs_bind_err; [by eapply Hr|]. unfold has_status. rewrite Est. cbn. rewrite El. apply runs_Ret.
    + unfold locked_message in El. destruct (ok_or _ _); [|discriminate El]. injection El as <-.
      apply custom_properties_clean.
Qed.

Lemma forward_runs b queue lm : accepts (queue_url client queue) -> clean (lm_properties lm) ->
  exists b', runs serve_bus (forward_message client queue lm) b (Ok tt) b'
  /\ waiting b' queue = waiting b queue ++ [content_of lm]
  /\ (forall q, q <> queue -> waiting b' q = waiting b q) /\ held b' = held b.
Proof.
  intros Ha Hc. destruct (authorized_runs b (send_call client queue lm) _ Ha) as (header & b1 & [Hw Hh] & Hr).
  pose proof (send_appends b1 queue lm header) as Hs. destruct (serve_bus _ b1) as [r b2] eqn:E.
  destruct Hs as ((resp & -> & Est) & Hq & Ho & Hh'). exists b2. split_and!.
  - unfold forward_message, send_message_with_broker_properties. eapply runs_bind_err; [by eapply Hr|].
    unfold done_when, has_status. rewrite Est. apply runs_Ret.
  - rewrite Hq, Hw. unfold arriving, signed, send_call, content_of. cbn [call call_headers].
    by rewrite properties_sent_on.
  - intros q Hne. by rewrite Ho, Hw.
  - by rewrite Hh'.
Qed.

Lemma complete_runs b lm m : accepts (strip_query (lm_location lm)) -> held b !! lm_location lm = Some m ->
  exists b', runs serve_bus (complete client lm) b (Ok tt) b'
  /\ held b' = delete (lm_location lm) (held b) /\ forall q, waiting b' q = waiting b q.
Proof.
  intros Ha Hm.
  destruct (authorized_runs b (call "DELETE" (lm_location lm) [] NoPayload) _ Ha) as (header & b1 & [Hw Hh] & Hr).
  pose proof (complete_settles b1 (lm_location lm) header) as Hd. rewrite Hh, Hm in Hd.
  destruct (serve_bus _ b1) as [r b2] eqn:E. destruct (Hd ltac:(by eexists)) as ((resp & -> & Est) & Hdel & Hq).
  exists b2. split_and!; [|by rewrite Hdel|intros q; by rewrite Hq].
  unfold complete. eapply runs_bind_err; [by eapply Hr|]. unfold done_when, has_status. rewrite Est. apply runs_Ret.
Qed.

(** ** Moves *)

Lemma runs_loop_more {S A W} (h : forall act : action, W -> reply act * W) n (s s' : S)
    (turn : S -> prog (S + A)) w w1 r w2 :
  runs h (turn s) w (inl s') w1 -> runs h (loop n s' turn) w1 r w2 -> runs h (loop (Datatypes.S n) s turn) w r w2.
Proof. intros [tr1 E1] [tr2 E2]. unfold runs. rewrite run_loop, E1, E2. by eexists. Qed.
Lemma runs_loop_done {S A W} (h : forall act : action, W -> reply act * W) n (s : S)
    (turn : S -> prog (S + A)) w a w1 :
  runs h (turn s) w (inr a) w1 -> runs h (loop (Datatypes.S n) s turn) w (Some a) w1.
Proof. intros [tr1 E1]. unfold runs. rewrite run_loop, E1. by eexists. Qed.
Lemma runs_bind_loop_err {E A B W} (h : forall act : action, W -> reply act * W)
    (p : prog (option (result E A))) (f : A -> prog (option (result E B))) w a w1 b w2 :
  runs h p w (Some (Ok a)) w1 -> runs h (f a) w1 b w2 -> runs h (bind_loop_err p f) w b w2.
Proof. intros H1' H2'. by eapply runs_bind. Qed.

(** Everything that waited at [path] waits at [target] now, behind what was there. *)
Definition moved (b b' : bus) (path target : string) : Prop :=
  waiting b' path = [] /\ waiting b' target = waiting b target ++ waiting b path
  /\ (forall q, q <> path -> q <> target -> waiting b' q = waiting b q) /\ held b' = held b.

Lemma bus_turn_moves b path target count m ms :
  accepts (queue_url client path) -> accepts (queue_url client target) -> path <> target ->
  waiting b path = m :: ms ->
  exists b', runs serve_bus (move_message client path target count) b (inl ((count + 1) mod 2 ^ 32)) b'
  /\ waiting b' path = ms /\ waiting b' target = waiting b target ++ [m]
  /\ (forall q, q <> path -> q <> target -> waiting b' q = waiting b q) /\ held b' = held b.
Proof.
  intros Hp Ht Hne Ew. pose proof (receive_runs b path Hp) as Hr. rewrite Ew in Hr.
  destruct Hr as (lm & b1 & R1 & <- & Hc & Ha & Hfree & Hheld & W1 & O1).
  destruct (forward_runs b1 target lm Ht Hc) as (b2 & R2 & W2 & O2 & Hh2).
  destruct (complete_runs b2 lm (content_of lm) Ha) as (b3 & R3 & Hdel & W3).
  { by rewrite Hh2, Hheld, lookup_insert_eq. }
  exists b3. split_and!.
  - unfold move_message. eapply runs_bind; [exact R1|]. eapply runs_bind; [exact R2|].
    eapply runs_bind; [exact R3|]. apply runs_Ret.
  - by rewrite W3, O2.
  - by rewrite W3, W2, O1.
  - intros q Hq Hq'. by rewrite W3, O2, O1.
  - by rewrite Hdel, Hh2, Hheld, delete_insert_id.
Qed.

Lemma bus_move_runs n path target : accepts (queue_url client path) -> accepts (queue_url client target) ->
  path <> target -> forall b count, (length (waiting b path) < n)%nat ->
  exists count' b', runs serve_bus (loop n count (move_message client path target)) b (Some (Ok count')) b'
  /\ moved b b' path target.
Proof.
  intros Hp Ht Hne. induction n as [|n IH]; intros b count Hn; [lia|].
  destruct (waiting b path) as [|m ms] eqn:Ew.
  - pose proof (receive_runs b path Hp) as Hr. rewrite Ew in Hr. destruct Hr as (b' & Hr & Hw & Hh).
    exists count, b'. split.
    + apply runs_loop_done. unfold move_message. eapply runs_bind; [exact Hr|]. apply runs_Ret.
    + split_and!; [by rewrite Hw|by rewrite Hw, Ew, app_nil_r|intros; apply Hw|done].
  - destruct (bus_turn_moves b path target count m ms Hp Ht Hne Ew) as (b1 & R1 & W1 & T1 & O1 & Hh1).
    destruct (IH b1 ((count + 1) mod 2 ^ 32)) as (count' & b' & R2 & W2 & T2 & O2 & Hh2).
    { rewrite W1. cbn in Hn. lia. }
    exists count', b'. split; [by eapply runs_loop_more|]. split_and!; [done| | |by rewrite Hh2].
    + by rewrite T2, T1, W1, Ew, <- app_assoc.
    + intros q Hq Hq'. by rewrite O2, O1.
Qed.

(** *** Several moves in a row *)

Fixpoint all_moved (moves : list (string * string)) (b b' : bus) : Prop :=
  match moves with
  | [] => same b b'
  | m :: rest => exists b1, moved b b1 m.1 m.2 /\ all_moved rest b1 b'
  end.
(** No queue is emptied twice, none that is filled is emptied, and [n] turns are enough. *)
Definition movable (n : nat) (b : bus) (moves : list (string * string)) : Prop :=
  (forall p t, (p, t) ∈ moves ->
     accepts (queue_url client p) /\ accepts (queue_url client t) /\ (length (waiting b p) < n)%nat)
  /\ NoDup moves.*1 /\ forall p, p ∈ moves.*1 -> p ∉ moves.*2.

Lemma movable_same n b b' moves : same b b' -> movable n b moves -> movable n b' moves.
Proof.
  intros [Hw _] (Hm & Hnd & Ht). split_and!; [|done..]. intros p t Hin. rewrite Hw. by apply Hm.
Qed.

Lemma movable_step n b p t rest : movable n b ((p, t) :: rest) ->
  exists count b1, runs serve_bus (move_available_messages_from_path client n p t) b (Some (Ok count)) b1
  /\ moved b b1 p t /\ movable n b1 rest.
Proof.
  intros (Hm & Hnd & Hdisj). cbn in Hnd, Hdisj. apply NoDup_cons in Hnd as [Hp Hnd].
  destruct (Hm p t) as (Ha & Ha' & Hn); [left|].
  assert (p <> t) as Hne by (intros ->; eapply (Hdisj t); left).
  destruct (bus_move_runs n p t Ha Ha' Hne b 0 Hn) as (count & b1 & Hr & Hmv). exists count, b1.
  split_and!; [done..|]. destruct Hmv as (_ & _ & Ho & _). split_and!; [|done|].
  - intros p' t' Hin. destruct (Hm p' t') as (? & ? & Hn'); [by right|]. split_and!; [done..|].
    assert (p' ∈ rest.*1) as Hp' by (apply list_elem_of_fmap; by exists (p', t')).
    rewrite Ho; [done| |]; intros ->; [done|]. eapply (Hdisj t); [by right|left].
  - intros q Hq Hin. by eapply (Hdisj q); right.
Qed.

(** What several moves amount to. *)
Lemma all_moved_waiting moves : forall n b b', movable n b moves -> all_moved moves b b' ->
  held b' = held b
  /\ forall q, waiting b' q = if decide (q ∈ moves.*1) then []
       else waiting b q ++ concat (map (fun m => waiting b m.1) (List.filter (fun m => String.eqb m.2 q) moves)).
Proof.
  induction moves as [|[p t] rest IH]; intros n b b' (Hm & Hnd & Hdisj) Hall.
  { destruct Hall as [Hw Hh]. split; [done|]. intros q. cbn. by rewrite app_nil_r. }
  destruct Hall as (b1 & (W1 & T1 & O1 & Hh1) & Hrest). cbn in Hnd, Hdisj, W1, T1, O1.
  apply NoDup_cons in Hnd as [Hp Hnd].
  assert (forall q, q ∈ rest.*1 -> q <> p /\ q <> t) as Hapart.
  { intros q Hq. split; intros ->; [done|]. eapply (Hdisj t); [by right|left]. }
  destruct (IH n b1 b') as [Hh Hw]; [split_and!|done|].
  - intros p' t' Hin. destruct (Hm p' t') as (? & ? & Hn'); [by right|].
    destruct (Hapart p') as [? ?]; [apply list_elem_of_fmap; by exists (p', t')|]. rewrite O1; done.
  - done.
  - intros q Hq Hin. by eapply (Hdisj q); right.
  - split; [by rewrite Hh|]. intros q. rewrite Hw. cbn [fmap list_fmap fst map List.filter snd].
    assert (map (fun m => waiting b1 m.1) (List.filter (fun m => String.eqb m.2 q) rest)
            = map (fun m => waiting b m.1) (List.filter (fun m => String.eqb m.2 q) rest)) as ->.
    { apply map_ext_in. intros [p' t'] [Hin _]%filter_In. cbn. destruct (Hapart p') as [? ?]; [|by apply O1].
      apply list_elem_of_fmap. exists (p', t'). split; [done|]. by apply list_elem_of_In. }
    destruct (decide (q ∈ rest.*1)) as [Hq|Hq].
    { by rewrite decide_True by (by right). }
    destruct (decide (q = p)) as [->|Hqp].
    { rewrite decide_True by left. rewrite W1. cbn. assert (forall m, m ∈ rest -> String.eqb m.2 p = false) as Hn.
      { intros [p' t'] Hin. apply String.eqb_neq. cbn. intros ->. eapply (Hdisj p); [left|]. right.
        apply list_elem_of_fmap. by exists (p', p). }
      assert (List.filter (fun m => String.eqb m.2 p) rest = []) as ->; [|done].
      clear -Hn. induction rest as [|m rest IH]; [done|]. cbn. rewrite Hn by left. apply IH.
      intros m' Hm'. apply Hn. by right. }
    rewrite decide_False by (rewrite not_elem_of_cons; done). destruct (String.eqb_spec t q) as [->|Hqt].
    + rewrite T1. cbn. by rewrite app_assoc.
    + by rewrite O1.
Qed.
(** ** A drain *)

Section Drain.
Context `{Regexes} (config : BusConfig) (roles : list PluginRole) (runtime : PluginInceptorRuntime).
Notation state := {| bs_config := config; bs_roles := roles; bs_runtime := runtime; bs_client := client |}.

(** The moves of a drain of [source] to [base]: the messages and the dead letters of the queue, and
    those of its shadow queue. *)
Definition drain_moves (source base : string) : list (string * string) :=
  [(source, base); (dead_letter_path source, base)]
  ++ match shadow_queue_name config source with
     | Some shadow =>
         let target := unwrap_or base (shadow_queue_name config base) in
         [(shadow, target); (dead_letter_path shadow, target)]
     | None => []
     end.

Lemma drain_source_runs n b source base rest : movable n b (drain_moves source base ++ rest) ->
  exists b', runs serve_bus (drain_source state n source base) b (Some (Ok tt)) b'
  /\ movable n b' rest
  /\ forall b'', all_moved rest b' b'' -> all_moved (drain_moves source base ++ rest) b b''.
Proof.
  unfold drain_source, drain_moves, move_available_messages, move_available_dead_letter_messages.
  cbn [bs_config bs_client app]. intros Hm.
  apply movable_step in Hm as (c1 & b1 & R1 & M1 & Hm). apply movable_step in Hm as (c2 & b2 & R2 & M2 & Hm).
  destruct (shadow_queue_name config source) as [shadow|]; cbn [app] in Hm.
  - apply movable_step in Hm as (c3 & b3 & R3 & M3 & Hm). apply movable_step in Hm as (c4 & b4 & R4 & M4 & Hm).
    exists b4. split_and!; [|done|].
    + do 2 (eapply runs_bind_loop_err; [eassumption|]). do 2 (eapply runs_bind_loop_err; [eassumption|]).
      apply runs_Ret.
    + intros b'' Hr. exists b1. split; [done|]. exists b2. split; [done|]. exists b3. split; [done|].
      by exists b4.
  - exists b2. split_and!; [|done|].
    + do 2 (eapply runs_bind_loop_err; [eassumption|]). apply runs_Ret.
    + intros b'' Hr. exists b1. split; [done|]. by exists b2.
Qed.

Lemma create_target_runs b target :
  exists b', runs serve_bus (whole (create_target_queues state target)) b (Some (Ok tt)) b' /\ same b b'.
Proof.
  unfold create_target_queues, inceptor_infra_disabled, env. cbn [bs_config bs_client].
  pose proof (env_harmless b "FLUIDBG_INCEPTOR_INFRA_DISABLED") as He.
  destruct (serve_bus (AEnv "FLUIDBG_INCEPTOR_INFRA_DISABLED") b) as [r b1] eqn:E. cbn in He.
  pose proof (runs_request serve_bus (AEnv "FLUIDBG_INCEPTOR_INFRA_DISABLED") b r b1 E) as Re.
  destruct (match r with Some v => String.eqb v "true" | None => false end) eqn:Ed.
  - exists b1. split; [|done]. eapply runs_bind; [|apply runs_Ret].
    eapply runs_bind; [eapply runs_bind; [exact Re|apply runs_Ret]|]. rewrite Ed. apply runs_Ret.
  - destruct (creates b1 target (bc_queue_declaration config)) as (b2 & R2 & S2).
    destruct (shadow_queue_name config target) as [shadow|] eqn:Es.
    + destruct (creates b2 shadow (shadow_declaration config)) as (b3 & R3 & S3). exists b3.
      split; [|by eapply same_trans; [|eapply same_trans]]. eapply runs_bind; [|apply runs_Ret].
      eapply runs_bind; [eapply runs_bind; [exact Re|apply runs_Ret]|]. rewrite Ed.
      eapply runs_bind_err; [exact R2|]. exact R3.
    + exists b2. split; [|by eapply same_trans]. eapply runs_bind; [|apply runs_Ret].
      eapply runs_bind; [eapply runs_bind; [exact Re|apply runs_Ret]|]. rewrite Ed.
      eapply runs_bind_err; [exact R2|]. apply runs_Ret.
Qed.

(** C35. On a Service Bus that works, and with enough turns, a drain of the input queues ends and succeeds:
    the queues of green and blue, their dead letters, their shadow queues and the dead letters of these
    are empty, every message of them waits, with its body and properties and in its order, behind
    what the base queue (or its shadow queue) had, none is lost, none is there twice, none is left
    locked, and no other queue has changed. *)
Theorem bus_drain_completes (n : nat) (b : bus) (base green blue : string) :
  let moves := drain_moves green base ++ drain_moves blue base in
  input_queues state = Ok (Some (base, green, blue)) -> movable n b moves ->
  exists b', runs serve_bus (drain_input_queues state n) b (Some (Ok tt)) b'
  /\ held b' = held b
  /\ forall q, waiting b' q = if decide (q ∈ moves.*1) then []
       else waiting b q ++ concat (map (fun m => waiting b m.1) (List.filter (fun m => String.eqb m.2 q) moves)).
Proof.
  cbv zeta. intros Hq Hm. unfold drain_input_queues. rewrite Hq.
  destruct (create_target_runs b base) as (b0 & R0 & S0). pose proof (movable_same n b b0 _ S0 Hm) as Hm0.
  rewrite <- (app_nil_r (drain_moves blue base)) in Hm0.
  destruct (drain_source_runs n b0 green base _ Hm0) as (b1 & R1 & Hm1 & A1).
  destruct (drain_source_runs n b1 blue base [] Hm1) as (b2 & R2 & _ & A2).
  assert (same b2 b2) as Hrefl by done. specialize (A1 b2 (A2 b2 Hrefl)). rewrite app_nil_r in A1, Hm0.
  destruct (all_moved_waiting _ n b0 b2 Hm0 A1) as [Hh Hw]. destruct S0 as [Hw0 Hh0].
  exists b2. split_and!; [|by rewrite Hh|].
  - eapply runs_bind_loop_err; [exact R0|]. eapply runs_bind_loop_err; [exact R1|]. exact R2.
  - intros q. rewrite Hw, Hw0. destruct (decide _); [done|]. do 2 f_equal. apply map_ext. intros m. apply Hw0.
Qed.
End Drain.
End Server.
