(* ===== verification/ServiceBusServer.v ===== *)
(** * A Service Bus in memory

    An instance of the class of servers of [ServiceBusDrain], and concrete runs against it. *)

From S2P Require Import Prelude RustString Float64 Kube Crd StateStore InceptorEffects Effects.
From S2P Require Import World External Promotion Status Names NamesTheorems SipHash Auth Plugins Sdk.
From S2P Require Import SdkNames SdkTheorems JsonDecode HttpPlugin QueuePlugins ServiceBus ServiceBusClient.
From S2P Require Import ServiceBusWorkers Footprint Outcomes HttpPluginTheorems QueueTheorems.
From S2P Require Import ServiceBusTheorems ServiceBusDrain ServiceBusScope.

(** A message as it came: its body and the headers it was sent with. *)
Notation raw := (string * HeaderMap)%type.
Definition delivered (m : raw) : content := (m.1, custom_properties m.2).

(** The queues by their URLs; the locked messages by the number of their lock. *)
Record bus_memory := { mem_queues : gmap string (list raw); mem_locks : gmap nat raw }.

(** The location of a lock. *)
Definition location (n : nat) : string := of_bytes (repeat "x"%char (S n)).
Definition lock_of (url : string) : nat := pred (String.length url).

Definition strip_suffix (suffix s : string) : option string :=
  (fun t => of_bytes (rev (bytes t))) <$> strip_prefix (of_bytes (rev (bytes suffix))) (of_bytes (rev (bytes s))).

Definition answer (status : Z) (headers : HeaderMap) (body : string) : call_response :=
  {| cr_status := status; cr_headers := headers; cr_body := body; cr_json := Err "no JSON" |}.
Definition queue_of (s : bus_memory) (url : string) : list raw := default [] (mem_queues s !! url).
Definition with_queue (s : bus_memory) (url : string) (l : list raw) : bus_memory :=
  {| mem_queues := <[url := l]> (mem_queues s); mem_locks := mem_locks s |}.

Definition serve_post (c : http_call) (s : bus_memory) : call_response * bus_memory :=
  match strip_suffix "/messages/head?timeout=1" (call_url c) with
  | Some url =>
      match queue_of s url with
      | [] => (answer 204 [] "", s)
      | m :: ms =>
          let n := fresh (dom (mem_locks s)) in
          (answer 201 (("location", location n) :: m.2) m.1,
           {| mem_queues := <[url := ms]> (mem_queues s); mem_locks := <[n := m]> (mem_locks s) |})
      end
  | None =>
      match strip_suffix "/messages" (call_url c) with
      | Some url =>
          let body := match call_payload c with BytesPayload data => data | _ => "" end in
          (answer 201 [] "", with_queue s url (queue_of s url ++ [(body, call_headers c)]))
      | None => (answer 404 [] "", s)
      end
  end.
Definition serve_delete (c : http_call) (s : bus_memory) : call_response * bus_memory :=
  let n := lock_of (call_url c) in
  match mem_locks s !! n with
  | Some _ => (answer 200 [] "", {| mem_queues := mem_queues s; mem_locks := delete n (mem_locks s) |})
  | None => (answer 404 [] "", s)
  end.
Definition serve_call (c : http_call) (s : bus_memory) : call_response * bus_memory :=
  if String.eqb (call_method c) "POST" then serve_post c s
  else if String.eqb (call_method c) "DELETE" then serve_delete c s
  else if String.eqb (call_method c) "GET"
  then (answer 200 [] ("<MessageCount>" +:+ show_Z (Z.of_nat (length (queue_of s (call_url c))))
                       +:+ "</MessageCount>"), s)
  else (answer 201 [] "", s).
Definition memory_bus_serve (act : action) (s : bus_memory) : reply act * bus_memory :=
  match act as a return reply a * bus_memory with
  | AInceptor (ICall c) => let '(r, s') := serve_call c s in (Ok r, s')
  | AInceptor op => (good_reply op, s)
  | a => ((serve a empty_world).1, s)
  end.

Definition sample_bus_client : ServiceBusClient :=
  {| sb_endpoint := "https://shop.servicebus.windows.net"; sb_namespace_name := "shop";
     sb_auth := Sas "root" "secret" 3600; sb_management := None |}.

#[local] Existing Instance sample_sha256.
#[local] Existing Instance sample_base64.

Section Instance.
Context `{JsonText}.

#[export] Instance memory_bus : BusServer :=
  {| bus := bus_memory;
     waiting := fun s path => map delivered (queue_of s (queue_url sample_bus_client path));
     held := fun s => kmap location (delivered <$> mem_locks s);
     accepts := fun _ => True;
     serve_bus := memory_bus_serve |}.

Lemma lock_of_location n : lock_of (location n) = n.
Proof. unfold lock_of, location. by rewrite length_of_bytes, repeat_length. Qed.
#[local] Instance location_inj : Inj eq eq location.
Proof. intros m n E. by rewrite <- (lock_of_location m), E, lock_of_location. Qed.
Lemma location_visible n : all_bytes visible_ascii (location n) = true.
Proof. unfold location. rewrite all_bytes_of_bytes. cbn. by induction n. Qed.

Lemma strip_suffix_app s suffix : strip_suffix suffix (s +:+ suffix) = Some s.
Proof.
  unfold strip_suffix. rewrite bytes_app, rev_app_distr.
  replace (of_bytes (rev (bytes suffix) ++ rev (bytes s)))
    with (of_bytes (rev (bytes suffix)) +:+ of_bytes (rev (bytes s)))
    by (apply bytes_inj; by rewrite bytes_app, !bytes_of_bytes).
  rewrite strip_prefix_app. cbn. by rewrite bytes_of_bytes, rev_involutive, of_bytes_bytes.
Qed.
Lemma send_is_not_receive s : strip_suffix "/messages/head?timeout=1" (s +:+ "/messages") = None.
Proof. unfold strip_suffix. by rewrite bytes_app, rev_app_distr. Qed.

Lemma queue_of_other s path q l : q <> path ->
  queue_of (with_queue s (queue_url sample_bus_client path) l) (queue_url sample_bus_client q)
  = queue_of s (queue_url sample_bus_client q).
Proof.
  intros Hne. unfold queue_of, with_queue. cbn [mem_queues]. rewrite lookup_insert_ne; [done|].
  intros E. by apply Hne, (queue_url_inj sample_bus_client).
Qed.

Lemma memory_receives s path header :
  serve_call (signed (receive_call sample_bus_client path) header) s
  = match queue_of s (queue_url sample_bus_client path) with
    | [] => (answer 204 [] "", s)
    | m :: ms =>
        let n := fresh (dom (mem_locks s)) in
        (answer 201 (("location", location n) :: m.2) m.1,
         {| mem_queues := <[queue_url sample_bus_client path := ms]> (mem_queues s);
            mem_locks := <[n := m]> (mem_locks s) |})
    end.
Proof.
  unfold serve_call, signed, receive_call, serve_post. cbn [call call_method call_url String.eqb].
  by rewrite strip_suffix_app.
Qed.

Lemma memory_sends s queue m header :
  serve_call (signed (send_call sample_bus_client queue m) header) s
  = (answer 201 [] "",
     with_queue s (queue_url sample_bus_client queue)
       (queue_of s (queue_url sample_bus_client queue)
        ++ [(lm_body m, call_headers (signed (send_call sample_bus_client queue m) header))])).
Proof.
  unfold serve_call, signed, send_call, serve_post. cbn [call call_method call_url call_payload String.eqb].
  by rewrite send_is_not_receive, strip_suffix_app.
Qed.

Lemma fresh_lock (locks : gmap nat raw) : locks !! fresh (dom locks) = None.
Proof. apply not_elem_of_dom, is_fresh. Qed.

Lemma memory_receive_none s path header : waiting s path = [] ->
  let '(r, s') := serve_bus (AInceptor (ICall (signed (receive_call sample_bus_client path) header))) s in
  same s s' /\ exists resp, r = Ok resp /\ cr_status resp = 204.
Proof.
  intros E. change (map delivered (queue_of s (queue_url sample_bus_client path)) = []) in E.
  unfold serve_bus, memory_bus, memory_bus_serve. rewrite memory_receives.
  destruct (queue_of s _) as [|m ms]; [|discriminate E]. split; [done|]. by eexists.
Qed.
Lemma header_location v headers : all_bytes visible_ascii v = true ->
  header_text (("location", v) :: headers) "location" = Some v.
Proof. intros E. unfold header_text. change (List.find _ _) with (Some ("location", v)). cbv iota beta. by rewrite E. Qed.
Lemma memory_receive_first s path header m ms : waiting s path = m :: ms ->
  let '(r, s') := serve_bus (AInceptor (ICall (signed (receive_call sample_bus_client path) header))) s in
  exists resp lm, r = Ok resp /\ cr_status resp = 201 /\ locked_message resp = Ok lm /\ content_of lm = m
  /\ accepts (strip_query (lm_location lm)) /\ held s !! lm_location lm = None
  /\ held s' = <[lm_location lm := m]> (held s)
  /\ waiting s' path = ms /\ forall q, q <> path -> waiting s' q = waiting s q.
Proof.
  intros E. change (map delivered (queue_of s (queue_url sample_bus_client path)) = m :: ms) in E.
  unfold serve_bus, memory_bus, memory_bus_serve. rewrite memory_receives.
  destruct (queue_of s _) as [|m' ms'] eqn:Eq; [discriminate E|]. injection E as <- <-.
  pose proof (fresh_lock (mem_locks s)) as Hfree. set (n := fresh (dom (mem_locks s))) in *.
  eexists _, {| lm_body := m'.1; lm_properties := custom_properties m'.2;
                lm_broker_properties := broker_properties (("location", location n) :: m'.2);
                lm_location := location n |}.
  cbn [held waiting lm_location mem_locks]. split_and!; [done..| |done|done| | | |].
  - unfold locked_message, answer. cbn [cr_headers]. by rewrite header_location by apply location_visible.
  - by rewrite (lookup_kmap location), lookup_fmap, Hfree.
  - by rewrite fmap_insert, (kmap_insert location).
  - unfold queue_of. cbn [mem_queues]. by rewrite lookup_insert_eq.
  - intros q Hq. f_equal. exact (queue_of_other s path q ms' Hq).
Qed.

Lemma memory_authorizes s resource : accepts resource -> exists header s',
  runs serve_bus (authorization_header sample_bus_client resource SERVICE_BUS_SCOPE) s (Ok header) s' /\ same s s'.
Proof.
  intros _. eexists _, s. split; [|done]. unfold authorization_header, sas_token. cbn [sb_auth sample_bus_client].
  eapply runs_bind; [eapply runs_bind|apply runs_Ret]; [by apply runs_request|apply runs_Ret].
Qed.
Lemma memory_creates s queue d :
  exists s', runs serve_bus (create_queue sample_bus_client queue d) s (Ok tt) s' /\ same s s'.
Proof.
  exists s. split; [|done].
  assert (arm_management sample_bus_client = None) as Ha by reflexivity. unfold create_queue. rewrite Ha.
  eapply runs_bind_err; [eapply runs_bind_err|].
  - unfold authorization_header, sas_token. cbn [sb_auth sample_bus_client].
    eapply runs_bind; [eapply runs_bind|apply runs_Ret]; [by apply runs_request|apply runs_Ret].
  - by eapply (runs_request _ (AInceptor (ICall _))).
  - apply runs_Ret.
Qed.

Lemma memory_bus_laws : BusLaws sample_bus_client.
Proof.
  split.
  - exact memory_authorizes.
  - exact memory_receive_none.
  - exact memory_receive_first.
  - intros s queue m header. unfold serve_bus, memory_bus, memory_bus_serve. rewrite memory_sends.
    split_and!; [by eexists| |intros q Hq; cbn [waiting]; f_equal; by apply queue_of_other|done].
    cbn [waiting]. unfold with_queue, queue_of at 1. cbn [mem_queues]. rewrite lookup_insert_eq. cbn [default from_option id]. apply map_app.
  - intros s loc header [m Hm].
    change ((kmap location (delivered <$> mem_locks s) : gmap string content) !! loc = Some m) in Hm.
    apply lookup_kmap_Some in Hm as (n & -> & Hn); [|apply _].
    rewrite lookup_fmap, fmap_Some in Hn. destruct Hn as (w & Hn & ->).
    unfold serve_bus, memory_bus, memory_bus_serve, serve_call, signed, serve_delete.
    cbn [call call_method call_url String.eqb Ascii.eqb Bool.eqb]. rewrite lock_of_location, Hn.
    split_and!; [by eexists| |done]. cbn [held mem_locks]. by rewrite fmap_delete, (kmap_delete location).
  - exact memory_creates.
  - done.
Qed.
End Instance.

(** ** Concrete runs *)

Definition bus_work_queues : SplitterConfig :=
  {| in_input_queue := Some "orders"; in_green_queue := Some "orders-green"; in_blue_queue := Some "orders-blue";
     in_green_env := None; in_blue_env := None |}.
Definition sample_bus_config : BusConfig :=
  {| bc_queue_declaration := default_declaration;
     bc_shadow_queue := Some {| shq_suffix := "-dlq"; shq_declaration := default_declaration |};
     bc_duplicator := Some bus_work_queues; bc_splitter := Some bus_work_queues;
     bc_combiner := Some {| cb_output_queue := Some "results"; cb_green_queue := Some "results-green";
                            cb_blue_queue := Some "results-blue"; cb_green_env := None; cb_blue_env := None |};
     bc_writer := None; bc_consumer := None; bc_observer := None |}.
Definition sample_bus_state (roles : list PluginRole) : BusState :=
  {| bs_config := sample_bus_config; bs_roles := roles; bs_runtime := sample_runtime roles;
     bs_client := sample_bus_client |}.
Definition bus_holding (l : list (string * list raw)) : bus_memory :=
  {| mem_queues := list_to_map (map (fun e => (queue_url sample_bus_client e.1, e.2)) l); mem_locks := ∅ |}.

Definition left_over : bus_memory :=
  bus_holding [("orders", [("0", [])]); ("orders-green", [("1", [("tenant", "a")]); ("2", [])]);
               ("orders-blue/$deadletterqueue", [("3", [])])].
Definition left_moves : list (string * string) :=
  drain_moves sample_bus_config "orders-green" "orders" ++ drain_moves sample_bus_config "orders-blue" "orders".

Lemma left_over_movable : @movable memory_bus sample_bus_client 3 left_over left_moves.
Proof.
  split_and!; [|apply (bool_decide_unpack _); vm_compute; exact I|].
  - intros p t Hin. split_and!; [exact I..|]. revert p t Hin.
    assert (Forall (fun m => (length (@waiting memory_bus left_over m.1) < 3)%nat) left_moves) as Hf.
    { apply (bool_decide_unpack _). vm_compute. exact I. }
    rewrite Forall_forall in Hf. intros p t Hin. exact (Hf (p, t) Hin).
  - apply Forall_forall. apply (bool_decide_unpack _). vm_compute. exact I.
Qed.

Lemma bus_drain_completes_witness :
  exists b', @runs _ bus_memory memory_bus_serve
    (@drain_input_queues sample_sha256 sample_base64 no_json_text (sample_bus_state [Splitter]) 3) left_over
    (Some (Ok tt)) b'
  /\ @waiting memory_bus b' "orders-green" = [] /\ @waiting memory_bus b' "orders-blue/$deadletterqueue" = []
  /\ @waiting memory_bus b' "orders" = [("0", ∅); ("1", {["tenant" := "a"]}); ("2", ∅); ("3", ∅)].
Proof.
  destruct (@bus_drain_completes sample_sha256 sample_base64 no_json_text memory_bus sample_bus_client
    memory_bus_laws sample_bus_config [Splitter] (sample_runtime [Splitter]) 3 left_over
    "orders" "orders-green" "orders-blue") as (b' & Hr & _ & Hw).
  - reflexivity.
  - exact left_over_movable.
  - exists b'. split; [exact Hr|]. rewrite !Hw. split_and!; vm_compute; reflexivity.
Defined.

#[local] Existing Instance no_json_text.

(** A duplicator takes one message. *)
Definition bus_duplicating_run : option (result string unit) * trace * bus_memory :=
  run memory_bus_serve (@run_input_pipeline sample_sha256 sample_base64 no_json_text no_regexes
    (sample_bus_state [Duplicator]) 1) (bus_holding [("orders", [("1", [("tenant", "a")])])]).

Definition deleted_at (tr : trace) (i : nat) : option string :=
  match tr !! i with
  | Some (Ev (AInceptor (ICall c)) _) => if String.eqb (call_method c) "DELETE" then Some (call_url c) else None
  | _ => None
  end.

Lemma bus_acks_witness :
  deleted_at bus_duplicating_run.1.2 10 = Some "x"
  /\ exists path m, lm_location m = "x"
  /\ received sample_bus_client (take 10 bus_duplicating_run.1.2) path m
  /\ input_settled (sample_bus_state [Duplicator])
       (take 10 bus_duplicating_run.1.2) path m.
Proof.
  split; [vm_compute; reflexivity|].
  destruct (bus_duplicating_run.1.2 !! 10%nat) as [e|] eqn:E; [|vm_compute in E; discriminate].
  pose proof (run_exec memory_bus_serve (@run_input_pipeline sample_sha256 sample_base64 no_json_text no_regexes
    (sample_bus_state [Duplicator]) 1) (bus_holding [("orders", [("1", [("tenant", "a")])])])) as He.
  fold bus_duplicating_run in He. rewrite <- (take_drop_middle _ _ _ E) in He at 1.
  vm_compute in E. injection E as <-.
  edestruct (@bus_acks sample_sha256 sample_base64 no_json_text no_regexes (sample_bus_state [Duplicator]) 1)
    as [Hin _]; [|destruct (Hin He) as (path & m & Hu & Hr & Hs)]; [reflexivity|].
  exists path, m. split_and!; [symmetry; exact Hu|exact Hr|exact Hs].
Defined.

Definition called_at (tr : trace) (i : nat) : option (string * string) :=
  match tr !! i with
  | Some (Ev (AInceptor (ICall c)) _) => Some (call_method c, call_url c)
  | _ => None
  end.

Lemma bus_stays_on_its_queues_witness :
  called_at bus_duplicating_run.1.2 6 = Some ("POST", "https://shop.servicebus.windows.net/orders-green/messages")
  /\ in_scope (sample_bus_state [Duplicator]) (take 6 bus_duplicating_run.1.2) "https://shop.servicebus.windows.net/orders-green/messages".
Proof.
  split; [vm_compute; reflexivity|].
  destruct (bus_duplicating_run.1.2 !! 6%nat) as [e|] eqn:E; [|vm_compute in E; discriminate].
  pose proof (run_exec memory_bus_serve (@run_input_pipeline sample_sha256 sample_base64 no_json_text no_regexes
    (sample_bus_state [Duplicator]) 1) (bus_holding [("orders", [("1", [("tenant", "a")])])])) as He.
  fold bus_duplicating_run in He. rewrite <- (take_drop_middle _ _ _ E) in He at 1.
  vm_compute in E. injection E as <-.
  edestruct (@bus_stays_on_its_queues sample_sha256 sample_base64 no_json_text no_regexes
    (sample_bus_state [Duplicator])) as [Hin|(_ & _ & w & q & Hw & _)];
    [reflexivity|discriminate|eapply Input; [reflexivity|exact He]|reflexivity|exact Hin|discriminate Hw].
Defined.
