(* ===== verification/ServiceBusManagerTheorems.v ===== *)
(** * What the Azure Service Bus plugin guarantees: queues of the manager

    Theorems about [ServiceBusManager]: a cleanup deletes the temporary queues of the inception
    point its token was issued for, all of them and nothing else; the garbage collection
    spares what a preparation of an active inception created.  They hold whether queues are
    managed through the namespace's own interface or through Resource Manager. *)

From S2P Require Import Prelude RustString Float64 Kube Crd StateStore InceptorEffects Effects.
From S2P Require Import World External Promotion Status Names NamesTheorems SipHash Auth Plugins Sdk.
From S2P Require Import SdkNames SdkTheorems JsonDecode HttpPlugin QueuePlugins QueueManagers ServiceBus ServiceBusClient.
From S2P Require Import ServiceBusManager Footprint Outcomes HttpPluginTheorems.
From S2P Require Import QueueTheorems ServiceBusTheorems ServiceBusTokens.

(** ** Names *)

Section Names.
Context `{Sha256}.

Lemma bus_config_blocks j c : decode_config j = Some c -> blocks_of j (bc_duplicator c) (bc_splitter c) (bc_combiner c).
Proof.
  unfold decode_config. intros Hd. apply bind_Some in Hd as (fields & Hf & Hd).
  destruct j; cbn in Hf; try discriminate Hf. injection Hf as ->. destruct (negb _); [discriminate Hd|].
  repeat (apply bind_Some in Hd as (? & ? & Hd)). injection Hd as <-. cbn.
  split_and!; intros d ->; eapply decoded_block; eassumption.
Qed.

(** The temporary queues of the inception point a request is about, with their shadows. *)
Definition temp_queues (claims : PluginAuthClaims) (req : PluginManagerLifecycleRequest) : list string :=
  let c := (secured_config_from_claims claims req).2 in
  let managed := managed_temp_queue_names (parse_roles (pml_roles req)) c in
  managed ++ omap (shadow_queue_name c) managed.
Definition base_shadows (claims : PluginAuthClaims) (req : PluginManagerLifecycleRequest) : list string :=
  let c := (secured_config_from_claims claims req).2 in
  omap (shadow_queue_name c) (base_shadow_queue_names (parse_roles (pml_roles req)) c).

Lemma bus_managed_names_derived config ns ref uid ip roles q :
  q ∈ managed_temp_queue_names roles
        (unwrap_or default_config (decode_config (rewrite_queue_temp_names config ns ref uid ip))) ->
  exists role field logical, (role, field, logical) ∈ temp_queue_fields
  /\ q = temp_name ns ref uid ip config role logical.
Proof.
  destruct (decode_config _) as [c|] eqn:Ed; [|by cbn; intros ?%not_elem_of_nil].
  exact (temp_names_derived _ _ _ _ _ _ _ _ _ _ (bus_config_blocks _ _ Ed)).
Qed.
Lemma bus_temp_queues_own claims req q : q ∈ temp_queues claims req -> own_queue claims (pml_config req) q.
Proof.
  unfold temp_queues, secured_config_from_claims, claimed_config. cbn [snd]. intros Hq.
  refine (own_with_shadows _ _ _ _ _ (fun m Hm => bus_managed_names_derived _ _ _ _ _ _ m Hm) _ Hq).
  intros m shadow Hs. unfold shadow_queue_name in Hs. destruct (bc_shadow_queue _); [|done]. injection Hs as <-.
  by eexists.
Qed.
Lemma bus_temp_queues_active a active claims req q :
  a ∈ active -> inventories a claims req -> q ∈ temp_queues claims req -> q ∈ active_queue_names active.
Proof.
  intros Ha [Hc Hro]%inventoried_claimed Hq. unfold active_queue_names. apply list_elem_of_In, in_concat.
  eexists. split; [apply in_map_iff; exists a; split; [reflexivity|by apply list_elem_of_In]|].
  apply list_elem_of_In. cbv zeta. unfold active_config. rewrite Hc, Hro. exact Hq.
Qed.
Lemma own_or_shadow (shadow : string -> option string) managed (q : string) :
  q ∈ managed ++ omap shadow managed -> exists q', q' ∈ managed /\ (q = q' \/ shadow q' = Some q).
Proof. rewrite elem_of_app, list_elem_of_omap. intros [?|(q' & ? & ?)]; eauto. Qed.
End Names.

(** ** The address of a queue *)

(** Where a queue is managed. *)
Definition queue_address (client : ServiceBusClient) (queue : string) : result string string :=
  match arm_management client with
  | Some m => arm_queue_url client queue m
  | None => Ok (queue_url client queue)
  end.

Lemma queue_address_inj client q q' u : queue_address client q = Ok u -> queue_address client q' = Ok u -> q = q'.
Proof.
  unfold queue_address. destruct (arm_management client) as [m|].
  - unfold arm_queue_url. destruct (arm_queues_url client m) as [base|e]; [|done]. cbn. intros [= <-] [= E].
    apply (f_equal bytes) in E. rewrite !bytes_app in E. cbn in E. apply app_inv_head in E. injection E as E.
    rewrite !bytes_app in E. apply app_inv_tail, bytes_inj in E. by symmetry; apply percent_encode_inj.
  - intros [= <-] [= E]. by eapply queue_url_inj.
Qed.

Section Client.
Context `{Sha256, StandardBase64, JsonText, Urls}.

Lemma workload_identity_is auth tr p : exec (workload_identity auth) tr (Ok p) ->
  exists tenant client file authority tokens, p = WorkloadIdentity tenant client file authority tokens.
Proof.
  unfold workload_identity. intros He.
  repeat (apply exec_bind in He as (? & ? & ? & -> & _ & He); case_match; try by destruct He as [_ ?]).
  apply exec_bind in He as (? & ? & ? & -> & _ & [_ [= ->]]). by eexists _, _, _, _, _.
Qed.

(** How queues are managed is up to the configuration alone, not to the environment. *)
Lemma clients_agree config tr1 c1 tr2 c2 queue :
  exec (from_runtime_config config) tr1 (Ok c1) -> exec (from_runtime_config config) tr2 (Ok c2) ->
  queue_address c1 queue = queue_address c2 queue.
Proof.
  unfold from_runtime_config. destruct (mbind _ _) as [[connection [endpoint name]]|e]; [|by intros [_ ?]].
  intros (? & ? & a1 & _ & E1 & [_ [= ->]])%exec_bind_err (? & ? & a2 & _ & E2 & [_ [= ->]])%exec_bind_err.
  unfold queue_address, arm_management, arm_queue_url, arm_queues_url, queue_url. cbn [sb_endpoint sb_namespace_name sb_management].
  assert (forall c c', sb_auth c = a1 -> sb_auth c' = a2 -> uses_workload_identity c = uses_workload_identity c') as Hu.
  { unfold auth_provider in E1, E2. intros c c' <- <-. unfold uses_workload_identity.
    case_match; [by destruct E1 as [_ [= ->]], E2 as [_ [= ->]]|]. case_match.
    - destruct E1 as [_ E1], E2 as [_ E2]. destruct connection; [|discriminate E1].
      by injection E1 as ->; injection E2 as ->.
    - apply workload_identity_is in E1 as (? & ? & ? & ? & ? & ->).
      by apply workload_identity_is in E2 as (? & ? & ? & ? & ? & ->). }
  by erewrite Hu.
Qed.
End Client.

(** ** Requests that create and delete *)

Section Requests.
Context `{Sha256, StandardBase64, JsonText, Urls}.
Context (client : ServiceBusClient) (may : string -> string -> Prop).

(** Whatever is created or deleted is a queue that may be, at its address. *)
Definition managing (c : http_call) : Prop := call_method c = "PUT" \/ call_method c = "DELETE".
Definition permitted (act : action) : Prop :=
  match act with
  | AInceptor (ICall c) =>
      managing c -> exists q, may (call_method c) q /\ queue_address client q = Ok (call_url c)
  | _ => True
  end.

Lemma not_managing c : call_method c = "GET" \/ call_method c = "POST" -> ~ managing c.
Proof. intros [E|E] [E'|E']; by rewrite E in E'. Qed.

Lemma fp_authorization resource scope : only permitted (authorization_header client resource scope).
Proof.
  unfold authorization_header, sas_token, workload_token, request_workload_identity_token.
  repeat (cbv zeta; cbn beta iota; first [only_step
    | match goal with |- permitted (AInceptor (ICall _)) => intros Hm; by apply not_managing in Hm; [|right] end | exact I]).
Qed.
Lemma fp_send c resource scope : permitted (AInceptor (ICall c)) -> only permitted (send_authorized client c resource scope).
Proof.
  intros Hc. apply only_bind_err; [apply fp_authorization|]. intros header. apply only_request. exact Hc.
Qed.
Lemma fp_arm_call {A} url method p (answer : call_response -> result string A) :
  (forall u, url = Ok u -> permitted (AInceptor (ICall (call method u [] p)))) ->
  only permitted (arm_call client url method p answer).
Proof.
  intros Hu. unfold arm_call. destruct url as [u|e]; [|exact I]. apply only_bind_err; [|done]. by apply fp_send, Hu.
Qed.

Lemma fp_delete queue : may "DELETE" queue -> only permitted (delete_queue client queue).
Proof.
  intros Hq. unfold delete_queue. destruct (arm_management client) as [m|] eqn:Em.
  - destruct (negb _); [exact I|]. apply fp_arm_call. intros u Hu _. exists queue. split; [done|].
    unfold queue_address. by rewrite Em.
  - apply only_bind_err; [|done]. apply fp_send. intros _. exists queue. split; [done|].
    unfold queue_address. by rewrite Em.
Qed.
Lemma fp_create queue d : may "PUT" queue -> only permitted (create_queue client queue d).
Proof.
  intros Hq. unfold create_queue. destruct (arm_management client) as [m|] eqn:Em.
  - destruct (negb _); [exact I|]. apply fp_arm_call. intros u Hu _. exists queue. split; [done|].
    unfold queue_address. by rewrite Em.
  - apply only_bind_err; [|done]. apply fp_send. intros _. exists queue. split; [done|].
    unfold queue_address. by rewrite Em.
Qed.
Lemma fp_list : only permitted (list_queues client).
Proof.
  unfold list_queues, list_queues_arm. case_match.
  - apply fp_arm_call. intros u _ Hm. by apply not_managing in Hm; [|left].
  - apply only_bind_err; [|done]. apply fp_send. intros Hm. by apply not_managing in Hm; [|left].
Qed.
End Requests.

Section Handlers.
Context `{Urls, JsonText, StandardBase64, Sha256, Codecs}.
Context (state : BusManagerState).
Notation runtime := (bm_runtime_config state).

(** A client of the manager's. *)
Definition connected (client : ServiceBusClient) : Prop :=
  exists tr, exec (from_runtime_config runtime) tr (Ok client).

Lemma fp_connect (P : action -> Prop) : (forall n, P (AEnv n)) -> P (AInceptor NewTokens) ->
  only P (from_runtime_config runtime).
Proof.
  intros He Hn. unfold from_runtime_config, auth_provider, workload_identity, or_env, env.
  repeat (cbv zeta; cbn beta iota; first [only_step | done]).
Qed.

(** A program that first connects. *)
Lemma after_connecting {A} (k : ServiceBusClient -> prog (result Z A)) may tr res c r :
  exec (let* client := with_error 400 (from_runtime_config runtime) in k client) tr res ->
  (forall client, only (permitted client may) (k client)) ->
  Ev (AInceptor (ICall c)) r ∈ tr -> managing c ->
  exists client q, connected client /\ may (call_method c) q /\ queue_address client q = Ok (call_url c).
Proof.
  intros He Hk Hin Hm.
  apply exec_bind in He as (tr1 & tr2 & [client|e] & -> & H1' & H2').
  all: rewrite elem_of_app in Hin; destruct Hin as [Hin|Hin].
  1,3: assert (only (fun act => match act with AInceptor (ICall _) => False | _ => True end)
    (with_error 400 (from_runtime_config runtime))) as Hc by (apply only_with_error, fp_connect; done);
    by destruct (only_exec _ _ _ _ Hc H1' _ _ Hin).
  - apply exec_with_error in H1'. destruct (only_exec _ _ _ _ (Hk client) H2' _ _ Hin Hm) as (q & Hq & Hu).
    exists client, q. split_and!; [by exists tr1|done..].
  - destruct H2' as [-> _]. by apply not_elem_of_nil in Hin.
Qed.

(** *** What a success means *)

(** Whether queues are deleted by the manager at all. *)
Definition deletes_queues (client : ServiceBusClient) : bool :=
  match arm_management client with Some m => mg_delete_queues m | None => true end.
(** The broker confirmed a deletion, or that there is nothing to delete. *)
Definition deleted (client : ServiceBusClient) (queue : string) (tr : trace) : Prop :=
  exists c resp, Ev (AInceptor (ICall c)) (Ok resp) ∈ tr /\ call_method c = "DELETE"
  /\ queue_address client queue = Ok (call_url c) /\ has_status resp [200; 202; 204; 404] = true.

Lemma deleted_in client q tr1 tr2 tr3 : deleted client q tr2 -> deleted client q (tr1 ++ tr2 ++ tr3).
Proof. intros (c & resp & Hin & ?). exists c, resp. rewrite !elem_of_app. auto. Qed.

Lemma sent_exec client c resource scope tr resp :
  exec (send_authorized client c resource scope) tr (Ok resp) ->
  exists c', call_method c' = call_method c /\ call_url c' = call_url c /\ Ev (AInceptor (ICall c')) (Ok resp) ∈ tr.
Proof.
  intros (tr1 & tr2 & header & -> & _ & He)%exec_bind_err. apply exec_request in He as (r & tr' & -> & [_ ->]).
  eexists. split_and!; [| |apply elem_of_app; right; left]; done.
Qed.
Lemma done_when_ok {A} statuses what (a b : A) resp : done_when statuses what a resp = Ok b -> has_status resp statuses = true.
Proof. unfold done_when. by destruct (has_status _ _). Qed.

Lemma delete_done client queue tr : deletes_queues client = true ->
  exec (delete_queue client queue) tr (Ok tt) -> deleted client queue tr.
Proof.
  unfold deletes_queues, delete_queue, deleted, queue_address. destruct (arm_management client) as [m|].
  - intros ->. cbn [negb]. unfold delete_queue_arm, arm_call. destruct (arm_queue_url client queue m) as [u|e]; [|by intros [_ ?]].
    intros (tr1 & tr2 & resp & -> & He & [-> Hr])%exec_bind_err. symmetry in Hr. apply done_when_ok in Hr.
    apply sent_exec in He as (c & Hm & Hu & Hin). exists c, resp. rewrite elem_of_app, Hm, Hu. auto.
  - intros _ (tr1 & tr2 & resp & -> & He & [-> Hr])%exec_bind_err. symmetry in Hr. apply done_when_ok in Hr.
    apply sent_exec in He as (c & Hm & Hu & Hin). exists c, resp. rewrite elem_of_app, Hm, Hu. auto.
Qed.
Lemma delete_with_shadow_done client c q q' tr : deletes_queues client = true ->
  exec (delete_with_shadow client c q) tr (Ok tt) -> q' = q \/ shadow_queue_name c q = Some q' -> deleted client q' tr.
Proof.
  intros Hd (tr1 & tr2 & [] & -> & E1 & E2)%exec_bind_err Hq. apply exec_with_error, delete_done in E1; [|done].
  destruct Hq as [->|Hs].
  - exact (deleted_in _ _ [] _ _ E1).
  - rewrite Hs in E2. apply exec_with_error, delete_done in E2; [|done]. rewrite <- (app_nil_r (tr1 ++ tr2)), <- app_assoc.
    by apply deleted_in.
Qed.

Lemma reconcile_done roles c tr :
  exec (reconcile_queues state roles c false) tr (Ok tt) ->
  exists client, connected client /\ (deletes_queues client = true -> forall q,
    q ∈ managed_temp_queue_names (parse_roles roles) c
        ++ omap (shadow_queue_name c) (managed_temp_queue_names (parse_roles roles) c) -> deleted client q tr).
Proof.
  intros (tr1 & tr2 & client & -> & H1' & He)%exec_bind_err. apply exec_with_error in H1'.
  exists client. split; [by exists tr1|]. intros Hd q (q' & Hin & Hq')%own_or_shadow.
  apply exec_bind_err in He as (tr3 & tr4 & [] & -> & _ & He).
  destruct (exec_each _ _ _ _ He Hin) as (t1 & tx & t2 & -> & Hx). cbn beta iota in Hx.
  apply (delete_with_shadow_done _ _ _ q) in Hx; [|done..].
  replace (tr1 ++ tr3 ++ t1 ++ tx ++ t2) with ((tr1 ++ tr3 ++ t1) ++ tx ++ t2) by by rewrite <- !app_assoc.
  by apply deleted_in.
Qed.

(** *** What is created, deleted and collected *)

Lemma bus_fp_reconcile client may roles c (create : bool) :
  (forall q, (q ∈ managed_temp_queue_names (parse_roles roles) c
              \/ exists q', q' ∈ managed_temp_queue_names (parse_roles roles) c /\ shadow_queue_name c q' = Some q) ->
     may (if create then "PUT" else "DELETE") q) ->
  (create = true -> forall q, q ∈ omap (shadow_queue_name c) (base_shadow_queue_names (parse_roles roles) c) -> may "PUT" q) ->
  only (permitted client may)
    (do* (match bc_shadow_queue c with
          | Some shadow =>
              if create then
                each (base_shadow_queue_names (parse_roles roles) c) (fun queue =>
                  match shadow_queue_name c queue with
                  | Some shadow_queue => with_error 500 (create_queue client shadow_queue (shq_declaration shadow))
                  | None => Ret (Ok tt)
                  end)
              else Ret (Ok tt)
          | None => Ret (Ok tt)
          end) ;;
     each (managed_temp_queue_names (parse_roles roles) c)
       (fun queue => if create then create_with_shadow client c queue else delete_with_shadow client c queue)).
Proof.
  intros Hown Hbase. unfold create_with_shadow, delete_with_shadow.
  apply only_bind_err; [destruct (bc_shadow_queue c); [|exact I]; destruct create; [|exact I]|intros _];
    apply only_each; intros q Hq.
  - destruct (shadow_queue_name c q) eqn:E; [|exact I]. apply only_with_error, fp_create, Hbase; [done|].
    apply list_elem_of_omap. eauto.
  - destruct create, (shadow_queue_name c q) eqn:E;
      repeat first [apply only_bind_err; [|intros []] | apply only_with_error | apply fp_create | apply fp_delete
                   | apply Hown; eauto | exact I].
Qed.

(** A cleanup on Service Bus deletes what it may, and all of it: each queue it deletes has a name
    derived from the identity in a token the operator signed for the very inception point of the
    request (or is the shadow of such a queue), whatever names the configuration has, and it creates
    none; and when it is answered with success the broker has confirmed, for every temporary queue of
    the inception point and every shadow, that it is deleted or was not there, unless the management
    settings leave deletions to others. *)
Theorem bus_cleanup_exact (headers : HeaderMap) (req : PluginManagerLifecycleRequest) (tr : trace) (res : result Z json) :
  exec (cleanup_handler state headers req) tr res ->
  (forall c r, Ev (AInceptor (ICall c)) r ∈ tr -> managing c ->
     call_method c = "DELETE" /\ exists claims client q, authorize state headers = Ok claims
     /\ ensure_request_matches_claims req claims = Ok tt /\ connected client
     /\ queue_address client q = Ok (call_url c) /\ own_queue claims (pml_config req) q)
  /\ (is_ok res = true -> exists claims client, authorize state headers = Ok claims /\ connected client
     /\ (deletes_queues client = true -> forall q, q ∈ temp_queues claims req -> deleted client q tr)).
Proof.
  unfold cleanup_handler. destruct (authorize state headers) as [claims|e]; cbn [mbind result_bind];
    [|by intros [-> ->]; split; [intros c r ?%not_elem_of_nil|]].
  destruct (ensure_request_matches_claims req claims) as [[]|e] eqn:Em; cbn [mbind result_bind];
    [|by intros [-> ->]; split; [intros c r ?%not_elem_of_nil|]].
  destruct (secured_config_from_claims claims req) as [effective c] eqn:Es.
  intros (tr1 & tr2 & reconciled & -> & He & Hrest)%exec_bind.
  assert (tr2 = []) as -> by by destruct reconciled, Hrest. rewrite app_nil_r. split.
  - intros call r Hin Hm.
    destruct (after_connecting _ (fun m q => m = "DELETE" /\ q ∈ temp_queues claims req) _ _ call r He) as (client & q & Hc & [Hd Hq] & Hu);
      [|exact Hin|done|].
    + intros client. apply (bus_fp_reconcile _ _ _ _ false); [|done]. intros q Hq. split; [done|]. unfold temp_queues.
      rewrite Es. cbn [snd]. rewrite elem_of_app, list_elem_of_omap. naive_solver.
    + split; [done|]. exists claims, client, q. split_and!; try done. by apply bus_temp_queues_own.
  - intros Hok. destruct reconciled as [[]|e]; [|by destruct Hrest as [_ ->]].
    destruct (reconcile_done _ _ _ He) as (client & Hc & Hall). exists claims, client. split_and!; [done..|].
    intros Hd q Hq. apply Hall; [done|]. unfold temp_queues in Hq. by rewrite Es in Hq.
Qed.

Lemma fp_collect client active :
  only (permitted client (fun m q => m = "DELETE" /\ starts_with "fluidbg-" q = true /\ q ∉ active))
    (let* queues := with_error 500 (list_queues client) in
     each queues (fun queue =>
       if (starts_with "fluidbg-" queue && negb (existsb (String.eqb queue) active))%bool
       then with_error 500 (delete_queue client queue) else Ret (Ok tt))).
Proof.
  apply only_bind_err; [apply only_with_error, fp_list|]. intros queues. apply only_each. intros q _.
  destruct (_ && _)%bool eqn:E; [|exact I]. apply andb_true_iff in E as [? E%negb_true_iff].
  apply only_with_error, fp_delete. split_and!; [done..|]. by apply not_member.
Qed.

Lemma fp_env P roles c : P ANow -> only P (inceptor_env runtime roles c).
Proof.
  intros Hn. unfold inceptor_env. cbv zeta. apply only_bind; [|by intros [?|]].
  unfold static_sas_tokens_json. destruct (connection_of runtime) as [connection|]; [|exact I]. cbv zeta.
  apply only_bind; [|by intros [?|]]. generalize (∅ : gmap string string) as made.
  induction (inceptor_queue_names roles c) as [|q l IH]; intros made; [exact I|]. cbn [sas_tokens].
  case_match; [|exact I]. unfold sas_token. apply only_bind; [apply only_bind; [by apply only_request|done]|].
  intros token. apply IH.
Qed.

(** What a preparation creates or deletes. *)
Lemma prepare_manages headers req tr res claims c r :
  exec (prepare_handler state headers req) tr res -> authorize state headers = Ok claims ->
  Ev (AInceptor (ICall c)) r ∈ tr -> managing c ->
  exists client q, connected client /\ queue_address client q = Ok (call_url c)
  /\ (q ∈ temp_queues claims req \/ q ∈ base_shadows claims req).
Proof.
  unfold prepare_handler. intros He Ha Hin Hm. rewrite Ha in He. cbn [mbind result_bind] in He.
  destruct (ensure_request_matches_claims req claims) as [[]|e]; cbn [mbind result_bind] in He;
    [|by destruct He as [-> _]; apply not_elem_of_nil in Hin].
  destruct (map_err _ (queue_worker_role _)) as [w|e]; cbn [mbind result_bind] in He;
    [|by destruct He as [-> _]; apply not_elem_of_nil in Hin].
  destruct (secured_config_from_claims claims req) as [effective config] eqn:Es.
  apply exec_bind in He as (tr1 & tr2 & a & -> & He & Hrest). apply elem_of_app in Hin as [Hin|Hin].
  - apply exec_bind in He as (tr3 & tr4 & a' & -> & He & [-> _]). rewrite app_nil_r in Hin.
    destruct (after_connecting _ (fun _ q => q ∈ temp_queues claims req \/ q ∈ base_shadows claims req)
      _ _ c r He) as (client & q & Hc & Hq & Hu); [|exact Hin|done|by exists client, q].
    intros client. apply (bus_fp_reconcile _ _ _ _ true); unfold temp_queues, base_shadows; rewrite Es; cbn [snd].
    + intros q Hq. left. rewrite elem_of_app, list_elem_of_omap. naive_solver.
    + by right.
  - destruct a as [[[]|e]|]; [|by destruct Hrest as [-> _]; apply not_elem_of_nil in Hin..].
    assert (only (fun act => match act with AInceptor (ICall _) => False | _ => True end)
      (inceptor_env runtime (parse_roles (pml_roles req)) config)) as Henv by by apply fp_env.
    apply exec_bind in Hrest as (tr3 & tr4 & a' & -> & He' & Hend).
    assert (tr4 = []) as -> by by destruct a', Hend. rewrite app_nil_r in Hin.
    by destruct (only_exec _ _ _ _ Henv He' _ _ Hin).
Qed.

(** A sync on Service Bus spares the living: whatever queue a preparation of an inception point
    created, a sync whose inventory has that inception point, in its identity, configuration and
    roles, does not delete, apart from shadows of base queues, which the inventory's queues do not
    include; and every queue it deletes has a name that begins like those of temporary queues. *)
Theorem bus_sync_spares_prepared (headers headers' : HeaderMap) (preq : PluginManagerLifecycleRequest)
    (sreq : PluginManagerSyncRequest) (ptr tr : trace) pres (res : result Z json) (claims : PluginAuthClaims)
    (a : ActiveInception) c r c' r' :
  exec (prepare_handler state headers preq) ptr pres -> exec (sync_handler state headers' sreq) tr res ->
  authorize state headers = Ok claims -> a ∈ pms_active_inceptions sreq -> inventories a claims preq ->
  Ev (AInceptor (ICall c)) r ∈ ptr -> managing c -> Ev (AInceptor (ICall c')) r' ∈ tr -> managing c' ->
  call_method c' = "DELETE" /\ exists client q', connected client /\ queue_address client q' = Ok (call_url c')
  /\ starts_with "fluidbg-" q' = true /\ (call_url c' = call_url c -> q' ∈ base_shadows claims preq).
Proof.
  intros Hp Hs Ha Hact Hinv Hin Hm Hin' Hm'.
  destruct (prepare_manages _ _ _ _ _ _ _ Hp Ha Hin Hm) as (client & q & (tr0 & Hc) & Hu & Hq).
  unfold sync_handler in Hs. destruct (mbind _ _) as [[]|e] in Hs; [|by destruct Hs as [-> _]; apply not_elem_of_nil in Hin'].
  apply exec_bind in Hs as (tr1 & tr2 & a' & -> & He & Hrest).
  assert (tr2 = []) as -> by by destruct a', Hrest. rewrite app_nil_r in Hin'.
  destruct (after_connecting _ (fun m q => m = "DELETE" /\ starts_with "fluidbg-" q = true
      /\ q ∉ active_queue_names (pms_active_inceptions sreq)) _ _ c' r' He)
    as (client' & q' & Hc' & (Hd & Hpre & Hna) & Hu'); [|exact Hin'|done|].
  - intros k. apply fp_collect.
  - split; [done|]. exists client', q'. split_and!; try done. intros E. destruct Hc' as [tr0' Hc'].
    rewrite E, (clients_agree _ _ _ _ _ _ Hc' Hc) in Hu'. rewrite (queue_address_inj _ _ _ _ Hu Hu') in Hq.
    destruct Hq as [Hq|Hq]; [|done]. exfalso. by eapply Hna, bus_temp_queues_active.
Qed.
End Handlers.

(** ** A concrete manager *)

Definition sample_bus_manager : BusManagerState :=
  {| bm_signing_key := sample_key; bm_runtime_config := sample_bus_runtime |}.
(** The namespace has a queue left behind by an inception point that is gone, and one in use. *)
Definition namespace_response : call_response :=
  {| cr_status := 200; cr_headers := []; cr_body := "<title>fluidbg-left-behind</title><title>fluidbg-green-in-bb52b7ff882a4897</title>";
     cr_json := Err "no JSON" |}.
Definition namespace_serve (act : action) (w : unit) : reply act * unit :=
  match act as a return reply a * unit with
  | AInceptor (ICall c) => (Ok namespace_response, w)
  | a => ((serve a empty_world).1, w)
  end.

#[local] Existing Instance sample_sha256.
#[local] Existing Instance sample_base64.
#[local] Existing Instance sample_codecs.
#[local] Existing Instance no_json_text.
#[local] Existing Instance no_urls.

Definition bus_cleanup_run : result Z json * trace * unit :=
  run namespace_serve (cleanup_handler sample_bus_manager (signed_header sample_claims)
    (sample_request_of sample_claims [])) tt.
Definition bus_prepare_run : option (result Z PluginLifecycleResponse) * trace * unit :=
  run namespace_serve (prepare_handler sample_bus_manager (signed_header sample_claims)
    (sample_request_of sample_claims [])) tt.
Definition bus_sync_request : PluginManagerSyncRequest :=
  {| pms_plugin := "azure-servicebus"; pms_active_inceptions := [sample_active] |}.
Definition bus_sync_run : result Z json * trace * unit :=
  run namespace_serve (sync_handler sample_bus_manager (signed_header (sync_claims "azure-servicebus"))
    bus_sync_request) tt.
Definition sample_manager_client : option ServiceBusClient :=
  match from_runtime_config sample_bus_runtime with Ret (Ok client) => Some client | _ => None end.

Lemma sample_bus_authorized : authorize sample_bus_manager (signed_header sample_claims) = Ok sample_claims.
Proof. vm_compute. reflexivity. Qed.
Lemma sample_connected client : connected sample_bus_manager client -> sample_manager_client = Some client.
Proof.
  intros [tr He]. unfold sample_manager_client. cbn [sample_bus_manager bm_runtime_config] in He.
  destruct (from_runtime_config sample_bus_runtime) as [[c|e]|act k] eqn:E; [|by destruct He as [_ ?]|vm_compute in E; discriminate E].
  by destruct He as [_ [= ->]].
Qed.

Lemma bus_cleanup_exact_witness :
  is_ok bus_cleanup_run.1.1 = true
  /\ length (temp_queues sample_claims (sample_request_of sample_claims [])) = 4%nat
  /\ exists client, sample_manager_client = Some client
  /\ forall q, q ∈ temp_queues sample_claims (sample_request_of sample_claims []) -> deleted client q bus_cleanup_run.1.2.
Proof.
  assert (is_ok bus_cleanup_run.1.1 = true) as Hok by (vm_compute; reflexivity).
  destruct (bus_cleanup_exact sample_bus_manager (signed_header sample_claims) (sample_request_of sample_claims [])
    bus_cleanup_run.1.2 bus_cleanup_run.1.1) as [_ Hall]; [exact (run_exec namespace_serve _ tt)|].
  destruct (Hall Hok) as (claims & client & Ha & Hc & Hd). rewrite sample_bus_authorized in Ha. injection Ha as <-.
  apply sample_connected in Hc. split; [exact Hok|]. split; [vm_compute; reflexivity|].
  exists client. split; [exact Hc|]. apply Hd.
  assert (option_map deletes_queues sample_manager_client = Some true) as E by (vm_compute; reflexivity).
  rewrite Hc in E. injection E as E. exact E.
Defined.

Definition the_call (e : event) : option http_call :=
  match e with Ev (AInceptor (ICall c)) _ => Some c | _ => None end.

Lemma bus_sync_spares_prepared_witness :
  length (omap the_call bus_sync_run.1.2) = 2%nat
  /\ forall c r, Ev (AInceptor (ICall c)) r ∈ bus_sync_run.1.2 -> managing c ->
       call_url c <> "https://shop.servicebus.windows.net/fluidbg-green-in-bb52b7ff882a4897".
Proof.
  split; [vm_compute; reflexivity|]. intros c' r' Hin' Hm' Hurl.
  assert (exists c r, bus_prepare_run.1.2 !! 5%nat = Some (Ev (AInceptor (ICall c)) r)
    /\ call_method c = "PUT" /\ call_url c = "https://shop.servicebus.windows.net/fluidbg-green-in-bb52b7ff882a4897")
    as (c & r & E%list_elem_of_lookup_2 & Hm & Hu).
  { eexists _, _. split; [vm_compute; reflexivity|by split]. }
  destruct (bus_sync_spares_prepared sample_bus_manager (signed_header sample_claims)
    (signed_header (sync_claims "azure-servicebus")) (sample_request_of sample_claims []) bus_sync_request
    bus_prepare_run.1.2 bus_sync_run.1.2 bus_prepare_run.1.1 bus_sync_run.1.1 sample_claims sample_active c r c' r'
    (run_exec namespace_serve _ tt) (run_exec namespace_serve _ tt) sample_bus_authorized) as (_ & client & q & _ & _ & Hpre & Hb);
    [left|by split_and!|exact E|by left|exact Hin'|exact Hm'|].
  rewrite Hu in Hb. specialize (Hb Hurl). vm_compute in Hb.
  apply elem_of_cons in Hb as [->|[]%not_elem_of_nil]. discriminate Hpre.
Defined.
