(* ===== verification/CosmosTheorems.v ===== *)
(** * What the Cosmos store guarantees

    Theorems about [CosmosStore]: documents are read back as they were written, and a case has
    a document of its own.  And in company: any number of tasks of any number of operators work
    on one container, their requests interleaved in any order, each stopped anywhere, and a
    request that fails may have been applied.  A document is replaced on the condition that it
    still has the version it was read with, so a case is decided once: a verdict or a timeout
    that was acknowledged stays, until a clean-up, whose deletions have no such condition, asks
    to delete the document. *)

From S2P Require Import Prelude RustString Float64 Kube Crd InceptorEffects Effects StateStore World.
From S2P Require Import External Names NamesTheorems Auth Plugins Sdk JsonDecode HttpPlugin.
From S2P Require Import QueuePlugins CosmosStore PostgresStore Footprint.
From S2P Require Import LeaseExclusion QueueTheorems.

Import Cosmos.

(** ** Numbers *)

Lemma pretty_digit (m : N) : (m < 10)%N ->
  is_ascii_digit (pretty.pretty_N_char m) = true /\ Z.of_N (code (pretty.pretty_N_char m) - 48) = Z.of_N m.
Proof.
  intros Hm.
  assert (m = 0 \/ m = 1 \/ m = 2 \/ m = 3 \/ m = 4 \/ m = 5 \/ m = 6 \/ m = 7 \/ m = 8 \/ m = 9)%N as Hc by lia.
  by repeat (destruct Hc as [->|Hc]); [..|subst m].
Qed.

Lemma digits_value_pretty (n : N) : forall s, exists k, forall acc,
  digits_value (bytes (pretty.pretty_N_go n s)) acc = digits_value (bytes s) (acc * k + Z.of_N n).
Proof.
  induction (N.lt_wf_0 n) as [n _ IH]. intros s. destruct (decide (n = 0)%N) as [->|Hn].
  { exists 1. intros acc. rewrite pretty.pretty_N_go_0. f_equal. lia. }
  destruct (IH (n / 10)%N) with (s := String (pretty.pretty_N_char (n mod 10)) s) as [k Hk].
  { apply N.div_lt; lia. }
  exists (k * 10). intros acc. rewrite pretty.pretty_N_go_step, Hk by lia.
  destruct (pretty_digit (n mod 10)) as [Hd Hv]; [by apply N.mod_lt|].
  cbn [list_ascii_of_string digits_value]. rewrite Hd, Hv. f_equal.
  rewrite (N.div_mod n 10) at 3 by done. lia.
Qed.

Lemma pretty_digits (p : positive) : parse_digits (bytes (pretty.pretty (N.pos p))) = Some (Z.pos p).
Proof.
  unfold pretty.pretty, pretty.pretty_N, parse_digits. rewrite decide_False by done.
  destruct (digits_value_pretty (N.pos p) "") as [k Hk]. specialize (Hk 0).
  destruct (bytes (pretty.pretty_N_go (N.pos p) "")) as [|c l]; [|exact Hk].
  cbn in Hk. discriminate Hk.
Qed.

(** The number a text writes. *)
Definition read_Z (s : string) : option Z :=
  match bytes s with
  | c :: rest => if Ascii.eqb c "-" then Z.opp <$> parse_digits rest else parse_digits (c :: rest)
  | [] => None
  end.
Lemma read_show_Z z : read_Z (show_Z z) = Some z.
Proof.
  unfold read_Z, show_Z, pretty.pretty, pretty.pretty_Z. destruct z as [|p|p]; [done| |];
    unfold pretty.pretty, pretty.pretty_positive, pretty.pretty.
  - pose proof (pretty_digits p) as E. unfold pretty.pretty in *.
    pose proof (pretty.pretty_N_go_ne_dash (N.pos p) "") as Hne.
    unfold pretty.pretty_N in *. rewrite decide_False in * by done.
    destruct (pretty.pretty_N_go (N.pos p) "") as [|c s] eqn:Es; [discriminate E|]. cbn [list_ascii_of_string] in *.
    destruct (Ascii.eqb_spec c "-") as [->|]; [|exact E]. exfalso. apply (Hne s); [discriminate|done].
  - pose proof (pretty_digits p) as E. unfold pretty.pretty in *. cbn [append list_ascii_of_string].
    cbn [Ascii.eqb Bool.eqb]. change (bytes ("" +:+ ?s)) with (bytes s). by rewrite E.
Qed.
Lemma as_i64_number z :
  as_i64 (number z) = if (Z.leb (- 2 ^ 63) z && Z.ltb z (2 ^ 63))%bool then Some z else None.
Proof.
  transitivity (x ← read_Z (show_Z z); if (Z.leb (- 2 ^ 63) x && Z.ltb x (2 ^ 63))%bool then Some x else None); [done|].
  by rewrite read_show_Z.
Qed.
Lemma as_i64_in_range z : in_signed 64 z -> as_i64 (number z) = Some z.
Proof.
  intros [Hl Hu]. rewrite as_i64_number.
  destruct (Z.leb_spec (- 2 ^ 63) z), (Z.ltb_spec z (2 ^ 63)); try done; lia.
Qed.
Lemma as_i64_was z x : as_i64 (number z) = Some x -> x = z.
Proof. rewrite as_i64_number. case_match; congruence. Qed.
Lemma d_i32_in_range z : in_signed 32 z -> d_i32 (number z) = Some z.
Proof.
  intros [Hl Hu]. unfold d_i32. rewrite as_i64_in_range by (split; lia). cbn [mbind option_bind].
  destruct (Z.leb_spec (- 2 ^ 31) z), (Z.ltb_spec z (2 ^ 31)); try done; lia.
Qed.
Lemma d_i32_was z x : d_i32 (number z) = Some x -> x = z.
Proof.
  unfold d_i32. intros E. apply bind_Some in E as (y & Hy & E). apply as_i64_was in Hy as ->. case_match; congruence.
Qed.
Lemma d_i32_range j x : d_i32 j = Some x -> in_signed 32 x.
Proof.
  unfold d_i32. intros E. apply bind_Some in E as (y & _ & E).
  destruct (Z.leb_spec (- 2 ^ 31) y), (Z.ltb_spec y (2 ^ 31)); try discriminate E. injection E as <-. split; lia.
Qed.
Lemma as_i64_range j x : as_i64 j = Some x -> in_signed 64 x.
Proof.
  unfold as_i64. destruct j; try done. intros E. apply bind_Some in E as (y & _ & E).
  destruct (Z.leb_spec (- 2 ^ 63) y), (Z.ltb_spec y (2 ^ 63)); try discriminate E. injection E as <-. split; lia.
Qed.

(** ** Documents *)

(** The times are read back as they were written. *)
Class Rfc3339 `{CosmosCodecs} : Prop := { rfc3339_read : forall t, rfc3339_parse (rfc3339 t) = Some t }.

Section Documents.
Context `{Rfc3339}.

(** The columns' widths. *)
Definition fits_document (doc : CosmosTestCase) : Prop :=
  in_signed 64 (d_timeout_seconds doc) /\ in_signed 32 (d_retries_remaining doc).

Lemma decode_optional_bool o : d_option d_bool (optional JBool o) = Some o.
Proof. by destruct o. Qed.
Lemma decode_optional_str o : d_option d_string (optional JStr o) = Some o.
Proof. by destruct o. Qed.

Lemma decode_encode_doc doc : fits_document doc -> decode_doc (encode_doc doc) = Some doc.
Proof.
  intros [Ht Hr]. unfold decode_doc, encode_doc.
  destruct doc as [id etag test bg trig ip timeout st verdict mode url token retries failure expires].
  cbn [d_timeout_seconds d_retries_remaining] in Ht, Hr.
  pose proof (as_i64_in_range _ Ht) as Et. pose proof (d_i32_in_range _ Hr) as Er.
  destruct etag as [etag|]; cbn -[number as_i64 d_i32 d_option optional]; unfold d_time;
    cbn -[number as_i64 d_i32 d_option optional]; rewrite !rfc3339_read, Et, Er, decode_optional_bool, decode_optional_str;
    reflexivity.
Qed.

Lemma decode_encode_was doc doc' : decode_doc (encode_doc doc) = Some doc' -> doc' = doc.
Proof.
  intros Hd. rewrite decode_encode_doc in Hd; [by injection Hd|].
  unfold decode_doc, encode_doc in Hd. destruct doc, d_etag0; cbn -[number as_i64 d_i32] in Hd.
  all: repeat (apply bind_Some in Hd as (? & ? & Hd)); injection Hd as <-; split; cbn.
  all: match goal with
       | E : as_i64 (number ?z) = Some _ |- in_signed 64 ?z => pose proof E as E'; apply as_i64_was in E'; subst; by apply as_i64_range in E
       | E : d_i32 (number ?z) = Some _ |- in_signed 32 ?z => pose proof E as E'; apply d_i32_was in E'; subst; by apply d_i32_range in E
       end.
Qed.

Lemma decoded_fits j doc : decode_doc j = Some doc -> fits_document doc.
Proof.
  unfold decode_doc. intros Hd. repeat (apply bind_Some in Hd as (? & ? & Hd)). injection Hd as <-. split; cbn.
  - match goal with E : member as_i64 _ _ = Some _ |- _ => apply bind_Some in E as (? & _ & E); by apply as_i64_range in E end.
  - match goal with E : member d_i32 _ _ = Some _ |- _ => apply bind_Some in E as (? & _ & E); by apply d_i32_range in E end.
Qed.
End Documents.

(** A case of whole seconds is read back as it was registered. *)
Lemma registered_case_is_read `{Rfc3339, Sha256, Codecs} run :
  Z.rem (timeout run) 1000 = 0 -> in_signed 64 (Z.quot (timeout run) 1000) -> in_signed 32 (retries_remaining run) ->
  doc_to_case <$> decode_doc (encode_doc (case_to_doc run)) = Some run.
Proof.
  intros Hs Ht Hr. rewrite decode_encode_doc by by split. destruct run as [id bg trig ip tmo st v md url tok n f]. cbn in *.
  unfold doc_to_case, case_to_doc. cbn. f_equal. f_equal.
  - rewrite (Z.quot_rem' tmo 1000) at 2. lia.
  - by destruct st.
  - by destruct md.
Qed.

(** Two cases have one document only by a collision of the hash. *)
Lemma document_ids_differ `{Sha256, Codecs} (bg id bg' id' : string) :
  (forall l l', base64url_encode l = base64url_encode l' -> l = l') ->
  fits bg -> fits id -> fits bg' -> fits id' ->
  cosmos_document_id bg id = cosmos_document_id bg' id' ->
  (bg, id) = (bg', id') \/ (name_parts [bg; id] <> name_parts [bg'; id']
                            /\ sha256 (name_parts [bg; id]) = sha256 (name_parts [bg'; id'])).
Proof.
  intros Hb H1 H2 H3 H4 E%Hb. destruct (decide (name_parts [bg; id] = name_parts [bg'; id'])) as [En|]; [left|by right].
  apply name_parts_inj in En as [-> ->]; done.
Qed.

(** * In company *)

Import Cosmos.

Section Tasks.
Context `{Rfc3339, Sha256, Codecs, JsonText}.

(** ** What a request does to a container *)

Definition case_key (bg id : string) : string * string := (json_to_bytes (JArr [JStr bg]), cosmos_document_id bg id).
Definition doc_key (doc : CosmosTestCase) : string * string :=
  (json_to_bytes (JArr [JStr (d_blue_green_ref doc)]), d_id doc).
(** The document of a case has the name of the case. *)
Definition named_doc (doc : CosmosTestCase) : Prop :=
  d_id doc = cosmos_document_id (d_blue_green_ref doc) (d_test_id doc).

Inductive change :=
| Create (key : string * string) (doc : CosmosTestCase)
| Replace (key : string * string) (condition : option string) (doc : CosmosTestCase)
| Delete (key : string * string).

Definition find_header (name : string) (l : list (string * string)) : option string :=
  snd <$> List.find (fun h => String.eqb h.1 name) l.
Definition body_doc (c : http_call) : option CosmosTestCase :=
  match call_payload c with JsonPayload j => decode_doc j | _ => None end.

Section Container.
Context (root : string).

Definition change_of (act : action) : option change :=
  match act with
  | AInceptor (ICall c) =>
      if String.eqb (call_client c) "cosmos" then
        key ← find_header "x-ms-documentdb-partitionkey" (call_headers c);
        if (String.eqb (call_method c) "POST" && String.eqb (call_url c) root)%bool
        then doc ← body_doc c; Some (Create (key, d_id doc) doc)
        else
          id ← strip_prefix (root +:+ "/") (call_url c);
          if String.eqb (call_method c) "PUT"
          then doc ← body_doc c; Some (Replace (key, id) (find_header "if-match" (call_headers c)) doc)
          else if String.eqb (call_method c) "DELETE" then Some (Delete (key, id)) else None
      else None
  | _ => None
  end.
(** A change the container confirmed. *)
Definition confirmed (e : event) (ch : change) : Prop :=
  change_of (act_of e) = Some ch
  /\ match e with Ev (AInceptor (ICall _)) r => match r with Ok resp => is_success (cr_status resp) = true | Err _ => False end
              | _ => False end.

(** The documents in an answer to the query for a case. *)
Definition asks_case (bg id : string) (c : http_call) : Prop :=
  call_client c = "cosmos" /\ call_method c = "POST" /\ call_url c = root
  /\ call_payload c = JsonPayload (query_body CASE_QUERY
       (JArr [query_param "@bg" (JStr bg); query_param "@test_id" (JStr id)])).
Definition answered_rows (r : result string call_response) : list CosmosTestCase :=
  match r with
  | Ok resp =>
      if is_success (cr_status resp)
      then match cr_json resp with Ok j => unwrap_or [] (decode_rows decode_doc j) | Err _ => [] end
      else []
  | Err _ => []
  end.
Definition found (bg id : string) (e : event) (doc : CosmosTestCase) : Prop :=
  match e with
  | Ev (AInceptor (ICall c)) r => asks_case bg id c /\ doc ∈ answered_rows r
  | _ => False
  end.

Definition with_version (v : string) (doc : CosmosTestCase) : CosmosTestCase :=
  {| d_id := d_id doc; d_etag := Some v; d_test_id := d_test_id doc; d_blue_green_ref := d_blue_green_ref doc;
     d_triggered_at := d_triggered_at doc; d_trigger_inception_point := d_trigger_inception_point doc;
     d_timeout_seconds := d_timeout_seconds doc; d_status := d_status doc; d_verdict := d_verdict doc;
     d_verification_mode := d_verification_mode doc; d_verify_url := d_verify_url doc;
     d_verifier_auth_token := d_verifier_auth_token doc; d_retries_remaining := d_retries_remaining doc;
     d_failure_message := d_failure_message doc; d_expires_at := d_expires_at doc |}.

(** A container of documents, by partition key and id; [ever] are those that are or were stored, and
    [issued] the versions it has given out. *)
Record Container := {
  srv : Type;
  docs : srv -> gmap (string * string) CosmosTestCase;
  ever : srv -> string * string -> CosmosTestCase -> Prop;
  issued : srv -> string -> Prop;
  serve : srv -> forall act, reply act -> srv -> Prop }.

Section Laws.
Context (box : Container).

(** What is stored gets a version no document ever had. *)
Definition stored_as (s : srv box) (key : string * string) (doc : CosmosTestCase) (s' : srv box) : Prop :=
  exists v, ~ issued box s v /\ issued box s' v /\ docs box s' = <[key := with_version v doc]> (docs box s).
Definition applied (s : srv box) (ch : change) (s' : srv box) : Prop :=
  match ch with
  | Create key doc => docs box s !! key = None /\ stored_as s key doc s'
  | Replace key condition doc =>
      exists old, docs box s !! key = Some old /\ (forall v, condition = Some v -> d_etag old = Some v)
      /\ stored_as s key doc s'
  | Delete key => docs box s' = delete key (docs box s)
  end.

(** Creating fails where a document is, replacing where it has another version; what is confirmed
    has happened, what failed may have; a query answers documents that match and are there, or were:
    whatever the consistency level. *)
Class ContainerLaws : Prop := {
  docs_change s act r s' : serve box s act r s' ->
    docs box s' = docs box s \/ exists ch, change_of act = Some ch /\ applied s ch s';
  change_confirmed s act r s' ch : serve box s act r s' -> confirmed (Ev act r) ch -> applied s ch s';
  versions_kept s act r s' v : serve box s act r s' -> issued box s v -> issued box s' v;
  docs_ever s key doc : docs box s !! key = Some doc -> ever box s key doc;
  ever_kept s act r s' key doc : serve box s act r s' -> ever box s key doc -> ever box s' key doc;
  ever_stored s act r s' key doc : serve box s act r s' -> ever box s' key doc ->
    ever box s key doc \/ docs box s' !! key = Some doc;
  found_was_there s act r s' bg id doc : serve box s act r s' -> found bg id (Ev act r) doc ->
    (exists key, ever box s key doc) /\ d_blue_green_ref doc = bg /\ d_test_id doc = id }.
End Laws.

(** ** What an operation asks for *)

(** The operations of the trait; the time of a clean-up is that of the operator's clock. *)
Definition perform (store : CosmosStore) (o : op) : prog answer :=
  match o with
  | OpRegister r => let! a := register store r in Ret (AnsUnit a)
  | OpGet bg id => let! a := get store bg id in Ret (AnsCase a)
  | OpSetVerdict bg id p m => let! a := set_verdict store bg id p m in Ret (AnsUnit a)
  | OpMarkTimedOut bg id => let! a := mark_timed_out store bg id in Ret (AnsUnit a)
  | OpDecrement bg id => let! a := decrement_retries store bg id in Ret (AnsRetries a)
  | OpListPending => let! a := list_pending store in Ret (AnsList a)
  | OpListRefs => let! a := list_blue_green_refs store in Ret (AnsRefs a)
  | OpCounts bg => let! a := counts store bg in Ret (AnsCounts a)
  | OpCountsForMode bg md => let! a := counts_for_mode store bg md in Ret (AnsCounts a)
  | OpLatestFailure bg => let! a := latest_failure_message store bg in Ret (AnsMessage a)
  | OpCleanup bg => let! a := cleanup_blue_green store bg in Ret (AnsRemoved a)
  | OpCleanupExpired _ => let! a := cleanup_expired store in Ret (AnsRemoved a)
  end.

(** A document is replaced by one of the same name, if it was read pending, on the condition that it
    has the version it was read with; only a clean-up deletes. *)
Definition cleans_up (o : op) : bool := match o with OpCleanup _ | OpCleanupExpired _ => true | _ => false end.
Definition guarded (cleaning : bool) (tr : trace) (e : event) : Prop :=
  match change_of (act_of e) with
  | Some (Create key doc) => key = doc_key doc /\ named_doc doc
  | Some (Replace key condition doc) =>
      exists bg id e0 doc0, e0 ∈ tr /\ found bg id e0 doc0 /\ is_pending_status (d_status doc0) = true
      /\ condition = d_etag doc0 /\ key = doc_key doc0 /\ d_id doc = d_id doc0
      /\ d_blue_green_ref doc = d_blue_green_ref doc0 /\ d_test_id doc = d_test_id doc0
  | Some (Delete _) => cleaning = true
  | None => True
  end.
Definition unchanging (act : action) : Prop := change_of act = None.

Lemma unchanging_guarded cleaning tr act r : unchanging act -> guarded cleaning tr (Ev act r).
Proof. unfold guarded, unchanging. cbn [act_of]. by intros ->. Qed.

Section Client.
Context (store : CosmosStore) (Hroot : docs_url store = root) (cleaning : bool).

Lemma doc_url_is id : doc_url store id = root +:+ "/" +:+ id.
Proof. unfold doc_url. rewrite <- Hroot. unfold docs_url. by rewrite !sapp_assoc. Qed.

Lemma token_unchanging provider scope : only unchanging (get_access_token provider scope).
Proof. unfold get_access_token, request_workload_identity_token. only_requests; reflexivity. Qed.
Lemma headers_unchanging verb kind link key : only unchanging (headers store verb kind link key).
Proof.
  unfold headers. apply only_bind; [by apply only_request|]. intros now. apply only_bind_err; [|done].
  unfold authorization. destruct (auth store); [exact I|]. apply only_bind_err; [apply token_unchanging|done].
Qed.

(** The headers of a request are its own, apart from the partition key. *)
Definition headed (key : option string) (hs : list (string * string)) : Prop :=
  forall rest, find_header "x-ms-documentdb-partitionkey" (hs ++ rest)
    = or_else ((fun bg => json_to_bytes (JArr [JStr bg])) <$> key) (find_header "x-ms-documentdb-partitionkey" rest)
  /\ find_header "if-match" (hs ++ rest) = find_header "if-match" rest.
Lemma headers_headed verb kind link key tr hs : exec (headers store verb kind link key) tr (Ok hs) -> headed key hs.
Proof.
  unfold headers. intros (now & tr1 & -> & He)%exec_request.
  apply exec_bind_err in He as (tr2 & tr3 & a & -> & _ & [_ E]). revert E. unfold header_value, partition_key_header.
  destruct (all_bytes visible_ascii a); [cbn|discriminate]. destruct (all_bytes _ (http_date now)); [cbn|discriminate].
  destruct key as [bg|]; [unfold header_value; destruct (all_bytes _ _); [|discriminate]|]; intros [= ->] rest; by split.
Qed.
Lemma headers_always verb kind link key pre (Q : trace -> result StoreError (list (string * string)) -> Prop) :
  (forall ext e, Q (pre ++ ext) (Err e)) -> (forall ext hs, headed key hs -> Q (pre ++ ext) (Ok hs)) ->
  always (guarded cleaning) pre (headers store verb kind link key) Q.
Proof.
  intros He Ho. apply (always_exec _ unchanging); [apply headers_unchanging|apply unchanging_guarded|].
  intros tr [hs|e] Hx; [|apply He]. by eapply Ho, headers_headed.
Qed.

Lemma query_call_unchanging hs text parameters : headed None hs ->
  unchanging (AInceptor (ICall (cosmos_call "POST" (docs_url store) (hs ++ query_headers)
    (JsonPayload (query_body text parameters))))).
Proof.
  intros Hh. unfold unchanging, change_of, cosmos_call. cbn [call_client call_headers String.eqb Ascii.eqb Bool.eqb].
  by destruct (Hh query_headers) as [-> _].
Qed.
Lemma query_safe {A} (d : decoder A) text parameters : safe (guarded cleaning) (query store d text parameters).
Proof.
  intros pre. unfold query. apply always_bind. apply headers_always; [done|]. intros ext hs Hh.
  apply always_bind, always_bind, always_request. intros r. split; [by apply unchanging_guarded, query_call_unchanging|].
  by destruct r.
Qed.

Lemma get_doc_always bg id pre (Q : trace -> result StoreError (option CosmosTestCase) -> Prop) :
  (forall ext e, Q (pre ++ ext) (Err e)) -> (forall ext, Q (pre ++ ext) (Ok None)) ->
  (forall ext e doc, e ∈ pre ++ ext -> found bg id e doc -> Q (pre ++ ext) (Ok (Some doc))) ->
  always (guarded cleaning) pre (get_doc store bg id) Q.
Proof.
  intros He Hn Ho. unfold get_doc, query. apply always_bind, always_bind. apply headers_always; [done|].
  intros ext hs Hh. apply always_bind, always_bind, always_request. intros r.
  split; [by apply unchanging_guarded, query_call_unchanging|]. cbn [always map_err]. rewrite <- app_assoc.
  destruct r as [resp|e]; cbn [map_err bind_err bind_prog always]; [|apply He].
  destruct (negb (is_success (cr_status resp))) eqn:Es; [apply He|]. apply negb_false_iff in Es.
  destruct (cr_json resp) as [j|e] eqn:Ej; cbn [mbind result_bind map_err]; [|apply He].
  destruct (decode_rows decode_doc j) as [rows|] eqn:Er; cbn [ok_or map_err]; [|apply He].
  destruct rows as [|doc rows]; cbn [head hd_error]; [apply Hn|].
  eapply Ho; [rewrite !elem_of_app; right; right; left|]. split; [by unfold asks_case; rewrite <- Hroot|].
  unfold answered_rows. rewrite Es, Ej, Er. left.
Qed.

(** The event that confirms a replacement. *)
Definition replaced (tr : trace) (key : string * string) (doc : CosmosTestCase) : Prop :=
  exists e condition, e ∈ tr /\ confirmed e (Replace key condition doc).

Lemma replace_always pre doc doc0 bg id e0 (Q : trace -> result StoreError unit -> Prop) :
  e0 ∈ pre -> found bg id e0 doc0 -> is_pending_status (d_status doc0) = true -> d_etag doc = d_etag doc0 ->
  d_id doc = d_id doc0 -> d_blue_green_ref doc = d_blue_green_ref doc0 -> d_test_id doc = d_test_id doc0 ->
  fits_document doc -> (forall ext e, Q (pre ++ ext) (Err e)) ->
  (forall ext, replaced (pre ++ ext) (doc_key doc0) doc -> Q (pre ++ ext) (Ok tt)) ->
  always (guarded cleaning) pre (replace_doc store doc) Q.
Proof.
  intros Hin Hf Hp Het Hid Hbg Htid Hfit He Ho. unfold replace_doc. apply always_bind.
  apply headers_always; [done|]. intros ext hs Hh.
  set (condition := match d_etag doc with Some _ => _ | None => _ end).
  assert (forall l, condition = Ok l -> find_header "if-match" (json_type ++ l) = d_etag doc
    /\ find_header "x-ms-documentdb-partitionkey" (json_type ++ l) = None) as Hc.
  { intros l. subst condition. destruct (d_etag doc) as [v|]; [|by intros [= <-]].
    unfold header_value. destruct (all_bytes _ v); [|done]. by intros [= <-]. }
  destruct condition as [l|e]; [|apply He]. destruct (Hc l eq_refl) as [Hif Hpk]. destruct (Hh (json_type ++ l)) as [Ek Ei].
  apply always_bind, always_bind, always_request. intros r.
  set (c := cosmos_call _ _ _ _).
  assert (change_of (AInceptor (ICall c)) = Some (Replace (doc_key doc0) (d_etag doc0) doc)) as Hch.
  { subst c. unfold change_of, cosmos_call, body_doc. cbn [call_client call_method call_url call_headers call_payload].
    cbn [String.eqb Ascii.eqb Bool.eqb andb]. rewrite Ek, Ei, Hif, Hpk, doc_url_is, <- sapp_assoc, strip_prefix_app.
    cbn [or_else fmap option_fmap option_map mbind option_bind]. rewrite decode_encode_doc by done. cbn [mbind option_bind].
    unfold doc_key. by rewrite Hid, Hbg, Het. }
  split.
  - unfold guarded. cbn [act_of]. rewrite Hch. exists bg, id, e0, doc0. split_and!; try done. rewrite !elem_of_app. auto.
  - cbn [always map_err]. rewrite <- app_assoc. destruct r as [resp|e]; cbn [map_err]; [|apply He].
    destruct (is_success (cr_status resp)) eqn:Es; cbn [always bind_err bind_prog];
      rewrite ?Es; [|destruct (Z.eqb (cr_status resp) 412); apply He].
    apply Ho. eexists _, (d_etag doc0). split; [rewrite !elem_of_app; right; right; left|by split].
Qed.

(** The verdict or the timeout an operation sets, for a case. *)
Definition decides (o : op) : option (string * string * string * option bool) :=
  match o with
  | OpSetVerdict bg id p _ => Some (bg, id, if p then "Passed" else "Failed", Some p)
  | OpMarkTimedOut bg id => Some (bg, id, "TimedOut", None)
  | _ => None
  end.
(** An operation that is answered with success has decided its case. *)
Definition decided (o : op) (tr : trace) (a : answer) : Prop :=
  forall bg id st v, a = AnsUnit (Ok tt) -> decides o = Some (bg, id, st, v) ->
  exists e0 doc0 doc, e0 ∈ tr /\ found bg id e0 doc0 /\ replaced tr (doc_key doc0) doc
  /\ d_blue_green_ref doc = d_blue_green_ref doc0 /\ d_test_id doc = d_test_id doc0 /\ d_status doc = st /\ d_verdict doc = v.

Lemma found_fits bg id e doc : found bg id e doc -> fits_document doc.
Proof.
  destruct e as [[] r]; try done. destruct op; try done. intros [_ Hin]. unfold answered_rows in Hin.
  destruct r as [resp|]; [|by apply not_elem_of_nil in Hin]. destruct (is_success _); [|by apply not_elem_of_nil in Hin].
  destruct (cr_json resp) as [j|]; [|by apply not_elem_of_nil in Hin].
  destruct (decode_rows decode_doc j) as [rows|] eqn:E; [|by apply not_elem_of_nil in Hin]. cbn [unwrap_or] in Hin.
  unfold decode_rows, member in E. apply bind_Some in E as (fields & _ & E). apply bind_Some in E as (v & _ & E).
  destruct v; try discriminate E. cbn in E. apply mapM_Some in E.
  apply list_elem_of_lookup in Hin as [i Hi]. destruct (Forall2_lookup_r _ _ _ _ _ E Hi) as (j' & _ & Hd).
  by apply decoded_fits in Hd.
Qed.

Lemma finalize_always (f : CosmosTestCase -> CosmosTestCase) bg id pre (Q : trace -> result StoreError unit -> Prop) :
  (forall doc, d_etag (f doc) = d_etag doc /\ d_id (f doc) = d_id doc /\ d_blue_green_ref (f doc) = d_blue_green_ref doc
     /\ d_test_id (f doc) = d_test_id doc /\ (fits_document doc -> fits_document (f doc))) ->
  (forall ext e, Q (pre ++ ext) (Err e)) ->
  (forall ext e0 doc0, e0 ∈ pre ++ ext -> found bg id e0 doc0 -> replaced (pre ++ ext) (doc_key doc0) (f doc0) ->
     Q (pre ++ ext) (Ok tt)) ->
  always (guarded cleaning) pre (finalize_doc store f bg id) Q.
Proof.
  intros Hf He Ho. unfold finalize_doc. apply always_bind. apply get_doc_always; [apply He|intros ext; apply He|]. intros ext e doc Hin Hfd.
  destruct (is_pending_status (d_status doc)) eqn:Ep; cbn [negb]; [|apply He].
  destruct (Hf doc) as (H1' & H2' & H3' & H4' & H5').
  apply (replace_always _ _ doc bg id e); try done; [by eapply H5', found_fits| |].
  - intros ext' e'. rewrite <- app_assoc. apply He.
  - intros ext'. rewrite <- app_assoc. intros Hr. eapply Ho; [|done|done]. rewrite app_assoc, elem_of_app. by left.
Qed.

Lemma register_safe run : safe (guarded cleaning) (register store run).
Proof.
  intros pre. unfold register. apply always_bind. apply headers_always; [done|]. intros ext hs Hh.
  apply always_bind, always_bind, always_request. intros r. split; [|by destruct r].
  unfold guarded. cbn [act_of]. unfold change_of, cosmos_call, body_doc.
  cbn [call_client call_method call_url call_headers call_payload String.eqb Ascii.eqb Bool.eqb andb].
  destruct (Hh json_type) as [-> _]. cbn [or_else fmap option_fmap option_map mbind option_bind].
  rewrite Hroot, String.eqb_refl. destruct (decode_doc _) as [doc|] eqn:Ed; cbn [mbind option_bind]; [|done].
  apply decode_encode_was in Ed as ->. by split.
Qed.

Lemma decrement_safe bg id : safe (guarded cleaning) (decrement_retries store bg id).
Proof.
  intros pre. unfold decrement_retries. apply always_bind. apply get_doc_always; [done..|]. intros ext e doc Hin Hfd.
  destruct (is_pending_status (d_status doc)) eqn:Ep; cbn [negb orb]; [|done].
  destruct (Z.leb_spec (d_retries_remaining doc) 0); [done|]. apply always_bind.
  apply (replace_always _ _ doc bg id e); try done. apply found_fits in Hfd as [Ht Hr]. split; [done|]. cbn.
  rewrite in_signed_32 in *. lia.
Qed.

Lemma delete_docs_safe rows n : cleaning = true -> safe (guarded cleaning) (delete_docs store rows n).
Proof.
  intros Hc. revert n. induction rows as [|doc rows IH]; intros n; [apply safe_Ret|]. cbn [delete_docs].
  intros pre. apply always_bind. apply headers_always; [done|]. intros ext hs _.
  apply always_bind, always_bind, always_request. intros r. split.
  - unfold guarded. cbn [act_of]. unfold change_of, cosmos_call.
    cbn [call_client call_method call_url call_headers call_payload String.eqb Ascii.eqb Bool.eqb andb].
    destruct (find_header _ hs); cbn [mbind option_bind]; [|done]. by destruct (strip_prefix _ _).
  - destruct r as [resp|e]; [|done]. cbn [always map_err bind_err bind_prog]. apply IH.
Qed.

Lemma perform_always o : (cleans_up o = true -> cleaning = true) ->
  always (guarded cleaning) [] (perform store o) (decided o).
Proof.
  intros Hc.
  assert (forall A (p : prog A) (f : A -> answer), safe (guarded cleaning) p -> decides o = None ->
    always (guarded cleaning) [] (let! a := p in Ret (f a)) (decided o)) as Hsafe.
  { intros A p f Hp Hd. apply always_bind. eapply always_post; [|apply Hp]. intros tr a _ bg id st v _ E. by rewrite Hd in E. }
  assert (forall (f : CosmosTestCase -> CosmosTestCase) bg id st v, decides o = Some (bg, id, st, v) ->
    (forall doc, d_status (f doc) = st /\ d_verdict (f doc) = v) ->
    (forall doc, d_etag (f doc) = d_etag doc /\ d_id (f doc) = d_id doc /\ d_blue_green_ref (f doc) = d_blue_green_ref doc
      /\ d_test_id (f doc) = d_test_id doc /\ (fits_document doc -> fits_document (f doc))) ->
    always (guarded cleaning) [] (let! a := finalize_doc store f bg id in Ret (AnsUnit a)) (decided o)) as Hfin.
  { intros f bg id st v Hd Hv Hf. apply always_bind. apply finalize_always; [done|by intros ext e bg' id' st' v' [=]|].
    intros ext e0 doc0 Hin Hfd Hr bg' id' st' v' _ E. rewrite Hd in E. injection E as <- <- <- <-.
    exists e0, doc0, (f doc0). by destruct (Hv doc0), (Hf doc0) as (_ & _ & ? & ? & _). }
  destruct o; cbn [perform]; [apply Hsafe; [apply register_safe|done]| | | | | | | | | | |];
    try (eapply Hfin; [reflexivity|intros; by split|intros; by split_and!]);
    apply Hsafe; try done; try apply decrement_safe;
    unfold get, list_pending, list_blue_green_refs, counts, counts_for_mode, counts_for_mode_query, counts_query,
      latest_failure_message, cleanup_blue_green, cleanup_expired; 
    try (lazymatch goal with |- safe _ (bind_prog (request ANow) _) => apply safe_bind; [apply safe_request; intros; by apply unchanging_guarded|intros ?] end);
    (apply safe_bind_err; [first [apply query_safe|intros pre; by apply get_doc_always]|]);
    intros rows; repeat case_match; first [apply safe_Ret|by apply delete_docs_safe, Hc].
Qed.
End Client.

(** ** All tasks *)

Section System.
Context (box : Container) `{!ContainerLaws box}.
(** Each run is one operation of one operator's store; all stores are of this container. *)
Context (store : nat -> CosmosStore) (job : nat -> op).
Context (Hroot : forall k, docs_url (store k) = root).

Record sys := { server : srv box; traces : nat -> trace }.
Definition serve_run (k : nat) (e : event) (s' : srv box) (s : sys) : sys :=
  {| server := s'; traces := fun k' => if Nat.eqb k' k then traces s k' ++ [e] else traces s k' |}.
Inductive step : sys -> sys -> Prop :=
| step_run s k act r s' :
    partial (perform (store k) (job k)) (traces s k ++ [Ev act r]) -> serve box (server s) act r s' ->
    step s (serve_run k (Ev act r) s' s).

(** A document with a version the container knows, under the key of its case, and the only one of
    this key with this version. *)
Definition kept (s : srv box) (key : string * string) (doc : CosmosTestCase) : Prop :=
  key = doc_key doc /\ named_doc doc /\ (exists v, d_etag doc = Some v /\ issued box s v)
  /\ forall now, docs box s !! key = Some now -> d_etag now = d_etag doc -> now = doc.
(** At the start no task has done anything; the documents are those of the store. *)
Definition initial (s : sys) : Prop :=
  (forall k, traces s k = []) /\ forall key doc, ever box (server s) key doc -> kept (server s) key doc.
Inductive reachable : sys -> Prop :=
| reachable_init s : initial s -> reachable s
| reachable_step s s' : reachable s -> step s s' -> reachable s'.

(** *** The invariant *)

(** A clean-up has asked to delete a document. *)
Definition cleaned (s : sys) (key : string * string) : Prop :=
  exists k e, cleans_up (job k) = true /\ e ∈ traces s k /\ change_of (act_of e) = Some (Delete key).

(** A decision that was confirmed is still there. *)
Definition stands (s : srv box) (key : string * string) (doc : CosmosTestCase) : Prop :=
  is_pending_status (d_status doc) = false -> exists v, docs box s !! key = Some (with_version v doc).

Record invariant (s : sys) : Prop := {
  inv_ever key doc : ever box (server s) key doc -> kept (server s) key doc;
  inv_found k e bg id doc : e ∈ traces s k -> found bg id e doc ->
    ever box (server s) (doc_key doc) doc /\ d_blue_green_ref doc = bg /\ d_test_id doc = id;
  inv_stands k key doc : replaced (traces s k) key doc -> stands (server s) key doc \/ cleaned s key }.

(** How the documents of a key may go on. *)
Definition goes_on (cleaning : Prop) (act : action) (s s' : srv box) : Prop :=
  docs box s' = docs box s
  \/ (exists key, cleaning /\ change_of act = Some (Delete key) /\ docs box s' = delete key (docs box s))
  \/ exists key doc v, docs box s' = <[key := with_version v doc]> (docs box s)
     /\ key = doc_key doc /\ named_doc doc /\ ~ issued box s v /\ issued box s' v
     /\ forall old, docs box s !! key = Some old -> is_pending_status (d_status old) = true.

Lemma step_goes_on cleaning s k act r s' :
  invariant s -> guarded cleaning (traces s k) (Ev act r) -> serve box (server s) act r s' ->
  goes_on (cleaning = true) act (server s) s'.
Proof.
  intros Hi Hg Hs. destruct (docs_change box _ _ _ _ Hs) as [E|(ch & Ec & Ha)]; [by left|right].
  unfold guarded in Hg. cbn [act_of] in Hg. rewrite Ec in Hg.
  destruct ch as [key doc|key condition doc|key]; [right|right|left; by exists key].
  - destruct Hg as [-> Hn], Ha as [Hnone (v & Hf & Hiss & E)]. exists (doc_key doc), doc, v. split_and!; try done.
    intros old Ho. by rewrite Hnone in Ho.
  - destruct Hg as (bg & id & e0 & doc0 & Hin & Hfd & Hp & -> & -> & Hid & Hbg & Htid).
    destruct Ha as (old & Ho & Hc & v & Hf & Hiss & E).
    destruct (inv_found _ Hi _ _ _ _ _ Hin Hfd) as ((_ & Hn & (w & Hw & _) & Hnow)%(inv_ever _ Hi) & _).
    exists (doc_key doc0), doc, v. split_and!; try done.
    + unfold doc_key. by rewrite Hid, Hbg.
    + unfold named_doc. by rewrite Hid, Hbg, Htid.
    + intros old' Ho'. rewrite Ho in Ho'. injection Ho' as <-. by rewrite (Hnow old Ho ltac:(by rewrite (Hc w Hw))).
Qed.

Lemma kept_goes_on P s act r s' key doc :
  kept s key doc -> serve box s act r s' -> goes_on P act s s' -> kept s' key doc.
Proof.
  intros (-> & Hn & (w & Hw & Hi) & Hnow) Hs Hg. split_and!; [done..|exists w; split; [done|by eapply versions_kept]|].
  destruct Hg as [E|[(key0 & _ & _ & E)|(key0 & doc0 & v & E & -> & _ & Hf & _ & _)]]; intros now Hd Hv; rewrite E in Hd.
  - by apply Hnow.
  - apply lookup_delete_Some in Hd as [_ Hd]. by apply Hnow.
  - apply lookup_insert_Some in Hd as [[_ <-]|[_ Hd]]; [|by apply Hnow].
    rewrite Hw in Hv. cbn in Hv. injection Hv as ->. done.
Qed.
Lemma ever_goes_on P s act r s' key doc :
  (forall key doc, ever box s key doc -> kept s key doc) -> serve box s act r s' -> goes_on P act s s' ->
  ever box s' key doc -> kept s' key doc.
Proof.
  intros Hk Hs Hg [He|Hd]%(ever_stored box _ _ _ _ _ _ Hs); [eapply kept_goes_on; [by apply Hk|done|done]|].
  pose proof Hg as [E|[(key0 & _ & _ & E)|(key0 & doc0 & v & E & -> & Hn & _ & Hi & _)]].
  - rewrite E in Hd. eapply kept_goes_on; [by apply Hk, (docs_ever box)|done|done].
  - rewrite E in Hd. apply lookup_delete_Some in Hd as [_ Hd]. eapply kept_goes_on; [by apply Hk, (docs_ever box)|done|done].
  - pose proof Hd as Hd'. rewrite E in Hd'. apply lookup_insert_Some in Hd' as [[<- <-]|[_ Hd']].
    + split_and!; [done..|by exists v|]. intros now Hnow _. rewrite Hd in Hnow. by injection Hnow.
    + eapply kept_goes_on; [by apply Hk, (docs_ever box)|done|done].
Qed.
Lemma stands_goes_on P act s s' key doc : stands s key doc -> goes_on P act s s' ->
  stands s' key doc \/ P /\ change_of act = Some (Delete key).
Proof.
  intros Hst Hg. destruct (is_pending_status (d_status doc)) eqn:Hp; [left; intros E; congruence|].
  destruct (Hst Hp) as [v Hv]. destruct Hg as [E|[(key0 & HP & Hc & E)|(key0 & doc0 & w & E & _ & _ & _ & _ & Hold)]].
  - left. intros _. rewrite E. by exists v.
  - destruct (decide (key0 = key)) as [->|]; [by right|]. left. intros _. exists v. by rewrite E, lookup_delete_ne.
  - left. intros _. rewrite E. destruct (decide (key0 = key)) as [->|]; [|exists v; by rewrite lookup_insert_ne].
    apply Hold in Hv. cbn in Hv. by rewrite Hp in Hv.
Qed.

Lemma cosmos_in_serve_run k k' e e' s' s : e' ∈ traces (serve_run k e s' s) k' -> e' ∈ traces s k' \/ e' = e.
Proof.
  cbn. destruct (Nat.eqb_spec k' k) as [->|]; [|by left]. rewrite elem_of_app, list_elem_of_singleton. tauto.
Qed.
Lemma cleaned_serve_run k e s' s key : cleaned s key -> cleaned (serve_run k e s' s) key.
Proof.
  intros (k' & e' & Hj & Hin & Hc). exists k', e'. split_and!; [done| |done]. cbn.
  destruct (Nat.eqb_spec k' k) as [->|]; [|done]. apply elem_of_app. by left.
Qed.

Lemma cosmos_invariant_step s s' : invariant s -> step s s' -> invariant s'.
Proof.
  intros Hi Hst. revert Hi. destruct Hst as [s0 k act r w' Hp Hs]. intros Hi.
  assert (guarded (cleans_up (job k)) (traces s0 k) (Ev act r)) as Hg.
  { apply (always_partial _ [] _ _ _ _ (perform_always (store k) (Hroot k) _ (job k) id) Hp). }
  pose proof (step_goes_on _ _ _ _ _ _ Hi Hg Hs) as Hgo. destruct Hi as [Hever Hfound Hstands]. split; cbn [server serve_run].
  - intros key doc He. by eapply ever_goes_on.
  - intros k' e bg id doc [Hin| ->]%cosmos_in_serve_run Hfd.
    + destruct (Hfound _ _ _ _ _ Hin Hfd) as (He & ? & ?). split_and!; [by eapply ever_kept|done..].
    + destruct (found_was_there box _ _ _ _ _ _ _ Hs Hfd) as ((key & He) & ? & ?).
      pose proof (proj1 (Hever _ _ He)) as ->. split_and!; [by eapply ever_kept|done..].
  - intros k' key doc (e & condition & [Hin| ->]%cosmos_in_serve_run & Hc).
    + destruct (Hstands k' key doc) as [Hold|Hold]; [by exists e, condition| |right; by apply cleaned_serve_run].
      destruct (stands_goes_on _ _ _ _ _ _ Hold Hgo) as [?|[Hj Hd]]; [by left|right]. exists k, (Ev act r).
      split_and!; [done| |done]. cbn. rewrite Nat.eqb_refl. apply elem_of_app. right. by left.
    + left. intros _. destruct (change_confirmed box _ _ _ _ _ Hs Hc) as (_ & _ & _ & v & _ & _ & E).
      exists v. by rewrite E, lookup_insert_eq.
Qed.
Lemma cosmos_invariant_reachable s : reachable s -> invariant s.
Proof.
  induction 1 as [s [Ht Hk]|s s' _ IH Hst]; [|by eapply cosmos_invariant_step].
  split; [done| |]; intros k *; [rewrite Ht; by intros ?%not_elem_of_nil|].
  intros (e & condition & Hin & _). rewrite Ht in Hin. by apply not_elem_of_nil in Hin.
Qed.

(** C15. A case in Cosmos is decided once.  However the requests of any number of operators interleave,
    wherever their tasks are stopped and whatever requests fail or are applied without an answer: a
    verdict or a timeout that the store acknowledged is what the document of the case says, then and
    in every state after it, up to where a clean-up, of the deployment or of the expired cases, asked
    to delete that document. *)
Theorem cosmos_decisions_stand (s : sys) (k : nat) (bg id st : string) (v : option bool) :
  reachable s -> exec (perform (store k) (job k)) (traces s k) (AnsUnit (Ok tt)) ->
  decides (job k) = Some (bg, id, st, v) ->
  (exists doc, docs box (server s) !! case_key bg id = Some doc /\ d_blue_green_ref doc = bg /\ d_test_id doc = id
   /\ d_status doc = st /\ d_verdict doc = v)
  \/ cleaned s (case_key bg id).
Proof.
  intros Hr He Hd. pose proof (cosmos_invariant_reachable _ Hr) as Hi.
  destruct (always_sound _ _ _ _ _ _ (perform_always (store k) (Hroot k) _ (job k) (fun Hj => Hj)) He) as [HQ _].
  destruct (HQ bg id st v eq_refl Hd) as (e0 & doc0 & doc & Hin & Hfd & Hrep & Hb & Ht & Hst & Hv).
  destruct (inv_found _ Hi _ _ _ _ _ Hin Hfd) as ((_ & Hn & _)%(inv_ever _ Hi) & Hbg & Hid).
  assert (doc_key doc0 = case_key bg id) as Ek by by unfold doc_key, case_key; rewrite Hn, Hbg, Hid.
  destruct (inv_stands _ Hi _ _ _ Hrep) as [Hs|Hc]; [left|right; by rewrite <- Ek].
  destruct Hs as [w Hw].
  { rewrite Hst. destruct (job k); try discriminate Hd; cbn in Hd; injection Hd as _ _ <- _; [by destruct p|done]. }
  exists (with_version w doc). rewrite Ek in Hw. split; [done|]. cbn. by rewrite Hb, Ht, Hbg, Hid.
Qed.
End System.
End Container.
End Tasks.
