(* ===== verification/CosmosServer.v ===== *)
(** * A Cosmos container in memory

    An instance of [CosmosTheorems.Container] that computes, and a concrete interleaving: a timeout
    that was decided on an old version of the document is refused once the verdict is in. *)

From S2P Require Import Prelude RustString Float64 Kube Crd InceptorEffects Effects StateStore.
From S2P Require Import World External Names NamesTheorems Auth Plugins Sdk JsonDecode HttpPlugin QueuePlugins.
From S2P Require Import CosmosStore Footprint LeaseExclusion QueueTheorems HttpPluginTheorems CosmosTheorems.

Import Cosmos.

Section Server.
Context `{Rfc3339, Sha256, Codecs, JsonText}.
Context (root : string).

Record memory := {
  m_docs : gmap (string * string) CosmosTestCase; m_past : list (string * string * CosmosTestCase); m_next : N }.
Definition response (status : Z) (j : json) : call_response :=
  {| cr_status := status; cr_headers := []; cr_body := ""; cr_json := Ok j |}.

(** What was stored stays known. *)
Definition remembering (m : memory) (docs : gmap (string * string) CosmosTestCase) (next : N) : memory :=
  {| m_docs := docs; m_past := m_past m ++ map_to_list (m_docs m); m_next := next |}.
Definition put (m : memory) (key : string * string) (doc : CosmosTestCase) : memory :=
  remembering m (<[key := with_version (pretty.pretty (m_next m)) doc]> (m_docs m)) (m_next m + 1).
Definition change_memory (ch : change) (m : memory) : Z * memory :=
  match ch with
  | Create key doc => match m_docs m !! key with Some _ => (409, m) | None => (201, put m key doc) end
  | Replace key condition doc =>
      match m_docs m !! key with
      | Some old =>
          if match condition with Some v => bool_decide (d_etag old = Some v) | None => true end
          then (200, put m key doc) else (412, m)
      | None => (404, m)
      end
  | Delete key => (204, remembering m (delete key (m_docs m)) (m_next m))
  end.

(** The query for a case; to any other the answer is empty. *)
Definition case_asked (c : http_call) : option (string * string) :=
  match call_payload c with
  | JsonPayload (JObj [(_, JArr [JObj [_; (_, JStr bg)]; JObj [_; (_, JStr id)]]); (_, JStr text)]) =>
      if String.eqb text CASE_QUERY then Some (bg, id) else None
  | _ => None
  end.
Definition matching (m : memory) (bg id : string) : list CosmosTestCase :=
  List.filter (fun d => String.eqb (d_blue_green_ref d) bg && String.eqb (d_test_id d) id)%bool (map snd (map_to_list (m_docs m))).
Definition rows_of (m : memory) (c : http_call) : list CosmosTestCase :=
  match case_asked c with Some (bg, id) => matching m bg id | None => [] end.

Definition answer_call (c : http_call) (m : memory) : result string call_response * memory :=
  match change_of root (AInceptor (ICall c)) with
  | Some ch => let '(status, m') := change_memory ch m in (Ok (response status JNull), m')
  | None => (Ok (response 200 (JObj [("Documents", JArr (map encode_doc (rows_of m c)))])), m)
  end.
Definition serve_memory (act : action) (m : memory) : reply act * memory :=
  match act as a return reply a * memory with
  | AInceptor (ICall c) => answer_call c m
  | a => ((World.serve a empty_world).1, m)
  end.

Definition memory_container : Container :=
  {| srv := memory; docs := m_docs;
     ever := fun m key doc => (key, doc) ∈ m_past m \/ m_docs m !! key = Some doc;
     issued := fun m v => exists n, (n < m_next m)%N /\ v = pretty.pretty n;
     serve := fun m act r m' => serve_memory act m = (r, m') |}.

Lemma put_stored m key doc : stored_as memory_container m key doc (put m key doc).
Proof.
  exists (pretty.pretty (m_next m)). split_and!; [|exists (m_next m); cbn; split; [lia|done]|done].
  intros (n & Hn & E). apply (inj pretty.pretty) in E. lia.
Qed.
Lemma change_applied ch m status m' : change_memory ch m = (status, m') ->
  (is_success status = true -> applied memory_container m ch m') /\ (m' = m \/ applied memory_container m ch m').
Proof.
  destruct ch as [key doc|key condition doc|key]; cbn [change_memory].
  - destruct (m_docs m !! key) eqn:E; intros [= <- <-]; [by split; [|left]|].
    assert (applied memory_container m (Create key doc) (put m key doc)) by by split; [|apply put_stored]. by split; [|right].
  - destruct (m_docs m !! key) as [old|] eqn:E; [|by intros [= <- <-]; split; [|left]].
    destruct (match condition with Some v => _ | None => true end) eqn:Ec; intros [= <- <-]; [|by split; [|left]].
    assert (applied memory_container m (Replace key condition doc) (put m key doc)).
    { exists old. split_and!; [done| |apply put_stored]. intros v ->. by apply bool_decide_eq_true in Ec. }
    by split; [|right].
  - intros [= <- <-]. by split; [|right].
Qed.

Lemma change_remembers ch m status m' : change_memory ch m = (status, m') ->
  (m_next m <= m_next m')%N
  /\ forall key doc, (key, doc) ∈ m_past m \/ m_docs m !! key = Some doc -> (key, doc) ∈ m_past m' \/ m_docs m' !! key = Some doc.
Proof.
  assert (forall docs next key doc, (key, doc) ∈ m_past m \/ m_docs m !! key = Some doc ->
    (key, doc) ∈ m_past (remembering m docs next)) as Hr.
  { intros docs next key doc Hk. cbn. rewrite elem_of_app, elem_of_map_to_list. tauto. }
  destruct ch; cbn [change_memory]; repeat case_match; intros [= <- <-]; (split; [cbn; lia|]); intros; try done; left; by apply Hr.
Qed.
Lemma change_past ch m status m' key doc : change_memory ch m = (status, m') ->
  (key, doc) ∈ m_past m' -> (key, doc) ∈ m_past m \/ m_docs m !! key = Some doc.
Proof.
  destruct ch; cbn [change_memory]; repeat case_match; intros [= <- <-]; try (by left); cbn;
    by rewrite elem_of_app, elem_of_map_to_list.
Qed.

Lemma answered_current m c doc resp m' : answer_call c m = (Ok resp, m') -> doc ∈ answered_rows (Ok resp) ->
  exists bg id, case_asked c = Some (bg, id) /\ doc ∈ matching m bg id.
Proof.
  unfold answer_call, answered_rows. destruct (change_of root _) as [ch|].
  - destruct (change_memory ch m). intros [= <- _]. cbn [cr_status cr_json response]. case_match; [|by intros ?%not_elem_of_nil].
    cbn. by intros ?%not_elem_of_nil.
  - intros [= <- _]. cbn [cr_status cr_json response]. change (is_success 200) with true. cbn [decode_rows d_fields mbind option_bind].
    unfold member. cbn [json_lookup String.eqb Ascii.eqb Bool.eqb mbind option_bind d_list]. unfold rows_of.
    destruct (case_asked c) as [[bg id]|]; [|by intros ?%not_elem_of_nil]. intros Hin. exists bg, id. split; [done|].
    destruct (mapM decode_doc (map encode_doc (matching m bg id))) as [rows|] eqn:E; [|by apply not_elem_of_nil in Hin].
    apply mapM_Some in E. apply list_elem_of_lookup in Hin as [i Hi].
    destruct (Forall2_lookup_r _ _ _ _ _ E Hi) as (j & Hj & Hd). rewrite list_lookup_fmap in Hj.
    destruct (matching m bg id !! i) as [d|] eqn:Ed; [|discriminate Hj]. injection Hj as <-.
    apply decode_encode_was in Hd as ->. by apply list_elem_of_lookup_2 in Ed.
Qed.

(** Requests that are no changes leave the memory as it is. *)
Lemma served_memory act m r m' : serve_memory act m = (r, m') ->
  m' = m \/ exists ch status, change_of root act = Some ch /\ change_memory ch m = (status, m')
    /\ (forall ch', confirmed root (Ev act r) ch' -> is_success status = true).
Proof.
  destruct act; try (intros [= _ <-]; by left). destruct op; try (intros [= _ <-]; by left).
  cbn [serve_memory]. unfold answer_call. destruct (change_of root _) as [ch|] eqn:E; [|intros [= _ <-]; by left].
  destruct (change_memory ch m) as [status w] eqn:Em. intros [= <- <-]. right. exists ch, status. split_and!; [done..|].
  by intros ch' [_ Hs].
Qed.

#[export] Instance memory_laws : ContainerLaws root memory_container.
Proof.
  split; cbn [docs ever issued serve memory_container].
  - intros m act r m' [->|(ch & status & Hc & Hm & _)]%served_memory; [by left|].
    destruct (change_applied _ _ _ _ Hm) as [_ [->|Ha]]; [by left|right]. by exists ch.
  - intros m act r m' ch Hs Hch. pose proof Hch as [Hc Hok]. destruct act; try done. destruct op; try done. cbn [act_of] in Hc.
    cbn [serve_memory] in Hs. unfold answer_call in Hs. rewrite Hc in Hs. destruct (change_memory ch m) as [status w] eqn:Em.
    injection Hs as <- <-. by apply change_applied in Em as [Ha _]; apply Ha.
  - intros m act r m' v [->|(ch & status & _ & Hm & _)]%served_memory (n & Hn & ->); exists n; [done|].
    apply change_remembers in Hm as [? _]. split; [lia|done].
  - by right.
  - intros m act r m' key doc [->|(ch & status & _ & Hm & _)]%served_memory Hk; [done|]. by apply (change_remembers _ _ _ _ Hm).
  - intros m act r m' key doc [->|(ch & status & _ & Hm & _)]%served_memory [Hp|Hk]; try (by right); [by left; left|].
    left. by eapply change_past.
  - intros m act r m' bg id doc Hs Hf. destruct act; try done. destruct op; try done. cbn in Hf.
    destruct Hf as [(_ & _ & _ & Hb) Hin]. cbn [serve_memory] in Hs. destruct r as [resp|e]; [|by apply not_elem_of_nil in Hin].
    destruct (answered_current _ _ _ _ _ Hs Hin) as (bg' & id' & Ha & Hmt). unfold case_asked in Ha. rewrite Hb in Ha.
    cbn in Ha. injection Ha as <- <-. apply list_elem_of_In, filter_In in Hmt as [Hmt [->%String.eqb_eq ->%String.eqb_eq]%andb_true_iff].
    split_and!; [|done..]. apply in_map_iff in Hmt as ([key d] & <- & Hk). exists key. right.
    by apply list_elem_of_In, elem_of_map_to_list in Hk.
Qed.

(** ** Schedules *)

(** The program that is left of [p] after the requests [tr]. *)
Fixpoint left_of {A} (p : prog A) (tr : trace) (q : prog A) {struct tr} : Prop :=
  match tr with
  | [] => q = p
  | e :: tr => match p with Ret _ => False | Vis act k => exists r, e = Ev act r /\ left_of (k r) tr q end
  end.
Lemma left_partial {A} (p : prog A) tr act k r :
  left_of p tr (Vis act k) -> partial p (tr ++ [Ev act r]) /\ left_of p (tr ++ [Ev act r]) (k r).
Proof.
  revert p. induction tr as [|e tr IH]; intros p; cbn; [intros E; subst p; split; by exists r|].
  destruct p as [a|act' k']; [done|]. intros (r' & -> & Hl). apply IH in Hl as [? ?]. split; by exists r'.
Qed.
Lemma left_exec {A} (p : prog A) tr a : left_of p tr (Ret a) -> exec p tr a.
Proof.
  revert p. induction tr as [|e tr IH]; intros p; cbn; [by intros <-|].
  destruct p as [b|act k]; [done|]. intros (r & -> & Hl). exists r. split; [done|]. by apply IH.
Qed.

Section Schedule.
Context (store : nat -> CosmosStore) (job : nat -> op).
Notation sys := (sys memory_container).

(** Serves the next requests of the tasks of a schedule. *)
Fixpoint play (schedule : list nat) (rest : nat -> prog answer) (s : sys) : option ((nat -> prog answer) * sys) :=
  match schedule with
  | [] => Some (rest, s)
  | k :: schedule =>
      match rest k with
      | Ret _ => None
      | Vis act next =>
          let '(r, m) := serve_memory act (server _ s) in
          play schedule (fun k' => if Nat.eqb k' k then next r else rest k') (serve_run memory_container k (Ev act r) m s)
      end
  end.

Lemma play_reachable schedule : forall rest (s : sys) rest' s',
  reachable memory_container store job s -> (forall k, left_of (perform (store k) (job k)) (traces _ s k) (rest k)) ->
  play schedule rest s = Some (rest', s') ->
  reachable memory_container store job s' /\ forall k, left_of (perform (store k) (job k)) (traces _ s' k) (rest' k).
Proof.
  induction schedule as [|k schedule IH]; intros rest s rest' s' Hr Hl E; cbn in E; [by injection E as <- <-|].
  pose proof (Hl k) as Hk. destruct (rest k) as [a|act next]; [discriminate E|].
  destruct (serve_memory act (server _ s)) as [r m] eqn:Es. apply IH in E; [done| |].
  - apply (reachable_step _ _ _ s); [done|]. constructor; [by apply left_partial with (r := r) in Hk as [? _]|exact Es].
  - intros k'. cbn. destruct (Nat.eqb_spec k' k) as [->|]; [|apply Hl]. by apply left_partial with (r := r) in Hk as [_ ?].
Qed.
End Schedule.
End Server.

(** ** A concrete interleaving *)

Definition sample_cosmos : CosmosCodecs :=
  {| standard_encode := fun _ => "sig"; standard_decode := fun _ => Ok []; rfc3339 := show_Z; rfc3339_parse := read_Z;
     http_date := show_Z |}.
#[local] Existing Instance sample_cosmos.
#[local] Existing Instance sample_sha256.
#[local] Existing Instance sample_codecs.
#[local] Existing Instance no_json_text.
Lemma sample_times : @Rfc3339 sample_cosmos.
Proof. split. exact read_show_Z. Qed.
#[local] Existing Instance sample_times.

Definition sample_store : CosmosStore :=
  {| endpoint := "https://acct.documents.azure.com"; database := "fluidbg"; container := "cases"; auth := MasterKey "key" |}.
Definition late_case : TestCaseRecord :=
  {| test_id := "t-1"; blue_green_ref := "shop/orders"; triggered_at := 1000; source_inception_point := "in"; timeout := 60000;
     status := Triggered; verdict := None; verification_mode := Data; verify_url := "https://verify"; verifier_auth_token := "secret";
     retries_remaining := 0; failure_message := None |}.
(** One operator registers the case, another reports the verdict, a third one a timeout. *)
Definition sample_job (k : nat) : op :=
  match k with
  | 0%nat => OpRegister late_case
  | 1%nat => OpSetVerdict "shop/orders" "t-1" true None
  | _ => OpMarkTimedOut "shop/orders" "t-1"
  end.
Definition sample_root : string := docs_url sample_store.
Definition no_tasks : sys (memory_container sample_root) :=
  {| server := ({| m_docs := ∅; m_past := []; m_next := 0 |} : srv (memory_container sample_root)); traces := fun _ => [] |}.
(** The timeout is decided on the document as it was before the verdict was written. *)
Definition racing : option ((nat -> prog answer) * sys (memory_container sample_root)) :=
  play sample_root [0%nat; 0%nat; 2%nat; 2%nat; 1%nat; 1%nat; 1%nat; 1%nat; 2%nat; 2%nat]
    (fun k => perform sample_store (sample_job k)) no_tasks.
Definition answer_of (k : nat) : option answer :=
  r ← racing; match r.1 k with Ret a => Some a | Vis _ _ => None end.

Lemma no_tasks_initial : initial (memory_container sample_root) no_tasks.
Proof. split; [done|]. intros key doc [Hp|Hd]; [by apply not_elem_of_nil in Hp|discriminate Hd]. Qed.
Lemma sample_not_cleaned (s : sys (memory_container sample_root)) key : ~ cleaned sample_root (memory_container sample_root) sample_job s key.
Proof. intros (k & e & Hj & _). by destruct k as [|[|k]]. Qed.

Lemma cosmos_decisions_stand_witness :
  answer_of 1 = Some (AnsUnit (Ok tt)) /\ answer_of 2 = Some (AnsUnit (Err (Conflict "t-1")))
  /\ exists rest s doc, racing = Some (rest, s)
  /\ docs _ (server _ s) !! case_key "shop/orders" "t-1" = Some doc /\ d_status doc = "Passed".
Proof.
  split; [vm_compute; reflexivity|]. split; [vm_compute; reflexivity|].
  assert (answer_of 1 = Some (AnsUnit (Ok tt))) as Ea by (vm_compute; reflexivity).
  unfold answer_of in Ea. destruct racing as [[rest s]|] eqn:E; [|discriminate Ea].
  destruct (play_reachable sample_root (fun _ => sample_store) sample_job _ _ _ _ _
    (reachable_init _ _ _ _ no_tasks_initial) (fun _ => eq_refl) E) as [Hr Hl].
  specialize (Hl 1%nat). cbn [mbind option_bind fst] in Ea. destruct (rest 1%nat) as [a|]; [|discriminate Ea].
  injection Ea as ->. apply left_exec in Hl.
  destruct (cosmos_decisions_stand sample_root (memory_container sample_root) (fun _ => sample_store) sample_job
    (fun _ => eq_refl) s 1%nat "shop/orders" "t-1" "Passed" (Some true) Hr Hl eq_refl)
    as [(doc & Hd & _ & _ & Hst & _)|Hc]; [|destruct (sample_not_cleaned _ _ Hc)].
  exists rest, s, doc. split; [reflexivity|]. split; [exact Hd|exact Hst].
Defined.
