(* ===== verification/CosmosRefinement.v ===== *)
(** * The Cosmos store against the contract

    [CosmosTheorems] shows what holds of [CosmosStore] in any company.  Here one operator is alone
    with a container that answers its queries with what is stored, all of it on one page.  Its
    store then is one more implementation of the contract of [StateStore]: every answer is one
    the contract allows, and the documents are those of the contract's map.  Of a case that is
    registered again the store keeps the first registration, where the contract merges. *)

From S2P Require Import Prelude RustString Float64 Kube Crd InceptorEffects Effects StateStore World.
From S2P Require Import External Names Auth Plugins Sdk JsonDecode HttpPlugin QueuePlugins CosmosStore.
From S2P Require Import Footprint QueueTheorems StoreTheorems HttpPluginTheorems CosmosTheorems CosmosServer.

Import Cosmos.

(** ** The contract, with the first registration kept *)

Module First.

Definition next (o : op) (m : cases) : cases :=
  match o with
  | OpRegister run => match m !! Spec.key run with Some _ => m | None => Contract.next o m end
  | _ => Contract.next o m
  end.

Section First.
(** The times a clock may show. *)
Context `{CosmosCodecs} (shown : Z -> Prop).

(** The deadline of a pending case is over: the container compares the texts of the times. *)
Definition due (now : Z) (r : TestCaseRecord) : bool :=
  (is_pending r && String.ltb (rfc3339 (StateStore.expires_at r)) (rfc3339 now))%bool.

(** One operation, its answer and the state after it.  A clean-up of expired cases goes by the clock of
    the operator. *)
Definition step (o : op) (m : cases) (a : answer) (m' : cases) : Prop :=
  match o with
  | OpCleanupExpired _ =>
      exists now, shown now /\ m' = filter (fun kr => due now kr.2 = false) m /\ a = Contract.removed m m'
  | _ => m' = next o m /\ Contract.allowed o m a
  end.
Fixpoint runs (os : list op) (m : cases) (l : list answer) (m' : cases) : Prop :=
  match os, l with
  | [], [] => m' = m
  | o :: os, a :: l => exists m1, step o m a m1 /\ runs os m1 l m'
  | _, _ => False
  end.

Lemma size_step o m a m' : step o m a m' -> (size m' <= Datatypes.S (size m))%nat.
Proof.
  assert (forall k r, (size (<[k := r]> m) <= Datatypes.S (size m))%nat) as Hi.
  { intros k r. rewrite map_size_insert. destruct (m !! k); cbn; lia. }
  destruct o; try (intros [-> _]);
    cbn; unfold Spec.register, Spec.set_verdict, Spec.mark_timed_out, Spec.finalize, Spec.decrement_retries;
    repeat case_match; cbn; auto.
  - assert (size (Spec.cleanup_blue_green bg m) <= size m)%nat; [|lia].
    apply map_subseteq_size, map_filter_subseteq.
  - intros (t & _ & -> & _). etrans; [apply map_subseteq_size, map_filter_subseteq|lia].
Qed.
End First.
End First.

(** ** The values of a map *)

Definition map_values {K A} `{Countable K} (m : gmap K A) : list A := (map_to_list m).*2.

Section Values.
Context {K A : Type} `{Countable K}.
Implicit Types m : gmap K A.

Lemma elem_of_map_values m x : x ∈ map_values m <-> exists k, m !! k = Some x.
Proof.
  unfold map_values. rewrite list_elem_of_fmap. split.
  - intros ([k y] & -> & Hk%elem_of_map_to_list). by exists k.
  - intros [k Hk]. exists (k, x). by rewrite elem_of_map_to_list.
Qed.
Lemma map_values_new m k x : m !! k = None -> map_values (<[k := x]> m) ≡ₚ x :: map_values m.
Proof. intros Hn. unfold map_values. by rewrite map_to_list_insert. Qed.
Lemma map_values_split m k x : m !! k = Some x -> map_values m ≡ₚ x :: map_values (delete k m).
Proof. intros Hk. rewrite <- map_values_new with (k := k) by apply lookup_delete_eq. by rewrite insert_delete_id. Qed.
Lemma map_values_insert m k x : map_values (<[k := x]> m) ≡ₚ x :: map_values (delete k m).
Proof. rewrite <- insert_delete_eq. apply map_values_new, lookup_delete_eq. Qed.
Lemma length_map_values m : length (map_values m) = size m.
Proof. unfold map_values. by rewrite length_fmap, length_map_to_list. Qed.
End Values.

Lemma filter_map_perm {A B} (p : A -> bool) (q : B -> bool) (f : A -> B) l :
  (forall x, x ∈ l -> p x = q (f x)) -> f <$> List.filter p l = List.filter q (f <$> l).
Proof.
  induction l as [|x l IH]; intros Hpq; [done|]. cbn. rewrite Hpq by left.
  destruct (q (f x)); cbn; rewrite IH; try done; intros y Hy; apply Hpq; by right.
Qed.

Lemma NoDup_filter_keys {A B} (p : A -> bool) (f : A -> B) l : NoDup (f <$> l) -> NoDup (f <$> List.filter p l).
Proof.
  induction l as [|x l IH]; [done|]. intros [Hx Hl]%NoDup_cons. cbn. destruct (p x); [|by apply IH].
  apply NoDup_cons. split; [|by apply IH]. intros (y & E & [Hy _]%list_elem_of_In%filter_In)%list_elem_of_fmap.
  apply Hx. rewrite E. by apply list_elem_of_fmap_2, list_elem_of_In.
Qed.

(** ** Header values *)

Definition header_text (s : string) : Prop := all_bytes visible_ascii s = true.
Lemma header_value_ok name s : header_text s -> header_value name s = Ok s.
Proof. unfold header_value. by intros ->. Qed.

Lemma alphanumeric_visible b : is_ascii_alphanumeric b = true -> visible_ascii b = true.
Proof. destruct b as [[] [] [] [] [] [] [] []]; done. Qed.
(** A property of the numbers below [k], checked one by one. *)
Lemma checked_below (p : N -> bool) (k : nat) n :
  forallb (fun i => p (N.of_nat i)) (seq 0 k) = true -> (n < N.of_nat k)%N -> p n = true.
Proof.
  intros Hp Hn. rewrite <- (N2Nat.id n). apply (proj1 (forallb_forall _ _) Hp), in_seq. lia.
Qed.
Lemma hex_digit_visible n : (n < 16)%N -> visible_ascii (upper_hex_digit n) = true.
Proof. by apply (checked_below (fun n => visible_ascii (upper_hex_digit n)) 16). Qed.
Lemma code_small b : (code b < 256)%N.
Proof. unfold code. apply N_ascii_bounded. Qed.
Lemma percent_encode_visible s : header_text (percent_encode s).
Proof.
  unfold header_text, percent_encode. rewrite all_bytes_of_bytes. induction (bytes s) as [|b l IH]; [done|].
  cbn [map concat]. rewrite forallb_app, IH, andb_true_r. unfold percent_encode_byte.
  destruct (unreserved b) eqn:Eu; cbn [forallb]; rewrite ?andb_true_r.
  - unfold unreserved in Eu. apply orb_true_iff in Eu as [Eu|Eu]; [by apply alphanumeric_visible|].
    by destruct b as [[] [] [] [] [] [] [] []].
  - pose proof (code_small b). rewrite !hex_digit_visible; [done|by apply N.mod_lt|apply N.div_lt_upper_bound; lia].
Qed.

(** ** A container that answers consistently *)

Section Consistent.
Context `{Rfc3339, Sha256, Codecs, JsonText}.

Definition documents (docs : gmap (string * string) CosmosTestCase) : list CosmosTestCase := map_values docs.

(** A container served to one client, with what it answers to a request; a query of documents
    answers at most [page] of them. *)
Record Database := {
  db : Type;
  serves : forall act : action, db -> reply act * db;
  contents : db -> gmap (string * string) CosmosTestCase;
  page : nat }.

Section Laws.
Context (root : string) (D : Database).

(** The response to a call, and the state after it. *)
Definition responds (c : http_call) (s : db D) (resp : call_response) (s' : db D) : Prop :=
  serves D (AInceptor (ICall c)) s = (Ok resp, s').
Definition stores (s : db D) (key : string * string) (doc : CosmosTestCase) (s' : db D) : Prop :=
  exists v, header_text v /\ contents D s' = <[key := with_version v doc]> (contents D s).

(** A query as the client sends it. *)
Definition asks (text : string) (parameters : json) (c : http_call) : Prop :=
  call_client c = "cosmos" /\ call_method c = "POST" /\ call_url c = root
  /\ call_payload c = JsonPayload (query_body text parameters)
  /\ find_header "x-ms-documentdb-partitionkey" (call_headers c) = None
  /\ forall h, h ∈ query_headers -> h ∈ call_headers c.
Definition answers_rows {A} (d : decoder A) (c : http_call) (s : db D) (rows : list A) : Prop :=
  exists resp s' j, responds c s resp s' /\ is_success (cr_status resp) = true /\ cr_json resp = Ok j
  /\ decode_rows d j = Some rows.

(** The queries of documents, with the condition each sets. *)
Inductive selects : string -> json -> (CosmosTestCase -> bool) -> Prop :=
| selects_case bg id : selects CASE_QUERY (JArr [query_param "@bg" (JStr bg); query_param "@test_id" (JStr id)])
    (fun doc => String.eqb (d_blue_green_ref doc) bg && String.eqb (d_test_id doc) id)%bool
| selects_open : selects OPEN_QUERY (JArr []) (fun doc => existsb (String.eqb (d_status doc)) ["Triggered"; "Observing"])
| selects_ref bg : selects REF_QUERY (JArr [query_param "@bg" (JStr bg)])
    (fun doc => String.eqb (d_blue_green_ref doc) bg)
| selects_expired now : selects EXPIRED_QUERY (JArr [query_param "@now" (JStr now)])
    (fun doc => String.ltb (rfc3339 (d_expires_at doc)) now
                && existsb (String.eqb (d_status doc)) ["Triggered"; "Observing"])%bool.

(** A sum over some documents: the sum of no documents may be left out. *)
Definition sum_of (p : CosmosTestCase -> bool) (docs : list CosmosTestCase) (column : option Z) : Prop :=
  column = Some (Z.of_nat (length (List.filter p docs))) \/ column = None /\ docs = [].
Definition status_is (s : string) (doc : CosmosTestCase) : bool := String.eqb (d_status doc) s.
Definition sums (docs : list CosmosTestCase) (row : CountRow) : Prop :=
  let '(passed, failed, timed_out, pending) := row in
  sum_of (status_is "Passed") docs passed /\ sum_of (status_is "Failed") docs failed
  /\ sum_of (status_is "TimedOut") docs timed_out
  /\ sum_of (fun doc => existsb (String.eqb (d_status doc)) ["Triggered"; "Observing"]) docs pending.
Definition counted (bg : string) (mode : option VerificationMode) (doc : CosmosTestCase) : bool :=
  (String.eqb (d_blue_green_ref doc) bg
   && match mode with Some m => String.eqb (d_verification_mode doc) (mode_text m) | None => true end)%bool.

(** One of the failures of a reference; the order is that of the texts of the times. *)
Definition failure_row (bg : string) (docs : list CosmosTestCase) (rows : list (option string)) : Prop :=
  match rows with
  | [] => forall doc, doc ∈ docs -> d_blue_green_ref doc = bg -> d_failure_message doc = None
  | row :: rows =>
      rows = [] /\ is_Some row
      /\ exists doc, doc ∈ docs /\ d_blue_green_ref doc = bg /\ d_failure_message doc = row
  end.

Class DatabaseLaws : Prop := {
  others_change_nothing act s : change_of root act = None -> contents D (serves D act s).2 = contents D s;
  created c s key doc : change_of root (AInceptor (ICall c)) = Some (Create key doc) -> contents D s !! key = None ->
    exists resp s', responds c s resp s' /\ cr_status resp = 201 /\ stores s key doc s';
  not_created c s key doc old : change_of root (AInceptor (ICall c)) = Some (Create key doc) ->
    contents D s !! key = Some old ->
    exists resp s', responds c s resp s' /\ cr_status resp = 409 /\ contents D s' = contents D s;
  put_there c s key condition doc old : change_of root (AInceptor (ICall c)) = Some (Replace key condition doc) ->
    contents D s !! key = Some old -> (forall v, condition = Some v -> d_etag old = Some v) ->
    exists resp s', responds c s resp s' /\ cr_status resp = 200 /\ stores s key doc s';
  deleted c s key old : change_of root (AInceptor (ICall c)) = Some (Delete key) -> contents D s !! key = Some old ->
    exists resp s', responds c s resp s' /\ cr_status resp = 204 /\ contents D s' = delete key (contents D s);
  selected text parameters p c s : selects text parameters p -> asks text parameters c ->
    (size (contents D s) <= page D)%nat -> map_Forall (fun _ => fits_document) (contents D s) ->
    exists rows, answers_rows decode_doc c s rows /\ rows ≡ₚ List.filter p (documents (contents D s));
  summed bg mode c s :
    asks (count_query_text ("c.blue_green_ref = @bg"
            +:+ match mode with Some _ => " AND c.verification_mode = @mode" | None => "" end))
      (JArr (query_param "@bg" (JStr bg)
             :: match mode with Some m => [query_param "@mode" (JStr (mode_text m))] | None => [] end)) c ->
    (size (contents D s) <= page D)%nat ->
    exists row, answers_rows decode_counts c s [row]
    /\ sums (List.filter (counted bg mode) (documents (contents D s))) row;
  refs_answered c s : asks REFS_QUERY (JArr []) c -> (size (contents D s) <= page D)%nat ->
    exists rows, answers_rows d_string c s rows
    /\ forall bg, bg ∈ rows <-> bg ∈ d_blue_green_ref <$> documents (contents D s);
  failure_answered bg c s : asks FAILURE_QUERY (JArr [query_param "@bg" (JStr bg)]) c ->
    exists rows, answers_rows decode_failure c s rows /\ failure_row bg (documents (contents D s)) rows }.
End Laws.

(** ** The requests of a store *)

Section Requests.
Context (root : string) (D : Database) `{!DatabaseLaws root D}.
Context (store : CosmosStore) (Hroot : docs_url store = root).
Implicit Types s : db D.

(** The store can sign its requests: it has a key that is one, or its tokens are served. *)
Definition signs : Prop := forall verb kind link date s, exists token s',
  runs (serves D) (authorization store verb kind link date) s (Ok token) s'
  /\ header_text token /\ contents D s' = contents D s.
Lemma master_key_signs key decoded : auth store = MasterKey key -> standard_decode key = Ok decoded -> signs.
Proof.
  intros Ha Hk verb kind link date s. unfold authorization. rewrite Ha. unfold cosmos_master_auth. rewrite Hk.
  eexists _, s. split; [apply runs_Ret|]. split; [apply percent_encode_visible|done].
Qed.

Context (Hsigns : signs) (Hdate : forall t, header_text (http_date t)).

(** A reference that can be sent as the key of a partition. *)
Definition sendable (bg : string) : Prop := header_text (json_to_bytes (JArr [JStr bg])).

Lemma headers_run verb kind link key s : (forall bg, key = Some bg -> sendable bg) ->
  exists hs s', runs (serves D) (headers store verb kind link key) s (Ok hs) s' /\ headed key hs
  /\ contents D s' = contents D s.
Proof.
  intros Hkey. destruct (serves D ANow s) as [now s1] eqn:En.
  destruct (Hsigns verb kind link (http_date now) s1) as (token & s2 & Hr & Ht & Hc).
  assert (exists hs, runs (serves D) (headers store verb kind link key) s (Ok hs) s2) as [hs Hhs].
  { assert (exists l, partition_key_header key = Ok l) as [l Hl].
    { unfold partition_key_header. destruct key as [bg|]; [|by exists []].
      rewrite header_value_ok by by apply Hkey. by eexists. }
    eexists. eapply runs_bind; [by apply runs_request|]. eapply runs_bind_err; [exact Hr|].
    rewrite (header_value_ok "authorization"), (header_value_ok "x-ms-date"), Hl by done. apply runs_Ret. }
  exists hs, s2. split; [done|]. split.
  - destruct Hhs as [tr Htr]. eapply headers_headed. pose proof (run_exec (serves D) (headers store verb kind link key) s) as He.
    by rewrite Htr in He.
  - rewrite Hc. pose proof (others_change_nothing root D ANow s eq_refl) as E. by rewrite En in E.
Qed.

Lemma send_run c s resp s' : responds D c s resp s' -> runs (serves D) (send c) s (Ok resp) s'.
Proof.
  intros Hr. eapply runs_bind; [exact (runs_request (serves D) (AInceptor (ICall c)) s _ _ Hr)|].
  apply (runs_Ret (serves D) (map_err http_err (Ok resp))).
Qed.

(** A query returns the rows the container answers. *)
Lemma query_run {A} (d : decoder A) text parameters s (Q : list A -> Prop) :
  (forall c s1, contents D s1 = contents D s -> asks root text parameters c ->
     exists rows, answers_rows D d c s1 rows /\ Q rows) ->
  exists rows s', runs (serves D) (query store d text parameters) s (Ok rows) s'
  /\ contents D s' = contents D s /\ Q rows.
Proof.
  intros Hans. destruct (headers_run "POST" "docs" (container_link store) None s) as (hs & s1 & Hr & Hh & Hc); [done|].
  set (c := cosmos_call "POST" (docs_url store) (hs ++ query_headers) (JsonPayload (query_body text parameters))).
  destruct (Hans c s1 Hc) as (rows & (resp & s2 & j & Hresp & Hs & Hj & Hd) & HQ).
  { refine (conj eq_refl (conj eq_refl (conj Hroot (conj eq_refl (conj (proj1 (Hh query_headers)) _))))).
    intros h Hin. apply elem_of_app. by right. }
  exists rows, s2. split_and!; [| |done].
  - eapply runs_bind_err; [exact Hr|]. eapply runs_bind_err; [by apply send_run|]. rewrite Hs, Hj. cbn. rewrite Hd.
    apply runs_Ret.
  - rewrite <- Hc. pose proof (others_change_nothing root D (AInceptor (ICall c)) s1) as Ho.
    unfold responds in Hresp. rewrite Hresp in Ho. apply Ho.
    by eapply (query_call_unchanging root store).
Qed.

(** A document that is there is replaced, one that is there is deleted. *)
Lemma replace_run doc old s : contents D s !! doc_key old = Some old -> d_etag doc = d_etag old ->
  d_id doc = d_id old -> d_blue_green_ref doc = d_blue_green_ref old -> fits_document doc -> sendable (d_blue_green_ref doc) ->
  (forall v, d_etag doc = Some v -> header_text v) ->
  exists s', runs (serves D) (replace_doc store doc) s (Ok tt) s' /\ stores D s (doc_key old) doc s'.
Proof.
  intros Hold Het Hid Hbg Hfit Hsend Hv.
  destruct (headers_run "PUT" "docs" (doc_link store (d_id doc)) (Some (d_blue_green_ref doc)) s) as (hs & s1 & Hr & Hh & Hc);
    [by intros ? [= <-]|].
  set (condition := match d_etag doc with Some v => [("if-match", v)] | None => [] end).
  set (c := cosmos_call "PUT" (doc_url store (d_id doc)) (hs ++ json_type ++ condition) (JsonPayload (encode_doc doc))).
  assert (change_of root (AInceptor (ICall c)) = Some (Replace (doc_key old) (d_etag old) doc)) as Hch.
  { destruct (Hh (json_type ++ condition)) as [Ek Ei]. subst c condition. unfold change_of, cosmos_call, body_doc.
    cbn [call_client call_method call_url call_headers call_payload String.eqb Ascii.eqb Bool.eqb andb].
    rewrite Ek, Ei, (doc_url_is root store Hroot), <- sapp_assoc, strip_prefix_app, decode_encode_doc by done.
    rewrite <- Het. unfold doc_key. rewrite <- Hid, <- Hbg. by destruct (d_etag doc). }
  rewrite <- Hc in Hold. destruct (put_there root D c s1 _ _ _ old Hch Hold ltac:(done)) as (resp & s2 & Hresp & Hst & Hsto).
  exists s2. split; [|unfold stores in *; by rewrite <- Hc].
  eapply runs_bind_err; [exact Hr|].
  replace (match d_etag doc with Some _ => _ | None => _ end) with (@Ok StoreError _ condition).
  2: { subst condition. destruct (d_etag doc) as [v|]; [|done]. by rewrite header_value_ok by by apply Hv. }
  eapply runs_bind_err; [by apply send_run|]. rewrite Hst. apply runs_Ret.
Qed.

(** ** Documents and the contract's map *)

(** The cases in use have references that can be sent, and documents of their own:
    [CosmosTheorems.document_ids_differ] says when. *)
Context (used : string * string -> Prop).
Class Usable : Prop := {
  used_sendable k : used k -> sendable k.1;
  used_distinct k k' : used k -> used k' -> case_key k.1 k.2 = case_key k'.1 k'.2 -> k = k' }.
Context `{!Usable}.

(** What can be kept in a document: whole seconds, and integers of their widths. *)
Definition storable (o : op) : Prop :=
  match o with
  | OpRegister run =>
      Z.rem (timeout run) 1000 = 0 /\ in_signed 64 (Z.quot (timeout run) 1000)
      /\ in_signed 32 (retries_remaining run) /\ used (Spec.key run)
  | _ => True
  end.

Record stored_case (key : string * string) (doc : CosmosTestCase) : Prop := {
  stored_key : key = doc_key doc;
  stored_named : named_doc doc;
  stored_fits : fits_document doc;
  stored_status : exists st, d_status doc = status_text st;
  stored_mode : exists md, d_verification_mode doc = mode_text md;
  stored_version v : d_etag doc = Some v -> header_text v;
  stored_deadline : d_expires_at doc = StateStore.expires_at (doc_to_case doc);
  stored_used : used (Spec.key (doc_to_case doc)) }.
Record represents (docs : gmap (string * string) CosmosTestCase) (m : cases) : Prop := {
  rep_keyed : Spec.keyed m;
  rep_records : Spec.records m ≡ₚ doc_to_case <$> documents docs;
  rep_stored : map_Forall stored_case docs }.

Lemma status_text_read st : status_of_text (status_text st) = st.
Proof. by destruct st. Qed.
Lemma mode_text_read md : mode_of_text (mode_text md) = md.
Proof. by destruct md. Qed.
Lemma stored_pending key doc : stored_case key doc -> is_pending_status (d_status doc) = is_pending (doc_to_case doc).
Proof. intros [_ _ _ [st Hst] _ _ _ _]. unfold is_pending. cbn. rewrite Hst, status_text_read. by destruct st. Qed.
Lemma stored_case_key key doc : stored_case key doc -> key = case_key (d_blue_green_ref doc) (d_test_id doc).
Proof. intros [-> Hn _ _ _ _ _ _]. unfold doc_key, case_key. by rewrite Hn. Qed.

Lemma keyed_record m r : Spec.keyed m -> r ∈ Spec.records m -> m !! Spec.key r = Some r.
Proof. intros Hm (k & Hk)%elem_of_map_values. by rewrite (Hm _ _ Hk). Qed.

Section Represented.
Context (docs : gmap (string * string) CosmosTestCase) (m : cases) (Hrep : represents docs m).

Lemma rep_found key doc : docs !! key = Some doc -> m !! Spec.key (doc_to_case doc) = Some (doc_to_case doc).
Proof.
  intros Hd. apply keyed_record; [apply Hrep|]. rewrite (rep_records _ _ Hrep).
  apply list_elem_of_fmap_2, elem_of_map_values. by exists key.
Qed.
Lemma rep_lookup k r : m !! k = Some r ->
  exists doc, docs !! doc_key doc = Some doc /\ doc_to_case doc = r /\ stored_case (doc_key doc) doc.
Proof.
  intros Hk. assert (r ∈ Spec.records m) as Hr by (apply elem_of_map_values; by exists k).
  rewrite (rep_records _ _ Hrep) in Hr. apply list_elem_of_fmap in Hr as (doc & -> & (key & Hd)%elem_of_map_values).
  pose proof (rep_stored _ _ Hrep _ _ Hd) as Hs. pose proof (stored_key _ _ Hs) as ->. by exists doc.
Qed.
Lemma rep_size : size m = size docs.
Proof.
  rewrite <- !length_map_values. change (map_values m) with (Spec.records m).
  by rewrite (rep_records _ _ Hrep), length_fmap.
Qed.

Lemma rep_keys : NoDup (doc_key <$> documents docs).
Proof.
  assert (doc_key <$> documents docs = (map_to_list docs).*1) as ->; [|apply NoDup_fst_map_to_list].
  unfold documents, map_values. rewrite <- list_fmap_compose. apply list_fmap_ext. intros i [key doc] Hi. cbn.
  apply list_elem_of_lookup_2, elem_of_map_to_list in Hi. symmetry. apply stored_key, Hrep, Hi.
Qed.

Lemma rep_delete key doc : docs !! key = Some doc ->
  represents (delete key docs) (delete (Spec.key (doc_to_case doc)) m).
Proof.
  intros Hd. pose proof (rep_found _ _ Hd) as Hk. split.
  - by apply map_Forall_delete, Hrep.
  - apply (Permutation_cons_inv (a := doc_to_case doc)). change (Spec.records ?m) with (map_values m).
    rewrite <- (map_values_split _ _ _ Hk). change (map_values m) with (Spec.records m).
    rewrite (rep_records _ _ Hrep). unfold documents. by rewrite (map_values_split _ _ _ Hd).
  - by apply map_Forall_delete, Hrep.
Qed.
End Represented.

Lemma rep_add docs m key doc : represents docs m -> docs !! key = None -> m !! Spec.key (doc_to_case doc) = None ->
  stored_case key doc -> represents (<[key := doc]> docs) (<[Spec.key (doc_to_case doc) := doc_to_case doc]> m).
Proof.
  intros Hrep Hd Hk Hs. split.
  - by apply keyed_insert; [apply Hrep|].
  - change (Spec.records ?m) with (map_values m). unfold documents. rewrite !map_values_new by done. cbn.
    apply perm_skip, Hrep.
  - by apply map_Forall_insert_2, Hrep.
Qed.
Lemma rep_update docs m old doc : represents docs m -> docs !! doc_key old = Some old ->
  Spec.key (doc_to_case doc) = Spec.key (doc_to_case old) -> stored_case (doc_key old) doc ->
  represents (<[doc_key old := doc]> docs) (<[Spec.key (doc_to_case old) := doc_to_case doc]> m).
Proof.
  intros Hrep Hd Hk Hs. rewrite <- insert_delete_eq, <- (insert_delete_eq m), <- Hk.
  apply rep_add; [rewrite Hk; by eapply rep_delete|apply lookup_delete_eq|apply lookup_delete_eq|done].
Qed.

(** A selection of the documents is the selection of the cases. *)
Lemma rep_selection docs m p q : represents docs m -> (forall key doc, stored_case key doc -> p doc = q (doc_to_case doc)) ->
  doc_to_case <$> List.filter p (documents docs) ≡ₚ List.filter q (Spec.records m).
Proof.
  intros Hrep Hpq. rewrite (filter_perm q _ _ (rep_records _ _ Hrep)), (filter_map_perm p q doc_to_case); [done|].
  intros doc (key & Hd)%elem_of_map_values. by apply (Hpq key), Hrep.
Qed.

(** ** The operations *)

Section Operations.
Context (s : db D) (m : cases) (Hrep : represents (contents D s) m) (Hpage : (size m <= page D)%nat).

Lemma page_fits s1 : contents D s1 = contents D s -> (size (contents D s1) <= page D)%nat.
Proof. intros ->. by rewrite <- (rep_size _ _ Hrep). Qed.

(** A query of documents returns those it selects. *)
Lemma select_run_at s0 text parameters p : contents D s0 = contents D s -> selects text parameters p ->
  exists rows s', runs (serves D) (query store decode_doc text parameters) s0 (Ok rows) s'
  /\ contents D s' = contents D s /\ rows ≡ₚ List.filter p (documents (contents D s)).
Proof.
  intros Hs0 Hsel. rewrite <- Hs0. apply query_run. intros c s1 Hc Ha. rewrite <- Hc.
  rewrite Hs0 in Hc. apply (selected root D text parameters); [done|done|by apply page_fits|].
  rewrite Hc. intros key doc Hd. by apply (stored_fits key), Hrep.
Qed.
Definition select_run text parameters p := select_run_at s text parameters p eq_refl.

Lemma get_doc_run bg id : exists found s', runs (serves D) (get_doc store bg id) s (Ok found) s'
  /\ contents D s' = contents D s
  /\ match found with
     | Some doc => contents D s !! doc_key doc = Some doc /\ stored_case (doc_key doc) doc
                   /\ m !! (bg, id) = Some (doc_to_case doc)
     | None => m !! (bg, id) = None
     end.
Proof.
  destruct (select_run _ _ _ (selects_case bg id)) as (rows & s' & Hr & Hc & Hrows). exists (head rows), s'.
  split_and!; [eapply runs_bind_err; [exact Hr|apply runs_Ret]|done|]. destruct rows as [|doc rows]; cbn.
  - destruct (m !! (bg, id)) as [r|] eqn:E; [exfalso|done].
    destruct (rep_lookup _ _ Hrep _ _ E) as (doc & Hd & <- & _). pose proof (rep_keyed _ _ Hrep _ _ E) as [= Eb Ei].
    apply Permutation_nil_l in Hrows. apply (not_elem_of_nil doc). rewrite Hrows. apply list_elem_of_In, filter_In.
    split; [by apply list_elem_of_In, elem_of_map_values; eexists|]. by rewrite Eb, Ei, !String.eqb_refl.
  - assert (doc ∈ List.filter (fun doc => String.eqb (d_blue_green_ref doc) bg && String.eqb (d_test_id doc) id)%bool
                    (documents (contents D s))) as Hin by (rewrite <- Hrows; left).
    apply list_elem_of_In, filter_In in Hin as [Hin [Eb%String.eqb_eq Ei%String.eqb_eq]%andb_true_iff].
    apply list_elem_of_In, elem_of_map_values in Hin as (key & Hd). pose proof (rep_stored _ _ Hrep _ _ Hd) as Hs.
    pose proof (stored_key _ _ Hs) as ->. split_and!; [done..|]. rewrite <- Eb, <- Ei. exact (rep_found _ _ Hrep _ _ Hd).
Qed.

(** What the store may write over a document. *)
Record rewrites (old doc : CosmosTestCase) : Prop := {
  rewrites_etag : d_etag doc = d_etag old; rewrites_id : d_id doc = d_id old;
  rewrites_ref : d_blue_green_ref doc = d_blue_green_ref old; rewrites_test : d_test_id doc = d_test_id old;
  rewrites_fits : fits_document old -> fits_document doc; rewrites_status : exists st, d_status doc = status_text st;
  rewrites_mode : d_verification_mode doc = d_verification_mode old;
  rewrites_times : d_triggered_at doc = d_triggered_at old /\ d_timeout_seconds doc = d_timeout_seconds old
                   /\ d_expires_at doc = d_expires_at old }.

Lemma rewritten_stored old doc v : stored_case (doc_key old) old -> rewrites old doc -> header_text v ->
  stored_case (doc_key old) (with_version v doc).
Proof.
  intros [_ Hn Hf _ Hm _ Hd Hu] [He Hi Hb Ht Hf' Hs Hmd (Ht1 & Ht2 & Ht3)] Hv. split; cbn.
  - unfold doc_key. cbn. by rewrite Hb, Hi.
  - unfold named_doc. cbn. by rewrite Hi, Hb, Ht.
  - by apply Hf'.
  - done.
  - by rewrite Hmd.
  - by intros w [= <-].
  - unfold StateStore.expires_at in *. cbn in *. by rewrite Ht1, Ht2, Ht3.
  - unfold Spec.key in *. cbn in *. by rewrite Hb, Ht.
Qed.

Lemma rewrite_run old doc s1 : contents D s1 = contents D s -> contents D s !! doc_key old = Some old -> rewrites old doc ->
  exists s', runs (serves D) (replace_doc store doc) s1 (Ok tt) s'
  /\ represents (contents D s') (<[Spec.key (doc_to_case old) := doc_to_case doc]> m).
Proof.
  intros Hc Hold Hrw. pose proof (rep_stored _ _ Hrep _ _ Hold) as Hst. pose proof Hrw as [He Hi Hb Ht Hf _ _ _].
  destruct (replace_run doc old s1) as (s' & Hr & v & Hv & Hs'); try done.
  - by rewrite Hc.
  - by apply Hf, Hst.
  - rewrite Hb. exact (used_sendable _ (stored_used _ _ Hst)).
  - rewrite He. apply Hst.
  - exists s'. split; [done|]. rewrite Hs', Hc. change (doc_to_case doc) with (doc_to_case (with_version v doc)).
    apply rep_update; [done..| |by apply rewritten_stored]. unfold Spec.key. cbn. by rewrite Hb, Ht.
Qed.

Lemma finalize_run (f : CosmosTestCase -> CosmosTestCase) (g : TestCaseRecord -> TestCaseRecord) bg id :
  (forall doc, rewrites doc (f doc)) -> (forall doc, doc_to_case (f doc) = g (doc_to_case doc)) ->
  exists s', runs (serves D) (finalize_doc store f bg id) s (Spec.finalize g bg id m).1 s'
  /\ represents (contents D s') (Spec.finalize g bg id m).2.
Proof.
  intros Hf Hg. destruct (get_doc_run bg id) as (found & s1 & Hr & Hc & Hfound). unfold Spec.finalize.
  destruct found as [doc|]; [|rewrite Hfound; exists s1; split; [eapply runs_bind_err; [exact Hr|apply runs_Ret]|by rewrite Hc]].
  destruct Hfound as (Hd & Hst & Hk). rewrite Hk. rewrite <- (stored_pending _ _ Hst).
  destruct (is_pending_status (d_status doc)) eqn:Ep.
  - destruct (rewrite_run doc (f doc) s1 Hc Hd (Hf doc)) as (s' & Hr' & Hrep'). exists s'. split.
    + eapply runs_bind_err; [exact Hr|]. cbn beta iota. by rewrite Ep.
    + cbn [snd]. rewrite <- Hg. pose proof (rep_keyed _ _ Hrep _ _ Hk) as Ek. cbn beta in Ek. by rewrite <- Ek.
  - exists s1. split; [eapply runs_bind_err; [exact Hr|]; cbn beta iota; rewrite Ep; apply runs_Ret|by rewrite Hc].
Qed.

(** *** Registration and retries *)

Lemma register_run run : Z.rem (timeout run) 1000 = 0 -> in_signed 64 (Z.quot (timeout run) 1000) ->
  in_signed 32 (retries_remaining run) -> used (Spec.key run) ->
  exists s', runs (serves D) (register store run) s (Ok tt) s'
  /\ represents (contents D s') (match m !! Spec.key run with Some _ => m | None => <[Spec.key run := run]> m end).
Proof.
  intros Hsec Ht Hr Hu. set (doc := case_to_doc run).
  assert (fits_document doc) as Hfit by by split.
  destruct (headers_run "POST" "docs" (container_link store) (Some (d_blue_green_ref doc)) s) as (hs & s1 & Hhs & Hh & Hc).
  { intros bg [= <-]. exact (used_sendable _ Hu). }
  set (c := cosmos_call "POST" (docs_url store) (hs ++ json_type) (JsonPayload (encode_doc doc))).
  assert (change_of root (AInceptor (ICall c)) = Some (Create (doc_key doc) doc)) as Hch.
  { destruct (Hh json_type) as [Ek _]. subst c. unfold change_of, cosmos_call, body_doc.
    cbn [call_client call_method call_url call_headers call_payload String.eqb Ascii.eqb Bool.eqb andb].
    by rewrite Ek, Hroot, String.eqb_refl, decode_encode_doc by done. }
  assert (forall v, doc_to_case (with_version v doc) = run) as Hread.
  { intros v. pose proof (registered_case_is_read run Hsec Ht Hr) as E. rewrite decode_encode_doc in E by done. by injection E. }
  assert (forall v, header_text v -> stored_case (doc_key doc) (with_version v doc)) as Hst.
  { intros v Hv. split; cbn; [done..| | |by intros w [= <-]|by rewrite Hread|by rewrite Hread]; by eexists. }
  destruct (m !! Spec.key run) as [r|] eqn:E.
  - destruct (rep_lookup _ _ Hrep _ _ E) as (old & Hd & <- & Hso). pose proof (rep_keyed _ _ Hrep _ _ E) as Ek. cbn beta in Ek.
    assert (doc_key old = doc_key doc) as Eo.
    { rewrite (stored_case_key _ _ Hso). by injection Ek as -> ->. }
    rewrite Eo, <- Hc in Hd. destruct (not_created root D c s1 _ _ _ Hch Hd) as (resp & s2 & Hresp & Hst2 & Hc2).
    exists s2. split; [|by rewrite Hc2, Hc].
    eapply runs_bind_err; [exact Hhs|]. eapply runs_bind_err; [by apply send_run|]. rewrite Hst2. apply runs_Ret.
  - assert (contents D s !! doc_key doc = None) as Hn.
    { destruct (contents D s !! doc_key doc) as [old|] eqn:Eo; [exfalso|done].
      pose proof (rep_stored _ _ Hrep _ _ Eo) as Hso. pose proof (rep_found _ _ Hrep _ _ Eo) as Hf.
      rewrite (used_distinct (Spec.key (doc_to_case old)) (Spec.key run)), E in Hf; [done|apply Hso|done|].
      symmetry. exact (stored_case_key _ _ Hso). }
    rewrite <- Hc in Hn. destruct (created root D c s1 _ _ Hch Hn) as (resp & s2 & Hresp & Hst2 & v & Hv & Hc2).
    exists s2. split.
    + eapply runs_bind_err; [exact Hhs|]. eapply runs_bind_err; [by apply send_run|]. rewrite Hst2. apply runs_Ret.
    + rewrite Hc2, Hc in *. rewrite <- (Hread v) in E |- * at 2. rewrite <- (Hread v).
      apply rep_add; [done..|by rewrite Hread in *|by apply Hst].
Qed.

Lemma decrement_run bg id : exists a s', runs (serves D) (decrement_retries store bg id) s a s'
  /\ represents (contents D s') (Spec.decrement_retries bg id m).2
  /\ Contract.allowed (OpDecrement bg id) m (AnsRetries a).
Proof.
  destruct (get_doc_run bg id) as (found & s1 & Hr & Hc & Hfound). unfold Contract.allowed, Spec.decrement_retries.
  destruct found as [doc|].
  2: { rewrite Hfound. exists (Err (NotFound id)), s1. split; [eapply runs_bind_err; [exact Hr|apply runs_Ret]|].
       rewrite Hc. split; [done|by right]. }
  destruct Hfound as (Hd & Hst & Hk). rewrite Hk, <- (stored_pending _ _ Hst).
  change (retries_remaining (doc_to_case doc)) with (d_retries_remaining doc).
  destruct (is_pending_status (d_status doc)) eqn:Ep, (Z.leb_spec (d_retries_remaining doc) 0) as [Hz|Hz],
    (Z.ltb_spec 0 (d_retries_remaining doc)); try lia; cbn [andb fst snd].
  2: { set (doc' := set_doc_retries (d_retries_remaining doc - 1) doc).
       destruct (rewrite_run doc doc' s1 Hc Hd) as (s' & Hr' & Hrep').
       { split; try done; [|apply Hst]. intros [H1' H2']. split; [done|]. cbn. rewrite in_signed_32 in *. lia. }
       exists (Ok (Some (d_retries_remaining doc - 1))), s'. split_and!; [| |done].
       - eapply runs_bind_err; [exact Hr|]. cbn beta iota. rewrite Ep, (proj2 (Z.leb_gt _ _)) by lia. cbn [negb orb].
         eapply runs_bind_err; [exact Hr'|apply runs_Ret].
       - pose proof (rep_keyed _ _ Hrep _ _ Hk) as Ek. cbn beta in Ek. by rewrite Ek in Hrep'. }
  all: exists (Ok None), s1; split_and!; [|by rewrite Hc|done]; eapply runs_bind_err; [exact Hr|]; cbn beta iota;
    rewrite Ep; cbn [negb orb]; rewrite ?(proj2 (Z.leb_le _ _)) by lia; apply runs_Ret.
Qed.

(** *** Listings, counters and messages *)

Lemma open_pending key doc : stored_case key doc ->
  existsb (String.eqb (d_status doc)) ["Triggered"; "Observing"] = is_pending (doc_to_case doc).
Proof. intros Hst. rewrite <- (stored_pending _ _ Hst). unfold is_pending_status. cbn. by rewrite orb_false_r. Qed.

Lemma list_pending_run : exists l s', runs (serves D) (list_pending store) s (Ok l) s'
  /\ contents D s' = contents D s /\ l ≡ₚ Spec.list_pending m.
Proof.
  destruct (select_run _ _ _ selects_open) as (rows & s' & Hr & Hc & Hrows). exists (map doc_to_case rows), s'.
  split_and!; [eapply runs_bind_err; [exact Hr|apply runs_Ret]|done|].
  rewrite Hrows. apply (rep_selection _ _ _ is_pending Hrep), open_pending.
Qed.

Lemma sum_is (p : CosmosTestCase -> bool) (q : TestCaseRecord -> bool) docs column :
  sum_of p docs column -> (forall doc, doc ∈ docs -> p doc = q (doc_to_case doc)) ->
  unwrap_or 0 column = count_if q (doc_to_case <$> docs).
Proof.
  intros [->|[-> ->]] Hpq; [|done]. unfold count_if. by rewrite <- (filter_map_perm p q doc_to_case), length_fmap.
Qed.
Lemma status_is_stored key doc st : stored_case key doc -> status_is (status_text st) doc = has_status st (doc_to_case doc).
Proof.
  intros [_ _ _ [st' Hst] _ _ _ _]. unfold status_is, has_status. cbn. rewrite Hst, status_text_read.
  by destruct st', st.
Qed.
Lemma counts_query_run p q text parameters :
  (forall key doc, stored_case key doc -> p doc = q (doc_to_case doc)) ->
  (forall c s1, contents D s1 = contents D s -> asks root text parameters c ->
     exists row, answers_rows D decode_counts c s1 [row] /\ sums (List.filter p (documents (contents D s))) row) ->
  exists s', runs (serves D) (counts_query store text parameters) s (Ok (counts_of (List.filter q (Spec.records m)))) s'
  /\ contents D s' = contents D s.
Proof.
  intros Hpq Hans. set (docs := List.filter p (documents (contents D s))) in *.
  assert (forall doc, doc ∈ docs -> exists key, stored_case key doc) as Hdocs.
  { intros doc [(key & Hd)%list_elem_of_In%elem_of_map_values _]%list_elem_of_In%filter_In. exists key. by apply Hrep. }
  destruct (query_run decode_counts text parameters s (fun rows => exists row, rows = [row] /\ sums docs row))
    as (rows & s' & Hr & Hc & row & -> & Hrow).
  { intros c s1 Hc Ha. destruct (Hans c s1 Hc Ha) as (row & Hrows & Hrow). exists [row]. split; [done|by exists row]. }
  exists s'. split; [|exact Hc]. eapply runs_bind_err; [exact Hr|].
  rewrite <- (counts_of_perm _ _ (rep_selection _ _ p q Hrep Hpq)). fold docs. cbn [head unwrap_or default].
  destruct row as [[[passed failed] timed_out] pending]. destruct Hrow as (Hp & Hf & Ht & Hn).
  unfold counts_of. erewrite <- (sum_is _ (has_status Passed) _ _ Hp), <- (sum_is _ (has_status Failed) _ _ Hf),
    <- (sum_is _ (has_status TimedOut) _ _ Ht), <- (sum_is _ is_pending _ _ Hn); [apply runs_Ret|..];
    intros doc (key & Hst)%Hdocs; [by apply (open_pending key)|by apply (status_is_stored key doc TimedOut)
      |by apply (status_is_stored key doc Failed)|by apply (status_is_stored key doc Passed)].
Qed.
Lemma counts_run bg mode : exists s', runs (serves D) (counts_for_mode_query store bg mode) s
    (Ok (match mode with Some md => Spec.counts_for_mode bg md m | None => Spec.counts bg m end)) s'
  /\ contents D s' = contents D s.
Proof.
  destruct mode as [md|].
  - apply (counts_query_run (counted bg (Some md)) (Spec.of_mode bg md)).
    + intros key doc Hst. unfold counted, Spec.of_mode, Spec.of_ref. cbn. f_equal.
      destruct (stored_mode _ _ Hst) as [md' ->]. rewrite mode_text_read. by destruct md', md.
    + intros c s1 Hc Ha. rewrite <- Hc. by apply (summed root D bg (Some md)), page_fits.
  - apply (counts_query_run (counted bg None) (Spec.of_ref bg)).
    + intros key doc _. unfold counted. by rewrite andb_true_r.
    + intros c s1 Hc Ha. rewrite <- Hc. by apply (summed root D bg None), page_fits.
Qed.

Lemma failure_run bg : exists o s', runs (serves D) (latest_failure_message store bg) s (Ok o) s'
  /\ contents D s' = contents D s
  /\ match o with Some msg => msg ∈ Contract.messages bg m | None => Contract.messages bg m = [] end.
Proof.
  destruct (query_run decode_failure FAILURE_QUERY (JArr [query_param "@bg" (JStr bg)]) s
    (failure_row bg (documents (contents D s)))) as (rows & s' & Hr & Hc & HQ).
  { intros c s1 Hc Ha. destruct (failure_answered root D bg c s1 Ha) as (rows & Hans & Hrow). exists rows. split; [done|].
    rewrite Hc in Hrow. exact Hrow. }
  exists (mjoin (head rows)), s'. split_and!; [eapply runs_bind_err; [exact Hr|apply runs_Ret]|done|]. unfold Contract.messages.
  destruct rows as [|row rows]; cbn.
  - apply elem_of_nil_inv. intros msg (r & [Hr' Href]%list_elem_of_In%filter_In & Hm)%list_elem_of_omap.
    apply list_elem_of_In in Hr'. rewrite (rep_records _ _ Hrep) in Hr'. apply list_elem_of_fmap in Hr' as (doc & -> & Hd).
    apply String.eqb_eq in Href. by rewrite (HQ doc Hd Href : failure_message (doc_to_case doc) = None) in Hm.
  - destruct HQ as (_ & [msg ->] & doc & Hd & Hb & Hm). cbn. apply list_elem_of_omap. exists (doc_to_case doc). split; [|done].
    apply list_elem_of_In, filter_In. split; [|by apply String.eqb_eq]. apply list_elem_of_In. rewrite (rep_records _ _ Hrep).
    by apply list_elem_of_fmap_2.
Qed.

(** *** Cleanup *)

Lemma delete_run doc s1 : contents D s1 !! doc_key doc = Some doc -> sendable (d_blue_green_ref doc) ->
  exists s2 hs resp, runs (serves D) (headers store "DELETE" "docs" (doc_link store (d_id doc)) (Some (d_blue_green_ref doc))) s1 (Ok hs) s2
  /\ is_success (cr_status resp) = true
  /\ exists s3, runs (serves D) (send (cosmos_call "DELETE" (doc_url store (d_id doc)) hs NoPayload)) s2 (Ok resp) s3
     /\ contents D s3 = delete (doc_key doc) (contents D s1).
Proof.
  intros Hd Hsend.
  destruct (headers_run "DELETE" "docs" (doc_link store (d_id doc)) (Some (d_blue_green_ref doc)) s1) as (hs & s2 & Hr & Hh & Hc);
    [by intros ? [= <-]|].
  set (c := cosmos_call "DELETE" (doc_url store (d_id doc)) hs NoPayload).
  assert (change_of root (AInceptor (ICall c)) = Some (Delete (doc_key doc))) as Hch.
  { destruct (Hh []) as [Ek _]. rewrite app_nil_r in Ek. subst c. unfold change_of, cosmos_call.
    cbn [call_client call_method call_url call_headers String.eqb Ascii.eqb Bool.eqb andb].
    by rewrite Ek, (doc_url_is root store Hroot), <- sapp_assoc, strip_prefix_app. }
  rewrite <- Hc in Hd. destruct (deleted root D c s2 _ _ Hch Hd) as (resp & s3 & Hresp & Hst & Hc3).
  exists s2, hs, resp. split_and!; [done|by rewrite Hst|]. exists s3. split; [by apply send_run|by rewrite Hc3, Hc].
Qed.

(** The cases of the documents go, and nothing else. *)
Lemma delete_docs_run rows : forall s1 m1 n, represents (contents D s1) m1 ->
  NoDup (doc_key <$> rows) -> (forall doc, doc ∈ rows -> contents D s1 !! doc_key doc = Some doc) ->
  exists s2 m2, runs (serves D) (delete_docs store rows n) s1 (Ok (n + Z.of_nat (length rows))) s2
  /\ represents (contents D s2) m2 /\ (size m2 + length rows = size m1)%nat
  /\ forall k r, m2 !! k = Some r <-> m1 !! k = Some r /\ r ∉ doc_to_case <$> rows.
Proof.
  induction rows as [|doc rows IH]; intros s1 m1 n Hrep1 Hnd Hin.
  { exists s1, m1. rewrite Z.add_0_r. split_and!; [apply runs_Ret|done|apply Nat.add_0_r|]. intros k r. split; [|by intros [? _]].
    intros Hk. split; [done|apply not_elem_of_nil]. }
  cbn in Hnd. apply NoDup_cons in Hnd as [Hni Hnd]. pose proof (Hin doc ltac:(left)) as Hd.
  pose proof (rep_stored _ _ Hrep1 _ _ Hd) as Hst. pose proof (rep_found _ _ Hrep1 _ _ Hd) as Hf.
  destruct (delete_run doc s1 Hd) as (s2 & hs & resp & Hhs & Hok & s3 & Hsend & Hc3); [exact (used_sendable _ (stored_used _ _ Hst))|].
  destruct (IH s3 (delete (Spec.key (doc_to_case doc)) m1) (n + 1)) as (s4 & m4 & Hr & Hrep4 & Hsz & Hm4).
  - rewrite Hc3. by apply rep_delete.
  - done.
  - intros doc' Hin'. rewrite Hc3, lookup_delete_ne; [apply Hin; by right|]. intros E. apply Hni. rewrite E. by apply list_elem_of_fmap_2.
  - exists s4, m4. split_and!; [|done| |].
    + eapply runs_bind_err; [exact Hhs|]. eapply runs_bind_err; [exact Hsend|]. rewrite Hok. cbn [length].
      by replace (n + Z.of_nat (Datatypes.S (length rows))) with (n + 1 + Z.of_nat (length rows)) by lia.
    + cbn [length]. rewrite map_size_delete_Some in Hsz by done.
      assert (size m1 <> 0%nat); [|lia]. intros E%map_size_empty_inv. by rewrite E in Hf.
    + intros k r. rewrite Hm4. cbn. rewrite not_elem_of_cons, lookup_delete_Some. split; [|].
      * intros [[Hne Hk] Hnr]. split_and!; [done| |done]. intros ->. apply Hne. by pose proof (rep_keyed _ _ Hrep1 _ _ Hk).
      * intros (Hk & Hne & Hnr). split_and!; [|done..]. intros <-. apply Hne. rewrite Hf in Hk. by injection Hk.
Qed.

(** Deleting what a query selects. *)
Lemma delete_selected s0 text parameters p q : contents D s0 = contents D s -> selects text parameters p ->
  (forall key doc, stored_case key doc -> p doc = q (doc_to_case doc)) ->
  let m' := filter (fun kr => q kr.2 = false) m in
  exists s', runs (serves D) (let* rows := query store decode_doc text parameters in delete_docs store rows 0) s0
    (Ok (Z.of_nat (size m) - Z.of_nat (size m'))) s' /\ represents (contents D s') m'.
Proof.
  intros Hs0 Hsel Hpq. destruct (select_run_at _ _ _ _ Hs0 Hsel) as (rows & s1 & Hr & Hc & Hrows).
  assert (forall doc, doc ∈ rows -> contents D s !! doc_key doc = Some doc) as Hin.
  { intros doc. rewrite Hrows. intros [(key & Hd)%list_elem_of_In%elem_of_map_values _]%list_elem_of_In%filter_In.
    by rewrite <- (stored_key _ _ (rep_stored _ _ Hrep _ _ Hd)). }
  destruct (delete_docs_run rows s1 m 0) as (s2 & m2 & Hr2 & Hrep2 & Hsz & Hm2).
  - by rewrite Hc.
  - rewrite Hrows. by apply NoDup_filter_keys, rep_keys with (m := m).
  - by rewrite Hc.
  - assert (m2 = filter (fun kr => q kr.2 = false) m) as Em.
    { apply map_eq. intros k. apply option_eq. intros r. rewrite Hm2, map_lookup_filter_Some. cbn.
      split; intros [Hk Hn]; (split; [done|]); destruct (rep_lookup _ _ Hrep _ _ Hk) as (doc & Hd & <- & Hst).
      - rewrite <- (Hpq _ _ Hst). apply not_true_is_false. intros Hp. apply Hn, list_elem_of_fmap_2. rewrite Hrows.
        apply list_elem_of_In, filter_In. split; [by apply list_elem_of_In, elem_of_map_values; eexists|done].
      - intros (doc' & E & Hd')%list_elem_of_fmap. pose proof (rep_stored _ _ Hrep _ _ (Hin _ Hd')) as Hst'.
        rewrite Hrows in Hd'. apply list_elem_of_In, filter_In in Hd' as [_ Hp]. rewrite (Hpq _ _ Hst'), <- E in Hp. congruence. }
    exists s2. cbv zeta. rewrite <- Em. split; [|done]. eapply runs_bind_err; [exact Hr|].
    by replace (Z.of_nat (size m) - Z.of_nat (size m2)) with (0 + Z.of_nat (length rows)) by lia.
Qed.

Lemma cleanup_run bg : exists s', runs (serves D) (cleanup_blue_green store bg) s
    (Ok (Z.of_nat (size m) - Z.of_nat (size (Spec.cleanup_blue_green bg m)))) s'
  /\ represents (contents D s') (Spec.cleanup_blue_green bg m).
Proof.
  assert (Spec.cleanup_blue_green bg m = filter (fun kr => Spec.of_ref bg kr.2 = false) m) as ->.
  { apply map_filter_ext. intros k r Hk. rewrite <- (rep_keyed _ _ Hrep _ _ Hk). unfold Spec.of_ref. cbn. by rewrite String.eqb_neq. }
  by apply (delete_selected s _ _ _ (Spec.of_ref bg) eq_refl (selects_ref bg)).
Qed.

(** The clean-up of expired cases reads the clock first. *)
Definition shows (now : Z) : Prop := exists s, (serves D ANow s).1 = now.
Lemma expired_run : exists now s', shows now /\ let m' := filter (fun kr => First.due now kr.2 = false) m in
  runs (serves D) (cleanup_expired store) s (Ok (Z.of_nat (size m) - Z.of_nat (size m'))) s' /\ represents (contents D s') m'.
Proof.
  destruct (serves D ANow s) as [now s1] eqn:En.
  assert (contents D s1 = contents D s) as Hc.
  { pose proof (others_change_nothing root D ANow s eq_refl) as E. by rewrite En in E. }
  destruct (delete_selected s1 _ _ _ (First.due now) Hc (selects_expired (rfc3339 now))) as (s' & Hr & Hrep').
  { intros key doc Hst. unfold First.due. rewrite (stored_deadline _ _ Hst), (open_pending _ _ Hst). apply andb_comm. }
  exists now, s'. split; [exists s; by rewrite En|]. split; [|done].
  eapply runs_bind; [by apply runs_request|exact Hr].
Qed.

Lemma refs_run : exists s', runs (serves D) (list_blue_green_refs store) s (Ok (Spec.list_blue_green_refs m)) s'
  /\ contents D s' = contents D s.
Proof.
  destruct (query_run d_string REFS_QUERY (JArr []) s
    (fun rows => forall bg, bg ∈ rows <-> bg ∈ d_blue_green_ref <$> documents (contents D s))) as (rows & s' & Hr & Hc & HQ).
  { intros c s1 Hc Ha. rewrite <- Hc. by apply (refs_answered root D), page_fits. }
  exists s'. split; [|done]. replace (Spec.list_blue_green_refs m) with (list_to_set rows : gset string).
  - eapply runs_bind_err; [exact Hr|apply runs_Ret].
  - apply set_eq. intros bg. unfold Spec.list_blue_green_refs. rewrite !elem_of_list_to_set, HQ, (rep_records _ _ Hrep).
    by rewrite <- list_fmap_compose.
Qed.
(** *** All of them *)

Lemma perform_run o : storable o ->
  exists a s' m', runs (serves D) (perform store o) s a s' /\ represents (contents D s') m' /\ First.step shows o m a m'.
Proof.
  assert (forall A (p : prog A) (f : A -> answer) a s', runs (serves D) p s a s' ->
    runs (serves D) (let! a := p in Ret (f a)) s (f a) s') as Hans.
  { intros A p f a s' Hr. eapply runs_bind; [exact Hr|apply runs_Ret]. }
  assert (forall s', contents D s' = contents D s -> represents (contents D s') m) as Hsame by by intros s' ->.
  destruct o; cbn [storable perform First.step First.next Contract.next Contract.allowed]; intros Ho.
  - destruct Ho as (H1' & H2' & H3' & H4'). destruct (register_run r) as (s' & Hr & Hrep'); [done..|].
    eexists _, s', _. split_and!; [by apply Hans| |done..]. unfold Spec.register. by destruct (m !! Spec.key r).
  - destruct (get_doc_run bg id) as (found & s' & Hr & Hc & Hf).
    exists (AnsCase (Ok (doc_to_case <$> found))), s', m. split_and!; [|by apply Hsame|done|].
    + apply Hans. eapply runs_bind_err; [exact Hr|apply runs_Ret].
    + destruct found as [doc|]; [destruct Hf as (_ & _ & ->)|rewrite Hf]; done.
  - destruct (finalize_run (set_doc_outcome (if p then "Passed" else "Failed") (Some p) m0) (Spec.outcome p m0) bg id)
      as (s' & Hr & Hrep'); [|by intros doc; unfold doc_to_case; cbn; destruct p|eexists _, s', _; split_and!; [by apply Hans|done..]].
    intros doc. split; try done. exists (if p then Passed else Failed). by destruct p.
  - destruct (finalize_run (fun doc => set_doc_outcome "TimedOut" None (d_failure_message doc) doc) Spec.expire bg id)
      as (s' & Hr & Hrep'); [|done|eexists _, s', _; split_and!; [by apply Hans|done..]].
    intros doc. split; try done. by exists TimedOut.
  - destruct (decrement_run bg id) as (a & s' & Hr & Hrep' & Ha). eexists (AnsRetries a), s', _. split_and!; [by apply Hans|done..].
  - destruct list_pending_run as (l & s' & Hr & Hc & Hl). exists (AnsList (Ok l)), s', m.
    split_and!; [by apply Hans|by apply Hsame|done|by exists l].
  - destruct refs_run as (s' & Hr & Hc). eexists _, s', m. split_and!; [by apply Hans|by apply Hsame|done..].
  - destruct (counts_run bg None) as (s' & Hr & Hc). eexists _, s', m. split_and!; [by apply Hans|by apply Hsame|done..].
  - destruct (counts_run bg (Some md)) as (s' & Hr & Hc). eexists _, s', m. split_and!; [by apply Hans|by apply Hsame|done..].
  - destruct (failure_run bg) as (o & s' & Hr & Hc & Ho'). exists (AnsMessage (Ok o)), s', m.
    split_and!; [by apply Hans|by apply Hsame|done|by exists o].
  - destruct (cleanup_run bg) as (s' & Hr & Hrep'). eexists _, s', _. split_and!; [by apply Hans|done..].
  - destruct expired_run as (t & s' & Ht & Hr & Hrep'). eexists _, s', _. split_and!; [by apply Hans|done|by exists t].
Qed.
End Operations.

(** Operations one after the other. *)
Fixpoint perform_all (os : list op) : prog (list answer) :=
  match os with
  | [] => Ret []
  | o :: os => let! a := perform store o in let! l := perform_all os in Ret (a :: l)
  end.

Lemma perform_all_runs os : forall s m, represents (contents D s) m -> Forall storable os ->
  (size m + length os <= page D)%nat ->
  exists l s' m', runs (serves D) (perform_all os) s l s' /\ First.runs shows os m l m' /\ represents (contents D s') m'.
Proof.
  induction os as [|o os IH]; intros s m Hrep Hos Hpage; [exists [], s, m; split_and!; [apply runs_Ret|done..]|]. apply Forall_cons in Hos as [Ho Hos].
  cbn [length] in Hpage.
  destruct (perform_run s m Hrep ltac:(lia) o Ho) as (a & s1 & m1 & Hr & Hrep1 & Ha).
  pose proof (First.size_step shows _ _ _ _ Ha).
  destruct (IH s1 m1 Hrep1 Hos ltac:(lia)) as (l & s' & m' & Hr' & Hl & Hrep').
  exists (a :: l), s', m'. split_and!; [|by exists m1|done]. eapply runs_bind; [exact Hr|]. eapply runs_bind; [exact Hr'|apply runs_Ret].
Qed.

End Requests.
End Consistent.

(** ** A container in memory *)

Lemma digit_visible n : (n < 10)%N -> visible_ascii (pretty.pretty_N_char n) = true.
Proof. by apply (checked_below (fun n => visible_ascii (pretty.pretty_N_char n)) 10). Qed.
Lemma pretty_visible (n : N) : header_text (pretty.pretty n).
Proof.
  assert (forall s, header_text s -> header_text (pretty.pretty_N_go n s)) as Hgo.
  { induction (N.lt_wf_0 n) as [n _ IH]. intros s Hs. destruct (decide (n = 0)%N) as [->|Hn]; [by rewrite pretty.pretty_N_go_0|].
    rewrite pretty.pretty_N_go_step by lia. apply IH; [apply N.div_lt; lia|]. unfold header_text, all_bytes in *.
    cbn [list_ascii_of_string forallb]. rewrite digit_visible, Hs by by apply N.mod_lt. done. }
  unfold pretty.pretty, pretty.pretty_N. case_decide; [done|by apply Hgo].
Qed.

Section Memory.
Context `{Rfc3339, Sha256, Codecs, JsonText}.
Context (root : string).

Definition count_row (docs : list CosmosTestCase) : json :=
  let n p := number (Z.of_nat (length (List.filter p docs))) in
  JObj [("passed", n (status_is "Passed")); ("failed", n (status_is "Failed")); ("timed_out", n (status_is "TimedOut"));
        ("pending", n (fun doc => existsb (String.eqb (d_status doc)) ["Triggered"; "Observing"]))].
Definition failure_rows (bg : string) (docs : list CosmosTestCase) : list json :=
  match omap d_failure_message (List.filter (fun doc => String.eqb (d_blue_green_ref doc) bg) docs) with
  | msg :: _ => [JObj [("failure_message", JStr msg)]]
  | [] => []
  end.
Definition query_rows (c : http_call) (docs : list CosmosTestCase) : list json :=
  match call_payload c with
  | JsonPayload (JObj [(_, JArr parameters); (_, JStr text)]) =>
      match parameters with
      | [] =>
          if String.eqb text REFS_QUERY then map (fun doc => JStr (d_blue_green_ref doc)) docs
          else map encode_doc (List.filter (fun doc => existsb (String.eqb (d_status doc)) ["Triggered"; "Observing"]) docs)
      | [JObj [_; (_, JStr bg)]] =>
          if String.eqb text REF_QUERY then map encode_doc (List.filter (fun doc => String.eqb (d_blue_green_ref doc) bg) docs)
          else if String.eqb text FAILURE_QUERY then failure_rows bg docs
          else if String.eqb text EXPIRED_QUERY
          then map encode_doc (List.filter (fun doc => String.ltb (rfc3339 (d_expires_at doc)) bg
                 && existsb (String.eqb (d_status doc)) ["Triggered"; "Observing"])%bool docs)
          else [count_row (List.filter (counted bg None) docs)]
      | [JObj [_; (_, JStr bg)]; JObj [_; (_, JStr value)]] =>
          if String.eqb text CASE_QUERY
          then map encode_doc (List.filter (fun doc => String.eqb (d_blue_green_ref doc) bg && String.eqb (d_test_id doc) value)%bool docs)
          else [count_row (List.filter (counted bg (Some (mode_of_text value))) docs)]
      | _ => []
      end
  | _ => []
  end.
Definition serve_alone (act : action) (m : memory) : reply act * memory :=
  match act as a return reply a * memory with
  | AInceptor (ICall c) =>
      match change_of root (AInceptor (ICall c)) with
      | Some ch => let '(status, m') := change_memory ch m in (Ok (response status JNull), m')
      | None => (Ok (response 200 (JObj [("Documents", JArr (query_rows c (map_values (m_docs m))))])), m)
      end
  | a => ((World.serve a empty_world).1, m)
  end.
Definition memory_database : Database := {| db := memory; serves := serve_alone; contents := m_docs; page := 100 |}.

Lemma changed_alone c ch m status m' :
  change_of root (AInceptor (ICall c)) = Some ch -> change_memory ch m = (status, m') ->
  responds memory_database c m (response status JNull) m'.
Proof. intros Hc Hm. unfold responds. cbn [serves memory_database serve_alone]. by rewrite Hc, Hm. Qed.
Lemma put_stores m key doc : stores memory_database m key doc (put m key doc).
Proof. exists (pretty.pretty (m_next m)). split; [apply pretty_visible|done]. Qed.

Lemma rows_alone {A} (d : decoder A) text parameters c m rows : asks root text parameters c ->
  mapM d (query_rows c (map_values (m_docs m))) = Some rows -> answers_rows memory_database d c m rows.
Proof.
  intros (Hcl & _ & _ & _ & Hk & _) Hm.
  assert (change_of root (AInceptor (ICall c)) = None) as Hc by by unfold change_of; rewrite Hcl, Hk.
  set (j := JObj [("Documents", JArr (query_rows c (map_values (m_docs m))))]). exists (response 200 j), m, j.
  split_and!; [|reflexivity..|exact Hm]. unfold responds. cbn [serves memory_database serve_alone]. by rewrite Hc.
Qed.
Lemma query_rows_asked text parameters c docs : asks root text parameters c ->
  query_rows c docs = query_rows (cosmos_call "" "" [] (JsonPayload (query_body text parameters))) docs.
Proof. intros (_ & _ & _ & Hp & _). unfold query_rows. by rewrite Hp. Qed.

Lemma decode_encoded_docs docs : Forall fits_document docs -> mapM decode_doc (map encode_doc docs) = Some docs.
Proof.
  intros Hf. apply mapM_Some_2. change (map encode_doc docs) with (encode_doc <$> docs).
  apply Forall2_fmap_l, Forall_Forall2_diag. eapply Forall_impl; [exact Hf|]. intros doc. apply decode_encode_doc.
Qed.
Lemma count_row_read docs : (length docs <= 100)%nat -> exists row, decode_counts (count_row docs) = Some row /\ sums docs row.
Proof.
  intros Hl.
  assert (forall p, d_option as_i64 (number (Z.of_nat (length (List.filter p docs))))
    = Some (Some (Z.of_nat (length (List.filter p docs))))) as Hn.
  { intros p. set (z := Z.of_nat _). change (Some <$> as_i64 (number z) = Some (Some z)). rewrite as_i64_in_range; [done|].
    subst z. rewrite in_signed_64. pose proof (List.filter_length_le p docs). lia. }
  eexists (Some _, Some _, Some _, Some _). split.
  - unfold decode_counts, count_row, opt_member. cbn -[number d_option]. by do 4 (rewrite Hn; cbn -[number d_option]).
  - by split_and!; left.
Qed.

Lemma selection_fits (p : CosmosTestCase -> bool) docs :
  map_Forall (fun _ => fits_document) docs -> Forall fits_document (List.filter p (documents docs)).
Proof.
  intros Hf. apply Forall_forall. intros doc [(key & Hd)%list_elem_of_In%elem_of_map_values _]%list_elem_of_In%filter_In.
  exact (Hf _ _ Hd).
Qed.
Lemma failure_rows_read bg docs : exists rows, mapM decode_failure (failure_rows bg docs) = Some rows /\ failure_row bg docs rows.
Proof.
  unfold failure_rows. destruct (omap d_failure_message _) as [|msg msgs] eqn:E.
  - exists []. split; [done|]. intros doc Hd Hb. destruct (d_failure_message doc) as [msg|] eqn:Em; [exfalso|done].
    apply (not_elem_of_nil msg). rewrite <- E. apply list_elem_of_omap. exists doc. split; [|done].
    apply list_elem_of_In, filter_In. split; [by apply list_elem_of_In|by apply String.eqb_eq].
  - exists [Some msg]. split; [done|]. split; [done|]. split; [by eexists|].
    assert (msg ∈ msg :: msgs) as Hin by left. rewrite <- E in Hin.
    apply list_elem_of_omap in Hin as (doc & [Hd Hb%String.eqb_eq]%list_elem_of_In%filter_In & Hm). apply list_elem_of_In in Hd.
    by exists doc.
Qed.

#[export] Instance memory_database_laws : DatabaseLaws root memory_database.
Proof.
  split; cbn [db contents page memory_database].
  - intros act m Hn. destruct act; try done. destruct op; try done. cbn [serves memory_database serve_alone]. by rewrite Hn.
  - intros c m key doc Hch Hn. exists (response 201 JNull), (put m key doc). split_and!; [|done|apply put_stores].
    eapply changed_alone; [done|]. cbn. by rewrite Hn.
  - intros c m key doc old Hch Ho. exists (response 409 JNull), m. split_and!; [|done..].
    eapply changed_alone; [done|]. cbn. by rewrite Ho.
  - intros c m key condition doc old Hch Ho Hc. exists (response 200 JNull), (put m key doc). split_and!; [|done|apply put_stores].
    eapply changed_alone; [done|]. cbn. rewrite Ho. destruct condition as [v|]; [|done].
    by rewrite bool_decide_eq_true_2 by by apply Hc.
  - intros c m key old Hch Ho. eexists (response 204 JNull), _. split_and!; [by eapply changed_alone|done..].
  - intros text parameters p c m Hsel Ha _ Hf. exists (List.filter p (documents (m_docs m))). split; [|done].
    apply (rows_alone _ _ _ _ _ _ Ha). rewrite (query_rows_asked _ _ _ _ Ha).
    destruct Hsel; by apply decode_encoded_docs, selection_fits.
  - intros bg mode c m Ha Hs. destruct (count_row_read (List.filter (counted bg mode) (documents (m_docs m)))) as (row & Hr & Hrow).
    { etrans; [apply List.filter_length_le|]. unfold documents. by rewrite length_map_values. }
    exists row. split; [|done]. apply (rows_alone _ _ _ _ _ _ Ha). rewrite (query_rows_asked _ _ _ _ Ha).
    transitivity (mapM decode_counts [count_row (List.filter (counted bg mode) (documents (m_docs m)))]);
      [|by apply mapM_Some_2, Forall2_cons; split].
    destruct mode as [md|]; [|done]. f_equal. by destruct md.
  - intros c m Ha _. exists (d_blue_green_ref <$> documents (m_docs m)). split; [|done].
    apply (rows_alone _ _ _ _ _ _ Ha). rewrite (query_rows_asked _ _ _ _ Ha).
    apply mapM_Some_2. change (query_rows _ _) with ((fun doc => JStr (d_blue_green_ref doc)) <$> documents (m_docs m)).
    apply Forall2_fmap_2, Forall_Forall2_diag, Forall_forall. done.
  - intros bg c m Ha. destruct (failure_rows_read bg (documents (m_docs m))) as (rows & Hr & Hrow). exists rows. split; [|done].
    apply (rows_alone _ _ _ _ _ _ Ha). by rewrite (query_rows_asked _ _ _ _ Ha).
Qed.
End Memory.

(** ** A concrete run *)

#[local] Existing Instance sample_cosmos.
#[local] Existing Instance sample_sha256.
#[local] Existing Instance sample_codecs.
#[local] Existing Instance no_json_text.
#[local] Existing Instance sample_times.

Definition second_case : TestCaseRecord :=
  {| test_id := "t-2"; blue_green_ref := "shop/orders"; triggered_at := 2000; source_inception_point := "in"; timeout := 60000;
     status := Triggered; verdict := None; verification_mode := Custom; verify_url := "https://verify"; verifier_auth_token := "secret";
     retries_remaining := 1; failure_message := None |}.
(** A case whose deadline is over when it is registered. *)
Definition stale_case : TestCaseRecord :=
  set_registration (-100000) "in" 60000 "https://verify" "secret" second_case.
Definition sample_operations : list op :=
  [OpRegister late_case; OpRegister second_case; OpRegister (set_retries 5 second_case); OpDecrement "shop/orders" "t-2";
   OpDecrement "shop/orders" "t-2"; OpSetVerdict "shop/orders" "t-1" false (Some "timeout of the queue");
   OpMarkTimedOut "shop/orders" "t-1"; OpListPending; OpCounts "shop/orders"; OpCountsForMode "shop/orders" Custom;
   OpLatestFailure "shop/orders"; OpCleanup "shop/orders"; OpGet "shop/orders" "t-2";
   OpRegister late_case; OpRegister stale_case; OpListRefs; OpCleanupExpired 0; OpListPending].
Definition sample_used (k : string * string) : Prop := k = ("shop/orders", "t-1") \/ k = ("shop/orders", "t-2").

Lemma sample_dates t : header_text (http_date t).
Proof.
  change (http_date t) with (show_Z t). unfold show_Z, pretty.pretty, pretty.pretty_Z. destruct t as [|p|p]; [done| |].
  - exact (pretty_visible (N.pos p)).
  - exact (pretty_visible (N.pos p)).
Qed.
Lemma sample_signs : signs (memory_database sample_root) sample_store.
Proof. by apply (master_key_signs _ _ "key" []). Qed.
Lemma sample_usable : Usable sample_used.
Proof.
  split; [by intros k _|]. intros k k' [-> | ->] [-> | ->]; try done; intros E; exfalso; revert E; vm_compute; discriminate.
Qed.
#[local] Existing Instance sample_usable.
Lemma sample_operations_storable : Forall (storable sample_used) sample_operations.
Proof.
  assert (forall z, -1000 <= z <= 1000 -> in_signed 64 z /\ in_signed 32 z) as Hz by (intros z Hz; rewrite in_signed_64, in_signed_32; lia).
  unfold sample_operations. repeat first [apply Forall_nil_2 | apply Forall_cons_2]; try exact I;
    (split_and!; [reflexivity|apply Hz; by vm_compute|apply Hz; by vm_compute|by (left + right)]).
Qed.

