(* ===== verification/Startup.v ===== *)
(** * How the processes start

    The entry points: [operator/src/main.rs] with the hook for the built-in plugins
    ([operator/src/builtin_plugins.rs]), and the [main.rs] of the plugins with [sdk/rust/src/server.rs].
    A process that starts is what it goes on to serve: its listeners with their routes, its
    state, its tasks.  Ports are taken to be free.  The theorems say which listeners have the
    control plane, and what the hook changes. *)

From S2P Require Import Prelude RustString Float64 Kube Crd InceptorEffects Effects StateStore.
From S2P Require Import External Strategy Promotion Status Names Lease Deployments Auth Plugins Resources Sdk.
From S2P Require Import JsonDecode HttpPlugin QueuePlugins RabbitMq RabbitManager Nats NatsManager.
From S2P Require Import ServiceBus ServiceBusClient ServiceBusWorkers ServiceBusManager CosmosStore PostgresSchema World Footprint PluginsTheorems QueueTheorems.

(** ** Configuration files and listeners *)

(** [serde_yaml]: the document of a text. *)
Class YamlText := { yaml_value : string -> result string json }.

Definition load_yaml_config {T} `{YamlText} (decode : decoder T) : prog (result string T) :=
  let! path := env "FLUIDBG_CONFIG_PATH" in
  let* data := request (AReadFile (unwrap_or "/etc/fluidbg/config.yaml" path)) in
  Ret (j ← yaml_value data; ok_or "invalid configuration" (decode j)).

(** [RustlsConfig::from_pem_file]. *)
Definition from_pem_file (cert key : string) : prog (result string unit) :=
  let* c := request (AReadFile cert) in
  let* k := request (AReadFile key) in
  request (AParseCert (c +:+ k)).

Record route (E : Type) := { ro_method : string; ro_path : string; ro_endpoint : E }.
Record Router (E : Type) := { ru_routes : list (route E); ru_fallback : option E }.
Arguments ro_method {E}. Arguments ro_path {E}. Arguments ro_endpoint {E}.
Arguments ru_routes {E}. Arguments ru_fallback {E}.
Record Listener (E : Type) := { li_port : Z; li_tls : option (string * string); li_router : Router E }.
Arguments li_port {E}. Arguments li_tls {E}. Arguments li_router {E}.

Definition on_get {E} (path : string) (e : E) : route E := {| ro_method := "GET"; ro_path := path; ro_endpoint := e |}.
Definition on_post {E} (path : string) (e : E) : route E := {| ro_method := "POST"; ro_path := path; ro_endpoint := e |}.

Definition serve_control_plane {E} (app : Router E) (port : Z) (tls : ControlPlaneServerTls)
    : prog (result string (Listener E)) :=
  if cps_enabled tls then
    match cps_cert_path tls, cps_key_path tls with
    | Some cert, Some key =>
        do* with_error ("failed to load control-plane TLS certificate " +:+ cert +:+ " and key " +:+ key)
              (from_pem_file cert key) ;;
        Ret (Ok {| li_port := port; li_tls := Some (cert, key); li_router := app |})
    | None, _ => Ret (Err "FLUIDBG_CONTROL_PLANE_TLS_CERT_PATH is required when control-plane TLS is enabled")
    | _, None => Ret (Err "FLUIDBG_CONTROL_PLANE_TLS_KEY_PATH is required when control-plane TLS is enabled")
    end
  else Ret (Ok {| li_port := port; li_tls := None; li_router := app |}).
(** A listener of a task: an error is logged. *)
Definition spawned {E} (p : prog (result string (Listener E))) : prog (list (Listener E)) :=
  let! r := p in Ret match r with Ok l => [l] | Err _ => [] end.

(** ** The HTTP plugin *)

Definition decode_payload_selection : decoder PayloadSelection := fun j =>
  s ← d_string j;
  if String.eqb s "request" then Some PayloadRequest
  else if String.eqb s "response" then Some PayloadResponse
  else if String.eqb s "both" then Some PayloadBoth else None.
Definition decode_filter : decoder NotificationFilter := fun j =>
  fields ← d_fields j;
  conditions ← default_member [] (d_list decode_condition) "match" fields;
  notify_path ← opt_member d_string "notifyPath" fields;
  mock_path ← opt_member d_string "mockPath" fields;
  payload ← opt_member decode_payload_selection "payload" fields;
  Some {| nf_match := conditions; nf_notify_path := notify_path; nf_mock_path := mock_path; nf_payload := payload |}.
Definition decode_protocol : decoder ProxyProtocol := fun j =>
  s ← d_string j;
  if String.eqb s "http" then Some Http else if String.eqb s "https" then Some Https else None.
Definition d_u16 : decoder Z := fun j => z ← as_i64 j; if (Z.leb 0 z && Z.ltb z (2 ^ 16))%bool then Some z else None.
Definition decode_inbound : decoder InboundTlsConfig := fun j =>
  fields ← d_fields j;
  enabled ← default_member false d_bool "enabled" fields;
  port ← opt_member d_u16 "port" fields;
  cert ← opt_member d_string "certPath" fields;
  key ← opt_member d_string "keyPath" fields;
  Some {| itc_enabled := enabled; itc_port := port; itc_cert_path := cert; itc_key_path := key |}.
Definition no_inbound_tls : InboundTlsConfig :=
  {| itc_enabled := false; itc_port := None; itc_cert_path := None; itc_key_path := None |}.
Definition decode_tls : decoder TlsConfig := fun j =>
  fields ← d_fields j;
  inbound ← default_member no_inbound_tls decode_inbound "inbound" fields;
  Some {| tls_inbound := inbound |}.
Definition decode_client_tls : decoder ClientTlsConfig := fun j =>
  fields ← d_fields j;
  ca ← opt_member d_string "caCertPath" fields;
  skip ← default_member false d_bool "insecureSkipVerify" fields;
  Some {| ctc_ca_cert_path := ca; ctc_insecure_skip_verify := skip |}.
Definition decode_direction : decoder DirectionConfig := fun j =>
  fields ← d_fields j;
  filters ← default_member [] (d_list decode_filter) "filters" fields;
  Some {| dir_filters := filters |}.
Definition decode_http_config : decoder HttpPlugin.Config := fun j =>
  fields ← d_fields j;
  port ← opt_member d_u16 "port" fields;
  proxy_protocol ← opt_member decode_protocol "proxyProtocol" fields;
  write_protocol ← opt_member decode_protocol "writeProtocol" fields;
  real ← opt_member d_string "realEndpoint" fields;
  target ← opt_member d_string "targetUrl" fields;
  green ← opt_member d_string "greenEndpoint" fields;
  blue ← opt_member d_string "blueEndpoint" fields;
  env_var ← opt_member d_string "envVarName" fields;
  write_env_var ← opt_member d_string "writeEnvVar" fields;
  verifier ← opt_member d_string "verifierEndpoint" fields;
  mock_path ← opt_member d_string "mockPath" fields;
  test_id ← opt_member decode_selector "testId" fields;
  conditions ← default_member [] (d_list decode_condition) "match" fields;
  filters ← default_member [] (d_list decode_filter) "filters" fields;
  ingress ← opt_member decode_direction "ingress" fields;
  egress ← opt_member decode_direction "egress" fields;
  tls ← default_member {| tls_inbound := no_inbound_tls |} decode_tls "tls" fields;
  client_tls ← default_member {| ctc_ca_cert_path := None; ctc_insecure_skip_verify := false |}
                 decode_client_tls "clientTls" fields;
  Some {| cfg_port := port; cfg_proxy_protocol := proxy_protocol; cfg_write_protocol := write_protocol;
          cfg_real_endpoint := real; cfg_target_url := target; cfg_green_endpoint := green;
          cfg_blue_endpoint := blue; cfg_env_var_name := env_var; cfg_write_env_var := write_env_var;
          cfg_verifier_endpoint := verifier; cfg_mock_path := mock_path; cfg_test_id := test_id;
          cfg_match := conditions; cfg_filters := filters; cfg_ingress := ingress; cfg_egress := egress;
          cfg_tls := tls; cfg_client_tls := client_tls |}.

(** The handlers of [HttpPlugin], by the name of their function. *)
Inductive http_endpoint :=
| EHealth | EPrepare | EActivate | EDrain | ECleanup | EDrainStatus | ETraffic | EWrite | EProxy.
#[export] Instance http_endpoint_eq_dec : EqDecision http_endpoint.
Proof. solve_decision. Defined.

Definition health_route : route http_endpoint := on_get "/health" EHealth.
Definition control_routes : list (route http_endpoint) :=
  [health_route; on_post "/prepare" EPrepare; on_post "/activate" EActivate; on_post "/drain" EDrain;
   on_post "/cleanup" ECleanup; on_get "/drain-status" EDrainStatus; on_post "/traffic" ETraffic;
   on_post "/write" EWrite].
Definition control_router : Router http_endpoint := {| ru_routes := control_routes; ru_fallback := None |}.
Definition traffic_router (include_control_plane_routes : bool) : Router http_endpoint :=
  {| ru_routes := if include_control_plane_routes then control_routes else [health_route];
     ru_fallback := Some EProxy |}.

(** The listener for the application over TLS; without it when it would share the port of the
    control plane, whose listener then has both. *)
Definition https_listener (config : HttpPlugin.Config) (control : ControlPlaneServerTls) (control_port : Z)
    : prog (result string (list (Listener http_endpoint))) :=
  let inbound := tls_inbound (cfg_tls config) in
  if negb (itc_enabled inbound) then Ret (Ok [])
  else if (cps_enabled control && Z.eqb (inbound_https_port config) control_port)%bool then Ret (Ok [])
  else
    match itc_cert_path inbound, itc_key_path inbound with
    | Some cert, Some key =>
        do* with_error ("failed to load inbound TLS certificate " +:+ cert +:+ " and key " +:+ key)
              (from_pem_file cert key) ;;
        Ret (Ok [{| li_port := inbound_https_port config; li_tls := Some (cert, key);
                    li_router := traffic_router (negb (cps_enabled control)) |}])
    | None, _ => Ret (Err "tls.inbound.certPath missing")
    | _, None => Ret (Err "tls.inbound.keyPath missing")
    end.
Definition control_listener (config : HttpPlugin.Config) (control : ControlPlaneServerTls) (control_port : Z)
    : prog (list (Listener http_endpoint)) :=
  if cps_enabled control then
    spawned (serve_control_plane
      (if (itc_enabled (tls_inbound (cfg_tls config)) && Z.eqb (inbound_https_port config) control_port)%bool
       then traffic_router true else control_router) control_port control)
  else Ret [].
Definition plain_listener (config : HttpPlugin.Config) (control : ControlPlaneServerTls)
    : prog (result string (Listener http_endpoint)) :=
  serve_control_plane (traffic_router (negb (cps_enabled control))) (listen_port config)
    {| cps_enabled := false; cps_cert_path := None; cps_key_path := None |}.

(** The count of requests in work starts at zero. *)
Definition http_main `{YamlText} : prog (result string (HttpPlugin.AppState * list (Listener http_endpoint))) :=
  let* config := load_yaml_config decode_http_config in
  match HttpPlugin.validate config with
  | Err e => Ret (Err e)
  | Ok _ =>
      let* client := http_client config in
      let! runtime := runtime_from_env in
      do! HttpPlugin.set_runtime_mode Idle ;;
      let! percent := traffic_percent_from_env in
      do! cell (StorePercent percent) ;;
      let! control := server_tls_from_env in
      let! control_port := env_port "FLUIDBG_CONTROL_PLANE_TLS_PORT" 9443 in
      let* https := https_listener config control control_port in
      let! controls := control_listener config control control_port in
      let* plain := plain_listener config control in
      Ret (Ok ({| st_config := config; st_runtime := runtime; st_client := client |}, https ++ controls ++ [plain]))
  end.

(** ** The queue plugins: the three entry points have one text *)

Inductive queue_endpoint :=
| QHealth | QPrepare | QActivate | QDrain | QDrainStatus | QTraffic | QCleanup | QWrite.
Inductive manager_endpoint := MHealth | MPrepare | MCleanup | MSync.
Definition inceptor_router : Router queue_endpoint :=
  {| ru_routes := [on_get "/health" QHealth; on_post "/prepare" QPrepare; on_post "/activate" QActivate;
       on_post "/drain" QDrain; on_get "/drain-status" QDrainStatus; on_post "/traffic" QTraffic;
       on_post "/cleanup" QCleanup; on_post "/write" QWrite];
     ru_fallback := None |}.
Definition manager_router : Router manager_endpoint :=
  {| ru_routes := [on_get "/health" MHealth; on_post "/manager/prepare" MPrepare;
       on_post "/manager/cleanup" MCleanup; on_post "/manager/sync" MSync];
     ru_fallback := None |}.

Section QueuePlugin.
Context {Config State Manager : Type}.
(** What the plugins differ in: the configuration, the broker of an inceptor, the state of the manager. *)
Context (load_config : prog (result string Config)).
Context (build : Config -> list PluginRole -> PluginInceptorRuntime -> prog (result string State)).
Context (manager_state_from_env : prog (result string Manager)).

(** A manager with its listener, or an inceptor with the listener of its server, whose errors are
    logged, and the task of its worker. *)
Inductive launched :=
| RunsManager (state : Manager) (listener : Listener manager_endpoint)
| RunsInceptor (state : State) (server : list (Listener queue_endpoint)) (worker : option QueueWorkerRole).

Definition run_manager : prog (result string launched) :=
  let* state := manager_state_from_env in
  let! tls := server_tls_from_env in
  let* listener := serve_control_plane manager_router 9090 tls in
  Ret (Ok (RunsManager state listener)).
Definition queue_main : prog (result string launched) :=
  let! manager := env "FLUIDBG_PLUGIN_MANAGER" in
  if bool_decide (manager = Some "true") then run_manager
  else
    let* config := load_config in
    let! runtime := runtime_from_env in
    let roles := rt_roles runtime in
    if match roles with [] => true | _ => false end
    then Ret (Err "no active roles configured via FLUIDBG_ACTIVE_ROLES")
    else
      let* state := build config roles runtime in
      let! tls := server_tls_from_env in
      let! server := spawned (serve_control_plane inceptor_router 9090 tls) in
      match queue_worker_role roles with
      | Err e => Ret (Err e)
      | Ok worker => Ret (Ok (RunsInceptor state server worker))
      end.
End QueuePlugin.
Arguments launched : clear implicits.

Definition rabbit_state (config : RabbitConfig) (roles : list PluginRole) (runtime : PluginInceptorRuntime)
    : prog (result string RabbitState) :=
  let* url := rabbitmq_amqp_url_from_env in
  do! HttpPlugin.set_runtime_mode Idle ;;
  let! percent := traffic_percent_from_env in
  do! cell (StorePercent percent) ;;
  Ret (Ok {| rs_config := config; rs_roles := roles; rs_amqp_url := url; rs_runtime := runtime |}).
Definition nats_state (config : NatsConfig) (roles : list PluginRole) (runtime : PluginInceptorRuntime)
    : prog (result string NatsState) :=
  let* url := nats_url_from_env in
  let! state := Nats.new_state config roles runtime url in
  Ret (Ok state).
Definition bus_state `{JsonText, Urls} (config : BusConfig) (roles : list PluginRole) (runtime : PluginInceptorRuntime)
    : prog (result string BusState) :=
  let! runtime_config := runtime_config_from_env in
  let* client := from_runtime_config runtime_config in
  let! state := ServiceBusWorkers.new_state config roles runtime client in
  Ret (Ok state).

Definition rabbit_main `{YamlText} : prog (result string (launched RabbitState RabbitManager.ManagerState)) :=
  queue_main (load_yaml_config RabbitMq.decode_config) rabbit_state RabbitManager.manager_state_from_env.
Definition nats_main `{YamlText} : prog (result string (launched NatsState NatsManagerState)) :=
  queue_main (load_yaml_config Nats.decode_nats_config) nats_state NatsManager.manager_state_from_env.
Definition bus_main `{YamlText, JsonText, Urls} : prog (result string (launched BusState BusManagerState)) :=
  queue_main (load_yaml_config ServiceBus.decode_config) bus_state ServiceBusManager.manager_state_from_env.

(** ** The operator *)

(** A panic is [None]. *)
Definition expect {E A} (p : prog (result E A)) : prog (option A) :=
  let! r := p in Ret match r with Ok a => Some a | Err _ => None end.
Definition or_default (name value : string) : prog string := let! v := env name in Ret (unwrap_or value v).

Inductive store_choice :=
| UsesMemory
| UsesPostgres (store : Schema.PostgresHandle)
| UsesCosmos (store : Cosmos.CosmosStore).

Section Operator.
Context `{CosmosCodecs, Sha256, Codecs, JsonText, Urls}.
Context (connect : Schema.connect_options -> prog (result string Z)).
Context (execute : Z -> Schema.ddl -> prog (result string unit)).

Definition open_postgres : prog (option Schema.PostgresHandle) :=
  let! table := or_default "FLUIDBG_POSTGRES_TABLE" "fluidbg_cases" in
  let! auth_mode := or_default "FLUIDBG_POSTGRES_AUTH_MODE" "password" in
  if String.eqb auth_mode "workloadIdentity" then
    let% host := env "FLUIDBG_POSTGRES_HOST" in
    let% database := env "FLUIDBG_POSTGRES_DATABASE" in
    let% user := env "FLUIDBG_POSTGRES_USER" in
    let% identity := workload_identity_from_env "FLUIDBG_POSTGRES" in
    expect (Schema.new_workload_identity connect host database user table identity)
  else
    let% url := env "FLUIDBG_POSTGRES_URL" in
    expect (Schema.new connect url table).
Definition open_cosmos : prog (option Cosmos.CosmosStore) :=
  let% database := env "FLUIDBG_COSMOS_DATABASE" in
  let% container := env "FLUIDBG_COSMOS_CONTAINER" in
  let! auth_mode := or_default "FLUIDBG_COSMOS_AUTH_MODE" "connectionString" in
  if String.eqb auth_mode "workloadIdentity" then
    let% endpoint := env "FLUIDBG_COSMOS_ENDPOINT" in
    let% identity := workload_identity_from_env "FLUIDBG_COSMOS" in
    expect (Cosmos.new_workload_identity endpoint database container identity)
  else
    let! connection_string := env "FLUIDBG_COSMOS_CONNECTION_STRING" in
    match connection_string with
    | Some value => expect (Ret (Cosmos.from_connection_string value database container))
    | None =>
        let% endpoint := env "FLUIDBG_COSMOS_ENDPOINT" in
        let% key := env "FLUIDBG_COSMOS_ACCOUNT_KEY" in
        expect (Ret (Cosmos.new_master_key endpoint database container key))
    end.
Definition build_state_store : prog (option store_choice) :=
  let! type := or_default "FLUIDBG_STATE_STORE_TYPE" "memory" in
  if String.eqb type "memory" then ended UsesMemory
  else if String.eqb type "postgres" then
    let% store := open_postgres in
    let% _ := expect (Schema.migrate execute store) in
    ended (UsesPostgres store)
  else if String.eqb type "cosmosdb" then
    let% store := open_cosmos in
    let% _ := expect (Cosmos.validate_container store) in
    ended (UsesCosmos store)
  else Ret None.

(** The interval of the orphan cleanup, in seconds. *)
Definition orphan_interval (value : option string) : Z :=
  unwrap_or 60 (n ← value ≫= parse_unsigned 64; if Z.ltb 0 n then Some n else None).
(** The certificate and the key of the API, when it has them; the file is read when it serves. *)
Definition api_tls : prog (option (option (string * string))) :=
  let! enabled := env_flag "FLUIDBG_OPERATOR_API_TLS_ENABLED" in
  if enabled then
    let% cert := env "FLUIDBG_OPERATOR_API_TLS_CERT_PATH" in
    let% key := env "FLUIDBG_OPERATOR_API_TLS_KEY_PATH" in
    let% _ := expect (from_pem_file cert key) in
    ended (Some (cert, key))
  else ended None.

Record operator := {
  op_store : store_choice; op_auth : Resources.AuthConfig; op_orphan_interval : Z;
  op_api_tls : option (string * string) }.
(** The tasks of the controller, the orphan cleanup, the tracker and the API share the store. *)
Definition operator_main : prog (option operator) :=
  let% store := build_state_store in
  let! namespace := or_default "FLUIDBG_AUTH_SIGNING_SECRET_NAMESPACE" "fluidbg-system" in
  let! name := or_default "FLUIDBG_AUTH_SIGNING_SECRET_NAME" "fluidbg-operator-auth" in
  let! key := or_default "FLUIDBG_AUTH_SIGNING_SECRET_KEY" "signing-key" in
  let% _ := expect (request ABuildClient) in
  let! interval := env "FLUIDBG_ORPHAN_CLEANUP_INTERVAL_SECONDS" in
  let% tls := api_tls in
  ended {| op_store := store;
           op_auth := {| signing_secret_namespace := namespace; signing_secret_name := name; signing_secret_key := key |};
           op_orphan_interval := orphan_interval interval; op_api_tls := tls |}.
End Operator.

(** ** The hook for the built-in plugins *)

Definition INCEPTION_PLUGIN_CRD : string := "inceptionplugins.fluidbg.io".

(** [serde_yaml]: the documents of a text and the plugin a document describes; [generateName]
    of an object. *)
Class PluginManifests := {
  yaml_documents : string -> list (result string json);
  plugin_of_yaml : json -> result string InceptionPlugin;
  generate_name : ObjectMeta -> option string }.

Definition crd_is_established (crd : CustomResourceDefinition) : bool :=
  match crd_status crd ≫= crs_conditions with
  | Some conditions =>
      existsb (fun c => String.eqb (crc_type c) "Established" && String.eqb (crc_status c) "True")%bool conditions
  | None => false
  end.

Section Hook.
Context `{PluginManifests}.

Definition name_any (m : ObjectMeta) : string := unwrap_or "" (or_else (meta_name m) (generate_name m)).

Fixpoint plugins_of (documents : list (result string json)) : result string (list InceptionPlugin) :=
  match documents with
  | [] => Ok []
  | document :: rest =>
      value ← map_err (fun _ => "failed to deserialize builtin plugin manifest document") document;
      match value with
      | JNull => plugins_of rest
      | _ =>
          plugin ← map_err (fun _ => "failed to parse InceptionPlugin manifest") (plugin_of_yaml value);
          plugins ← plugins_of rest;
          Ok (plugin :: plugins)
      end
  end.
Definition read_plugins (path : string) : prog (result string (list InceptionPlugin)) :=
  let* contents := with_error ("failed to read builtin plugin manifests from " +:+ path) (request (AReadFile path)) in
  Ret (plugins_of (yaml_documents contents)).

Definition plugin_name (p : InceptionPlugin) : string := name_any (plug_metadata p).
Definition apply_plugins (plugins : list InceptionPlugin) : prog (result string unit) :=
  each plugins (fun plugin =>
    let name := plugin_name plugin in
    do* with_error ("failed to apply builtin InceptionPlugin " +:+ name) (request (AApply KPlugin None name plugin)) ;;
    Ret (Ok tt)).
Definition delete_plugins (plugins : list InceptionPlugin) : prog (result string unit) :=
  each plugins (fun plugin =>
    let name := plugin_name plugin in
    let! r := request (ADelete KPlugin None name) in
    Ret match r with
        | Ok _ => Ok tt
        | Err e => if is_not_found e then Ok tt else Err ("failed to delete builtin InceptionPlugin " +:+ name)
        end).

(** [n] attempts are left. *)
Fixpoint wait_for_inception_plugin_crd (n : nat) : prog (result string unit) :=
  match n with
  | O => Ret (Err ("timed out waiting for " +:+ INCEPTION_PLUGIN_CRD +:+ " to become established"))
  | S n =>
      let! r := request (AGet KCrd None INCEPTION_PLUGIN_CRD) in
      match r with
      | Err (KubeOther _) => Ret (Err "failed to read InceptionPlugin CRD")
      | Ok crd =>
          if crd_is_established crd then Ret (Ok tt)
          else do! request (ASleep 1000) ;; wait_for_inception_plugin_crd n
      | Err (KubeApi _ _) => do! request (ASleep 1000) ;; wait_for_inception_plugin_crd n
      end
  end.

Definition run_hook (mode manifest_path : string) : prog (result string unit) :=
  do* with_error "failed to create kubernetes client" (request ABuildClient) ;;
  do* wait_for_inception_plugin_crd 120 ;;
  let* plugins := read_plugins manifest_path in
  if String.eqb mode "apply" then apply_plugins plugins
  else if String.eqb mode "delete" then delete_plugins plugins
  else Ret (Err ("unsupported builtin plugin hook mode: " +:+ mode)).
(** [None] is a panic. *)
Definition run_builtin_plugins_hook (args : list string) : prog (option unit) :=
  match args !! 1%nat, args !! 2%nat with
  | Some mode, Some path => expect (run_hook mode path)
  | _, _ => Ret None
  end.
End Hook.

(** ** The operator's process *)

Definition operator_process `{PluginManifests, CosmosCodecs, Sha256, Codecs, JsonText, Urls}
    (connect : Schema.connect_options -> prog (result string Z))
    (execute : Z -> Schema.ddl -> prog (result string unit)) (args : list string)
    : prog (option (option operator)) :=
  if bool_decide (head args = Some "builtin-plugins")
  then let% _ := run_builtin_plugins_hook args in ended None
  else let% started := operator_main connect execute in ended (Some started).

(** ** Requests dispatched to routes *)

(** [axum::Router]: a path of the table has one handler, for its method; any other path goes to the
    fallback, or is refused ([None]). *)
Class Axum := { dispatch : forall E, Router E -> string -> string -> option E }.
Arguments dispatch {_ E}.
Class AxumLaws `{Axum} : Prop := {
  dispatch_fallback : forall E (R : Router E) m p,
    (forall r, r ∈ ru_routes R -> ro_path r <> p) -> dispatch R m p = ru_fallback R;
  dispatch_route : forall E (R : Router E) r,
    NoDup (map ro_path (ru_routes R)) -> r ∈ ru_routes R -> dispatch R (ro_method r) (ro_path r) = Some (ro_endpoint r);
  dispatch_only : forall E (R : Router E) r m e,
    NoDup (map ro_path (ru_routes R)) -> r ∈ ru_routes R -> dispatch R m (ro_path r) = Some e -> e = ro_endpoint r }.

(** A table that is searched; a [GET] route also answers [HEAD]. *)
Definition table_dispatch {E} (R : Router E) (method path : string) : option E :=
  match List.find (fun r => String.eqb (ro_path r) path) (ru_routes R) with
  | Some r =>
      if (String.eqb (ro_method r) method || String.eqb (ro_method r) "GET" && String.eqb method "HEAD")%bool
      then Some (ro_endpoint r) else None
  | None => ru_fallback R
  end.
Definition table_axum : Axum := {| dispatch := @table_dispatch |}.
Lemma find_route {E} (l : list (route E)) r : NoDup (map ro_path l) -> r ∈ l ->
  List.find (fun r' => String.eqb (ro_path r') (ro_path r)) l = Some r.
Proof.
  induction l as [|x l IH]; [by intros _ ?%not_elem_of_nil|]. cbn. rewrite NoDup_cons. intros [Hx Hl] [->|Hr]%elem_of_cons.
  - by rewrite String.eqb_refl.
  - destruct (String.eqb_spec (ro_path x) (ro_path r)) as [E0|]; [|by apply IH].
    destruct Hx. rewrite E0. by apply list_elem_of_fmap_2.
Qed.
Lemma table_axum_laws : @AxumLaws table_axum.
Proof.
  split; cbn; unfold table_dispatch; intros E R.
  - intros m p Hn. destruct (List.find _ _) as [r|] eqn:Ef; [|done].
    apply find_some in Ef as [Hin%list_elem_of_In Hp%String.eqb_eq]. by destruct (Hn r Hin).
  - intros r Hn Hr. by rewrite find_route, String.eqb_refl.
  - intros r m e Hn Hr. rewrite find_route by done. case_match; congruence.
Qed.

Section Dispatch.
Context `{AxumLaws}.

Definition control_paths : list string := map ro_path control_routes.
(** The handlers of the control plane. *)
Definition controls (e : http_endpoint) : Prop := e <> EHealth /\ e <> EProxy.

Lemma control_paths_distinct : NoDup control_paths.
Proof. apply (bool_decide_unpack _). vm_compute. exact I. Qed.
Lemma traffic_serves_control r : r ∈ control_routes ->
  dispatch (traffic_router true) (ro_method r) (ro_path r) = Some (ro_endpoint r).
Proof. apply (dispatch_route _ (traffic_router true)), control_paths_distinct. Qed.
Lemma control_serves_control r : r ∈ control_routes -> dispatch control_router (ro_method r) (ro_path r) = Some (ro_endpoint r).
Proof. apply (dispatch_route _ control_router), control_paths_distinct. Qed.
Lemma traffic_proxies b m p : p ∉ control_paths -> dispatch (traffic_router b) m p = Some EProxy.
Proof.
  intros Hp. apply dispatch_fallback. intros r Hr E. apply Hp. rewrite <- E. apply list_elem_of_fmap_2.
  destruct b; [done|]. cbn in Hr. apply list_elem_of_singleton in Hr as ->. by left.
Qed.
Lemma plain_proxies m p : p <> "/health" -> dispatch (traffic_router false) m p = Some EProxy.
Proof. intros Hp. apply dispatch_fallback. cbn. intros r ->%list_elem_of_singleton E. by apply Hp. Qed.
Lemma plain_no_control m p e : dispatch (traffic_router false) m p = Some e -> ~ controls e.
Proof.
  destruct (decide (p = "/health")) as [->|Hp]; [|rewrite plain_proxies by done; by intros [= <-] [_ ?]].
  intros ->%(dispatch_only _ (traffic_router false) health_route); [by intros []| |by left].
  apply (bool_decide_unpack _). vm_compute. exact I.
Qed.
End Dispatch.

(** ** Executions of the pieces *)

Lemma exec_env {A} name (k : option string -> prog A) tr a : exec (bind_prog (env name) k) tr a ->
  exists v tr', tr = Ev (AEnv name) v :: tr' /\ exec (k v) tr' a.
Proof. apply exec_request. Qed.

(** The answers are those of an environment. *)
Definition in_environment (vars : string -> option string) (tr : trace) : Prop :=
  forall name (r : reply (AEnv name)), Ev (AEnv name) r ∈ tr -> r = vars name.
Lemma in_environment_app vars tr tr' : in_environment vars (tr ++ tr') -> in_environment vars tr /\ in_environment vars tr'.
Proof. intros He. split; intros name r Hr; apply He, elem_of_app; tauto. Qed.
Lemma in_environment_cons vars name (r : reply (AEnv name)) tr :
  in_environment vars (Ev (AEnv name) r :: tr) -> r = vars name /\ in_environment vars tr.
Proof. intros He. split; [apply He; by left|]. intros n r' Hr. apply He. by right. Qed.

Definition control_tls (vars : string -> option string) : ControlPlaneServerTls :=
  {| cps_enabled := flag_is_set (vars "FLUIDBG_CONTROL_PLANE_TLS_ENABLED");
     cps_cert_path := non_empty (vars "FLUIDBG_CONTROL_PLANE_TLS_CERT_PATH");
     cps_key_path := non_empty (vars "FLUIDBG_CONTROL_PLANE_TLS_KEY_PATH") |}.
Definition control_port (vars : string -> option string) : Z :=
  unwrap_or 9443 (vars "FLUIDBG_CONTROL_PLANE_TLS_PORT" ≫= parse_unsigned 16).

Lemma server_tls_read vars tr control : exec server_tls_from_env tr control -> in_environment vars tr -> control = control_tls vars.
Proof.
  unfold server_tls_from_env, env_flag, optional_env, env. intros He Hv. cbn in He.
  destruct tr as [|e1 tr]; [done|]. destruct He as (r1 & -> & He). apply in_environment_cons in Hv as [-> Hv].
  destruct tr as [|e2 tr]; [done|]. destruct He as (r2 & -> & He). apply in_environment_cons in Hv as [-> Hv].
  destruct tr as [|e3 tr]; [done|]. destruct He as (r3 & -> & He). apply in_environment_cons in Hv as [-> Hv].
  by destruct He as [_ ->].
Qed.
Lemma port_read vars tr port : exec (env_port "FLUIDBG_CONTROL_PLANE_TLS_PORT" 9443) tr port -> in_environment vars tr ->
  port = control_port vars.
Proof.
  unfold env_port, env. intros He Hv. cbn in He. destruct tr as [|e1 tr]; [done|]. destruct He as (r1 & -> & He).
  apply in_environment_cons in Hv as [-> Hv]. by destruct He as [_ ->].
Qed.

(** No file failed to be read or parsed. *)
Definition loads (e : event) : Prop :=
  match e with Ev (AReadFile _) (Err _) | Ev (AParseCert _) (Err _) => False | _ => True end.
Lemma from_pem_file_loads cert key tr r : exec (from_pem_file cert key) tr r -> Forall loads tr -> r = Ok tt.
Proof.
  unfold from_pem_file. intros He Hl. cbn in He.
  destruct tr as [|e1 tr]; [done|]. destruct He as ([c|] & -> & He); [|by apply Forall_cons in Hl as [[] _]]. cbn in He.
  apply Forall_cons in Hl as [_ Hl].
  destruct tr as [|e2 tr]; [done|]. destruct He as ([k|] & -> & He); [|by apply Forall_cons in Hl as [[] _]]. cbn in He.
  apply Forall_cons in Hl as [_ Hl].
  destruct tr as [|e3 tr]; [done|]. destruct He as ([[]|] & -> & He); [|by apply Forall_cons in Hl as [[] _]]. by destruct He as [_ ->].
Qed.

(** *** Listeners *)

Lemma serve_control_exec {E} (app : Router E) port tls tr l : exec (serve_control_plane app port tls) tr (Ok l) ->
  li_router l = app /\ li_port l = port
  /\ if cps_enabled tls then exists cert key, cps_cert_path tls = Some cert /\ cps_key_path tls = Some key /\ li_tls l = Some (cert, key)
     else li_tls l = None.
Proof.
  unfold serve_control_plane. destruct (cps_enabled tls); [|by intros [_ [= ->]]].
  destruct (cps_cert_path tls) as [cert|], (cps_key_path tls) as [key|]; try by intros [_ ?].
  intros (tr1 & tr2 & [] & -> & _ & [_ [= ->]])%exec_bind_err. split_and!; [done..|]. by exists cert, key.
Qed.
Lemma serve_control_loads {E} (app : Router E) port tls cert key tr r : exec (serve_control_plane app port tls) tr r ->
  cps_enabled tls = true -> cps_cert_path tls = Some cert -> cps_key_path tls = Some key -> Forall loads tr ->
  r = Ok {| li_port := port; li_tls := Some (cert, key); li_router := app |}.
Proof.
  unfold serve_control_plane. intros He He1 He2 He3 Hl. rewrite He1, He2, He3 in He. clear He1 He2 He3.
  apply exec_bind in He as (tr1 & tr2 & a & -> & H1 & H2). apply Forall_app in Hl as [Hl _].
  apply exec_bind in H1 as (tr3 & tr4 & b & -> & H3 & [-> ->]). rewrite app_nil_r in Hl.
  rewrite (from_pem_file_loads _ _ _ _ H3 Hl) in H2. by destruct H2 as [_ ->].
Qed.

Lemma https_exec config control port tr ls : exec (https_listener config control port) tr (Ok ls) ->
  let inbound := tls_inbound (cfg_tls config) in
  let shared := (cps_enabled control && Z.eqb (inbound_https_port config) port)%bool in
  if (itc_enabled inbound && negb shared)%bool then
    exists cert key, ls = [{| li_port := inbound_https_port config; li_tls := Some (cert, key);
                              li_router := traffic_router (negb (cps_enabled control)) |}]
  else ls = [].
Proof.
  unfold https_listener. cbn zeta. destruct (itc_enabled (tls_inbound (cfg_tls config))); cbn [negb andb]; [|by intros [_ [= ->]]].
  destruct (cps_enabled control && _)%bool; cbn [negb]; [by intros [_ [= ->]]|].
  destruct (itc_cert_path (tls_inbound (cfg_tls config))) as [cert|], (itc_key_path (tls_inbound (cfg_tls config))) as [key|]; try by intros [_ ?].
  intros (tr1 & tr2 & [] & -> & _ & [_ [= ->]])%exec_bind_err. by exists cert, key.
Qed.

(** The router of the listener for the control plane. *)
Definition control_app (config : HttpPlugin.Config) (port : Z) : Router http_endpoint :=
  if (itc_enabled (tls_inbound (cfg_tls config)) && Z.eqb (inbound_https_port config) port)%bool
  then traffic_router true else control_router.
Lemma control_exec config control port tr ls : exec (control_listener config control port) tr ls ->
  (forall l, l ∈ ls -> cps_enabled control = true /\ li_port l = port /\ is_Some (li_tls l))
  /\ (cps_enabled control = true -> is_Some (cps_cert_path control) -> is_Some (cps_key_path control) -> Forall loads tr ->
      ls <> [])
  /\ (ls = [] \/ exists l, ls = [l] /\ li_port l = port /\ is_Some (li_tls l) /\ li_router l = control_app config port).
Proof.
  unfold control_listener. destruct (cps_enabled control) eqn:Ec.
  - intros (tr1 & tr2 & r & -> & He & [-> ->])%exec_bind. rewrite app_nil_r.
    assert (match r with
            | Ok l => li_port l = port /\ is_Some (li_tls l) /\ li_router l = control_app config port
            | Err _ => True
            end) as Hr.
    { destruct r as [l|]; [|done]. apply serve_control_exec in He as (Hr & Hp & Ht). rewrite Ec in Ht.
      destruct Ht as (cert & key & _ & _ & Ht). by rewrite Ht. }
    split_and!.
    + destruct r as [l'|]; [|by intros ? ?%not_elem_of_nil]. intros l ->%list_elem_of_singleton. split; [done|]. tauto.
    + intros _ [cert Hc] [key Hk] Hl. by rewrite (serve_control_loads _ _ _ _ _ _ _ He Ec Hc Hk Hl).
    + destruct r as [l'|]; [right; by exists l'|by left].
  - intros [_ ->]. split_and!; [by intros ? ?%not_elem_of_nil|done|by left].
Qed.

Lemma http_main_exec `{YamlText} vars tr state ls : exec http_main tr (Ok (state, ls)) -> in_environment vars tr ->
  exists trh trc trp https cs plain, ls = https ++ cs ++ [plain] /\ (Forall loads tr -> Forall loads trc)
  /\ exec (https_listener (st_config state) (control_tls vars) (control_port vars)) trh (Ok https)
  /\ exec (control_listener (st_config state) (control_tls vars) (control_port vars)) trc cs
  /\ exec (plain_listener (st_config state) (control_tls vars)) trp (Ok plain).
Proof.
  unfold http_main. intros He Hv. apply exec_bind_err in He as (t1 & t2 & config & -> & _ & He).
  apply in_environment_app in Hv as [_ Hv]. destruct (HttpPlugin.validate config); [|by destruct He].
  apply exec_bind_err in He as (t3 & t4 & client & -> & _ & He). apply in_environment_app in Hv as [_ Hv].
  apply exec_bind in He as (t5 & t6 & runtime & -> & _ & He). apply in_environment_app in Hv as [_ Hv].
  apply exec_bind in He as (t7 & t8 & [] & -> & _ & He). apply in_environment_app in Hv as [_ Hv].
  apply exec_bind in He as (t9 & t10 & percent & -> & _ & He). apply in_environment_app in Hv as [_ Hv].
  apply exec_bind in He as (t11 & t12 & [] & -> & _ & He). apply in_environment_app in Hv as [_ Hv].
  apply exec_bind in He as (t13 & t14 & control & -> & Hc & He). apply in_environment_app in Hv as [Hv1 Hv].
  apply exec_bind in He as (t15 & t16 & port & -> & Hp & He). apply in_environment_app in Hv as [Hv2 _].
  rewrite (server_tls_read _ _ _ Hc Hv1), (port_read _ _ _ Hp Hv2) in He.
  apply exec_bind_err in He as (t17 & t18 & https & -> & Hh & He).
  apply exec_bind in He as (t19 & t20 & cs & -> & Hcs & He).
  apply exec_bind_err in He as (t21 & t22 & plain & -> & Hpl & [_ [= -> ->]]).
  exists t17, t19, t21, https, cs, plain. split_and!; [done| |done..].
  rewrite !Forall_app. tauto.
Qed.


(** ** What the hook changes *)

Section HookTheorems.
Context `{PluginManifests}.

Definition is_change (act : action) : bool :=
  match act with
  | ACreate _ _ _ | AReplace _ _ _ _ | AApply _ _ _ _ | ADelete _ _ _ | AReplaceStatus _ _ _ | APatchStatus _ _ _
  | APatchFinalizers _ _ _ => true
  | _ => false
  end.
Definition changes (tr : trace) : list action := List.filter is_change (map act_of tr).
Lemma changes_app tr tr' : changes (tr ++ tr') = changes tr ++ changes tr'.
Proof. unfold changes. by rewrite map_app, List.filter_app. Qed.
Lemma no_changes {A} (p : prog A) tr a : only (fun act => is_change act = false) p -> exec p tr a -> changes tr = [].
Proof.
  intros Hp He. pose proof (only_exec _ _ _ _ Hp He) as Ho. unfold changes. clear Hp He.
  induction tr as [|[act r] tr IH]; [done|]. cbn. rewrite (Ho act r) by (by left). apply IH. intros act' r' Hin. apply (Ho act' r'). by right.
Qed.

(** What is asked of the API server for the plugins of the file. *)
Definition hook_changes (mode : string) (plugins : list InceptionPlugin) : list action :=
  if String.eqb mode "apply" then map (fun p => AApply KPlugin None (plugin_name p) p) plugins
  else if String.eqb mode "delete" then map (fun p => ADelete KPlugin None (plugin_name p)) plugins
  else [].
(** An application was accepted, a deletion accepted or of what was not there. *)
Definition accepted (e : event) : Prop :=
  match e with
  | Ev (AApply _ _ _ _) r => is_ok r = true
  | Ev (ADelete _ _ _) r => match r with Ok _ => True | Err e => is_not_found e = true end
  | _ => True
  end.

(** A loop with one change for each element, which goes on only when it was accepted. *)
Lemma each_changes {X} (act : X -> action) (body : X -> prog (result string unit)) (xs : list X) tr r :
  (forall x, is_change (act x) = true) ->
  (forall x tr r, exec (body x) tr r -> exists reply, tr = [Ev (act x) reply] /\ (r = Ok tt -> accepted (Ev (act x) reply))) ->
  exec (each xs body) tr r ->
  changes tr `prefix_of` map act xs /\ (r = Ok tt -> changes tr = map act xs /\ Forall accepted tr).
Proof.
  intros Hact Hbody. revert tr. induction xs as [|x xs IH]; intros tr; cbn [each].
  { intros [-> ->]. split; [done|]. by repeat constructor. }
  intros (tr1 & tr2 & a & -> & H1 & H2)%exec_bind. apply Hbody in H1 as (reply & -> & Ha).
  rewrite changes_app. unfold changes at 1 3. cbn. rewrite Hact. destruct a as [[]|e]; [|destruct H2 as [-> ->]; split; [|done]].
  - apply IH in H2 as [Hp Hr]. split; [by apply prefix_cons|]. intros Hok. destruct (Hr Hok) as [-> Hf].
    split; [done|]. constructor; [by apply Ha|done].
  - cbn. apply prefix_cons, prefix_nil.
Qed.

Lemma apply_changes plugins tr r : exec (apply_plugins plugins) tr r ->
  changes tr `prefix_of` hook_changes "apply" plugins
  /\ (r = Ok tt -> changes tr = hook_changes "apply" plugins /\ Forall accepted tr).
Proof.
  apply each_changes; [done|]. intros x t a He. cbn in He. destruct t as [|e t]; [done|]. destruct He as (reply & -> & He).
  exists reply. destruct reply as [o|]; cbn in He; destruct He as [-> ->]; by split.
Qed.
Lemma delete_changes plugins tr r : exec (delete_plugins plugins) tr r ->
  changes tr `prefix_of` hook_changes "delete" plugins
  /\ (r = Ok tt -> changes tr = hook_changes "delete" plugins /\ Forall accepted tr).
Proof.
  apply each_changes; [done|]. intros x t a He. cbn in He. destruct t as [|e t]; [done|]. destruct He as (reply & -> & He).
  exists reply. destruct reply as [o|e]; cbn in He; destruct He as [-> ->]; (split; [done|]); cbn; [done|].
  by destruct (is_not_found e).
Qed.

Definition established (tr : trace) : Prop :=
  exists crd, Ev (AGet KCrd None INCEPTION_PLUGIN_CRD) (Ok crd) ∈ tr /\ crd_is_established crd = true.
Lemma wait_established n tr : exec (wait_for_inception_plugin_crd n) tr (Ok tt) -> established tr.
Proof.
  revert tr. induction n as [|n IH]; intros tr He; [by destruct He|]. cbn in He.
  destruct tr as [|e tr]; [done|]. destruct He as (r & -> & He).
  assert (forall q : trace, (exists e q', q = e :: q' /\ established q') -> established (Ev (AGet KCrd None INCEPTION_PLUGIN_CRD) r :: q)) as Hlater.
  { intros q (e & q' & -> & crd & Hin & Hc). exists crd. split; [|done]. apply elem_of_cons; right. by apply elem_of_cons; right. }
  destruct r as [crd|[code m|m]].
  - destruct (crd_is_established crd) eqn:Ec; [exists crd; split; [by left|done]|]. cbn in He.
    destruct tr as [|e tr]; [done|]. destruct He as (r & -> & He). apply Hlater. eauto.
  - cbn in He. destruct tr as [|e tr]; [done|]. destruct He as (r & -> & He). apply Hlater. eauto.
  - by destruct He.
Qed.
Lemma wait_only n : only (fun act => is_change act = false) (wait_for_inception_plugin_crd n).
Proof.
  induction n as [|n IH]; [done|]. cbn. split; [done|]. intros [crd|[]]; [destruct (crd_is_established crd)| |]; cbn; auto.
Qed.
Lemma accepted_unchanged tr : changes tr = [] -> Forall accepted tr.
Proof.
  unfold changes. induction tr as [|[act r] tr IH]; [constructor|]. cbn. destruct (is_change act) eqn:Ec; [done|].
  intros Hc. constructor; [by destruct act|by apply IH].
Qed.

(** The plugins of the file that was read. *)
Definition read_from (path : string) (plugins : list InceptionPlugin) (tr : trace) : Prop :=
  exists contents, Ev (AReadFile path) (Ok contents) ∈ tr /\ plugins_of (yaml_documents contents) = Ok plugins.
Lemma read_plugins_exec path tr plugins : exec (read_plugins path) tr (Ok plugins) -> read_from path plugins tr /\ changes tr = [].
Proof.
  unfold read_plugins. intros (t1 & t2 & contents & -> & He%exec_with_error & [-> Hp])%exec_bind_err.
  cbn in He. destruct t1 as [|e t1]; [done|]. destruct He as (r & -> & -> & <-).
  split; [|done]. exists contents. by split; [left|].
Qed.

(** C40. The hook of the built-in plugins does what its mode says.  Whatever the API server answers: its
    only changes are those of its mode (applications of the plugins of the file, or their deletions), in
    the order of the file, as far as it comes; it makes none before the kind of the plugins is
    established and the whole file was read and parsed; and it succeeds only when every plugin was
    applied, or deleted or not there. *)
Theorem builtin_hook_changes (mode path : string) (tr : trace) (r : result string unit) :
  exec (run_hook mode path) tr r ->
  exists plugins, changes tr `prefix_of` hook_changes mode plugins
  /\ (changes tr <> [] \/ r = Ok tt -> established tr /\ read_from path plugins tr)
  /\ (r = Ok tt -> (mode = "apply" \/ mode = "delete") /\ changes tr = hook_changes mode plugins /\ Forall accepted tr).
Proof.
  assert (forall q, changes q = [] -> r <> Ok tt -> exists plugins, changes q `prefix_of` hook_changes mode plugins
    /\ (changes q <> [] \/ r = Ok tt -> established q /\ read_from path plugins q)
    /\ (r = Ok tt -> (mode = "apply" \/ mode = "delete") /\ changes q = hook_changes mode plugins /\ Forall accepted q)) as Hnone.
  { intros q Hq Hr. exists []. rewrite Hq. split_and!; [apply prefix_nil|intros []; done|done]. }
  unfold run_hook. generalize 120%nat. intros n (t1 & t2 & [[]|e] & -> & H1 & H2)%exec_bind; cycle 1.
  { destruct H2 as [-> ->]. apply Hnone; [|done]. rewrite app_nil_r. by eapply no_changes; [|exact H1]. }
  apply no_changes in H1; [|by split; [|intros []]].
  apply exec_bind in H2 as (t3 & t4 & [[]|e] & -> & H3 & H4); pose proof (no_changes _ _ _ (wait_only n) H3) as C3; cycle 1.
  { destruct H4 as [-> ->]. apply Hnone; [|done]. by rewrite app_nil_r, changes_app, H1, C3. }
  apply wait_established in H3 as (crd & Hcrd & Hest).
  apply exec_bind in H4 as (t5 & t6 & [plugins|e] & -> & H5 & H6); cycle 1.
  { destruct H6 as [-> ->]. apply Hnone; [|done]. rewrite app_nil_r, !changes_app, H1, C3.
    eapply no_changes; [|exact H5]. cbn. split; [done|]. by intros []. }
  apply read_plugins_exec in H5 as [(contents & Hc & Hpl) C5].
  assert (changes (t1 ++ t3 ++ t5 ++ t6) = changes t6) as Ec by by rewrite !changes_app, H1, C3, C5.
  exists plugins. rewrite Ec.
  assert (established (t1 ++ t3 ++ t5 ++ t6) /\ read_from path plugins (t1 ++ t3 ++ t5 ++ t6)) as Hread.
  { split; [exists crd|exists contents]; (split; [rewrite !elem_of_app|done]); tauto. }
  assert (Forall accepted t6 -> Forall accepted (t1 ++ t3 ++ t5 ++ t6)) as Hall.
  { intros. rewrite !Forall_app. split_and!; try done; by apply accepted_unchanged. }
  destruct (String.eqb_spec mode "apply") as [->|Ha].
  - apply apply_changes in H6 as [Hp Hr]. split_and!; [done|done|]. intros Hok. destruct (Hr Hok). auto.
  - destruct (String.eqb_spec mode "delete") as [->|Hd].
    + apply delete_changes in H6 as [Hp Hr]. split_and!; [done|done|]. intros Hok. destruct (Hr Hok). auto.
    + destruct H6 as [-> ->]. split_and!; [apply prefix_nil|by intros []|done].
Qed.
End HookTheorems.

(** ** What is ready when a process starts *)

(** The operator works on a database whose migration ran to its end, or a container it has seen. *)
Lemma store_is_prepared `{CosmosCodecs, Sha256, Codecs, JsonText, Urls}
    (connect : Schema.connect_options -> prog (result string Z))
    (execute : Z -> Schema.ddl -> prog (result string unit)) tr choice :
  exec (build_state_store connect execute) tr (Some choice) ->
  match choice with
  | UsesMemory => True
  | UsesPostgres store => exists tr1 tr2, tr = tr1 ++ tr2 /\ exec (Schema.migrate execute store) tr2 (Ok tt)
  | UsesCosmos store => exists tr1 tr2, tr = tr1 ++ tr2 /\ exec (Cosmos.validate_container store) tr2 (Ok tt)
  end.
Proof.
  assert (forall A B (open : prog (option A)) (check : A -> prog (result StoreError B)) (f : A -> store_choice) q,
    exec (let% store := open in let% _ := expect (check store) in ended (f store)) q (Some choice) ->
    exists store q1 q2 b, choice = f store /\ q = q1 ++ q2 /\ exec (check store) q2 (Ok b)) as Hopen.
  { intros A B open check f q (q1 & q2 & [store|] & -> & _ & E2)%exec_bind; [|by destruct E2].
    apply exec_bind in E2 as (q3 & q4 & [b|] & -> & E3 & E4); [|by destruct E4]. destruct E4 as [-> [= ->]].
    apply exec_bind in E3 as (q5 & q6 & [b'|] & -> & E5 & [-> E6]); [|done]. rewrite !app_nil_r. eauto 10. }
  unfold build_state_store. intros (t1 & t2 & type & -> & _ & He)%exec_bind.
  destruct (String.eqb type "memory"); [by destruct He as [_ [= ->]]|].
  destruct (String.eqb type "postgres").
  { apply Hopen in He as (store & q1 & q2 & [] & -> & -> & Hm). exists (t1 ++ q1), q2. by rewrite app_assoc. }
  destruct (String.eqb type "cosmosdb"); [|by destruct He].
  apply Hopen in He as (store & q1 & q2 & [] & -> & -> & Hm). exists (t1 ++ q1), q2. by rewrite app_assoc.
Qed.

(** An inceptor that starts has a role, and no two that move messages; its worker is the one of its role. *)
Lemma queue_inceptor_starts {Config State Manager} load build (manager : prog (result string Manager)) tr state server worker :
  exec (@queue_main Config State Manager load build manager) tr (Ok (RunsInceptor state server worker)) ->
  exists config runtime tr1 tr2 tr3, tr = tr1 ++ tr2 ++ tr3
  /\ exec (build config (rt_roles runtime) runtime) tr2 (Ok state)
  /\ rt_roles runtime <> [] /\ queue_worker_role (rt_roles runtime) = Ok worker
  /\ forall l, l ∈ server -> li_router l = inceptor_router /\ li_port l = 9090.
Proof.
  unfold queue_main. intros (v & t & -> & He)%exec_env. case_bool_decide.
  { unfold run_manager in He. apply exec_bind_err in He as (t1 & t2 & m & -> & _ & He).
    apply exec_bind in He as (t3 & t4 & tls & -> & _ & He). by apply exec_bind_err in He as (t5 & t6 & l & -> & _ & [_ ?]). }
  apply exec_bind_err in He as (t1 & t2 & config & -> & _ & He).
  apply exec_bind in He as (t3 & t4 & runtime & -> & _ & He). cbv zeta in He.
  destruct (rt_roles runtime) as [|role roles] eqn:Er; [by destruct He|].
  apply exec_bind_err in He as (t5 & t6 & state' & -> & Hb & He).
  apply exec_bind in He as (t7 & t8 & tls & -> & _ & He).
  apply exec_bind in He as (t9 & t10 & server' & -> & Hs & He).
  destruct (queue_worker_role (role :: roles)) as [worker'|] eqn:Ew; [|by destruct He]. destruct He as [-> [= -> -> ->]].
  exists config, runtime, (Ev (AEnv "FLUIDBG_PLUGIN_MANAGER") v :: t1 ++ t3), t5, (t7 ++ t9 ++ []). rewrite Er.
  split_and!; [by cbn; rewrite <- !app_assoc|done..|].
  unfold spawned in Hs. apply exec_bind in Hs as (t11 & t12 & [l'|] & -> & Hl & [-> ->]); [|by intros ? ?%not_elem_of_nil].
  apply serve_control_exec in Hl as (? & ? & _). by intros l ->%list_elem_of_singleton.
Qed.

(** ** A plugin and a hook that start *)

(** Variables and files of a pod; the API server is empty. *)
Definition pod (vars : string -> option string) (act : action) (w : World.world) : reply act * World.world :=
  match act return reply act * World.world with
  | AEnv name => (vars name, w)
  | AReadFile path => (Ok path, w)
  | AParseCert _ | ABuildClient => (Ok tt, w)
  | act => World.serve act w
  end.
Lemma pod_environment {A} vars (p : prog A) w : in_environment vars (run (pod vars) p w).1.2.
Proof.
  revert w. induction p as [a|act k IH]; intros w; cbn; [by intros ?? ?%not_elem_of_nil|].
  destruct (pod vars act w) as [r w'] eqn:E. specialize (IH r w'). destruct (run _ (k r) w') as [[a tr] w'']. cbn in *.
  intros name r' [Er|Hin]%elem_of_cons; [|by apply IH]. injection Er as <- Er.
  apply Eqdep.EqdepTheory.inj_pair2 in Er as <-. cbn in E. by injection E.
Qed.

Definition sample_vars (name : string) : option string :=
  if String.eqb name "FLUIDBG_CONTROL_PLANE_TLS_ENABLED" then Some "true"
  else if String.eqb name "FLUIDBG_CONTROL_PLANE_TLS_CERT_PATH" then Some "/tls/tls.crt"
  else if String.eqb name "FLUIDBG_CONTROL_PLANE_TLS_KEY_PATH" then Some "/tls/tls.key"
  else if String.eqb name "FLUIDBG_ACTIVE_ROLES" then Some "observer"
  else None.
Definition sample_yaml : YamlText := {| yaml_value := fun _ => Ok (JObj [("realEndpoint", JStr "http://orders")]) |}.
Definition started : (result string (HttpPlugin.AppState * list (Listener http_endpoint)) * trace) * World.world :=
  run (pod sample_vars) (@http_main sample_yaml) World.empty_world.


(** A cluster where the kind is established. *)
Definition cluster (act : action) (w : World.world) : reply act * World.world :=
  match act return reply act * World.world with
  | AGet KCrd ns name =>
      (Ok {| crd_metadata := default_meta;
             crd_status := Some {| crs_conditions := Some [{| crc_type := "Established"; crc_status := "True" |}] |} |}, w)
  | act => pod (fun _ => None) act w
  end.
(** A file with an empty document and the one of a plugin. *)
Definition sample_manifests : PluginManifests :=
  {| yaml_documents := fun _ => [Ok JNull; Ok (JStr "http")]; plugin_of_yaml := fun _ => Ok (PluginsTheorems.sample_plugin ∅);
     generate_name := fun _ => None |}.
Definition hooked : (result string unit * trace) * World.world :=
  run cluster (@run_hook sample_manifests "apply" "/plugins.yaml") World.empty_world.

Lemma builtin_hook_changes_witness :
  hooked.1.1 = Ok tt
  /\ exists plugins, @read_from sample_manifests "/plugins.yaml" plugins hooked.1.2
     /\ changes hooked.1.2 = @hook_changes sample_manifests "apply" plugins /\ length (changes hooked.1.2) = 1%nat.
Proof.
  assert (hooked.1.1 = Ok tt) as E by (vm_compute; reflexivity). split; [exact E|].
  destruct (@builtin_hook_changes sample_manifests "apply" "/plugins.yaml" hooked.1.2 (Ok tt)) as (plugins & _ & Hr & Hok).
  { rewrite <- E. apply run_exec. }
  exists plugins. split; [exact (proj2 (Hr (or_intror eq_refl)))|]. split; [exact (proj1 (proj2 (Hok eq_refl)))|].
  vm_compute. reflexivity.
Defined.
